(* ===== verification/_CoqProject ===== *)
-Q . S2P
Prelude.v
JsMap.v
JsText.v
JsBase64.v
JsJson.v
Cbor.v
Der.v
DerFacts.v
DerWalk.v
AppAttest.v
AttestFacts.v
AttestTheorems.v
Fixtures.v
FixtureTheorems.v
Timed.v
AzureTable.v
StateStore.v
StateFacts.v
StateSystem.v
StateInv.v
StateBounds.v
StateTheorems.v
StateBackend.v
StateDeadline.v
Redemption.v
RedeemDeadline.v
KeyCache.v
KeyFetch.v
EpochKeys.v
Http.v
Issuer.v
Drain.v
IssuerTheorems.v
IssuerRelay.v
IssuerSystem.v
Relay.v
RelayRate.v
RelaySlots.v
RelayProxy.v
RelaySystem.v
TokenPath.v
RelayTheorems.v
Commons.v
CommonsCache.v
CommonsTheorems.v
CommonsServes.v
CommonsHandler.v
Edge.v
Startup.v
RelayStart.v
IssuerStart.v
CommonsStart.v
