(* ===== verification/Prelude.v ===== *)
(** * Columbia: a verification development

    Columbia is a toolkit of three JavaScript services for reading public content
    without any one operator learning who reads what. The [token-issuer] checks
    that a client is a genuine app instance (Apple App Attest) and blindly signs a
    limited number of tokens for it; the [ohttp-relay] takes one token per request
    and forwards sealed requests to a gateway without saying who sent them; the
    [commons-cache] fetches public feeds once for everybody. The development models
    the JavaScript of the three services and proves what they promise. The gateway
    is a vendored Go program and is not modelled.

    ** How the model reads

    A function that may throw is a function into [result exn A] (below); a
    [Buffer] is a [list byte], a string a Rocq [string] of code units below 256, a
    [Map] an association list in insertion order ([JsMap]), a JSON value a [json]
    ([JsJson]), an integer a [Z] with its 32-bit conversions written out where the
    source uses bit operations ([JsText], [Der]). An asynchronous function is cut at
    its awaits and becomes steps over an explicit state, and theorems quantify over
    every interleaving of steps. A loop that need not be structural has fuel, and
    running out of it is [Diverges], which no source function returns; the theorems
    about such a function show that it is not returned, or exactly when it is.
    Where only time matters, the awaits of one call are an [io] of [Timed], a
    computation over a clock and a far side. Node's [crypto] and [JSON.parse], WHATWG
    URLs and the Azure client are parameters: classes ([AppAttest.Crypto],
    [EpochKeys.PrivateCrypto], [KeyCache.KeyCrypto]), arguments (the client of
    [AzureTable], whose documented behaviour is [honest]), or the nondeterminism of
    a step relation.

    ** Files

    - [Prelude]: the error monad, bytes and buffers, the shared tactics and hints.
      [JsMap], [JsText], [JsBase64], [JsJson]: the language's maps, strings,
      base64 and JSON.
    - [Cbor], [Der], [DerFacts], [DerWalk]: the two decoders of
      [token-issuer/appattest.js], and how long the second goes on.
      [AppAttest], [AttestFacts], [AttestTheorems]: its five checks and
      [validateAppAttest], with the evidence they decide. [Fixtures],
      [FixtureTheorems]: the encoders of [token-issuer/appattest-fixtures.js], and
      that the validator accepts what they build.
    - [StateStore], [StateFacts], [StateSystem], [StateInv], [StateBounds],
      [StateTheorems]: [token-issuer/state-store.js]; one reservation, and any
      number of replicas over one table. [Timed], [AzureTable]: deadlines, and the
      table client. [StateBackend], [StateDeadline]: the interface of a backend
      and its two instances, with their deadlines.
    - [EpochKeys]: [token-issuer/epoch-keys.js].
    - [Http]: requests, the front-door lock and the log rules that the three
      [server.js] files repeat. [Issuer], [Drain], [IssuerTheorems]:
      [token-issuer/server.js]. [IssuerSystem] composes it with the validation and
      the replicated state, [IssuerRelay] with the relay that fetches its keys;
      [TokenPath] follows a token from the one to the other.
    - [Redemption], [RedeemDeadline]: [ohttp-relay/redemption-store.js].
      [KeyCache], [KeyFetch]: [ohttp-relay/issuer-key-cache.js]. [Relay],
      [RelayRate], [RelaySlots], [RelayProxy], [RelayTheorems]:
      [ohttp-relay/server.js], part by part; [RelaySystem] is the handler of
      [POST /relay] made of those parts, for any number of requests.
    - [Commons], [CommonsCache], [CommonsTheorems], [CommonsServes]:
      [commons-cache/server.js]; [CommonsHandler] is its request handler.
    - [Edge]: what the three services have in common, logs and lock. [Startup]
      and [RelayStart], [IssuerStart], [CommonsStart]: what a service reads and
      checks before it serves.

    ** State and operations

    The issuer's shared state is the table of [StateSystem.sys]: rows of device
    records, replaced by conditional writes; [StateSystem.step] has a step for each
    await of [reserve]. Its process state is [Drain.drain_state]. The relay's is the
    table of [Redemption.rsys] (create-only rows), the [KeyCache.cache], the
    limiter's buckets ([Relay.rateLimited]), the slots ([RelaySlots.slot_state]),
    one [RelayProxy.proxy] per request under way and the [RelayProxy.config_state];
    [RelaySystem] puts the requests, the slots and the exchanges into one state, with
    the listeners of a connection's [close] in their order. The cache
    of the commons is [CommonsCache.cache_state]: the map holds references to
    entries, because several requests hold an entry object whose flag is changed in
    place.

    ** What the theorems show

    - Issuance: a device is granted no more than its quota in an epoch
      ([quota_respected]), each grant is committed once ([granted_committed_once]),
      the replicated table behaves like atomic reservations
      ([reserve_refines_atomic]), a device record never goes back
      ([device_record_monotone]); a batch is signed only as proved, bound and
      reserved ([issued_as_proved]), and one proof serves one batch
      ([proof_serves_one_batch], which composes the validation's binding of an
      attestation to a hash, the single use of a counter and the commitment of the
      hash to a batch, up to a SHA-256 collision of preimages that it names); every
      call of the handler is answered
      ([handleIssue_answers]). Over any client a reservation is over by its deadline
      ([reserve_meets_deadline]); over an honest one the two backends agree
      ([backends_agree]), and a table of another salt answers nobody
      ([wrong_salt_fails_closed]).
    - Evidence: the decoders accept exactly their grammars ([cborDecodeFirst_spec],
      [findExtensionValue_tree]), the validation accepts exactly complete evidence
      ([validateAppAttest_attestation], [validateAppAttest_assertion]) and answers,
      except on a leaf certificate whose walk never ends ([validateAppAttest_total]).
      It accepts the attestations and
      assertions that the repository's fixtures build, for any app, key and
      challenge ([fixture_accepted], [assertion_fixture_accepted]).
    - Tokens: the issuer publishes the two keys of its manifest in their epoch and
      503 otherwise ([manifest_published]), and what it publishes the relay accepts
      ([published_keys_accepted]); a credential is admitted exactly when it is a
      genuine token that the store accepts ([verifyAccessToken_spec]), and once
      ([token_spent_once]); the Azure store spends like the set in memory
      ([stores_agree]) and by its deadline ([redeem_meets_deadline]). From the
      issuer's answer to the relay's store no check refuses a token that was paid
      for ([issued_token_honoured]).
    - Relay: the gateway is sent the ciphertext and nothing else
      ([gateway_sees_ciphertext]); slots and counters ([slots_accounted]), rate,
      at most twice the limit in a window's time ([rate_limit_holds]), one bounded answer per request ([proxy_answers_once]),
      one fetch of the configuration ([config_single_flight]). From dispatch to
      close, an open exchange is authorised and holds a slot
      ([exchange_holds_slot]), and a slot is given back exactly once per request
      ([request_life]).
    - Commons: what is served was fetched under the key and is fresh enough
      ([serves_what_was_fetched]), one fetch per key, and an answer to every
      request unless the bound of the cache is negative ([one_fetch_per_key]), which
      requests share a key ([cache_key_separates]), the shape of the upstream URL
      ([upstreamUrl_no_injection]), the reading of its answer
      ([fetchUpstream_spec]), and where a caller's credential may go
      ([credential_goes_upstream_only]); every request gets its one response and
      log line ([commons_handled]).
    - Edge: the type of every log line ([logs_typed]), the lock
      ([front_door_lock]), and the shutdown, which ends when the work has settled and
      at the latest when its timer fires ([shutdown_completes]).
    - Start-up: what a service that serves has made sure of, and how one that does
      not has ended ([relay_starts_safely], [issuer_starts_safely],
      [commons_starts_public]).

    ** Fuel and bounds

    [Cbor.cborReadItem] recurses at most [CBOR_MAX_DEPTH] deep and its loops carry
    one unit of fuel per byte of the buffer, which every iteration consumes. The DER
    walk has [Der.walk_fuel] units, 26 per byte and some: its loops only revisit
    offsets when they go on for ever, which a negative length can make them do
    ([findExtensionValue_hangs]), so it returns [Diverges] exactly when no fuel is
    enough ([DerWalk.findExtensionValue_diverges]). The loop of [cacheSet] is
    structural and returns [Diverges] on the empty map under a negative bound, where
    the source spins; the state of the cache is then [hung] and no event changes it.
    [reserve] tries four times, as the
    source does. Decimal printing has one unit of fuel per bit.

    ** Not modelled

    Sockets, TLS agents, the timeouts of sockets, signal handlers and [listen]: their
    effects are the events of the machines above. The text of timestamps in logs. A
    configuration with a setting that parses to [NaN]: the start-up theorems say
    that the settings are then [None], and the handlers assume numbers. The gateway,
    which is Go and vendored: its answers are events of [RelayProxy.proxy_step]. The
    tests proper, deployment scripts and documents. *)
From Stdlib Require Import Strings.Byte.
From Stdlib Require Export ZArith Lia Init.Byte.
From stdpp Require Export base tactics list strings option gmap pretty.
From stdpp Require Import numbers.
#[global] Open Scope Z_scope.

(** ** The error monad

    A JavaScript function that may throw is a function into [result E A]:
    [Throw e] is the exception, [Ok a] the value returned. *)
Inductive result (E A : Type) : Type :=
| Ok (a : A)
| Throw (e : E).
Arguments Ok {E A} a.
Arguments Throw {E A} e.

#[export] Instance result_ret (E : Type) : MRet (result E) := fun A a => Ok a.
#[export] Instance result_bind (E : Type) : MBind (result E) :=
  fun A B k m => match m with Ok a => k a | Throw e => Throw e end.
#[export] Instance result_eq_dec (E A : Type) `{EqDecision E, EqDecision A} :
  EqDecision (result E A).
Proof. solve_decision. Defined.

(** A thrown JavaScript error: its [message], and the [code] and [statusCode]
    properties the source reads from errors. [Diverges] is no exception: it
    marks an evaluation that ran out of the fuel it was given. *)
Inductive exn : Type :=
| Exn (message : string) (code : option string) (statusCode : option Z)
| Diverges.
#[export] Instance exn_eq_dec : EqDecision exn.
Proof. solve_decision. Defined.

(** [new Error(message)]. *)
Definition Err (message : string) : exn := Exn message None None.

(** [throw_if b e k]: the source's [if (b) throw e;] followed by [k]. *)
Definition throw_if {E A : Type} (b : bool) (e : E) (k : result E A) : result E A :=
  if b then Throw e else k.

Definition is_ok {E A : Type} (r : result E A) : bool :=
  match r with Ok _ => true | Throw _ => false end.

Declare Scope js_scope.
Delimit Scope js_scope with js.
Notation "'throw_when' b 'with' e ;; k" := (throw_if b e k)
  (at level 100, b at next level, e at next level, k at level 200,
   right associativity) : js_scope.
#[global] Open Scope js_scope.

Definition terminates {A : Type} (r : result exn A) : Prop := r <> Throw Diverges.

Lemma throw_if_Ok {E A : Type} (b : bool) (e : E) (k : result E A) (a : A) :
  throw_if b e k = Ok a <-> b = false /\ k = Ok a.
Proof. destruct b; simpl; naive_solver. Qed.

Lemma throw_if_false {E A : Type} (b : bool) (e : E) (k : result E A) :
  b = false -> throw_if b e k = k.
Proof. by intros ->. Qed.

Lemma bind_Ok {E A B : Type} (m : result E A) (k : A -> result E B) (b : B) :
  (m ≫= k) = Ok b <-> exists a, m = Ok a /\ k a = Ok b.
Proof. destruct m; simpl; naive_solver. Qed.

Lemma throw_if_terminates {A : Type} (b : bool) (e : exn) (k : result exn A) :
  e <> Diverges -> (b = false -> terminates k) -> terminates (throw_if b e k).
Proof. unfold terminates. destruct b; simpl; naive_solver. Qed.

Lemma bind_terminates {A B : Type} (m : result exn A) (k : A -> result exn B) :
  terminates m -> (forall a, m = Ok a -> terminates (k a)) -> terminates (m ≫= k).
Proof. unfold terminates. destruct m; simpl; naive_solver. Qed.

Lemma Ok_terminates {A : Type} (a : A) : terminates (Ok a).
Proof. done. Qed.

Lemma Err_terminates {A : Type} (m : string) : terminates (Throw (Err m) : result exn A).
Proof. done. Qed.

(** Takes a hypothesis about a chain of guarded steps apart. *)
Ltac inv_ok :=
  repeat match goal with
  | H : throw_if _ _ _ = Ok _ |- _ => apply throw_if_Ok in H as [? H]
  | H : (_ ≫= _) = Ok _ |- _ => apply bind_Ok in H as (? & ? & H)
  | H : Ok _ = Ok _ |- _ => injection H as H
  | H : Throw _ = Ok _ |- _ => discriminate H
  | H : Ok _ = Throw _ |- _ => discriminate H
  | H : mret _ = Ok _ |- _ => injection H as H
  end; simplify_eq.

(** Turns boolean comparisons in the context into propositions. *)
Ltac bool_to_prop :=
  repeat match goal with
  | H : _ && _ = true |- _ => apply andb_prop in H as [? ?]
  | H : _ || _ = false |- _ => apply orb_false_elim in H as [? ?]
  | H : negb _ = true |- _ => apply negb_true_iff in H
  | H : negb _ = false |- _ => apply negb_false_iff in H
  | H : (_ =? _) = true |- _ => apply Z.eqb_eq in H
  | H : (_ =? _) = false |- _ => apply Z.eqb_neq in H
  | H : (_ <? _) = true |- _ => apply Z.ltb_lt in H
  | H : (_ <? _) = false |- _ => apply Z.ltb_ge in H
  | H : (_ <=? _) = true |- _ => apply Z.leb_le in H
  | H : (_ <=? _) = false |- _ => apply Z.leb_gt in H
  | H : (_ >? _) = true |- _ => rewrite Z.gtb_ltb in H; apply Z.ltb_lt in H
  | H : (_ >? _) = false |- _ => rewrite Z.gtb_ltb in H; apply Z.ltb_ge in H
  | H : (_ >=? _) = true |- _ => rewrite Z.geb_leb in H; apply Z.leb_le in H
  | H : (_ >=? _) = false |- _ => rewrite Z.geb_leb in H; apply Z.leb_gt in H
  | H : bool_decide _ = true |- _ => apply bool_decide_eq_true in H
  | H : bool_decide _ = false |- _ => apply bool_decide_eq_false in H
  end.

#[export] Hint Resolve Ok_terminates Err_terminates : core.

(** Walks through a chain of guarded steps towards [terminates]. *)
Ltac step_terminates :=
  repeat first
    [ progress intros
    | apply throw_if_terminates; [done|]
    | apply bind_terminates
    | match goal with |- terminates (match ?a with (_, _) => _ end) => destruct a end
    | done ].

(** Linear arithmetic with division and remainder by constants. *)
Ltac div_lia := Z.to_euclidean_division_equations; lia.

(** ** Bytes and buffers

    A Node [Buffer] is a list of bytes; a position is a [Z], as in the source
    (where it is a JavaScript number). *)
Abbreviation buffer := (list byte).

#[export] Instance byte_eq_dec : EqDecision byte := Byte.byte_eq_dec.

Definition byte_val (b : byte) : Z := Z.of_N (Byte.to_N b).
Definition byte_of_Z (z : Z) : byte :=
  default x00 (Byte.of_N (Z.to_N (z mod 256))).

(** [buf.length], [buf[i]] ([None] is [undefined]) and [buf.subarray(a, b)]
    (both ends clamped to the buffer) for non-negative [a]. *)
Definition blen (b : buffer) : Z := Z.of_nat (length b).
Definition buf_get (b : buffer) (i : Z) : option Z :=
  if i <? 0 then None else byte_val <$> (b !! Z.to_nat i).
Definition subarray (b : buffer) (lo hi : Z) : buffer :=
  take (Z.to_nat (hi - lo)) (drop (Z.to_nat lo) b).

(** [buf.subarray(a, b)] for any integers: a negative end counts from the end of
    the buffer. *)
Definition js_index (b : buffer) (i : Z) : Z := if i <? 0 then Z.max 0 (blen b + i) else i.
Definition js_subarray (b : buffer) (lo hi : Z) : buffer :=
  subarray b (js_index b lo) (js_index b hi).

(** The bytes of an unsigned big-endian number, and back: the value of
    [readUInt16BE] and [readUInt32BE] on the bytes they cover. *)
Definition be_val (b : buffer) : Z := foldl (fun acc x => acc * 256 + byte_val x) 0 b.
Fixpoint be_bytes (n : nat) (z : Z) : buffer :=
  match n with
  | O => []
  | S n' => byte_of_Z (z / 256 ^ Z.of_nat n') :: be_bytes n' z
  end.

Definition readUInt16BE (b : buffer) (i : Z) : Z := be_val (subarray b i (i + 2)).
Definition readUInt32BE (b : buffer) (i : Z) : Z := be_val (subarray b i (i + 4)).

Lemma byte_val_range (b : byte) : 0 <= byte_val b < 256.
Proof.
  unfold byte_val. pose proof (Byte.to_N_bounded b). lia.
Qed.

Lemma byte_val_of_Z (z : Z) : byte_val (byte_of_Z z) = z mod 256.
Proof.
  unfold byte_val, byte_of_Z.
  pose proof (Z.mod_pos_bound z 256 ltac:(lia)) as Hm.
  destruct (Byte.of_N (Z.to_N (z mod 256))) as [b|] eqn:E; simpl.
  - apply Byte.to_of_N in E. rewrite E. lia.
  - apply Byte.of_N_None_iff in E. lia.
Qed.

Lemma byte_of_Z_val (b : byte) : byte_of_Z (byte_val b) = b.
Proof.
  unfold byte_of_Z. rewrite Z.mod_small by apply byte_val_range.
  unfold byte_val. rewrite N2Z.id, Byte.of_to_N. done.
Qed.

Lemma byte_val_inj (a b : byte) : byte_val a = byte_val b -> a = b.
Proof. intros H. by rewrite <-(byte_of_Z_val a), H, byte_of_Z_val. Qed.

Lemma length_be_bytes (n : nat) (z : Z) : length (be_bytes n z) = n.
Proof. induction n; simpl; congruence. Qed.

Lemma be_val_app (a : buffer) (x : byte) : be_val (a ++ [x]) = be_val a * 256 + byte_val x.
Proof. unfold be_val. by rewrite foldl_app. Qed.

Lemma be_val_acc (b : buffer) (acc : Z) :
  foldl (fun acc x => acc * 256 + byte_val x) acc b
  = acc * 256 ^ Z.of_nat (length b) + be_val b.
Proof.
  unfold be_val. revert acc. induction b as [|x b IH]; intros acc; simpl; [lia|].
  rewrite IH, (IH (0 * 256 + byte_val x)).
  rewrite Nat2Z.inj_succ, Z.pow_succ_r by lia. lia.
Qed.

Lemma be_val_cons (x : byte) (b : buffer) :
  be_val (x :: b) = byte_val x * 256 ^ Z.of_nat (length b) + be_val b.
Proof. unfold be_val at 1. simpl. by rewrite be_val_acc. Qed.

Lemma be_val_range (b : buffer) : 0 <= be_val b < 256 ^ Z.of_nat (length b).
Proof.
  induction b as [|x b IH]; [cbn; lia|].
  rewrite be_val_cons. cbn [length].
  rewrite Nat2Z.inj_succ, Z.pow_succ_r by lia.
  pose proof (byte_val_range x). nia.
Qed.

Lemma be_val_bytes (n : nat) (z : Z) :
  be_val (be_bytes n z) = z mod 256 ^ Z.of_nat n.
Proof.
  induction n as [|n IH]; [cbn; by rewrite Z.mod_1_r|].
  cbn [be_bytes]. rewrite be_val_cons, IH, length_be_bytes, byte_val_of_Z.
  rewrite Nat2Z.inj_succ, Z.pow_succ_r by lia.
  assert (0 < 256 ^ Z.of_nat n) by (apply Z.pow_pos_nonneg; lia).
  rewrite (Z.mul_comm 256), Z.rem_mul_r by lia. lia.
Qed.

(** ** Buffers: lookups, slices and concatenation *)
Lemma blen_nonneg (b : buffer) : 0 <= blen b.
Proof. unfold blen. lia. Qed.

Lemma blen_app (a b : buffer) : blen (a ++ b) = blen a + blen b.
Proof. unfold blen. rewrite length_app. lia. Qed.

Lemma blen_cons (x : byte) (b : buffer) : blen (x :: b) = 1 + blen b.
Proof. unfold blen. simpl. lia. Qed.

Lemma blen_be_bytes (n : nat) (z : Z) : blen (be_bytes n z) = Z.of_nat n.
Proof. unfold blen. by rewrite length_be_bytes. Qed.

Lemma buf_get_app_r (a b : buffer) (i : Z) :
  0 <= i -> buf_get (a ++ b) (blen a + i) = buf_get b i.
Proof.
  intros Hi. unfold buf_get. pose proof (blen_nonneg a).
  rewrite (proj2 (Z.ltb_ge _ _)), (proj2 (Z.ltb_ge i _)) by lia.
  rewrite lookup_app_r by (unfold blen in *; lia).
  do 2 f_equal. unfold blen in *. lia.
Qed.

Lemma buf_get_mid (a b : buffer) (x : byte) :
  buf_get (a ++ x :: b) (blen a) = Some (byte_val x).
Proof.
  rewrite <-(Z.add_0_r (blen a)), buf_get_app_r by lia. done.
Qed.

Lemma buf_get_Some (b : buffer) (i : Z) :
  0 <= i < blen b -> exists v, buf_get b i = Some v /\ 0 <= v < 256.
Proof.
  intros [Hi Hl]. unfold buf_get. rewrite (proj2 (Z.ltb_ge _ _)) by lia.
  destruct (lookup_lt_is_Some_2 b (Z.to_nat i)) as [x Hx]; [unfold blen in Hl; lia|].
  rewrite Hx. exists (byte_val x). split; [done|apply byte_val_range].
Qed.

Lemma subarray_mid (a b c : buffer) (lo hi : Z) :
  lo = blen a -> hi = blen a + blen b -> subarray (a ++ b ++ c) lo hi = b.
Proof.
  intros -> ->. unfold subarray.
  replace (Z.to_nat (blen a)) with (length a) by (unfold blen; lia).
  rewrite drop_app_length.
  replace (Z.to_nat (blen a + blen b - blen a)) with (length b) by (unfold blen; lia).
  by rewrite take_app_length.
Qed.

Lemma blen_subarray (b : buffer) (lo hi : Z) :
  0 <= lo <= hi -> hi <= blen b -> blen (subarray b lo hi) = hi - lo.
Proof.
  intros ? ?. unfold blen, subarray in *.
  rewrite length_take, length_drop. lia.
Qed.

Lemma length_subarray (b : buffer) (lo hi : Z) :
  0 <= lo <= hi -> hi <= blen b -> length (subarray b lo hi) = Z.to_nat (hi - lo).
Proof.
  intros ? ?. apply Nat2Z.inj. pose proof (blen_subarray b lo hi).
  unfold blen in *. rewrite H1 by done. lia.
Qed.

Lemma readUInt16BE_mid (a c : buffer) (i z : Z) :
  i = blen a -> 0 <= z < 65536 -> readUInt16BE (a ++ be_bytes 2 z ++ c) i = z.
Proof.
  intros -> ?. unfold readUInt16BE.
  rewrite subarray_mid, be_val_bytes by (rewrite ?blen_be_bytes; lia).
  by apply Z.mod_small.
Qed.

Lemma readUInt32BE_mid (a c : buffer) (i z : Z) :
  i = blen a -> 0 <= z < 2 ^ 32 -> readUInt32BE (a ++ be_bytes 4 z ++ c) i = z.
Proof.
  intros -> ?. unfold readUInt32BE.
  rewrite subarray_mid, be_val_bytes by (rewrite ?blen_be_bytes; lia).
  by apply Z.mod_small.
Qed.

Lemma subarray_split (b : buffer) (lo mid hi : Z) :
  0 <= lo <= mid -> mid <= hi ->
  subarray b lo hi = subarray b lo mid ++ subarray b mid hi.
Proof.
  intros ? ?. unfold subarray.
  replace (Z.to_nat (hi - lo)) with (Z.to_nat (mid - lo) + Z.to_nat (hi - mid))%nat by lia.
  rewrite <-take_take_drop, drop_drop. do 3 f_equal. lia.
Qed.

Lemma js_subarray_nonneg (b : buffer) (lo hi : Z) :
  0 <= lo -> 0 <= hi -> js_subarray b lo hi = subarray b lo hi.
Proof. intros. unfold js_subarray, js_index. by rewrite !(proj2 (Z.ltb_ge _ _)) by lia. Qed.

Lemma subarray_nil (b : buffer) (lo : Z) : subarray b lo lo = [].
Proof. unfold subarray. by rewrite Z.sub_diag. Qed.

Lemma subarray_all (b : buffer) (hi : Z) : blen b <= hi -> subarray b 0 hi = b.
Proof. intros ?. unfold subarray, blen in *. rewrite drop_0. apply take_ge. lia. Qed.

Lemma subarray_get (b : buffer) (i v : Z) :
  buf_get b i = Some v -> subarray b i (i + 1) = [byte_of_Z v].
Proof.
  unfold buf_get, subarray. case_match; [done|]. bool_to_prop.
  intros (x & Hx & ->)%fmap_Some. rewrite byte_of_Z_val.
  replace (i + 1 - i) with 1 by lia. change (Z.to_nat 1) with 1%nat.
  by rewrite (drop_S _ _ _ Hx).
Qed.

Lemma buf_get_range (b : buffer) (i v : Z) :
  buf_get b i = Some v -> 0 <= i < blen b /\ 0 <= v < 256.
Proof.
  unfold buf_get, blen. case_match; [done|]. bool_to_prop.
  intros (x & Hx%lookup_lt_Some & ->)%fmap_Some.
  split; [lia|apply byte_val_range].
Qed.

(** The bytes of a big-endian number determine them: the converse of
    [be_val_bytes]. *)
Lemma be_bytes_val (b : buffer) : be_bytes (length b) (be_val b) = b.
Proof.
  induction b as [|x b IH]; [done|]. cbn [length be_bytes].
  rewrite be_val_cons. pose proof (be_val_range b) as Hr.
  f_equal.
  - rewrite Z.div_add_l, Z.div_small, Z.add_0_r by lia. apply byte_of_Z_val.
  - transitivity (be_bytes (length b) (be_val b)); [|exact IH].
    clear IH. generalize (be_val b) (byte_val x) (length b). clear. intros z c n.
    assert (forall m, (m <= n)%nat ->
      be_bytes m (c * 256 ^ Z.of_nat n + z) = be_bytes m z) as H; [|by apply H].
    induction m as [|m IH]; intros Hm; [done|]. cbn [be_bytes].
    rewrite IH by lia. f_equal. unfold byte_of_Z. do 3 f_equal.
    replace (Z.of_nat n) with (Z.of_nat (n - S m) + 1 + Z.of_nat m) by lia.
    rewrite !Z.pow_add_r by lia. change (256 ^ 1) with 256.
    rewrite !Z.mul_assoc, Z.div_add_l by (apply Z.pow_nonzero; lia).
    by rewrite Z.add_comm, Z_mod_plus_full.
Qed.

(** What a fixed-width read covers, as the encoding of the number read. *)
Lemma be_bytes_subarray (b : buffer) (lo hi : Z) (n : nat) :
  0 <= lo -> hi <= blen b -> hi - lo = Z.of_nat n ->
  be_bytes n (be_val (subarray b lo hi)) = subarray b lo hi
  /\ 0 <= be_val (subarray b lo hi) < 256 ^ Z.of_nat n.
Proof.
  intros. set (c := subarray b lo hi).
  assert (length c = n) as <- by (unfold c; rewrite length_subarray; lia).
  split; [apply be_bytes_val|apply be_val_range].
Qed.

#[global] Arguments be_bytes : simpl never.
#[global] Arguments be_val : simpl never.
#[global] Arguments subarray : simpl never.
#[global] Arguments buf_get : simpl never.
#[global] Arguments blen : simpl never.

Create HintDb buf.
Create Rewrite HintDb bufs.
#[export] Hint Rewrite blen_app blen_cons blen_be_bytes length_be_bytes
  byte_val_of_Z : bufs.
#[export] Hint Resolve blen_nonneg byte_val_range : buf.

(** ** Lists *)

(** A separator that neither front part contains splits in one way. *)
Lemma split_at_sep {A : Type} (x : A) (a b r r' : list A) :
  x ∉ a -> x ∉ b -> a ++ x :: r = b ++ x :: r' -> a = b /\ r = r'.
Proof.
  revert b. induction a as [|y a IH]; intros [|z b] Ha Hb E; simpl in E.
  - by injection E.
  - injection E as <- _. destruct Hb. by left.
  - injection E as -> _. destruct Ha. by left.
  - injection E as <- E. apply not_elem_of_cons in Ha as [_ Ha]. apply not_elem_of_cons in Hb as [_ Hb].
    by destruct (IH b Ha Hb E) as [-> ->].
Qed.
