(* ===== verification/JsMap.v ===== *)
(** * JavaScript's [Map]: an association list in insertion order

    The services keep their caches, limiter buckets and decoded CBOR maps in
    JavaScript [Map]s and rely on two facts of that type: at most one entry per
    key, and iteration in insertion order, where overwriting a key keeps its
    place and deleting it gives the place up. The operations take the key
    comparison [eqb] as an argument, since [Map] compares by SameValueZero. *)
From S2P Require Import Prelude.

Section jsmap.
Context {K V : Type} (eqb : K -> K -> bool).

Fixpoint map_get (m : list (K * V)) (k : K) : option V :=
  match m with
  | [] => None
  | (k', v) :: m' => if eqb k k' then Some v else map_get m' k
  end.

Definition map_has (m : list (K * V)) (k : K) : bool :=
  match map_get m k with Some _ => true | None => false end.

Fixpoint map_set (m : list (K * V)) (k : K) (v : V) : list (K * V) :=
  match m with
  | [] => [(k, v)]
  | (k', v') :: m' => if eqb k k' then (k', v) :: m' else (k', v') :: map_set m' k v
  end.

Fixpoint map_delete (m : list (K * V)) (k : K) : list (K * V) :=
  match m with
  | [] => []
  | (k', v') :: m' => if eqb k k' then m' else (k', v') :: map_delete m' k
  end.

(** [map.keys().next().value]. *)
Definition map_first_key (m : list (K * V)) : option K :=
  match m with [] => None | (k, _) :: _ => Some k end.

Definition map_size (m : list (K * V)) : Z := Z.of_nat (length m).

(** ** Laws, for a comparison that decides equality *)
Hypothesis eqb_spec : forall a b, eqb a b = true <-> a = b.

Lemma eqb_refl k : eqb k k = true.
Proof. by apply eqb_spec. Qed.

Lemma eqb_neq a b : a <> b -> eqb a b = false.
Proof. intros H. destruct (eqb a b) eqn:E; [by apply eqb_spec in E|done]. Qed.

Ltac case_eqb :=
  repeat match goal with
  | |- context [eqb ?a ?b] =>
      let E := fresh "E" in
      destruct (eqb a b) eqn:E; [apply eqb_spec in E; subst|]
  | H : eqb ?a ?a = false |- _ => rewrite eqb_refl in H; discriminate
  end.

Lemma map_get_set_eq m k v : map_get (map_set m k v) k = Some v.
Proof. induction m as [|[k' v'] m IH]; simpl; case_eqb; simpl; case_eqb; done. Qed.

Lemma map_get_set_ne m k k' v : k <> k' -> map_get (map_set m k v) k' = map_get m k'.
Proof.
  intros Hne. induction m as [|[k1 v1] m IH]; simpl.
  - by rewrite eqb_neq.
  - destruct (eqb k k1) eqn:E; simpl; [apply eqb_spec in E; subst|].
    + by rewrite eqb_neq.
    + by rewrite IH.
Qed.

Lemma map_get_delete_eq m k : NoDup m.*1 -> map_get (map_delete m k) k = None.
Proof.
  induction m as [|[k1 v1] m IH]; [done|]. intros [Hn Hd]%NoDup_cons. simpl in *.
  destruct (eqb k k1) eqn:E; simpl.
  - apply eqb_spec in E as ->. clear -Hn eqb_spec.
    induction m as [|[k2 v2] m IH]; [done|]. simpl in *.
    rewrite eqb_neq by (intros ->; apply Hn; left). apply IH.
    intros ?. apply Hn. by right.
  - rewrite E. by apply IH.
Qed.

Lemma map_get_delete_ne m k k' : k <> k' -> map_get (map_delete m k) k' = map_get m k'.
Proof.
  intros Hne. induction m as [|[k1 v1] m IH]; [done|]. simpl.
  destruct (eqb k k1) eqn:E; simpl.
  - apply eqb_spec in E as ->. by rewrite eqb_neq.
  - by rewrite IH.
Qed.

Lemma map_get_elem m k v : map_get m k = Some v -> (k, v) ∈ m.
Proof.
  induction m as [|[k1 v1] m IH]; [done|]. simpl.
  destruct (eqb k k1) eqn:E; intros ?; simplify_eq.
  - apply eqb_spec in E as ->. left.
  - right. auto.
Qed.

Lemma map_get_None m k : map_get m k = None <-> k ∉ m.*1.
Proof.
  induction m as [|[k1 v1] m IH]; simpl.
  - split; [intros _; apply not_elem_of_nil|done].
  - rewrite not_elem_of_cons, <-IH. destruct (eqb k k1) eqn:E.
    + apply eqb_spec in E as ->. naive_solver.
    + split; [|tauto]. intros ?. split; [|done]. intros ->. by rewrite eqb_refl in E.
Qed.

Lemma map_set_fresh m k v : k ∉ m.*1 -> map_set m k v = m ++ [(k, v)].
Proof.
  induction m as [|[k1 v1] m IH]; [done|]. simpl.
  rewrite not_elem_of_cons. intros [? ?]. rewrite eqb_neq by done. by rewrite IH.
Qed.

Lemma map_set_keys_present m k v : k ∈ m.*1 -> (map_set m k v).*1 = m.*1.
Proof.
  induction m as [|[k1 v1] m IH]; simpl; [by intros ?%elem_of_nil|].
  rewrite elem_of_cons. destruct (eqb k k1) eqn:E; [done|].
  intros [->|Hk]; [by rewrite eqb_refl in E|]. simpl. f_equal. by apply IH.
Qed.

Lemma map_set_NoDup `{EqDecision K} m k v : NoDup m.*1 -> NoDup (map_set m k v).*1.
Proof.
  intros Hd. destruct (decide (k ∈ m.*1)) as [Hk|Hk].
  - by rewrite map_set_keys_present.
  - rewrite map_set_fresh by done. rewrite fmap_app. apply NoDup_app. simpl.
    split; [done|]. split; [|apply NoDup_singleton].
    intros x Hx ?%list_elem_of_singleton. by subst.
Qed.

Lemma map_delete_sublist m k : map_delete m k `sublist_of` m.
Proof.
  induction m as [|[k1 v1] m IH]; simpl; [done|].
  destruct (eqb k k1); [by apply sublist_cons|by apply sublist_skip].
Qed.

Lemma map_delete_NoDup m k : NoDup m.*1 -> NoDup (map_delete m k).*1.
Proof.
  intros Hd. eapply sublist_NoDup; [exact Hd|].
  apply fmap_sublist, map_delete_sublist.
Qed.

Lemma map_delete_fresh m k : k ∉ m.*1 -> map_delete m k = m.
Proof.
  induction m as [|[k1 v1] m IH]; [done|]. simpl.
  rewrite not_elem_of_cons. intros [? ?]. rewrite eqb_neq by done. by rewrite IH.
Qed.

Lemma map_size_delete m k : k ∈ m.*1 -> map_size (map_delete m k) = map_size m - 1.
Proof.
  unfold map_size. induction m as [|[k1 v1] m IH]; simpl; [by intros ?%elem_of_nil|].
  rewrite elem_of_cons. destruct (eqb k k1) eqn:E; [lia|].
  intros [->|Hk]; [by rewrite eqb_refl in E|]. simpl. specialize (IH Hk). lia.
Qed.

Lemma map_size_delete_le m k : map_size (map_delete m k) <= map_size m.
Proof. pose proof (sublist_length _ _ (map_delete_sublist m k)). unfold map_size. lia. Qed.

Lemma map_size_set m k v :
  map_size (map_set m k v) = map_size m + (if map_has m k then 0 else 1).
Proof.
  unfold map_size, map_has. induction m as [|[k1 v1] m IH]; simpl; [done|].
  destruct (eqb k k1); simpl; lia.
Qed.
End jsmap.
