(* ===== verification/JsText.v ===== *)
(** * JavaScript strings and numbers

    What the services use of the language: decimal printing and [parseInt], UTF-8,
    [split], [trim], [toLowerCase], 32-bit integer conversion, base64 as Node's
    [Buffer] reads and writes it. A string is a Rocq [string], one character per
    UTF-16 code unit below 256; HTTP header values, which Node decodes as
    latin-1, are exactly of that form. *)
From S2P Require Import Prelude.
From Stdlib Require Import Ascii.

(** ** Code units *)
Definition code (c : ascii) : Z := Z.of_N (N_of_ascii c).
Definition char_of (z : Z) : ascii := ascii_of_N (Z.to_N z).

Lemma code_range c : 0 <= code c < 256.
Proof. unfold code. pose proof (N_ascii_bounded c). lia. Qed.

Lemma code_char_of z : 0 <= z < 256 -> code (char_of z) = z.
Proof. intros. unfold code, char_of. rewrite N_ascii_embedding; lia. Qed.

Lemma char_of_code c : char_of (code c) = c.
Proof. unfold code, char_of. by rewrite N2Z.id, ascii_N_embedding. Qed.

(** The UTF-8 or ASCII bytes of a string of ASCII characters. *)
Definition ascii_bytes (s : string) : buffer :=
  (fun c => byte_of_Z (code c)) <$> String.list_ascii_of_string s.

(** ** Decimal printing: [String(n)] *)
Fixpoint dec_digits (fuel : nat) (n : Z) : list Z :=
  match fuel with
  | O => []
  | S f => if n <? 10 then [n] else dec_digits f (n / 10) ++ [n mod 10]
  end.

Definition digit_char (d : Z) : ascii := char_of (48 + d).
Definition dec_fuel (n : Z) : nat := S (Z.to_nat (Z.log2 n)).
Definition dec_nat (n : Z) : string :=
  String.string_of_list_ascii (digit_char <$> dec_digits (dec_fuel n) n).
Definition js_dec (n : Z) : string :=
  if n <? 0 then String "-" (dec_nat (- n)) else dec_nat n.

(** ** Reading digits: [parseInt(s, 10)] ([None] is [NaN])

    Leading white space and a sign are skipped; the digits read are those before
    the first other character. Exact for values below 2^53. *)
Definition is_digit (c : ascii) : bool := (48 <=? code c) && (code c <=? 57).

(** The white space and line terminators below 256. *)
Definition is_space (c : ascii) : bool :=
  bool_decide (code c ∈ [9; 10; 11; 12; 13; 32; 160]).

Fixpoint read_digits (acc : option Z) (s : list ascii) : option Z :=
  match s with
  | [] => acc
  | c :: s' =>
      if is_digit c then read_digits (Some (default 0 acc * 10 + (code c - 48))) s'
      else acc
  end.

Fixpoint trim_start (s : list ascii) : list ascii :=
  match s with
  | [] => []
  | c :: s' => if is_space c then trim_start s' else s
  end.

Definition parse_int (s : string) : option Z :=
  match trim_start (String.list_ascii_of_string s) with
  | [] => None
  | c :: s' =>
      if code c =? 45 then Z.opp <$> read_digits None s'
      else if code c =? 43 then read_digits None s'
      else read_digits None (c :: s')
  end.

(** ** [s.trim()], [s.toLowerCase()], [s.split(sep)] *)
Definition js_trim (s : string) : string :=
  String.string_of_list_ascii
    (reverse (trim_start (reverse (trim_start (String.list_ascii_of_string s))))).

Definition lower_char (c : ascii) : ascii :=
  let z := code c in
  if ((65 <=? z) && (z <=? 90)) || ((192 <=? z) && (z <=? 222) && negb (z =? 215))
  then char_of (z + 32) else c.
Definition js_lower (s : string) : string :=
  String.string_of_list_ascii (lower_char <$> String.list_ascii_of_string s).

Fixpoint split_chars (sep : ascii) (cur : list ascii) (s : list ascii) : list (list ascii) :=
  match s with
  | [] => [reverse cur]
  | c :: s' =>
      if Ascii.eqb c sep then reverse cur :: split_chars sep [] s'
      else split_chars sep (c :: cur) s'
  end.
Definition js_split (sep : ascii) (s : string) : list string :=
  String.string_of_list_ascii <$> split_chars sep [] (String.list_ascii_of_string s).

(** [parts.join(sep)]. *)
Fixpoint js_join (sep : string) (l : list string) : string :=
  match l with
  | [] => ""
  | [s] => s
  | s :: l' => s +:+ sep +:+ js_join sep l'
  end.

(** ** 32-bit integers: [ToInt32], which [<<], [>>], [&] and [|] apply *)
Definition to_int32 (z : Z) : Z :=
  let m := z mod 2 ^ 32 in if m >=? 2 ^ 31 then m - 2 ^ 32 else m.
Definition js_shl (a n : Z) : Z := to_int32 (Z.shiftl (to_int32 a) n).
Definition js_shr (a n : Z) : Z := Z.shiftr (to_int32 a) n.
Definition js_or (a b : Z) : Z := to_int32 (Z.lor (to_int32 a) (to_int32 b)).
Definition js_and (a b : Z) : Z := to_int32 (Z.land (to_int32 a) (to_int32 b)).

Lemma to_int32_range z : - 2 ^ 31 <= to_int32 z < 2 ^ 31.
Proof.
  unfold to_int32. pose proof (Z.mod_pos_bound z (2 ^ 32) ltac:(lia)).
  destruct (z mod 2 ^ 32 >=? 2 ^ 31) eqn:E; bool_to_prop; lia.
Qed.

Lemma to_int32_small z : - 2 ^ 31 <= z < 2 ^ 31 -> to_int32 z = z.
Proof.
  intros. unfold to_int32.
  destruct (z mod 2 ^ 32 >=? 2 ^ 31) eqn:E; bool_to_prop;
    change (2 ^ 32) with 4294967296 in *; change (2 ^ 31) with 2147483648 in *; div_lia.
Qed.

(** ** Facts *)
Lemma dec_digits_range fuel n d : 0 <= n -> d ∈ dec_digits fuel n -> 0 <= d < 10.
Proof.
  revert n. induction fuel as [|f IH]; intros n Hn; simpl; [by intros ?%elem_of_nil|].
  destruct (n <? 10) eqn:E; bool_to_prop.
  - intros ->%list_elem_of_singleton. lia.
  - rewrite elem_of_app, list_elem_of_singleton. intros [?| ->]; [|div_lia].
    eapply IH; [|done]. div_lia.
Qed.

Definition dec_value (l : list Z) (acc : Z) : Z := foldl (fun a d => a * 10 + d) acc l.

Lemma dec_value_digits fuel n acc :
  0 <= n < 10 ^ Z.of_nat fuel -> exists k, 0 <= k /\
  dec_value (dec_digits fuel n) acc = acc * 10 ^ k + n.
Proof.
  unfold dec_value. revert n acc. induction fuel as [|f IH]; intros n acc Hn; cbn [dec_digits].
  { exists 0. simpl in *. change (10 ^ Z.of_nat 0) with 1 in Hn. lia. }
  destruct (n <? 10) eqn:E; bool_to_prop.
  - exists 1. simpl. lia.
  - rewrite foldl_app. simpl.
    destruct (IH (n / 10) acc) as (k & Hk & ->).
    { rewrite Nat2Z.inj_succ, Z.pow_succ_r in Hn by lia. div_lia. }
    exists (k + 1). split; [lia|]. rewrite Z.pow_add_r by lia. div_lia.
Qed.

Lemma dec_fuel_enough n : 0 <= n -> n < 10 ^ Z.of_nat (dec_fuel n).
Proof.
  intros Hn. unfold dec_fuel. destruct (decide (n = 0)) as [->|]; [done|].
  pose proof (Z.log2_spec n ltac:(lia)) as [_ H]. pose proof (Z.log2_nonneg n).
  rewrite Nat2Z.inj_succ, Z2Nat.id by lia.
  assert (2 ^ Z.succ (Z.log2 n) <= 10 ^ Z.succ (Z.log2 n)) by (apply Z.pow_le_mono_l; lia).
  lia.
Qed.

Lemma is_digit_char d : 0 <= d < 10 -> is_digit (digit_char d) = true /\ code (digit_char d) = 48 + d.
Proof.
  intros. unfold is_digit, digit_char. rewrite code_char_of by lia.
  split; [|done]. apply andb_true_intro. split; apply Z.leb_le; lia.
Qed.

Lemma read_digits_value l acc rest :
  (forall d, d ∈ l -> 0 <= d < 10) -> l <> [] ->
  (match rest with [] => True | c :: _ => is_digit c = false end) ->
  read_digits acc ((digit_char <$> l) ++ rest) = Some (dec_value l (default 0 acc)).
Proof.
  unfold dec_value. revert acc. induction l as [|d l IH]; intros acc Hl Hne Hrest; [done|].
  cbn [fmap list_fmap app]. simpl.
  destruct (is_digit_char d) as [-> ->]; [apply Hl; left|].
  replace (48 + d - 48) with d by lia.
  destruct l as [|d' l].
  - simpl. destruct rest as [|c rest]; simpl; [done|]. by rewrite Hrest.
  - rewrite IH; [done| |done|done]. intros x Hx. apply Hl. by right.
Qed.

Lemma dec_digits_nonempty fuel n : dec_digits (S fuel) n <> [].
Proof. simpl. case_match; [done|]. by destruct (dec_digits fuel (n / 10)). Qed.

Lemma list_of_dec_nat n :
  String.list_ascii_of_string (dec_nat n) = digit_char <$> dec_digits (dec_fuel n) n.
Proof. apply String.list_ascii_of_string_of_list_ascii. Qed.

(** What [String(n)] prints, [parseInt] reads. *)
Lemma parse_int_dec n : 0 <= n -> parse_int (dec_nat n) = Some n.
Proof.
  intros Hn. unfold parse_int. rewrite list_of_dec_nat.
  pose proof (dec_digits_nonempty (Z.to_nat (Z.log2 n)) n) as Hne. fold (dec_fuel n) in Hne.
  pose proof (fun d => dec_digits_range (dec_fuel n) n d Hn) as Hr.
  destruct (dec_value_digits (dec_fuel n) n 0) as (k & _ & Hv).
  { pose proof (dec_fuel_enough n Hn). lia. }
  pose proof (read_digits_value (dec_digits (dec_fuel n) n) None [] Hr Hne I) as Hrd.
  rewrite app_nil_r in Hrd. simpl default in Hrd. rewrite Hv in Hrd.
  replace (0 * 10 ^ k + n) with n in Hrd by lia.
  destruct (dec_digits (dec_fuel n) n) as [|d l]; [done|].
  cbn [fmap list_fmap] in *.
  assert (0 <= d < 10) by (apply Hr; left).
  destruct (is_digit_char d) as [_ Hc]; [done|]. simpl trim_start.
  unfold is_space. rewrite bool_decide_eq_false_2.
  2:{ rewrite Hc, !elem_of_cons, elem_of_nil. lia. }
  rewrite Hc. rewrite !(proj2 (Z.eqb_neq _ _)) by lia. exact Hrd.
Qed.

Lemma dec_nat_inj a b : 0 <= a -> 0 <= b -> dec_nat a = dec_nat b -> a = b.
Proof.
  intros Ha Hb E. apply parse_int_dec in Ha, Hb. rewrite E in Ha. congruence.
Qed.

Lemma dec_nat_chars n c :
  0 <= n -> c ∈ String.list_ascii_of_string (dec_nat n) -> is_digit c = true.
Proof.
  intros Hn. rewrite list_of_dec_nat, list_elem_of_fmap. intros (d & -> & Hd).
  apply is_digit_char. by eapply dec_digits_range.
Qed.

Lemma js_dec_inj a b : js_dec a = js_dec b -> a = b.
Proof.
  unfold js_dec. intros E.
  assert (forall n s, 0 <= n -> dec_nat n = String "-" s -> False) as Hno.
  { intros n s Hn Hs. pose proof (dec_nat_chars n "-"%char Hn) as H.
    rewrite Hs in H. by specialize (H ltac:(left)). }
  destruct (a <? 0) eqn:Ea, (b <? 0) eqn:Eb; bool_to_prop.
  - injection E as E. apply dec_nat_inj in E; lia.
  - exfalso. eapply (Hno b); [|by rewrite <-E]. lia.
  - exfalso. eapply (Hno a); [|by rewrite E]. lia.
  - by apply dec_nat_inj.
Qed.

Lemma split_chars_plain sep cur s :
  sep ∉ s -> split_chars sep cur s = [reverse cur ++ s].
Proof.
  revert cur. induction s as [|c s IH]; intros cur H; simpl; [by rewrite app_nil_r|].
  apply not_elem_of_cons in H as [? ?].
  rewrite (proj2 (Ascii.eqb_neq _ _)) by done. rewrite IH by done.
  by rewrite reverse_cons, <-app_assoc.
Qed.

Lemma split_chars_sep sep cur s rest :
  sep ∉ s ->
  split_chars sep cur (s ++ sep :: rest) = (reverse cur ++ s) :: split_chars sep [] rest.
Proof.
  revert cur. induction s as [|c s IH]; intros cur H; simpl.
  - by rewrite Ascii.eqb_refl, app_nil_r.
  - apply not_elem_of_cons in H as [? ?].
    rewrite (proj2 (Ascii.eqb_neq _ _)) by done. rewrite IH by done.
    by rewrite reverse_cons, <-app_assoc.
Qed.

Lemma string_of_list_inj (a b : string) :
  String.list_ascii_of_string a = String.list_ascii_of_string b -> a = b.
Proof.
  intros E. rewrite <-(String.string_of_list_ascii_of_string a), E.
  apply String.string_of_list_ascii_of_string.
Qed.

Lemma list_of_string_app (a b : string) :
  String.list_ascii_of_string (a +:+ b)
  = String.list_ascii_of_string a ++ String.list_ascii_of_string b.
Proof. induction a as [|c a IH]; simpl; [done|]. f_equal. exact IH. Qed.

(** [s.split(sep)] undoes [parts.join(sep)] when no part contains [sep]. *)
Lemma js_split_join (sep : ascii) (l : list string) :
  l <> [] -> (forall s, s ∈ l -> sep ∉ String.list_ascii_of_string s) ->
  js_split sep (js_join (String sep EmptyString) l) = l.
Proof.
  unfold js_split. induction l as [|s l IH]; intros Hne Hl; [done|].
  destruct l as [|s' l].
  - simpl. rewrite split_chars_plain by (apply Hl; left). simpl.
    by rewrite String.string_of_list_ascii_of_string.
  - change (js_join (String sep "") (s :: s' :: l))
      with (s +:+ String sep "" +:+ js_join (String sep "") (s' :: l)).
    rewrite list_of_string_app. change (String.list_ascii_of_string (String sep "" +:+ ?x))
      with (sep :: String.list_ascii_of_string x).
    rewrite split_chars_sep by (apply Hl; left). cbn [fmap list_fmap reverse app].
    rewrite IH; [|done|intros x Hx; apply Hl; by right].
    f_equal. apply String.string_of_list_ascii_of_string.
Qed.

(** ** Characters and UTF-8 *)
Definition chars (s : string) : list ascii := String.list_ascii_of_string s.
Definition of_chars (l : list ascii) : string := String.string_of_list_ascii l.
Lemma chars_of_chars l : chars (of_chars l) = l.
Proof. apply String.list_ascii_of_string_of_list_ascii. Qed.

(** [Buffer.from(s)]: a code unit from 128 to 255 is two bytes of UTF-8. *)
Definition utf8_bytes (s : string) : buffer :=
  chars s ≫= fun c => if code c <? 128 then [byte_of_Z (code c)]
                      else [byte_of_Z (192 + code c / 64); byte_of_Z (128 + code c mod 64)].
