(* ===== verification/JsBase64.v ===== *)
(** * Base64 as Node's [Buffer] reads and writes it

    [buf.toString('base64')] pads with [=]. [Buffer.from(s, 'base64')] never
    throws: it accepts both alphabets ([+] and [/], or [-] and [_]), passes over
    every other character, stops at the first [=] and drops a lone last digit. *)
From S2P Require Import Prelude JsText.
From Stdlib Require Import Ascii.

(** ** Digits *)
Definition b64_char (d : Z) : ascii :=
  char_of (if d <? 26 then 65 + d else if d <? 52 then 71 + d
           else if d <? 62 then d - 4 else if d =? 62 then 43 else 47).

Definition b64_digit (c : ascii) : option Z :=
  let z := code c in
  if (65 <=? z) && (z <=? 90) then Some (z - 65)
  else if (97 <=? z) && (z <=? 122) then Some (z - 71)
  else if (48 <=? z) && (z <=? 57) then Some (z + 4)
  else if (z =? 43) || (z =? 45) then Some 62
  else if (z =? 47) || (z =? 95) then Some 63
  else None.

(** ** Encoding *)
Fixpoint b64_encode_list (b : buffer) : list ascii :=
  match b with
  | [] => []
  | [x] =>
      let v := byte_val x * 65536 in
      [b64_char (v / 262144); b64_char (v / 4096 mod 64); "="%char; "="%char]
  | [x; y] =>
      let v := byte_val x * 65536 + byte_val y * 256 in
      [b64_char (v / 262144); b64_char (v / 4096 mod 64); b64_char (v / 64 mod 64); "="%char]
  | x :: y :: z :: b' =>
      let v := byte_val x * 65536 + byte_val y * 256 + byte_val z in
      b64_char (v / 262144) :: b64_char (v / 4096 mod 64) :: b64_char (v / 64 mod 64)
      :: b64_char (v mod 64) :: b64_encode_list b'
  end.
Definition base64_encode (b : buffer) : string := String.string_of_list_ascii (b64_encode_list b).

(** ** Decoding *)
Fixpoint b64_digits (s : list ascii) : list Z :=
  match s with
  | [] => []
  | c :: s' =>
      if Ascii.eqb c "=" then []
      else match b64_digit c with Some d => d :: b64_digits s' | None => b64_digits s' end
  end.

Fixpoint b64_bytes (l : list Z) : buffer :=
  match l with
  | a :: b :: c :: d :: l' =>
      let v := a * 262144 + b * 4096 + c * 64 + d in
      byte_of_Z (v / 65536) :: byte_of_Z (v / 256) :: byte_of_Z v :: b64_bytes l'
  | [a; b; c] =>
      let v := a * 262144 + b * 4096 + c * 64 in [byte_of_Z (v / 65536); byte_of_Z (v / 256)]
  | [a; b] => [byte_of_Z ((a * 262144 + b * 4096) / 65536)]
  | _ => []
  end.
Definition base64_decode (s : string) : buffer :=
  b64_bytes (b64_digits (String.list_ascii_of_string s)).

(** ** Round trip *)
Lemma b64_digit_char d : 0 <= d < 64 -> b64_digit (b64_char d) = Some d /\ Ascii.eqb (b64_char d) "=" = false.
Proof.
  intros Hd.
  assert (forall n, (n < 64)%nat ->
    b64_digit (b64_char (Z.of_nat n)) = Some (Z.of_nat n)
    /\ Ascii.eqb (b64_char (Z.of_nat n)) "=" = false) as H.
  { intros n Hn. do 64 (destruct n as [|n]; [split; vm_compute; reflexivity|]). lia. }
  specialize (H (Z.to_nat d) ltac:(lia)). by rewrite Z2Nat.id in H by lia.
Qed.

Lemma b64_digits_char d s : 0 <= d < 64 -> b64_digits (b64_char d :: s) = d :: b64_digits s.
Proof. intros Hd. simpl. by destruct (b64_digit_char d Hd) as [-> ->]. Qed.

Lemma byte_of_Z_eq (x : byte) (z : Z) : z mod 256 = byte_val x -> byte_of_Z z = x.
Proof. intros E. apply byte_val_inj. by rewrite byte_val_of_Z. Qed.

Lemma b64_decode_encode_list b : b64_bytes (b64_digits (b64_encode_list b)) = b.
Proof.
  assert (forall n b, (length b <= n)%nat -> b64_bytes (b64_digits (b64_encode_list b)) = b)
    as H; [|by eapply H].
  clear b. induction n as [|n IH]; intros b Hn; [by destruct b; simpl in Hn; [|lia]|].
  destruct b as [|x [|y [|z b]]]; [done| | |].
  all: cbn [b64_encode_list]; cbv zeta; pose proof (byte_val_range x);
    try pose proof (byte_val_range y); try pose proof (byte_val_range z).
  1,2: rewrite !b64_digits_char by div_lia; cbn [b64_digits Ascii.eqb Bool.eqb b64_bytes];
       repeat f_equal; apply byte_of_Z_eq; div_lia.
  rewrite !b64_digits_char by div_lia. cbn [b64_bytes].
  rewrite IH by (simpl in Hn; lia).
  f_equal; [|f_equal; [|f_equal]]; apply byte_of_Z_eq; div_lia.
Qed.

Lemma base64_decode_encode b : base64_decode (base64_encode b) = b.
Proof.
  unfold base64_decode, base64_encode.
  rewrite String.list_ascii_of_string_of_list_ascii. apply b64_decode_encode_list.
Qed.

Lemma base64_encode_inj a b : base64_encode a = base64_encode b -> a = b.
Proof. intros E. by rewrite <-(base64_decode_encode a), E, base64_decode_encode. Qed.
