(* ===== verification/JsJson.v ===== *)
(** * JSON values

    What [JSON.parse] builds and the services take apart: records, manifests and
    request bodies. An object is an association list with the keys in insertion
    order; a number is an integer or, in [JFrac], any other number by its text. *)
From S2P Require Import Prelude JsMap JsText.
From Stdlib Require Import Ascii.

Inductive json : Type :=
| JNull
| JBool (b : bool)
| JInt (z : Z)
| JFrac (text : string)
| JStr (s : string)
| JArr (l : list json)
| JObj (o : list (string * json)).

(** [v.key]; [None] is [undefined]. The keys read in the source are no
    properties of strings, numbers or arrays. *)
Definition jget (v : json) (key : string) : option json :=
  match v with JObj o => map_get String.eqb o key | _ => None end.

(** [Number.MAX_SAFE_INTEGER] and [Number.isSafeInteger]. *)
Definition MAX_SAFE_INTEGER : Z := 2 ^ 53 - 1.
Definition isSafe (z : Z) : bool := (- MAX_SAFE_INTEGER <=? z) && (z <=? MAX_SAFE_INTEGER).

Definition as_safe (v : option json) : option Z :=
  match v with Some (JInt z) => if isSafe z then Some z else None | _ => None end.
Definition as_string (v : option json) : option string :=
  match v with Some (JStr s) => Some s | _ => None end.

(** [v === s] and [v === n]. *)
Definition is_str (v : option json) (s : string) : bool :=
  match v with Some (JStr x) => String.eqb x s | _ => false end.
Definition is_num (v : option json) (n : Z) : bool :=
  match v with Some (JInt z) => z =? n | _ => false end.

Lemma is_str_true v s : is_str v s = true <-> v = Some (JStr s).
Proof. destruct v as [[]|]; simpl; try naive_solver. rewrite String.eqb_eq. naive_solver. Qed.
Lemma is_num_true v n : is_num v n = true <-> v = Some (JInt n).
Proof. destruct v as [[]|]; simpl; try naive_solver. rewrite Z.eqb_eq. naive_solver. Qed.

(** [s.length]. *)
Definition slen (s : string) : Z := Z.of_nat (String.length s).

(** ** [JSON.stringify] *)

Definition hex_digit (d : Z) : ascii := char_of (if d <? 10 then 48 + d else 87 + d).
Definition dquote : ascii := "034".

Definition json_escape (c : ascii) : list ascii :=
  let z := code c in
  if z =? 8 then ["\"; "b"]%char else if z =? 9 then ["\"; "t"]%char
  else if z =? 10 then ["\"; "n"]%char else if z =? 12 then ["\"; "f"]%char
  else if z =? 13 then ["\"; "r"]%char
  else if (z =? 34) || (z =? 92) then ["\"%char; c]
  else if z <? 32 then ["\"; "u"; "0"; "0"; hex_digit (z / 16); hex_digit (z mod 16)]%char
  else [c].
Definition json_string (s : string) : string :=
  String.string_of_list_ascii
    (dquote :: (String.list_ascii_of_string s ≫= json_escape) ++ [dquote]).

Fixpoint stringify (v : json) : string :=
  match v with
  | JNull => "null"
  | JBool b => if b then "true" else "false"
  | JInt z => js_dec z
  | JFrac t => t
  | JStr s => json_string s
  | JArr l => "[" +:+ js_join "," (map stringify l) +:+ "]"
  | JObj o =>
      "{" +:+ js_join "," (map (fun kv => json_string kv.1 +:+ ":" +:+ stringify kv.2) o) +:+ "}"
  end.

Example stringify_sample :
  stringify (JObj [("a", JInt (-5)); ("b", JArr [JStr "x"; JNull])])
  = js_join (String dquote "") ["{"; "a"; ":-5,"; "b"; ":["; "x"; ",null]}"].
Proof. reflexivity. Qed.
