(* ===== verification/Cbor.v ===== *)
(** * The CBOR decoder of [token-issuer/appattest.js]

    [cborDecodeFirst], [cborReadItem] and [cborReadLength], and the JavaScript
    value they build. The depth bound [CBOR_MAX_DEPTH] is what makes the
    recursion end, and the fuel of [cborReadItem] never runs out below it; the
    array and map loops carry one unit of fuel per byte of the buffer.

    The second half is a grammar of definite-length CBOR, [cbor_item], which the
    decoder is shown to decide: it accepts exactly the encodings of the grammar
    and returns the value they denote. *)
From S2P Require Import Prelude JsMap.

(** ** [buf.toString('utf8')]

    The text strings of a CBOR item are decoded by Node: the WHATWG decoder, in
    which every maximal ill-formed part becomes one U+FFFD, producing a
    JavaScript string, that is a list of UTF-16 code units. *)
Record utf8_state := Utf8 { u_need : nat; u_cp : Z; u_lo : Z; u_hi : Z }.
Definition utf8_idle : utf8_state := Utf8 0 0 128 191.
Definition replacement_char : Z := 65533.

Definition in_range (lo x hi : Z) : bool := (lo <=? x) && (x <=? hi).

Definition utf8_start (b : Z) : list Z * utf8_state :=
  if b <? 128 then ([b], utf8_idle)
  else if in_range 194 b 223 then ([], Utf8 1 (Z.land b 31) 128 191)
  else if in_range 224 b 239 then
    ([], Utf8 2 (Z.land b 15) (if b =? 224 then 160 else 128) (if b =? 237 then 159 else 191))
  else if in_range 240 b 244 then
    ([], Utf8 3 (Z.land b 7) (if b =? 240 then 144 else 128) (if b =? 244 then 143 else 191))
  else ([replacement_char], utf8_idle).

Definition utf8_step (st : utf8_state) (b : Z) : list Z * utf8_state :=
  match u_need st with
  | O => utf8_start b
  | S n =>
      if in_range (u_lo st) b (u_hi st) then
        let cp := Z.lor (Z.shiftl (u_cp st) 6) (Z.land b 63) in
        match n with
        | O => ([cp], utf8_idle)
        | S _ => ([], Utf8 n cp 128 191)
        end
      else let '(out, st') := utf8_start b in (replacement_char :: out, st')
  end.

Fixpoint utf8_points (st : utf8_state) (b : buffer) : list Z :=
  match b with
  | [] => match u_need st with O => [] | S _ => [replacement_char] end
  | x :: b' => let '(out, st') := utf8_step st (byte_val x) in out ++ utf8_points st' b'
  end.

Definition utf16_units (cp : Z) : list Z :=
  if cp <? 65536 then [cp]
  else [55296 + Z.shiftr (cp - 65536) 10; 56320 + Z.land (cp - 65536) 1023].

Definition utf8_decode (b : buffer) : list Z := utf8_points utf8_idle b ≫= utf16_units.

(** The code units of a string literal of the source. *)
Definition units (s : string) : list Z :=
  (fun a => Z.of_N (Ascii.N_of_ascii a)) <$> String.list_ascii_of_string s.

(** ** The decoded value *)
Inductive cbor : Type :=
| CNum (n : Z)
| CBytes (b : buffer)
| CText (s : list Z)
| CArray (l : list cbor)
| CMap (m : list (cbor * cbor)).

(** Key comparison of [Map]: numbers and strings by value. Buffers, arrays and
    maps are compared by identity, and every decoded one is a new object. *)
Definition sameValueZero (a b : cbor) : bool :=
  match a, b with
  | CNum x, CNum y => x =? y
  | CText s, CText t => bool_decide (s = t)
  | _, _ => false
  end.

Abbreviation cmap := (list (cbor * cbor)).
Definition cmap_get (m : cmap) (k : cbor) : option cbor := map_get sameValueZero m k.
Definition cmap_set (m : cmap) (k v : cbor) : cmap := map_set sameValueZero m k v.

(** ** The decoder *)
Definition CBOR_MAX_DEPTH : Z := 16.

(** The length or value that follows an initial byte with low bits [minor], and
    the position after it. *)
Definition cborReadLength (buf : buffer) (pos minor : Z) : result exn (Z * Z) :=
  if minor <? 24 then Ok (minor, pos)
  else if minor =? 24 then
    throw_when pos + 1 >? blen buf with Err "cbor: truncated len8" ;;
    Ok (be_val (subarray buf pos (pos + 1)), pos + 1)
  else if minor =? 25 then
    throw_when pos + 2 >? blen buf with Err "cbor: truncated len16" ;;
    Ok (readUInt16BE buf pos, pos + 2)
  else if minor =? 26 then
    throw_when pos + 4 >? blen buf with Err "cbor: truncated len32" ;;
    Ok (readUInt32BE buf pos, pos + 4)
  else if minor =? 27 then
    throw_when pos + 8 >? blen buf with Err "cbor: truncated len64" ;;
    let hi := readUInt32BE buf pos in
    let lo := readUInt32BE buf (pos + 4) in
    throw_when negb (hi =? 0) with Err "cbor: length too large" ;;
    Ok (lo, pos + 8)
  else Throw (Err "cbor: indefinite or reserved length not supported").

(** The loops of the array and map cases: [n] items (or pairs) from [pos] on,
    read by [rd], the recursive call; [k] is fuel. *)
Fixpoint cborReadArray (rd : Z -> result exn (cbor * Z)) (k : nat) (n pos : Z) :
    result exn (list cbor * Z) :=
  if n <=? 0 then Ok ([], pos)
  else match k with
  | O => Throw Diverges
  | S k' =>
      '(x, pos) ← rd pos;
      '(xs, pos) ← cborReadArray rd k' (n - 1) pos;
      Ok (x :: xs, pos)
  end.

Fixpoint cborReadMap (rd : Z -> result exn (cbor * Z)) (k : nat) (n pos : Z) (m : cmap) :
    result exn (cmap * Z) :=
  if n <=? 0 then Ok (m, pos)
  else match k with
  | O => Throw Diverges
  | S k' =>
      '(key, pos) ← rd pos;
      '(v, pos) ← rd pos;
      cborReadMap rd k' (n - 1) pos (cmap_set m key v)
  end.

Fixpoint cborReadItem (fuel : nat) (buf : buffer) (pos depth : Z) : result exn (cbor * Z) :=
  match fuel with
  | O => Throw Diverges
  | S fuel' =>
      throw_when depth >? CBOR_MAX_DEPTH with Err "cbor: max depth exceeded" ;;
      throw_when pos >=? blen buf with Err "cbor: truncated" ;;
      let ib := default 0 (buf_get buf pos) in
      let major := Z.shiftr ib 5 in
      let minor := Z.land ib 31 in
      '(len, pos) ← cborReadLength buf (pos + 1) minor;
      let rd := fun p => cborReadItem fuel' buf p (depth + 1) in
      if major =? 0 then Ok (CNum len, pos)
      else if major =? 1 then Ok (CNum (-1 - len), pos)
      else if major =? 2 then
        throw_when pos + len >? blen buf with Err "cbor: byte string overruns" ;;
        Ok (CBytes (subarray buf pos (pos + len)), pos + len)
      else if major =? 3 then
        throw_when pos + len >? blen buf with Err "cbor: text string overruns" ;;
        Ok (CText (utf8_decode (subarray buf pos (pos + len))), pos + len)
      else if major =? 4 then
        '(l, pos) ← cborReadArray rd (S (length buf)) len pos;
        Ok (CArray l, pos)
      else if major =? 5 then
        '(m, pos) ← cborReadMap rd (S (length buf)) len pos [];
        Ok (CMap m, pos)
      else Throw (Err ("cbor: unsupported major type " +:+ pretty major))
  end.

(** One unit of fuel per depth 0 .. 16, and one for the call that throws. *)
Definition cbor_fuel : nat := 18.

Definition cborDecodeFirst (buf : buffer) : result exn (cbor * Z) :=
  cborReadItem cbor_fuel buf 0 0.

(** ** Definite-length CBOR as a grammar

    [cbor_item d b v]: the bytes [b] are one encoding of the value [v] whose
    arrays and maps are nested at most [d] deep. Lengths need not be written in
    the shortest form; a duplicate map key overwrites. *)
Inductive cbor_head (major : Z) : Z -> buffer -> Prop :=
| head_imm n : 0 <= n < 24 -> cbor_head major n [byte_of_Z (major * 32 + n)]
| head_1 n : 0 <= n < 2 ^ 8 ->
    cbor_head major n (byte_of_Z (major * 32 + 24) :: be_bytes 1 n)
| head_2 n : 0 <= n < 2 ^ 16 ->
    cbor_head major n (byte_of_Z (major * 32 + 25) :: be_bytes 2 n)
| head_4 n : 0 <= n < 2 ^ 32 ->
    cbor_head major n (byte_of_Z (major * 32 + 26) :: be_bytes 4 n)
| head_8 n : 0 <= n < 2 ^ 32 ->
    cbor_head major n (byte_of_Z (major * 32 + 27) :: be_bytes 4 0 ++ be_bytes 4 n).

Definition cmap_of (l : cmap) (m : cmap) : cmap :=
  foldl (fun m kv => cmap_set m kv.1 kv.2) m l.

Inductive cbor_item : nat -> buffer -> cbor -> Prop :=
| item_uint d n h : cbor_head 0 n h -> cbor_item d h (CNum n)
| item_nint d n h : cbor_head 1 n h -> cbor_item d h (CNum (-1 - n))
| item_bytes d b h : cbor_head 2 (blen b) h -> cbor_item d (h ++ b) (CBytes b)
| item_text d b h : cbor_head 3 (blen b) h -> cbor_item d (h ++ b) (CText (utf8_decode b))
| item_array d h b l :
    cbor_head 4 (Z.of_nat (length l)) h -> cbor_items d b l -> cbor_item d (h ++ b) (CArray l)
| item_map d h b l :
    cbor_head 5 (Z.of_nat (length l)) h -> cbor_pairs d b l ->
    cbor_item d (h ++ b) (CMap (cmap_of l []))
with cbor_items : nat -> buffer -> list cbor -> Prop :=
| items_nil d : cbor_items d [] []
| items_cons d b bs x l :
    cbor_item d b x -> cbor_items (S d) bs l -> cbor_items (S d) (b ++ bs) (x :: l)
with cbor_pairs : nat -> buffer -> cmap -> Prop :=
| pairs_nil d : cbor_pairs d [] []
| pairs_cons d bk bv bs k v l :
    cbor_item d bk k -> cbor_item d bv v -> cbor_pairs (S d) bs l ->
    cbor_pairs (S d) (bk ++ bv ++ bs) ((k, v) :: l).

Scheme cbor_item_mind := Induction for cbor_item Sort Prop
  with cbor_items_mind := Induction for cbor_items Sort Prop
  with cbor_pairs_mind := Induction for cbor_pairs Sort Prop.
Combined Scheme cbor_grammar_ind from cbor_item_mind, cbor_items_mind, cbor_pairs_mind.

(** ** Initial bytes *)
Lemma ib_split (major minor : Z) :
  0 <= minor < 32 ->
  Z.shiftr (major * 32 + minor) 5 = major /\ Z.land (major * 32 + minor) 31 = minor.
Proof.
  intros ?. change 31 with (Z.ones 5).
  rewrite Z.shiftr_div_pow2, Z.land_ones by lia. change (2 ^ 5) with 32. div_lia.
Qed.

Lemma ib_join (ib : Z) :
  Z.shiftr ib 5 * 32 + Z.land ib 31 = ib /\ 0 <= Z.land ib 31 < 32.
Proof.
  change 31 with (Z.ones 5). rewrite Z.land_ones, Z.shiftr_div_pow2 by lia.
  change (2 ^ 5) with 32. div_lia.
Qed.

Lemma ib_byte (major minor : Z) :
  0 <= major < 8 -> 0 <= minor < 32 ->
  byte_val (byte_of_Z (major * 32 + minor)) = major * 32 + minor.
Proof. intros. rewrite byte_val_of_Z, Z.mod_small; lia. Qed.

Lemma cbor_head_blen major n h : cbor_head major n h -> 1 <= blen h.
Proof.
  destruct 1; rewrite ?blen_cons, ?blen_app, ?blen_be_bytes; unfold blen; simpl; lia.
Qed.

Lemma cbor_head_value major n h : cbor_head major n h -> 0 <= n < 2 ^ 32.
Proof. destruct 1; lia. Qed.

(** ** The length reader and the heads of the grammar *)

(** The part of a head after its initial byte. *)
Inductive cbor_tail : Z -> Z -> buffer -> Prop :=
| tail_imm n : 0 <= n < 24 -> cbor_tail n n []
| tail_1 n : 0 <= n < 2 ^ 8 -> cbor_tail 24 n (be_bytes 1 n)
| tail_2 n : 0 <= n < 2 ^ 16 -> cbor_tail 25 n (be_bytes 2 n)
| tail_4 n : 0 <= n < 2 ^ 32 -> cbor_tail 26 n (be_bytes 4 n)
| tail_8 n : 0 <= n < 2 ^ 32 -> cbor_tail 27 n (be_bytes 4 0 ++ be_bytes 4 n).

Lemma cbor_head_tail major n h :
  cbor_head major n h <->
  exists minor tl, h = byte_of_Z (major * 32 + minor) :: tl /\ cbor_tail minor n tl.
Proof.
  split.
  - destruct 1; eexists _, _; (split; [reflexivity|by constructor]).
  - intros (minor & tl & -> & Ht). destruct Ht; by constructor.
Qed.

Lemma cbor_tail_minor minor n tl : cbor_tail minor n tl -> 0 <= minor < 28.
Proof. destruct 1; lia. Qed.

Lemma cborReadLength_tail minor n tl pre post :
  cbor_tail minor n tl ->
  cborReadLength (pre ++ tl ++ post) (blen pre) minor = Ok (n, blen pre + blen tl).
Proof.
  intros Ht. pose proof (blen_nonneg post).
  destruct Ht as [n Hn|n Hn|n Hn|n Hn|n Hn]; unfold cborReadLength;
    cbn [Z.ltb Z.eqb Z.compare Pos.compare Pos.compare_cont Pos.eqb].
  all: rewrite ?Z.gtb_ltb, ?(proj2 (Z.ltb_ge _ _)) by
    (autorewrite with bufs; lia).
  - rewrite (proj2 (Z.ltb_lt _ _)) by lia. do 2 f_equal. unfold blen; cbn; lia.
  - cbn [throw_if]. rewrite subarray_mid, be_val_bytes, Z.mod_small
      by (rewrite ?blen_be_bytes; try reflexivity; lia).
    by rewrite blen_be_bytes.
  - cbn [throw_if]. rewrite readUInt16BE_mid by (done || lia). by rewrite blen_be_bytes.
  - cbn [throw_if]. rewrite readUInt32BE_mid by (done || lia). by rewrite blen_be_bytes.
  - cbn [throw_if]. rewrite <-!app_assoc, readUInt32BE_mid by (done || lia). cbn [throw_if Z.eqb negb].
    rewrite app_assoc, readUInt32BE_mid by (autorewrite with bufs; lia).
    by autorewrite with bufs.
Qed.

Lemma cborReadLength_tail_inv buf pos minor n pos' :
  0 <= pos -> 0 <= minor -> cborReadLength buf pos minor = Ok (n, pos') -> pos <= blen buf ->
  cbor_tail minor n (subarray buf pos pos') /\ pos <= pos' <= blen buf.
Proof.
  intros Hp Hm H Hb. unfold cborReadLength in H.
  repeat case_match; inv_ok; bool_to_prop; subst.
  - split; [rewrite subarray_nil; by constructor|lia].
  - destruct (be_bytes_subarray buf pos (pos + 1) 1) as [E ?]; [lia..|].
    split; [|lia]. unfold readUInt16BE, readUInt32BE. rewrite <-E at 2. by constructor.
  - destruct (be_bytes_subarray buf pos (pos + 2) 2) as [E ?]; [lia..|].
    split; [|lia]. unfold readUInt16BE, readUInt32BE. rewrite <-E at 2. by constructor.
  - destruct (be_bytes_subarray buf pos (pos + 4) 4) as [E ?]; [lia..|].
    split; [|lia]. unfold readUInt16BE, readUInt32BE. rewrite <-E at 2. by constructor.
  - destruct (be_bytes_subarray buf pos (pos + 4) 4) as [E1 _]; [lia..|].
    destruct (be_bytes_subarray buf (pos + 4) (pos + 8) 4) as [E2 ?]; [lia..|].
    split; [|lia]. rewrite (subarray_split _ _ (pos + 4)) by lia.
    unfold readUInt32BE in *. replace (pos + 4 + 4) with (pos + 8) in * by lia.
    rewrite <-E1. match goal with H : be_val _ = 0 |- _ => rewrite H end.
    rewrite <-E2 at 2. by constructor.
Qed.

(** ** The loops *)
Section loops.
Context (buf : buffer) (rd : Z -> result exn (cbor * Z)).

(** What the recursive call gives: an item of the grammar, and progress. *)
Definition reads_item (D : nat) : Prop := forall pos v pos',
  0 <= pos -> rd pos = Ok (v, pos') ->
  pos < pos' <= blen buf /\ exists d, D = S d /\ cbor_item d (subarray buf pos pos') v.

Lemma cborReadArray_sound D k n pos l pos' :
  reads_item D -> 0 <= pos <= blen buf -> 0 <= n ->
  cborReadArray rd k n pos = Ok (l, pos') ->
  pos <= pos' <= blen buf /\ Z.of_nat (length l) = n /\
  cbor_items D (subarray buf pos pos') l.
Proof.
  intros Hrd. revert n pos l pos'.
  induction k as [|k IH]; intros n pos l pos' Hpos Hn H; simpl in H;
    destruct (n <=? 0) eqn:E; bool_to_prop; try discriminate H.
  1,2: inv_ok; split; [lia|]; split; [simpl; lia|]; rewrite subarray_nil; constructor.
  apply bind_Ok in H as ([x p1] & Hx & H). apply bind_Ok in H as ([xs p2] & Hxs & H).
  injection H as <- <-. apply Hrd in Hx as (? & d & -> & Hx); [|lia].
  apply IH in Hxs as (? & Hlen & Hxs); [|lia..].
  split; [lia|]. split; [simpl; lia|].
  rewrite (subarray_split _ _ p1) by lia. by constructor.
Qed.

Lemma cborReadMap_sound D k n pos m m' pos' :
  reads_item D -> 0 <= pos <= blen buf -> 0 <= n ->
  cborReadMap rd k n pos m = Ok (m', pos') ->
  pos <= pos' <= blen buf /\ exists l, Z.of_nat (length l) = n /\
  m' = cmap_of l m /\ cbor_pairs D (subarray buf pos pos') l.
Proof.
  intros Hrd. revert n pos m.
  induction k as [|k IH]; intros n pos m Hpos Hn H; simpl in H;
    destruct (n <=? 0) eqn:E; bool_to_prop; try discriminate H.
  1,2: inv_ok; split; [lia|]; exists []; split; [simpl; lia|]; split; [done|];
       rewrite subarray_nil; constructor.
  apply bind_Ok in H as ([x p1] & Hx & H). apply bind_Ok in H as ([y p2] & Hy & H).
  apply Hrd in Hx as (? & d & -> & Hx); [|lia].
  apply Hrd in Hy as (? & d' & [= <-] & Hy); [|lia].
  apply IH in H as (? & l & Hlen & -> & Hl); [|lia..].
  split; [lia|]. exists ((x, y) :: l). split; [simpl; lia|]. split; [done|].
  rewrite (subarray_split _ _ p1), (subarray_split _ p1 p2) by lia. by constructor.
Qed.

(** Every iteration consumes a byte, so one unit of fuel per byte is enough. *)
Lemma cborReadArray_terminates D k n pos :
  reads_item D -> (forall p, 0 <= p -> terminates (rd p)) ->
  0 <= pos <= blen buf -> blen buf - pos < Z.of_nat k ->
  terminates (cborReadArray rd k n pos).
Proof.
  intros Hrd Ht. revert n pos.
  induction k as [|k IH]; intros n pos Hpos Hk; [lia|]. simpl.
  case_match; [done|]. apply bind_terminates; [by apply Ht; lia|].
  intros [x p1] H1. apply Hrd in H1 as [? _]; [|lia].
  apply bind_terminates; [apply IH; lia|]. by intros [? ?].
Qed.

Lemma cborReadMap_terminates D k n pos m :
  reads_item D -> (forall p, 0 <= p -> terminates (rd p)) ->
  0 <= pos <= blen buf -> blen buf - pos < Z.of_nat k ->
  terminates (cborReadMap rd k n pos m).
Proof.
  intros Hrd Ht. revert n pos m.
  induction k as [|k IH]; intros n pos m Hpos Hk; [lia|]. simpl.
  case_match; [done|]. apply bind_terminates; [by apply Ht; lia|].
  intros [x p1] H1. apply Hrd in H1 as [? _]; [|lia].
  apply bind_terminates; [by apply Ht; lia|].
  intros [y p2] H2. apply Hrd in H2 as [? _]; [|lia]. apply IH; lia.
Qed.
End loops.

(** ** Items: what is read is in the grammar *)
Lemma major_range ib : 0 <= ib < 256 -> 0 <= Z.shiftr ib 5 < 8.
Proof. intros. rewrite Z.shiftr_div_pow2 by lia. change (2 ^ 5) with 32. div_lia. Qed.

Lemma read_head buf pos n p :
  0 <= pos < blen buf ->
  cborReadLength buf (pos + 1) (Z.land (default 0 (buf_get buf pos)) 31) = Ok (n, p) ->
  pos < p <= blen buf /\
  cbor_head (Z.shiftr (default 0 (buf_get buf pos)) 5) n (subarray buf pos p) /\
  0 <= Z.shiftr (default 0 (buf_get buf pos)) 5 < 8 /\ 0 <= n.
Proof.
  intros Hpos H. destruct (buf_get_Some buf pos Hpos) as (ib & Hib & Hr).
  rewrite Hib in *. simpl in *. destruct (ib_join ib) as [Hj ?].
  apply cborReadLength_tail_inv in H as [Ht ?]; [|lia..].
  assert (cbor_head (Z.shiftr ib 5) n (subarray buf pos p)) as Hh.
  { apply cbor_head_tail. eexists _, _. split; [|exact Ht].
    rewrite (subarray_split _ _ (pos + 1)), (subarray_get _ _ _ Hib) by lia. by rewrite Hj. }
  split; [lia|]. split; [done|]. split; [by apply major_range|].
  by apply cbor_head_value in Hh as [? ?].
Qed.

Lemma cborReadItem_sound fuel buf pos depth v pos' :
  0 <= pos -> cborReadItem fuel buf pos depth = Ok (v, pos') ->
  pos < pos' <= blen buf /\ depth <= 16 /\
  cbor_item (Z.to_nat (16 - depth)) (subarray buf pos pos') v.
Proof.
  revert pos depth v pos'. induction fuel as [|fuel IH]; intros pos depth v pos' Hpos H;
    [done|]. cbn [cborReadItem] in H. unfold CBOR_MAX_DEPTH in H.
  apply throw_if_Ok in H as [Hd H]. apply throw_if_Ok in H as [Hp H].
  apply bind_Ok in H as ([n p] & Hl & H). bool_to_prop.
  apply read_head in Hl as (? & Hh & Hm & Hn); [|lia].
  assert (reads_item buf (fun p => cborReadItem fuel buf p (depth + 1))
            (Z.to_nat (16 - depth))) as Hrd.
  { intros q w q' Hq Hw. apply IH in Hw as (? & ? & ?); [|done].
    split; [done|]. exists (Z.to_nat (16 - (depth + 1))). split; [lia|done]. }
  revert Hh Hm H. generalize (Z.shiftr (default 0 (buf_get buf pos)) 5) as major.
  intros major Hh Hm H.
  repeat (case_match; bool_to_prop; [subst|]); try discriminate H.
  3,4: apply throw_if_Ok in H as [Ho H]; bool_to_prop.
  1-4: injection H as <- <-.
  - split; [lia|]. split; [lia|]. by constructor.
  - split; [lia|]. split; [lia|]. by constructor.
  - split; [lia|]. split; [lia|]. rewrite (subarray_split _ _ p) by lia.
    constructor. rewrite blen_subarray by lia. by replace (p + n - p) with n by lia.
  - split; [lia|]. split; [lia|]. rewrite (subarray_split _ _ p) by lia.
    constructor. rewrite blen_subarray by lia. by replace (p + n - p) with n by lia.
  - apply bind_Ok in H as ([l p'] & Hl & H). inv_ok.
    eapply cborReadArray_sound in Hl as (? & <- & Hl); [|done|lia..].
    split; [lia|]. split; [lia|]. rewrite (subarray_split _ _ p) by lia. by constructor.
  - apply bind_Ok in H as ([m p'] & Hm' & H). inv_ok.
    eapply cborReadMap_sound in Hm' as (? & l & <- & -> & Hl); [|done|lia..].
    split; [lia|]. split; [lia|]. rewrite (subarray_split _ _ p) by lia. by constructor.
Qed.

Lemma cborReadItem_reads fuel buf depth :
  reads_item buf (fun p => cborReadItem fuel buf p (depth + 1)) (Z.to_nat (16 - depth)).
Proof.
  intros q w q' Hq Hw. apply cborReadItem_sound in Hw as (? & ? & ?); [|done].
  split; [done|]. exists (Z.to_nat (16 - (depth + 1))). split; [lia|done].
Qed.

Lemma cborReadLength_terminates buf pos minor : terminates (cborReadLength buf pos minor).
Proof. unfold cborReadLength. repeat case_match; step_terminates. Qed.

Lemma cborReadItem_terminates fuel buf pos depth :
  0 <= pos -> 0 < Z.of_nat fuel -> 17 - depth < Z.of_nat fuel ->
  terminates (cborReadItem fuel buf pos depth).
Proof.
  revert pos depth. induction fuel as [|fuel IH]; intros pos depth Hpos H0 Hf; [lia|].
  cbn [cborReadItem]. unfold CBOR_MAX_DEPTH.
  apply throw_if_terminates; [done|]. intros Hd.
  apply throw_if_terminates; [done|]. intros Hp. bool_to_prop.
  apply bind_terminates; [apply cborReadLength_terminates|].
  intros [n p] Hl. apply read_head in Hl as (? & _ & _ & Hn); [|lia].
  assert (forall q, 0 <= q -> terminates (cborReadItem fuel buf q (depth + 1))) as Hrd.
  { intros q Hq. apply IH; lia. }
  repeat case_match; step_terminates;
    first [eapply cborReadArray_terminates | eapply cborReadMap_terminates].
  all: try apply cborReadItem_reads; try done; unfold blen in *; lia.
Qed.

(** ** Every encoding of the grammar is accepted *)
Lemma cbor_item_blen d b v : cbor_item d b v -> 1 <= blen b.
Proof.
  destruct 1; rewrite ?blen_app;
    match goal with H : cbor_head _ _ _ |- _ => apply cbor_head_blen in H end;
    try pose proof (blen_nonneg b); lia.
Qed.

Lemma cbor_items_length d b l : cbor_items d b l -> Z.of_nat (length l) <= blen b.
Proof.
  induction 1; [done|]. rewrite blen_app. simpl.
  apply cbor_item_blen in H. lia.
Qed.

Lemma cbor_pairs_length d b l : cbor_pairs d b l -> Z.of_nat (length l) <= blen b.
Proof.
  induction 1; [done|]. rewrite !blen_app. simpl.
  apply cbor_item_blen in H, H0. lia.
Qed.

Definition item_read d b v : Prop := forall fuel depth pre post,
  (d < fuel)%nat -> depth + Z.of_nat d <= 16 ->
  cborReadItem fuel (pre ++ b ++ post) (blen pre) depth = Ok (v, blen pre + blen b).
Definition items_read d b l : Prop := forall fuel depth k pre post,
  (d <= fuel)%nat -> depth + Z.of_nat d <= 17 -> (length l <= k)%nat ->
  cborReadArray (fun p => cborReadItem fuel (pre ++ b ++ post) p depth) k
    (Z.of_nat (length l)) (blen pre) = Ok (l, blen pre + blen b).
Definition pairs_read d b l : Prop := forall fuel depth k pre post m,
  (d <= fuel)%nat -> depth + Z.of_nat d <= 17 -> (length l <= k)%nat ->
  cborReadMap (fun p => cborReadItem fuel (pre ++ b ++ post) p depth) k
    (Z.of_nat (length l)) (blen pre) m = Ok (cmap_of l m, blen pre + blen b).

(** The start of an item: guards pass and the head is read. *)
Lemma cborReadItem_start h major n pre post depth :
  cbor_head major n h -> 0 <= major < 8 -> depth <= 16 ->
  exists ib, buf_get (pre ++ h ++ post) (blen pre) = Some ib /\
    Z.shiftr ib 5 = major /\ (depth >? 16) = false /\
    (blen pre >=? blen (pre ++ h ++ post)) = false /\
    cborReadLength (pre ++ h ++ post) (blen pre + 1) (Z.land ib 31)
      = Ok (n, blen pre + blen h).
Proof.
  intros Hh Hm Hd. pose proof (cbor_head_blen _ _ _ Hh). pose proof (blen_nonneg post).
  apply cbor_head_tail in Hh as (minor & tl & -> & Ht).
  pose proof (cbor_tail_minor _ _ _ Ht).
  exists (major * 32 + minor). split.
  { rewrite <-app_comm_cons, buf_get_mid, ib_byte by lia. done. }
  destruct (ib_split major minor) as [-> ->]; [lia|]. split; [done|].
  split; [rewrite Z.gtb_ltb; apply Z.ltb_ge; lia|].
  split; [rewrite Z.geb_leb, !blen_app; apply Z.leb_gt; lia|].
  replace (pre ++ (byte_of_Z (major * 32 + minor) :: tl) ++ post)
    with ((pre ++ [byte_of_Z (major * 32 + minor)]) ++ tl ++ post) by (by rewrite <-app_assoc).
  replace (blen pre + 1) with (blen (pre ++ [byte_of_Z (major * 32 + minor)]))
    by (rewrite blen_app; done).
  rewrite (cborReadLength_tail _ _ _ _ _ Ht), blen_app, (blen_cons _ tl).
  change (blen [_]) with 1. do 2 f_equal. lia.
Qed.

Lemma app_assoc_head (pre h b post : buffer) :
  pre ++ (h ++ b) ++ post = pre ++ h ++ b ++ post.
Proof. by rewrite <-app_assoc. Qed.

(** Reads the head of the item in the goal; leaves the case of its major type. *)
Ltac item_start Hh pre post depth :=
  let ib := fresh "ib" in
  destruct (cborReadItem_start _ _ _ pre post depth Hh)
    as (ib & Hib & Hmaj & Hd & Hp & Hl); [lia|lia|];
  cbn [cborReadItem]; unfold CBOR_MAX_DEPTH;
  rewrite Hd, Hp, Hib; cbn [throw_if default id];
  rewrite Hl; cbn [mbind result_bind]; rewrite Hmaj;
  cbn [Z.eqb Z.compare Pos.eqb].

Lemma item_read_span d b h major v (val : buffer -> cbor) :
  cbor_head major (blen b) h ->
  (major = 2 /\ val = CBytes) \/ (major = 3 /\ val = (fun b => CText (utf8_decode b))) ->
  v = val b -> item_read d (h ++ b) v.
Proof.
  intros Hh Hval -> [|fuel] depth pre post Hf Hdep; [lia|].
  pose proof (blen_nonneg post).
  assert ((blen pre + blen h + blen b >? blen (pre ++ h ++ b ++ post)) = false) as Hg.
  { rewrite Z.gtb_ltb. apply Z.ltb_ge. rewrite !blen_app. lia. }
  assert (subarray (pre ++ h ++ b ++ post) (blen pre + blen h) (blen pre + blen h + blen b) = b)
    as Hs by (rewrite app_assoc; apply subarray_mid; rewrite ?blen_app; lia).
  rewrite app_assoc_head.
  destruct Hval as [[-> ->]|[-> ->]]; item_start Hh pre (b ++ post) depth;
    rewrite Hg; cbn [throw_if]; by rewrite Hs, blen_app, Z.add_assoc.
Qed.

Lemma item_read_array d h b l :
  cbor_head 4 (Z.of_nat (length l)) h -> cbor_items d b l -> items_read d b l ->
  item_read d (h ++ b) (CArray l).
Proof.
  intros Hh Hb IH [|fuel] depth pre post Hf Hdep; [lia|].
  rewrite app_assoc_head. item_start Hh pre (b ++ post) depth.
  pose proof (cbor_items_length _ _ _ Hb).
  specialize (IH fuel (depth + 1) (S (length (pre ++ h ++ b ++ post))) (pre ++ h) post).
  rewrite <-app_assoc, blen_app in IH. rewrite IH.
  - cbn [mbind result_bind]. by rewrite blen_app, Z.add_assoc.
  - lia.
  - lia.
  - rewrite !length_app. unfold blen in *. lia.
Qed.

Lemma item_read_map d h b l :
  cbor_head 5 (Z.of_nat (length l)) h -> cbor_pairs d b l -> pairs_read d b l ->
  item_read d (h ++ b) (CMap (cmap_of l [])).
Proof.
  intros Hh Hb IH [|fuel] depth pre post Hf Hdep; [lia|].
  rewrite app_assoc_head. item_start Hh pre (b ++ post) depth.
  pose proof (cbor_pairs_length _ _ _ Hb).
  specialize (IH fuel (depth + 1) (S (length (pre ++ h ++ b ++ post))) (pre ++ h) post []).
  rewrite <-app_assoc, blen_app in IH. rewrite IH.
  - cbn [mbind result_bind]. by rewrite blen_app, Z.add_assoc.
  - lia.
  - lia.
  - rewrite !length_app. unfold blen in *. lia.
Qed.

Lemma items_read_cons d b bs x l :
  item_read d b x -> items_read (S d) bs l -> items_read (S d) (b ++ bs) (x :: l).
Proof.
  intros IHx IHl fuel depth [|k] pre post Hf Hdep Hk; [simpl in Hk; lia|].
  cbn [cborReadArray length]. rewrite (proj2 (Z.leb_gt _ _)) by lia.
  rewrite app_assoc_head, (IHx fuel depth pre (bs ++ post)) by lia.
  cbn [mbind result_bind].
  specialize (IHl fuel depth k (pre ++ b) post).
  rewrite <-app_assoc, blen_app in IHl.
  replace (Z.of_nat (S (length l)) - 1) with (Z.of_nat (length l)) by lia.
  rewrite IHl by (simpl in *; lia). cbn [mbind result_bind].
  by rewrite blen_app, Z.add_assoc.
Qed.

Lemma pairs_read_cons d bk bv bs key v l :
  item_read d bk key -> item_read d bv v -> pairs_read (S d) bs l ->
  pairs_read (S d) (bk ++ bv ++ bs) ((key, v) :: l).
Proof.
  intros IHx IHy IHl fuel depth [|k] pre post m Hf Hdep Hk; [simpl in Hk; lia|].
  cbn [cborReadMap length]. rewrite (proj2 (Z.leb_gt _ _)) by lia.
  rewrite app_assoc_head, (IHx fuel depth pre ((bv ++ bs) ++ post)) by lia.
  cbn [mbind result_bind].
  specialize (IHy fuel depth (pre ++ bk) (bs ++ post)).
  rewrite <-!app_assoc, blen_app in IHy. rewrite <-!app_assoc, IHy by lia.
  cbn [mbind result_bind].
  specialize (IHl fuel depth k (pre ++ bk ++ bv) post (cmap_set m key v)).
  rewrite <-!app_assoc, !blen_app, Z.add_assoc in IHl.
  replace (Z.of_nat (S (length l)) - 1) with (Z.of_nat (length l)) by lia.
  rewrite IHl by (simpl in *; lia). cbn [cmap_of foldl fst snd].
  by rewrite !blen_app, !Z.add_assoc.
Qed.

Lemma cbor_grammar_read :
  (forall d b v, cbor_item d b v -> item_read d b v) /\
  (forall d b l, cbor_items d b l -> items_read d b l) /\
  (forall d b l, cbor_pairs d b l -> pairs_read d b l).
Proof.
  apply cbor_grammar_ind.
  1,2: intros d n h Hh [|fuel] depth pre post Hf Hdep; [lia|];
       item_start Hh pre post depth; done.
  - intros d b h Hh. by eapply item_read_span; [done|left|].
  - intros d b h Hh. by eapply item_read_span; [done|right|].
  - intros d h b l Hh Hb IH. by apply item_read_array.
  - intros d h b l Hh Hb IH. by apply item_read_map.
  - intros d fuel depth [|k] pre post Hf Hdep Hk; simpl; by rewrite Z.add_0_r.
  - intros. by apply items_read_cons.
  - intros d fuel depth [|k] pre post m Hf Hdep Hk; simpl; by rewrite Z.add_0_r.
  - intros. by apply pairs_read_cons.
Qed.

(** ** The properties of the decoder *)

Lemma cborDecodeFirst_terminates (buf : buffer) : terminates (cborDecodeFirst buf).
Proof.
  unfold cborDecodeFirst. apply cborReadItem_terminates; unfold cbor_fuel; lia.
Qed.

Lemma cborDecodeFirst_Ok (buf : buffer) (v : cbor) (e : Z) :
  cborDecodeFirst buf = Ok (v, e) <->
  0 <= e <= blen buf /\ cbor_item 16 (subarray buf 0 e) v.
Proof.
  unfold cborDecodeFirst. split.
  - intros H. apply cborReadItem_sound in H as (? & _ & H); [|lia]. split; [lia|].
    by replace (Z.to_nat (16 - 0)) with 16%nat in H by reflexivity.
  - intros [He Hi]. pose proof (blen_subarray buf 0 e ltac:(lia) ltac:(lia)) as Hb.
    pose proof (proj1 cbor_grammar_read _ _ _ Hi cbor_fuel 0 [] (subarray buf e (blen buf))
      ltac:(unfold cbor_fuel; lia) ltac:(lia)) as H.
    rewrite app_nil_l, <-subarray_split, subarray_all in H by lia.
    rewrite Hb in H. change (blen []) with 0 in H.
    rewrite H. do 2 f_equal. lia.
Qed.

(** C20. The decoder decides the grammar of definite-length CBOR: it always ends,
    it returns a value and an end position when the bytes before that position
    encode that value, nested at most [CBOR_MAX_DEPTH] deep, and it throws when
    no prefix of the buffer encodes any value. *)
Theorem cborDecodeFirst_spec (buf : buffer) :
  match cborDecodeFirst buf with
  | Ok (v, e) => 0 <= e <= blen buf /\ cbor_item 16 (subarray buf 0 e) v
  | Throw err => err <> Diverges /\
      forall v e, 0 <= e <= blen buf -> ~ cbor_item 16 (subarray buf 0 e) v
  end.
Proof.
  destruct (cborDecodeFirst buf) as [[v e]|err] eqn:E.
  - by apply cborDecodeFirst_Ok.
  - split; [intros ->; by apply (cborDecodeFirst_terminates buf)|].
    intros v e He Hi. pose proof (proj2 (cborDecodeFirst_Ok buf v e) (conj He Hi)). congruence.
Qed.

(** No buffer has two readings: if two encodings are prefixes of the same
    buffer, they are the same bytes and the same value. *)
Theorem cbor_unambiguous (b1 b2 r1 r2 : buffer) (v1 v2 : cbor) :
  cbor_item 16 b1 v1 -> cbor_item 16 b2 v2 -> b1 ++ r1 = b2 ++ r2 -> b1 = b2 /\ v1 = v2.
Proof.
  intros H1 H2 E.
  pose proof (proj1 cbor_grammar_read _ _ _ H1 18%nat 0 [] r1 ltac:(lia) ltac:(lia)) as R1.
  pose proof (proj1 cbor_grammar_read _ _ _ H2 18%nat 0 [] r2 ltac:(lia) ltac:(lia)) as R2.
  simpl app in *. rewrite E, R2 in R1. injection R1 as -> Hb. split; [|done].
  apply (app_inj_1 b1 b2 r1 r2) in E as [? _]; [done|]. unfold blen in *. lia.
Qed.

Lemma cbor_unambiguous_witness :
  cbor_item 16 [x18; x05] (CNum 5) /\ [x18; x05] = [x18; x05].
Proof.
  assert (cbor_item 16 [x18; x05] (CNum 5)) as H.
  { apply item_uint, (head_1 0 5). lia. }
  split; [exact H|].
  apply (cbor_unambiguous [x18; x05] [x18; x05] [xff] [xff] (CNum 5) (CNum 5) H H).
  reflexivity.
Defined.

(** A map with a duplicate text key, read as [Map] reads it. *)
Example cbor_sample :
  cborDecodeFirst [xa2; x61; x61; x01; x61; x61; x21; xff]
  = Ok (CMap [(CText (units "a"), CNum (-2))], 7).
Proof. vm_compute. reflexivity. Qed.

Example cbor_too_deep :
  cborDecodeFirst (replicate 17 x81 ++ [x00]) = Throw (Err "cbor: max depth exceeded").
Proof. vm_compute. reflexivity. Qed.

(** Clients reason with the lemmas above, not with the body. *)
#[global] Opaque cborDecodeFirst.
