(* ===== verification/Der.v ===== *)
(** * The DER walk of [token-issuer/appattest.js]

    [derReadTLV], [encodeOid], [findExtensionValue] and [parseAppleNonce]. The
    length of a long-form TLV is computed with [<<] and [|], so it is a signed
    32-bit number, and a position can leave the buffer on the left, where reading
    a byte gives [undefined]; both are modelled, so a length is an [option Z]
    ([None]: [undefined] or [NaN]) that may be negative.

    The file ends with DER itself as a tree, its encoding, and the search
    [find_ext] over trees; [DerFacts] shows that the byte walk implements it. *)
From S2P Require Import Prelude JsText.
From Stdlib Require Import Ascii.

(** ** TLVs *)
Record der_tlv := Tlv { t_tag : option Z; t_len : option Z; t_start : Z }.

(** Offset just past the content: [contentStart + len]. *)
Definition t_end (t : der_tlv) : option Z := Z.add (t_start t) <$> t_len t.

Definition bits (o : option Z) : Z := default 0 o.

(** [for (i < nBytes) len = (len << 8) | buf[p++]]. *)
Fixpoint der_long_len (buf : buffer) (n : nat) (p len : Z) : Z :=
  match n with
  | O => len
  | S n' => der_long_len buf n' (p + 1) (js_or (js_shl len 8) (bits (buf_get buf p)))
  end.

Definition derReadTLV (buf : buffer) (off : Z) : result exn der_tlv :=
  throw_when off + 1 >? blen buf with Err "der: truncated tag" ;;
  let tag := buf_get buf off in
  let p := off + 1 in
  throw_when p >=? blen buf with Err "der: truncated length" ;;
  let len := buf_get buf p in
  let p := p + 1 in
  '(len, p) ←
    (if negb (js_and (bits len) 128 =? 0) then
       let nBytes := js_and (bits len) 127 in
       throw_when (nBytes =? 0) || (nBytes >? 4) with Err "der: bad long-form length" ;;
       throw_when p + nBytes >? blen buf with Err "der: truncated long length" ;;
       Ok (Some (der_long_len buf (Z.to_nat nBytes) p 0), p + nBytes)
     else Ok (len, p));
  throw_when (match len with Some l => p + l >? blen buf | None => false end)
    with Err "der: content overruns" ;;
  Ok (Tlv tag len p).

(** ** Object identifiers *)

(** The base-128 digits of an arc, from the last one on: [v >>= 7] until it is
    not positive. An arc below 2^31 has at most 5. *)
Fixpoint oid_groups (fuel : nat) (v : Z) (stack : list Z) : list Z :=
  match fuel with
  | O => stack
  | S f =>
      if v >? 0 then oid_groups f (js_shr v 7) (js_or (js_and v 127) 128 :: stack)
      else stack
  end.
Definition oid_arc (v : Z) : list Z := oid_groups 5 (js_shr v 7) [js_and v 127].

Definition encodeOid (dotted : string) : result exn buffer :=
  let parts := parse_int <$> js_split "."%char dotted in
  match parts with
  | first :: second :: rest =>
      let head := match first, second with Some a, Some b => 40 * a + b | _, _ => 0 end in
      Ok (byte_of_Z <$> head :: (rest ≫= fun v => oid_arc (bits v)))
  | _ => Throw (Err "oid: too short")
  end.

(** ** The search for an extension *)

(** The siblings after a matching OID, up to [cEnd]: the first OCTET STRING. *)
Fixpoint find_octets (k : nat) (buf : buffer) (sib cEnd : option Z) : result exn (option buffer) :=
  match sib, cEnd with
  | Some sib, Some e =>
      if negb (sib <? e) then Ok None
      else match k with
      | O => Throw Diverges
      | S k' =>
          s ← derReadTLV buf sib;
          if decide (t_tag s = Some 4) then
            Ok (Some (js_subarray buf (t_start s) (t_start s + bits (t_len s))))
          else find_octets k' buf (t_end s) cEnd
      end
  | _, _ => Ok None
  end.

(** The body of the [try]: a SEQUENCE that begins with the OID sought. *)
Definition match_extension (k : nat) (buf oid : buffer) (cStart : Z) (cEnd : option Z) :
    result exn (option buffer) :=
  inner ← derReadTLV buf cStart;
  if decide (t_tag inner = Some 6 /\ t_len inner = Some (blen oid) /\
             js_subarray buf (t_start inner) (t_start inner + bits (t_len inner)) = oid)
  then find_octets k buf (t_end inner) cEnd
  else Ok None.

(** [try { ... } catch { }]: no exception leaves, only divergence. *)
Definition catch {A : Type} (r : result exn (option A)) : result exn (option A) :=
  match r with
  | Throw Diverges => Throw Diverges
  | Throw _ => Ok None
  | Ok v => Ok v
  end.

(** [walk(buf, off, end, depth)], its loop included; the result is what
    [found.value] is left with. *)
Fixpoint walk (k : nat) (buf oid : buffer) (off end_ depth : Z) : result exn (option buffer) :=
  match k with
  | O => Throw Diverges
  | S k' =>
      if (depth >? 24) || negb (off <? end_) then Ok None
      else match derReadTLV buf off with
      | Throw _ => Ok None
      | Ok tlv =>
          let cStart := t_start tlv in
          let cEnd := t_end tlv in
          hit ← (if decide (t_tag tlv = Some 48)
                 then catch (match_extension k' buf oid cStart cEnd) else Ok None);
          match hit with
          | Some v => Ok (Some v)
          | None =>
              deep ← (match cEnd with
                      | Some e =>
                          if negb (js_and (bits (t_tag tlv)) 32 =? 0)
                          then walk k' buf oid cStart e (depth + 1) else Ok None
                      | None => Ok None
                      end);
              match deep, cEnd with
              | Some v, _ => Ok (Some v)
              | None, Some off' => walk k' buf oid off' end_ depth
              | None, None => Ok None
              end
          end
      end
  end.

(** Fuel for 25 levels, at each of which a loop can be at [n + 1] offsets before it
    is where it has been: enough for every walk that ends ([DerWalk]). *)
Definition walk_fuel (n : nat) : nat := 26 * (n + 3).
Definition findExtensionValue (certDer : buffer) (oidDotted : string) :
    result exn (option buffer) :=
  oid ← encodeOid oidDotted;
  walk (walk_fuel (length certDer)) certDer oid 0 (blen certDer) 0.

(** ** The Apple nonce extension *)
Definition parseAppleNonce (extn : buffer) : result exn buffer :=
  seq ← derReadTLV extn 0;
  throw_when bool_decide (t_tag seq <> Some 48) with Err "nonce: outer not SEQUENCE" ;;
  ctx ← derReadTLV extn (t_start seq);
  throw_when bool_decide (t_tag ctx <> Some 161) with Err "nonce: expected [1] context tag" ;;
  oct ← derReadTLV extn (t_start ctx);
  throw_when bool_decide (t_tag oct <> Some 4) with Err "nonce: inner not OCTET STRING" ;;
  throw_when bool_decide (t_len oct <> Some 32) with Err "nonce: not 32 bytes" ;;
  Ok (js_subarray extn (t_start oct) (t_start oct + bits (t_len oct))).

(** ** DER as a tree *)

(** The shortest definite length of [n] content bytes, for [n] below 2^31. *)
Definition der_len (n : Z) : buffer :=
  if n <? 2 ^ 7 then be_bytes 1 n
  else if n <? 2 ^ 8 then byte_of_Z 129 :: be_bytes 1 n
  else if n <? 2 ^ 16 then byte_of_Z 130 :: be_bytes 2 n
  else if n <? 2 ^ 24 then byte_of_Z 131 :: be_bytes 3 n
  else byte_of_Z 132 :: be_bytes 4 n.
Definition tlv (tag : Z) (content : buffer) : buffer :=
  byte_of_Z tag :: der_len (blen content) ++ content.

Inductive der : Type :=
| Prim (tag : Z) (content : buffer)
| Cons (tag : Z) (children : list der).

Fixpoint der_enc (t : der) : buffer :=
  match t with
  | Prim tag c => tlv tag c
  | Cons tag l => tlv tag (concat (map der_enc l))
  end.
Definition forest_enc (l : list der) : buffer := concat (map der_enc l).

(** Bit 6 of the tag says whether a node is constructed. *)
Fixpoint der_wf (t : der) : Prop :=
  match t with
  | Prim tag _ => 0 <= tag < 256 /\ Z.land tag 32 = 0
  | Cons tag l =>
      0 <= tag < 256 /\ Z.land tag 32 <> 0 /\
      (fix wf_all l := match l with [] => True | t :: l => der_wf t /\ wf_all l end) l
  end.
Fixpoint forest_wf (l : list der) : Prop :=
  match l with [] => True | t :: l => der_wf t /\ forest_wf l end.

(** [extnValue] of [Extension ::= SEQUENCE { OID, [BOOLEAN], OCTET STRING }]:
    the first OCTET STRING after an OID equal to [oid]. *)
Fixpoint first_octets (l : list der) : option buffer :=
  match l with
  | [] => None
  | Prim tag v :: l' => if tag =? 4 then Some v else first_octets l'
  | Cons _ _ :: l' => first_octets l'
  end.
Definition extension_value (oid : buffer) (l : list der) : option buffer :=
  match l with
  | Prim tag o :: l' => if (tag =? 6) && bool_decide (o = oid) then first_octets l' else None
  | _ => None
  end.

(** The first extension with that OID, in document order, in the first [d]
    levels below the given one. *)
Fixpoint find_ext (oid : buffer) (d : nat) (t : der) {struct t} : option buffer :=
  match t with
  | Prim _ _ => None
  | Cons tag l =>
      match (if tag =? 48 then extension_value oid l else None) with
      | Some v => Some v
      | None =>
          match d with
          | O => None
          | S d' =>
              (fix first l := match l with
                              | [] => None
                              | t :: l' => match find_ext oid d' t with
                                           | Some v => Some v | None => first l' end
                              end) l
          end
      end
  end.
Fixpoint find_first (oid : buffer) (d : nat) (l : list der) : option buffer :=
  match l with
  | [] => None
  | t :: l' => match find_ext oid d t with Some v => Some v | None => find_first oid d l' end
  end.
