(* ===== verification/DerFacts.v ===== *)
(** * The DER walk refines the search over trees

    Facts about [derReadTLV] (what it returns on an encoded TLV, its bounds),
    the refinement of [findExtensionValue] to [find_ext], its termination and the
    input on which it does not terminate, and the nonce extension. *)
From S2P Require Import Prelude JsText Der.
From Stdlib Require Import Ascii.

(** ** 32-bit arithmetic of the length loop *)
Lemma lor_shift8 a b : 0 <= b < 256 -> Z.lor (a * 256) b = a * 256 + b.
Proof.
  intros Hb. rewrite <-(Z.add_lor_land (a * 256) b).
  assert (Z.land (a * 256) b = 0) as ->; [|lia].
  rewrite <-(Z.mod_small b (2 ^ 8)), <-Z.land_ones by lia.
  rewrite (Z.land_comm b), Z.land_assoc, Z.land_ones by lia.
  by rewrite Z.mod_mul.
Qed.

Lemma js_len_step len v :
  0 <= len -> 0 <= v < 256 -> len * 256 + v < 2 ^ 31 ->
  js_or (js_shl len 8) v = len * 256 + v.
Proof.
  intros ? ? Hb. unfold js_or, js_shl. change (2 ^ 31) with 2147483648 in Hb.
  rewrite Z.shiftl_mul_pow2 by lia. change (2 ^ 8) with 256.
  rewrite !(to_int32_small len), (to_int32_small (len * 256)) by lia.
  rewrite (to_int32_small (len * 256)), (to_int32_small v) by lia.
  rewrite lor_shift8, to_int32_small by lia. done.
Qed.

Lemma subarray_cons (b : buffer) (lo hi v : Z) :
  buf_get b lo = Some v -> lo < hi ->
  subarray b lo hi = byte_of_Z v :: subarray b (lo + 1) hi.
Proof.
  intros Hv ?. pose proof (buf_get_range _ _ _ Hv) as [? _].
  rewrite (subarray_split _ _ (lo + 1)), (subarray_get _ _ _ Hv) by lia. done.
Qed.

Lemma der_long_len_val buf n p len :
  0 <= p -> p + Z.of_nat n <= blen buf -> 0 <= len ->
  len * 256 ^ Z.of_nat n + be_val (subarray buf p (p + Z.of_nat n)) < 2 ^ 31 ->
  der_long_len buf n p len
  = len * 256 ^ Z.of_nat n + be_val (subarray buf p (p + Z.of_nat n)).
Proof.
  revert p len. induction n as [|n IH]; intros p len Hp Hl Hlen Hb; cbn [der_long_len].
  { rewrite Z.add_0_r, subarray_nil. change (be_val []) with 0. lia. }
  destruct (buf_get_Some buf p) as (v & Hv & Hr); [lia|]. rewrite Hv. cbn [bits default id].
  assert (length (subarray buf (p + 1) (p + Z.of_nat (S n))) = n) as Hn
    by (rewrite length_subarray; lia).
  rewrite (subarray_cons _ _ _ _ Hv) in * by lia.
  rewrite be_val_cons, byte_val_of_Z, Z.mod_small, Hn in * by lia.
  pose proof (be_val_range (subarray buf (p + 1) (p + Z.of_nat (S n)))) as Hs.
  rewrite Nat2Z.inj_succ, Z.pow_succ_r in * by lia.
  pose proof (Z.pow_pos_nonneg 256 (Z.of_nat n) ltac:(lia) ltac:(lia)).
  replace (p + Z.succ (Z.of_nat n)) with (p + 1 + Z.of_nat n) in * by lia.
  rewrite js_len_step by nia. rewrite IH; nia.
Qed.

(** ** Reading an encoded TLV *)
Lemma js_and_bits v m : 0 <= v < 256 -> 0 <= m < 256 -> js_and v m = Z.land v m.
Proof.
  intros. unfold js_and. rewrite (to_int32_small v), (to_int32_small m) by lia.
  apply to_int32_small.
  assert (Z.land v m = Z.land v m mod 2 ^ 8) as ->; [|div_lia].
  rewrite <-Z.land_ones, <-Z.land_assoc, (Z.land_comm m), Z.land_assoc, Z.land_ones by lia.
  by rewrite Z.mod_small.
Qed.

(** The initial length byte, for each of its shapes. *)
Lemma len_byte_short v : 0 <= v < 128 -> js_and v 128 = 0.
Proof.
  intros. rewrite js_and_bits by lia.
  rewrite <-(Z.mod_small v (2 ^ 7)), <-Z.land_ones, <-Z.land_assoc by lia.
  change (Z.land (Z.ones 7) 128) with 0. apply Z.land_0_r.
Qed.

Lemma len_byte_long n : 1 <= n <= 4 -> js_and (128 + n) 128 = 128 /\ js_and (128 + n) 127 = n.
Proof.
  intros. assert (n = 1 \/ n = 2 \/ n = 3 \/ n = 4) as [->|[->|[->| ->]]] by lia; done.
Qed.

Lemma der_len_cases n :
  0 <= n < 2 ^ 31 ->
  (n < 128 /\ der_len n = [byte_of_Z n]) \/
  exists w : nat, (1 <= w <= 4)%nat /\ n < 256 ^ Z.of_nat w /\
    der_len n = byte_of_Z (128 + Z.of_nat w) :: be_bytes w n.
Proof.
  intros Hn. unfold der_len.
  destruct (n <? 2 ^ 7) eqn:E1; bool_to_prop.
  { left. split; [lia|]. unfold be_bytes. by rewrite Z.div_1_r. }
  right. destruct (n <? 2 ^ 8) eqn:E2; bool_to_prop; [exists 1%nat; split; [lia|]; split; [lia|done]|].
  destruct (n <? 2 ^ 16) eqn:E3; bool_to_prop; [exists 2%nat; split; [lia|]; split; [lia|done]|].
  destruct (n <? 2 ^ 24) eqn:E4; bool_to_prop; [exists 3%nat; split; [lia|]; split; [lia|done]|].
  exists 4%nat. split; [lia|]. split; [lia|done].
Qed.

Lemma gtb_false a b : a <= b -> (a >? b) = false.
Proof. intros. rewrite Z.gtb_ltb. by apply Z.ltb_ge. Qed.
Lemma geb_false a b : a < b -> (a >=? b) = false.
Proof. intros. rewrite Z.geb_leb. by apply Z.leb_gt. Qed.

Lemma blen_tlv tag c : blen (tlv tag c) = 1 + blen (der_len (blen c)) + blen c.
Proof. unfold tlv. rewrite blen_cons, blen_app. lia. Qed.

Lemma blen_der_len n : 0 <= n < 2 ^ 31 -> 1 <= blen (der_len n) <= 5.
Proof.
  intros Hn. destruct (der_len_cases n Hn) as [[_ ->]|(w & Hw & _ & ->)].
  - done.
  - rewrite blen_cons, blen_be_bytes. lia.
Qed.

Lemma derReadTLV_tlv tag c pre post :
  0 <= tag < 256 -> blen c < 2 ^ 31 ->
  derReadTLV (pre ++ tlv tag c ++ post) (blen pre)
  = Ok (Tlv (Some tag) (Some (blen c)) (blen pre + 1 + blen (der_len (blen c)))).
Proof.
  intros Ht Hc. pose proof (blen_nonneg c) as Hc0. pose proof (blen_nonneg post).
  pose proof (blen_nonneg pre). pose proof (blen_der_len (blen c) ltac:(lia)) as Hdl.
  set (buf := pre ++ tlv tag c ++ post).
  assert (blen buf = blen pre + (1 + blen (der_len (blen c)) + blen c) + blen post) as Hlen.
  { unfold buf. rewrite !blen_app, blen_tlv. lia. }
  assert (buf_get buf (blen pre) = Some tag) as Htag.
  { unfold buf, tlv. rewrite <-app_comm_cons, buf_get_mid, byte_val_of_Z, Z.mod_small; [done|lia]. }
  assert (buf = (pre ++ [byte_of_Z tag]) ++ der_len (blen c) ++ c ++ post) as Hbuf.
  { unfold buf, tlv. rewrite <-!app_assoc. cbn [app]. by rewrite <-?app_assoc. }
  assert (blen (pre ++ [byte_of_Z tag]) = blen pre + 1) as Hp1 by (rewrite blen_app; done).
  unfold derReadTLV. rewrite gtb_false, Htag, geb_false by lia. cbn [throw_if].
  destruct (der_len_cases (blen c) ltac:(lia)) as [[Hs Hd]|(w & Hw & Hb & Hd)].
  - assert (buf_get buf (blen pre + 1) = Some (blen c)) as ->.
    { rewrite Hbuf, Hd, <-Hp1. cbn [app]. rewrite buf_get_mid, byte_val_of_Z, Z.mod_small; [done|lia]. }
    cbn [bits default id]. rewrite len_byte_short by lia. cbn [Z.eqb negb mbind result_bind].
    rewrite Hd in *. change (blen [_]) with 1 in *. rewrite gtb_false by lia. done.
  - assert (buf_get buf (blen pre + 1) = Some (128 + Z.of_nat w)) as ->.
    { rewrite Hbuf, Hd, <-Hp1, <-app_comm_cons, buf_get_mid, byte_val_of_Z, Z.mod_small; [done|lia]. }
    cbn [bits default id]. destruct (len_byte_long (Z.of_nat w)) as [-> ->]; [lia|].
    cbn [Z.eqb Pos.eqb negb]. rewrite (proj2 (Z.eqb_neq _ _)), gtb_false by lia.
    cbn [orb throw_if]. rewrite Hd, blen_cons, blen_be_bytes in *.
    rewrite gtb_false by lia. cbn [throw_if mbind result_bind].
    assert (subarray buf (blen pre + 1 + 1) (blen pre + 1 + 1 + Z.of_nat w) = be_bytes w (blen c)) as Hsub.
    { rewrite Hbuf, <-app_comm_cons, (cons_middle (byte_of_Z (128 + Z.of_nat w))), app_assoc.
      apply subarray_mid; rewrite ?blen_be_bytes, !blen_app; change (blen [_]) with 1; lia. }
    rewrite Nat2Z.id, der_long_len_val; rewrite ?Hsub, ?be_val_bytes, ?Z.mod_small; try lia.
    rewrite Z.mul_0_l, Z.add_0_l, gtb_false by lia. cbn [throw_if].
    do 2 f_equal. lia.
Qed.

(** ** Bounds of any TLV read *)
Lemma derReadTLV_terminates buf off : terminates (derReadTLV buf off).
Proof. unfold derReadTLV. step_terminates. case_match; step_terminates. Qed.

Lemma derReadTLV_bounds buf off t :
  0 <= off -> derReadTLV buf off = Ok t ->
  off + 2 <= t_start t <= blen buf /\ (exists tag, t_tag t = Some tag /\ 0 <= tag < 256) /\
  exists l, t_len t = Some l /\ t_start t + l <= blen buf.
Proof.
  intros Hoff H. unfold derReadTLV in H.
  apply throw_if_Ok in H as [H1 H]. apply throw_if_Ok in H as [H2 H].
  apply bind_Ok in H as ([len p] & Hl & H). apply throw_if_Ok in H as [H3 H].
  injection H as <-. bool_to_prop. cbn [t_start t_tag t_len].
  destruct (buf_get_Some buf off) as (tag & Htag & ?); [lia|].
  destruct (buf_get_Some buf (off + 1)) as (v & Hv & Hvr); [lia|].
  rewrite Hv in Hl. cbn [bits default id] in Hl.
  assert (off + 2 <= p <= blen buf /\ exists l, len = Some l) as (? & l & ->).
  { destruct (negb (js_and v 128 =? 0)).
    - apply throw_if_Ok in Hl as [H4 Hl]. apply throw_if_Ok in Hl as [H5 Hl].
      injection Hl as <- <-. bool_to_prop. split; [|by eexists].
      rewrite js_and_bits in * by lia. pose proof (Z.land_nonneg v 127). lia.
    - injection Hl as <- <-. split; [lia|by eexists]. }
  bool_to_prop. split; [lia|]. split; [by exists tag|]. by exists l.
Qed.

(** A negative length needs the long form on four bytes. *)
Lemma derReadTLV_nonneg buf off t l :
  0 <= off -> derReadTLV buf off = Ok t -> t_len t = Some l -> x84 ∉ buf -> 0 <= l.
Proof.
  intros Hoff H Hl Hx. unfold derReadTLV in H.
  apply throw_if_Ok in H as [H1 H]. apply throw_if_Ok in H as [H2 H].
  apply bind_Ok in H as ([len p] & Hp & H). apply throw_if_Ok in H as [H3 H].
  injection H as <-. cbn [t_len] in Hl. subst len. bool_to_prop.
  destruct (buf_get_Some buf (off + 1)) as (v & Hv & Hvr); [lia|].
  rewrite Hv in Hp. cbn [bits default id] in Hp.
  destruct (negb (js_and v 128 =? 0)) eqn:Hlong; bool_to_prop; [|by injection Hp as <- _; lia].
  apply throw_if_Ok in Hp as [H4 Hp]. apply throw_if_Ok in Hp as [H5 Hp].
  injection Hp as <- _. bool_to_prop. rewrite js_and_bits in * by lia.
  assert (Z.land v 127 <> 4).
  { intros E. apply Hx. assert (byte_of_Z v = x84) as <-.
    { change 127 with (Z.ones 7) in E. rewrite Z.land_ones in E by lia.
      change (2 ^ 7) with 128 in E. assert (v = 4 \/ v = 132) as [->| ->] by div_lia; done. }
    unfold buf_get in Hv. destruct (off + 1 <? 0); [done|].
    apply fmap_Some in Hv as (x & Hx' & ->). rewrite byte_of_Z_val.
    by eapply list_elem_of_lookup_2. }
  pose proof (Z.land_nonneg v 127).
  set (n := Z.to_nat (Z.land v 127)). assert (n <= 3)%nat as Hn by lia.
  assert (length (subarray buf (off + 1 + 1) (off + 1 + 1 + Z.of_nat n)) = n) as Hlen
    by (rewrite length_subarray; lia).
  pose proof (be_val_range (subarray buf (off + 1 + 1) (off + 1 + 1 + Z.of_nat n))) as Hr.
  rewrite Hlen in Hr.
  assert (256 ^ Z.of_nat n <= 256 ^ 3) by (apply Z.pow_le_mono_r; lia).
  rewrite der_long_len_val; [lia|lia|lia|lia|]. change (2 ^ 31) with 2147483648. lia.
Qed.

(** ** Termination of the walk *)
Section termination.
Context (buf oid : buffer).

Hypothesis nonneg : forall off t l,
  0 <= off -> derReadTLV buf off = Ok t -> t_len t = Some l -> 0 <= l.

Lemma t_end_bounds off t :
  0 <= off -> derReadTLV buf off = Ok t ->
  exists e, t_end t = Some e /\ t_start t <= e <= blen buf.
Proof.
  intros Hoff H. pose proof (derReadTLV_bounds _ _ _ Hoff H) as (? & _ & l & Hl & ?).
  pose proof (nonneg _ _ _ Hoff H Hl). unfold t_end. rewrite Hl.
  exists (t_start t + l). split; [done|lia].
Qed.

Lemma find_octets_terminates k sib cEnd :
  0 <= sib -> 0 < Z.of_nat k -> blen buf - sib < Z.of_nat k ->
  terminates (find_octets k buf (Some sib) cEnd).
Proof.
  revert sib. induction k as [|k IH]; intros sib Hs H0 Hk; [lia|]. cbn [find_octets].
  destruct cEnd as [e|]; [|done]. case_match; [done|].
  apply bind_terminates; [apply derReadTLV_terminates|]. intros s Hr.
  case_decide; [done|]. pose proof (derReadTLV_bounds _ _ _ Hs Hr) as (? & _).
  destruct (t_end_bounds _ _ Hs Hr) as (e' & -> & ?). apply IH; lia.
Qed.

Lemma catch_terminates {A : Type} (r : result exn (option A)) :
  terminates r -> terminates (catch r).
Proof. destruct r as [|[|]]; done. Qed.

Lemma match_extension_terminates k cStart cEnd :
  0 <= cStart -> blen buf - cStart < Z.of_nat k -> cStart <= blen buf ->
  terminates (match_extension k buf oid cStart cEnd).
Proof.
  intros Hs Hk ?. unfold match_extension.
  apply bind_terminates; [apply derReadTLV_terminates|]. intros inner Hr.
  case_decide; [|done]. pose proof (derReadTLV_bounds _ _ _ Hs Hr) as (? & _).
  destruct (t_end_bounds _ _ Hs Hr) as (e' & -> & ?).
  apply find_octets_terminates; lia.
Qed.

Lemma walk_terminates k off end_ depth :
  0 <= off -> 0 < Z.of_nat k -> blen buf - off < Z.of_nat k ->
  terminates (walk k buf oid off end_ depth).
Proof.
  revert off end_ depth. induction k as [|k IH]; intros off end_ depth Hoff H0 Hk; [lia|].
  cbn [walk]. case_match; [done|].
  destruct (derReadTLV buf off) as [t|] eqn:Hr; [|done].
  pose proof (derReadTLV_bounds _ _ _ Hoff Hr) as (? & _).
  destruct (t_end_bounds _ _ Hoff Hr) as (e & He & ?). rewrite He.
  apply bind_terminates.
  { case_decide; [|done]. apply catch_terminates, match_extension_terminates; lia. }
  intros [v|] _; [done|]. apply bind_terminates.
  { case_match; [|done]. apply IH; lia. }
  intros [v|] _; [done|]. apply IH; lia.
Qed.
End termination.

(** ** The walk on encoded trees *)
Definition der_tag (t : der) : Z := match t with Prim tag _ | Cons tag _ => tag end.
Definition der_content (t : der) : buffer :=
  match t with Prim _ c => c | Cons _ l => forest_enc l end.

Lemma der_enc_tlv t : der_enc t = tlv (der_tag t) (der_content t).
Proof. by destruct t. Qed.

Lemma der_wf_Cons tag l : der_wf (Cons tag l) <-> 0 <= tag < 256 /\ Z.land tag 32 <> 0 /\ forest_wf l.
Proof.
  simpl. assert (forall l, (fix wf_all l := match l with [] => True | t :: l => der_wf t /\ wf_all l end) l
    <-> forest_wf l) as H; [|by rewrite H].
  clear. induction l as [|t l IH]; [done|]. simpl. by rewrite IH.
Qed.

Lemma der_wf_tag t : der_wf t -> 0 <= der_tag t < 256.
Proof. destruct t; [|rewrite der_wf_Cons]; simpl; tauto. Qed.

Lemma find_ext_Cons oid d tag l :
  find_ext oid d (Cons tag l) =
  match (if tag =? 48 then extension_value oid l else None) with
  | Some v => Some v
  | None => match d with O => None | S d' => find_first oid d' l end
  end.
Proof.
  cbn [find_ext]. destruct (if tag =? 48 then _ else _); [done|]. destruct d as [|d]; [done|].
  induction l as [|t l IH]; [done|]. simpl. by rewrite IH.
Qed.

Lemma forest_enc_cons t l : forest_enc (t :: l) = der_enc t ++ forest_enc l.
Proof. done. Qed.

Lemma blen_der_enc t : 2 + blen (der_content t) <= blen (der_enc t).
Proof.
  rewrite der_enc_tlv, blen_tlv. unfold der_len.
  repeat case_match; rewrite ?blen_cons, blen_be_bytes; lia.
Qed.

(** A tree in the middle of a buffer, as the walk sees it. *)
Lemma derReadTLV_tree t pre post :
  der_wf t -> blen (der_enc t) < 2 ^ 31 ->
  exists start,
    derReadTLV (pre ++ der_enc t ++ post) (blen pre)
    = Ok (Tlv (Some (der_tag t)) (Some (blen (der_content t))) start) /\
    start + blen (der_content t) = blen pre + blen (der_enc t) /\
    (exists hd, der_enc t = hd ++ der_content t /\ start = blen pre + blen hd) /\
    blen pre + 2 <= start.
Proof.
  intros Hwf Hb. pose proof (der_wf_tag _ Hwf). pose proof (blen_der_enc t).
  pose proof (blen_nonneg (der_content t)).
  eexists. rewrite der_enc_tlv in *. rewrite derReadTLV_tlv by lia. split; [reflexivity|].
  rewrite blen_tlv. split; [lia|]. split.
  - exists (byte_of_Z (der_tag t) :: der_len (blen (der_content t))).
    split; [done|]. rewrite blen_cons. lia.
  - pose proof (blen_der_len (blen (der_content t))). lia.
Qed.

(** The content read back is the content encoded. *)
Lemma js_subarray_mid (a b c : buffer) lo hi :
  lo = blen a -> hi = blen a + blen b -> js_subarray (a ++ b ++ c) lo hi = b.
Proof.
  intros -> ->. pose proof (blen_nonneg a). pose proof (blen_nonneg b).
  rewrite js_subarray_nonneg by lia. by apply subarray_mid.
Qed.

Lemma forest_step t l pre post :
  pre ++ forest_enc (t :: l) ++ post = pre ++ der_enc t ++ forest_enc l ++ post.
Proof. rewrite forest_enc_cons, <-app_assoc. done. Qed.

Lemma find_octets_forest l pre post k :
  forest_wf l -> blen (forest_enc l) < 2 ^ 31 -> blen (forest_enc l) < Z.of_nat k ->
  find_octets k (pre ++ forest_enc l ++ post) (Some (blen pre))
    (Some (blen pre + blen (forest_enc l))) = Ok (first_octets l).
Proof.
  revert pre k. induction l as [|t l IH]; intros pre k Hwf Hb Hk.
  { destruct k; simpl find_octets; rewrite (proj2 (Z.ltb_ge _ _)) by (change (blen (forest_enc [])) with 0; lia);
      done. }
  destruct Hwf as [Ht Hl]. pose proof (blen_der_enc t). pose proof (blen_nonneg (der_content t)).
  pose proof (blen_nonneg (forest_enc l)).
  rewrite forest_enc_cons, blen_app in Hb, Hk. destruct k as [|k]; [lia|].
  destruct (derReadTLV_tree t pre (forest_enc l ++ post) Ht ltac:(lia))
    as (start & Hr & Hend & (hd & Hhd & Hst) & Hs).
  cbn [find_octets]. rewrite forest_step, (proj2 (Z.ltb_lt _ _)), Hr
    by (rewrite forest_enc_cons, blen_app; lia).
  cbn [negb mbind result_bind t_tag t_start t_len t_end bits default id fmap option_fmap option_map].
  specialize (IH (pre ++ der_enc t) k Hl).
  rewrite <-app_assoc, blen_app in IH.
  case_decide as Htag.
  - injection Htag as Htag. destruct t as [tag c|tag ch].
    + simpl in Htag. subst tag. simpl first_octets. do 2 f_equal.
      rewrite Hhd, <-app_assoc, app_assoc. apply js_subarray_mid; rewrite ?blen_app; simpl; lia.
    + apply der_wf_Cons in Ht as (_ & Hland & _). simpl in Htag. by subst tag.
  - unfold t_end. cbn [t_len t_start fmap option_fmap option_map].
    rewrite Hend, forest_enc_cons, blen_app, Z.add_assoc, IH by lia.
    destruct t as [tag c|tag ch]; simpl; [|done].
    rewrite (proj2 (Z.eqb_neq tag 4)); [done|]. simpl in Htag. congruence.
Qed.

Lemma match_extension_forest oid l pre post k :
  forest_wf l -> blen (forest_enc l) < 2 ^ 31 -> blen (forest_enc l) < Z.of_nat k ->
  catch (match_extension k (pre ++ forest_enc l ++ post) oid (blen pre)
           (Some (blen pre + blen (forest_enc l)))) = Ok (extension_value oid l).
Proof.
  intros Hwf Hb Hk. unfold match_extension. pose proof (blen_nonneg pre).
  destruct l as [|t l].
  - change (forest_enc []) with (@nil byte) in *. change (blen []) with 0 in *. rewrite Z.add_0_r.
    pose proof (derReadTLV_terminates (pre ++ [] ++ post) (blen pre)) as Ht.
    destruct (derReadTLV _ _) as [inner|[|]] eqn:Hr; [|done|by destruct Ht].
    cbn [mbind result_bind]. case_decide as Hd; [|done]. destruct Hd as (_ & Hlen & _).
    apply derReadTLV_bounds in Hr as (? & _); [|lia].
    unfold t_end. rewrite Hlen. cbn [fmap option_fmap option_map].
    pose proof (blen_nonneg oid).
    destruct k; simpl; rewrite (proj2 (Z.ltb_ge _ _)) by lia; done.
  - destruct Hwf as [Ht Hl]. pose proof (blen_der_enc t). pose proof (blen_nonneg (der_content t)).
    pose proof (blen_nonneg (forest_enc l)).
    rewrite forest_enc_cons, blen_app in Hb, Hk.
    destruct (derReadTLV_tree t pre (forest_enc l ++ post) Ht ltac:(lia))
      as (start & Hr & Hend & (hd & Hhd & Hst) & Hs).
    rewrite forest_step, Hr. cbn [mbind result_bind t_tag t_start t_len bits default id].
    pose proof (find_octets_forest l (pre ++ der_enc t) post k Hl ltac:(lia) ltac:(lia)) as Hf.
    rewrite <-app_assoc, blen_app in Hf.
    assert (js_subarray (pre ++ der_enc t ++ forest_enc l ++ post) start
              (start + blen (der_content t)) = der_content t) as ->.
    { rewrite Hhd, <-app_assoc, app_assoc. apply js_subarray_mid; rewrite ?blen_app; lia. }
    unfold t_end. cbn [t_len t_start fmap option_fmap option_map].
    rewrite Hend, forest_enc_cons, blen_app, Z.add_assoc.
    case_decide as Hd.
    + destruct Hd as (Htag & _ & Hoid). injection Htag as Htag.
      destruct t as [tag c|tag ch]; simpl in Htag, Hoid; subst.
      * rewrite Hf. simpl. by rewrite bool_decide_eq_true_2.
      * by apply der_wf_Cons in Ht as (_ & Hland & _).
    + destruct t as [tag c|tag ch]; [|done]. simpl in *.
      destruct (tag =? 6) eqn:E6; [|done]. bool_to_prop. subst.
      rewrite bool_decide_eq_false_2; [done|]. intros ->. by apply Hd.
Qed.

Lemma js_and_constructed tag : 0 <= tag < 256 -> negb (js_and tag 32 =? 0) = negb (Z.land tag 32 =? 0).
Proof. intros. by rewrite js_and_bits by lia. Qed.

Lemma walk_levels oid depth ch :
  depth <= 24 ->
  (if depth + 1 >? 24 then None else find_first oid (Z.to_nat (24 - (depth + 1))) ch)
  = match Z.to_nat (24 - depth) with O => None | S d' => find_first oid d' ch end.
Proof.
  intros Hd. destruct (depth + 1 >? 24) eqn:E; bool_to_prop.
  - by replace (Z.to_nat (24 - depth)) with O by lia.
  - by replace (Z.to_nat (24 - depth)) with (S (Z.to_nat (24 - (depth + 1)))) by lia.
Qed.

Lemma walk_forest oid k l pre post depth :
  forest_wf l -> blen (forest_enc l) < 2 ^ 31 -> blen (forest_enc l) < Z.of_nat k ->
  walk k (pre ++ forest_enc l ++ post) oid (blen pre) (blen pre + blen (forest_enc l)) depth
  = Ok (if depth >? 24 then None else find_first oid (Z.to_nat (24 - depth)) l).
Proof.
  revert l pre post depth.
  induction k as [|k IH]; intros l pre post depth Hwf Hb Hk.
  { pose proof (blen_nonneg (forest_enc l)). lia. }
  cbn [walk]. destruct (depth >? 24) eqn:Hdep; [done|]. cbn [orb].
  destruct l as [|t l].
  { rewrite (proj2 (Z.ltb_ge _ _)) by (change (blen (forest_enc [])) with 0; lia). done. }
  destruct Hwf as [Ht Hl]. pose proof (blen_der_enc t). pose proof (blen_nonneg (der_content t)).
  pose proof (blen_nonneg (forest_enc l)). pose proof (der_wf_tag _ Ht) as Htag.
  rewrite forest_enc_cons, blen_app in Hb, Hk. bool_to_prop.
  destruct (derReadTLV_tree t pre (forest_enc l ++ post) Ht ltac:(lia))
    as (start & Hr & Hend & (hd & Hhd & Hst) & Hs).
  rewrite forest_step, (proj2 (Z.ltb_lt _ _)), Hr by (rewrite forest_enc_cons, blen_app; lia).
  unfold t_end. cbn [negb t_tag t_start t_len bits default id fmap option_fmap option_map].
  rewrite js_and_constructed, Hend by done.
  pose proof (IH l (pre ++ der_enc t) post depth Hl ltac:(lia) ltac:(lia)) as Hrest.
  rewrite <-app_assoc, blen_app, gtb_false in Hrest by lia.
  rewrite forest_enc_cons, blen_app, Z.add_assoc.
  destruct t as [tag c|tag ch]; cbn [der_tag der_content] in *.
  - assert (Z.land tag 32 = 0) as Hland by (simpl in Ht; tauto). rewrite Hland.
    rewrite decide_False by (intros [= ->]; done). cbn [mbind result_bind negb Z.eqb].
    rewrite Hrest. done.
  - apply der_wf_Cons in Ht as (_ & Hland & Hch).
    rewrite (proj2 (Z.eqb_neq _ _) Hland). cbn [negb].
    assert (pre ++ der_enc (Cons tag ch) ++ forest_enc l ++ post
            = (pre ++ hd) ++ forest_enc ch ++ forest_enc l ++ post) as Hbuf
      by (rewrite Hhd, <-!app_assoc; done).
    assert (blen (pre ++ hd) = start) as Hph by (rewrite blen_app; lia).
    pose proof (match_extension_forest oid ch (pre ++ hd) (forest_enc l ++ post) k Hch
      ltac:(lia) ltac:(lia)) as Hm.
    pose proof (IH ch (pre ++ hd) (forest_enc l ++ post) (depth + 1) Hch
      ltac:(lia) ltac:(lia)) as Hdeep.
    rewrite Hph, Hend, <-Hbuf in Hm, Hdeep. rewrite walk_levels in Hdeep by lia.
    cbn [find_first]. rewrite find_ext_Cons.
    destruct (decide (Some tag = Some 48)) as [[= ->]|Hne].
    + rewrite Hm. cbn [mbind result_bind Z.eqb Pos.eqb].
      destruct (extension_value oid ch); [done|].
      rewrite Hdeep. cbn [mbind result_bind]. rewrite Hrest.
      destruct (Z.to_nat (24 - depth)) as [|d']; [done|]. by destruct (find_first oid d' ch).
    + rewrite (proj2 (Z.eqb_neq tag 48)) by congruence. cbn [mbind result_bind].
      rewrite Hdeep. cbn [mbind result_bind]. rewrite Hrest.
      destruct (Z.to_nat (24 - depth)) as [|d']; [done|]. by destruct (find_first oid d' ch).
Qed.

(** ** Object identifiers *)

(** The arcs of an encoded identifier after the first byte: base 128, the high
    bit set on all but the last digit of an arc. *)
Fixpoint decode_arcs (acc : Z) (l : buffer) : list Z :=
  match l with
  | [] => []
  | b :: l' =>
      let acc' := acc * 128 + byte_val b mod 128 in
      if byte_val b <? 128 then acc' :: decode_arcs 0 l' else decode_arcs acc' l'
  end.

Lemma js_shr7 v : 0 <= v < 2 ^ 31 -> js_shr v 7 = v / 128.
Proof. intros. unfold js_shr. rewrite to_int32_small, Z.shiftr_div_pow2 by lia. done. Qed.

Lemma js_and127 v : 0 <= v < 2 ^ 31 -> js_and v 127 = v mod 128.
Proof.
  intros. unfold js_and. change 127 with (Z.ones 7).
  rewrite (to_int32_small v), (to_int32_small (Z.ones 7)) by (try change (Z.ones 7) with 127; lia).
  rewrite Z.land_ones by lia. change (2 ^ 7) with 128. apply to_int32_small. div_lia.
Qed.

Lemma js_or128 v : 0 <= v < 128 -> js_or v 128 = v + 128.
Proof.
  intros. unfold js_or. rewrite (to_int32_small v), (to_int32_small 128) by lia.
  rewrite <-(Z.add_lor_land v 128).
  assert (Z.land v 128 = 0) as ->.
  { pose proof (len_byte_short v ltac:(lia)) as E. by rewrite js_and_bits in E by lia. }
  rewrite Z.add_0_r. apply to_int32_small.
  assert (Z.lor v 128 = v + 128) as ->; [|lia].
  pose proof (Z.add_lor_land v 128) as E.
  pose proof (len_byte_short v ltac:(lia)) as E2. rewrite js_and_bits in E2 by lia. lia.
Qed.

Lemma oid_groups_decode f v stack rest :
  0 <= v < 2 ^ 31 -> v < 128 ^ Z.of_nat f ->
  decode_arcs 0 ((byte_of_Z <$> oid_groups f v stack) ++ rest)
  = decode_arcs v ((byte_of_Z <$> stack) ++ rest).
Proof.
  revert v stack. induction f as [|f IH]; intros v stack Hv Hf; cbn [oid_groups].
  { change (128 ^ Z.of_nat 0) with 1 in Hf. by assert (v = 0) as -> by lia. }
  rewrite Nat2Z.inj_succ, Z.pow_succ_r in Hf by lia.
  destruct (v >? 0) eqn:E; bool_to_prop.
  - rewrite js_shr7, js_and127, js_or128 by (try done; div_lia).
    rewrite IH by div_lia. cbn [fmap list_fmap app decode_arcs].
    rewrite byte_val_of_Z, (Z.mod_small (_ + 128)), (proj2 (Z.ltb_ge _ _)) by div_lia.
    f_equal. div_lia.
  - by assert (v = 0) as -> by lia.
Qed.

Lemma oid_arc_decode v rest :
  0 <= v < 2 ^ 31 ->
  decode_arcs 0 ((byte_of_Z <$> oid_arc v) ++ rest) = v :: decode_arcs 0 rest.
Proof.
  intros Hv. unfold oid_arc. rewrite js_shr7, js_and127 by done.
  change (2 ^ 31) with 2147483648 in Hv.
  rewrite oid_groups_decode; [|change (2 ^ 31) with 2147483648; div_lia|].
  2:{ change (128 ^ Z.of_nat 5) with 34359738368. div_lia. }
  cbn [fmap list_fmap app decode_arcs].
  rewrite byte_val_of_Z, (Z.mod_small (v mod 128) 256), (proj2 (Z.ltb_lt _ _)) by div_lia.
  f_equal. div_lia.
Qed.

Lemma oid_arcs_decode vs :
  (forall v, v ∈ vs -> 0 <= v < 2 ^ 31) ->
  decode_arcs 0 (byte_of_Z <$> (vs ≫= oid_arc)) = vs.
Proof.
  induction vs as [|v vs IH]; intros Hvs; [done|]. cbn [mbind list_bind].
  rewrite fmap_app, oid_arc_decode by (apply Hvs; left). f_equal.
  apply IH. intros w Hw. apply Hvs. by right.
Qed.

Definition dotted (arcs : list Z) : string := js_join "." (dec_nat <$> arcs).

Lemma split_dotted arcs :
  arcs <> [] -> (forall v, v ∈ arcs -> 0 <= v) ->
  parse_int <$> js_split "." (dotted arcs) = Some <$> arcs.
Proof.
  intros Hne Hpos. unfold dotted. rewrite js_split_join.
  - rewrite <-list_fmap_compose. apply list_fmap_ext. intros i v Hv. simpl.
    apply parse_int_dec, Hpos. by eapply list_elem_of_lookup_2.
  - by destruct arcs.
  - intros s (v & -> & Hv)%list_elem_of_fmap Hin.
    apply dec_nat_chars in Hin; [|by apply Hpos]. done.
Qed.

Lemma forest_enc_one t : forest_enc [t] = der_enc t.
Proof. unfold forest_enc. simpl. apply app_nil_r. Qed.

(** ** The properties *)

Lemma walk_tree (t : der) (oid : buffer) :
  der_wf t -> blen (der_enc t) < 2 ^ 31 ->
  walk (walk_fuel (length (der_enc t))) (der_enc t) oid 0 (blen (der_enc t)) 0 = Ok (find_ext oid 24 t).
Proof.
  intros Hwf Hb. pose proof (walk_forest oid (walk_fuel (length (der_enc t))) [t] [] [] 0) as H.
  rewrite app_nil_l, app_nil_r, forest_enc_one in H. change (blen []) with 0 in H.
  rewrite Z.add_0_l in H. rewrite H; [|by split|done|unfold blen, walk_fuel; lia].
  cbn [find_first]. change (0 >? 24) with false. cbv iota.
  change (Z.to_nat (24 - 0)) with 24%nat. by destruct (find_ext oid 24 t).
Qed.

(** C24. On the DER encoding of any certificate tree the byte walk of
    [findExtensionValue] returns what the search over the tree returns: the
    [extnValue] of the first extension with the given identifier, among the
    nodes at most 24 levels deep. *)
Theorem findExtensionValue_tree (t : der) (oidDotted : string) (oid : buffer) :
  encodeOid oidDotted = Ok oid -> der_wf t -> blen (der_enc t) < 2 ^ 31 ->
  findExtensionValue (der_enc t) oidDotted = Ok (find_ext oid 24 t).
Proof.
  intros Ho Hwf Hb. unfold findExtensionValue. rewrite Ho. cbn [mbind result_bind].
  by apply walk_tree.
Qed.

Definition sample_cert : der :=
  Cons 48 [Prim 2 [x05]; Cons 163 [Cons 48 [
    Cons 48 [Prim 6 [x2a; x04]; Prim 4 [x09]];
    Cons 48 [Prim 6 [x2a; x03]; Prim 1 [xff]; Prim 4 [x01; x02]]]]].

Lemma findExtensionValue_tree_witness :
  findExtensionValue (der_enc sample_cert) "1.2.3" = Ok (Some [x01; x02]).
Proof.
  rewrite (findExtensionValue_tree sample_cert "1.2.3" [x2a; x03]).
  - reflexivity.
  - reflexivity.
  - simpl. repeat split; first [done | lia | discriminate].
  - vm_compute. reflexivity.
Defined.

(** The search ends on every buffer in which no TLV announces a negative
    length, since each step of the walk, in depth or to the next sibling, advances
    at least the two bytes of a header. *)
Theorem findExtensionValue_terminates (certDer : buffer) (oidDotted : string) :
  (forall off t l, 0 <= off -> derReadTLV certDer off = Ok t -> t_len t = Some l -> 0 <= l) ->
  findExtensionValue certDer oidDotted <> Throw Diverges.
Proof.
  intros Hnn. unfold findExtensionValue.
  destruct (encodeOid oidDotted) as [oid|e] eqn:Ho; cbn [mbind result_bind].
  - apply walk_terminates; [done|lia|unfold walk_fuel; lia|unfold blen, walk_fuel; lia].
  - assert (terminates (encodeOid oidDotted)) as H by (unfold encodeOid; repeat case_match; done).
    rewrite Ho in H. intros [= ->]. by apply H.
Qed.

Lemma findExtensionValue_terminates_witness :
  findExtensionValue [x30; x03; x02; x01; x07] "1.2.3" <> Throw Diverges.
Proof.
  apply findExtensionValue_terminates. intros off t l Hoff H Hl.
  apply (derReadTLV_nonneg _ _ _ _ Hoff H Hl). rewrite !not_elem_of_cons.
  repeat (split; [discriminate|]). apply not_elem_of_nil.
Defined.

(** C39. A TLV whose four-byte length has its top bit set is read as a negative
    length, and the walk steps back: on these six bytes it returns to offset 0
    for ever, whatever the number of steps allowed. *)
Theorem findExtensionValue_hangs (k : nat) (oid : buffer) :
  walk k [x04; x84; xff; xff; xff; xfa] oid 0 6 0 = Throw Diverges.
Proof.
  induction k as [|k IH]; [done|]. cbn [walk].
  change (derReadTLV [x04; x84; xff; xff; xff; xfa] 0)
    with (Ok (Tlv (Some 4) (Some (-6)) 6) : result exn der_tlv).
  exact IH.
Qed.

(** [encodeOid] encodes an identifier: reading its bytes back in base 128
    gives the first two arcs joined and the others unchanged, for arcs below
    2^31 and a first pair that fits one byte. *)
Theorem encodeOid_roundtrip (a b : Z) (rest : list Z) :
  0 <= a -> 0 <= b -> 40 * a + b < 128 -> (forall v, v ∈ rest -> 0 <= v < 2 ^ 31) ->
  exists bytes, encodeOid (dotted (a :: b :: rest)) = Ok bytes /\
    decode_arcs 0 bytes = (40 * a + b) :: rest.
Proof.
  intros Ha Hb Hab Hrest. unfold encodeOid. rewrite split_dotted; [|done|].
  2:{ intros v. rewrite !elem_of_cons. intros [->|[->|Hv]]; [lia..|by apply Hrest]. }
  cbn [fmap list_fmap]. eexists. split; [reflexivity|].
  assert ((Some <$> rest) ≫= (fun v => oid_arc (bits v)) = rest ≫= oid_arc) as ->.
  { clear. induction rest as [|v rest IH]; [done|]. cbn. f_equal. exact IH. }
  cbn [decode_arcs].
  rewrite byte_val_of_Z, (Z.mod_small (40 * a + b) 256), (proj2 (Z.ltb_lt _ _)) by lia.
  rewrite Z.mod_small by lia. f_equal. by apply oid_arcs_decode.
Qed.

Lemma encodeOid_roundtrip_witness :
  exists bytes, encodeOid "1.2.840.113635.100.8.2" = Ok bytes /\
    decode_arcs 0 bytes = [42; 840; 113635; 100; 8; 2].
Proof.
  apply (encodeOid_roundtrip 1 2 [840; 113635; 100; 8; 2]); [lia..|].
  intros v. rewrite !elem_of_cons, elem_of_nil. lia.
Defined.

(** The first pair of an identifier under arc 2 may need two digits; the single
    byte written for it is then not the DER encoding (here 81 34 03). *)
Example encodeOid_large_pair : encodeOid "2.100.3" = Ok [xb4; x03].
Proof. vm_compute. reflexivity. Qed.

(** ** The nonce *)
Definition nonce_ext (nonce : buffer) : der := Cons 48 [Cons 161 [Prim 4 nonce]].

Lemma parseAppleNonce_length extn nonce : parseAppleNonce extn = Ok nonce -> length nonce = 32%nat.
Proof.
  unfold parseAppleNonce. intros H.
  apply bind_Ok in H as (seq & Hseq & H). apply throw_if_Ok in H as [_ H].
  apply bind_Ok in H as (ctx & Hctx & H). apply throw_if_Ok in H as [_ H].
  apply bind_Ok in H as (oct & Hoct & H). apply throw_if_Ok in H as [_ H].
  apply throw_if_Ok in H as [Hl H]. injection H as <-.
  apply bool_decide_eq_false, dec_stable in Hl. rewrite Hl. cbn [bits default id].
  apply derReadTLV_bounds in Hseq as (? & _); [|lia].
  apply derReadTLV_bounds in Hctx as (? & _); [|lia].
  apply derReadTLV_bounds in Hoct as (? & _ & l & Hl' & ?); [|lia].
  rewrite Hl in Hl'. injection Hl' as <-.
  rewrite js_subarray_nonneg, length_subarray by lia. lia.
Qed.

Lemma derReadTLV_at t pre post off :
  off = blen pre -> der_wf t -> blen (der_enc t) < 2 ^ 31 ->
  exists start,
    derReadTLV (pre ++ der_enc t ++ post) off
    = Ok (Tlv (Some (der_tag t)) (Some (blen (der_content t))) start) /\
    exists hd, der_enc t = hd ++ der_content t /\ start = blen (pre ++ hd).
Proof.
  intros -> Hwf Hb. destruct (derReadTLV_tree t pre post Hwf Hb)
    as (start & Hr & _ & (hd & Hhd & Hst) & _).
  exists start. split; [done|]. exists hd. by rewrite blen_app.
Qed.

Lemma blen_tlv_le tag c : blen c < 2 ^ 31 -> blen (tlv tag c) <= blen c + 6.
Proof.
  intros. rewrite blen_tlv. pose proof (blen_nonneg c).
  pose proof (blen_der_len (blen c)). lia.
Qed.

(** [parseAppleNonce] reads the nonce out of the extension value Apple
    writes, [SEQUENCE { [1] OCTET STRING }], when it has 32 bytes, and refuses
    one of any other length. *)
Theorem parseAppleNonce_roundtrip (nonce : buffer) :
  blen nonce < 2 ^ 30 ->
  parseAppleNonce (der_enc (nonce_ext nonce))
  = if blen nonce =? 32 then Ok nonce else Throw (Err "nonce: not 32 bytes").
Proof.
  intros Hb. change (2 ^ 30) with 1073741824 in Hb. set (t1 := Prim 4 nonce).
  set (t2 := Cons 161 [t1]). set (t3 := Cons 48 [t2]).
  assert (blen (der_enc t1) < 2 ^ 31 /\ blen (der_enc t2) < 2 ^ 31 /\ blen (der_enc t3) < 2 ^ 31)
    as (B1 & B2 & B3).
  { pose proof (blen_tlv_le 4 nonce ltac:(lia)) as E1.
    pose proof (blen_tlv_le 161 (tlv 4 nonce) ltac:(lia)) as E2.
    pose proof (blen_tlv_le 48 (tlv 161 (tlv 4 nonce)) ltac:(lia)) as E3.
    unfold t3, t2, t1. cbn [der_enc map concat].  rewrite !app_nil_r. lia. }
  assert (der_wf t1) as W1 by done.
  assert (der_wf t2) as W2 by done.
  assert (der_wf t3) as W3 by done.
  destruct (derReadTLV_at t3 [] [] 0 eq_refl W3 B3) as (s3 & R3 & h3 & E3 & S3).
  assert (der_enc t3 = h3 ++ der_enc t2) as D3 by (rewrite E3; f_equal; apply forest_enc_one).
  destruct (derReadTLV_at t2 h3 [] s3 S3 W2 B2) as (s2 & R2 & h2 & E2 & S2).
  assert (der_enc t3 = (h3 ++ h2) ++ der_enc t1) as D2
    by (rewrite D3, E2, <-app_assoc; do 2 f_equal; apply forest_enc_one).
  destruct (derReadTLV_at t1 (h3 ++ h2) [] s2 S2 W1 B1) as (s1 & R1 & h1 & E1 & S1).
  assert (der_enc t3 = ((h3 ++ h2) ++ h1) ++ nonce) as D1
    by (rewrite D2, E1, !app_assoc; reflexivity).
  rewrite app_nil_r in R1, R2. rewrite app_nil_l, app_nil_r in R3.
  rewrite <-D3 in R2. rewrite <-D2 in R1.
  unfold parseAppleNonce. change (der_enc (nonce_ext nonce)) with (der_enc t3).
  rewrite R3. cbn [mbind result_bind t_tag t_start].
  change (bool_decide (Some (der_tag t3) <> Some 48)) with false. cbn [throw_if].
  rewrite R2. cbn [mbind result_bind t_tag t_start].
  change (bool_decide (Some (der_tag t2) <> Some 161)) with false. cbn [throw_if].
  rewrite R1. cbn [mbind result_bind t_tag t_start t_len].
  change (bool_decide (Some (der_tag t1) <> Some 4)) with false. cbn [throw_if].
  change (der_content t1) with nonce.
  destruct (blen nonce =? 32) eqn:E; bool_to_prop.
  - rewrite E. change (bool_decide (Some 32 <> Some 32)) with false. cbn [throw_if bits default id].
    rewrite D1, S1. f_equal. rewrite <-(app_nil_r nonce) at 1.
    apply js_subarray_mid; rewrite ?E; done.
  - rewrite bool_decide_eq_true_2 by congruence. done.
Qed.

Lemma parseAppleNonce_roundtrip_witness :
  parseAppleNonce (der_enc (nonce_ext (replicate 32 x07))) = Ok (replicate 32 x07).
Proof. apply (parseAppleNonce_roundtrip (replicate 32 x07)). vm_compute. reflexivity. Defined.
