(* ===== verification/DerWalk.v ===== *)
(** * How long the walk of [findExtensionValue] goes on

    The loops of the walk end, or they come back to an offset at which they have
    been: the fuel of [Der.walk_fuel] is enough for every walk that ends at all, so
    that [Diverges] stands for a loop of the source that never ends, negative
    lengths included. *)
From S2P Require Import Prelude JsText Der DerFacts.

Abbreviation ends r := (r <> Throw Diverges).

Lemma bind_ends {A B : Type} (m : result exn A) (k : A -> result exn B) :
  ends (m ≫= k) -> ends m.
Proof. by destruct m as [|[]]. Qed.

Section walk.
Context (buf oid : buffer).
Notation n := (length buf).

(** ** More fuel changes nothing *)
Lemma find_octets_more k m sib e :
  ends (find_octets k buf sib e) -> (k <= m)%nat -> find_octets m buf sib e = find_octets k buf sib e.
Proof.
  revert m sib. induction k as [|k IH]; intros m sib H Hm; destruct m as [|m]; try lia;
    cbn [find_octets] in *; destruct sib as [sib|], e as [e|]; try done; destruct (negb _); try done.
  destruct (derReadTLV buf sib) as [s|]; [|done]. cbn [mbind result_bind] in *.
  case_decide; [done|]. apply IH; [done|lia].
Qed.

Lemma match_extension_more k m cStart cEnd :
  ends (catch (match_extension k buf oid cStart cEnd)) -> (k <= m)%nat ->
  catch (match_extension m buf oid cStart cEnd) = catch (match_extension k buf oid cStart cEnd).
Proof.
  unfold match_extension. destruct (derReadTLV buf cStart) as [s|]; [|done]. cbn [mbind result_bind].
  case_decide; [|done]. intros Hk Hm. f_equal. apply find_octets_more; [|done].
  intros E. by rewrite E in Hk.
Qed.

Lemma walk_more k m off e d :
  ends (walk k buf oid off e d) -> (k <= m)%nat -> walk m buf oid off e d = walk k buf oid off e d.
Proof.
  revert m off e d. induction k as [|k IH]; intros m off e d H Hm; [done|].
  destruct m as [|m]; [lia|]. apply le_S_n in Hm. cbn [walk] in *. destruct (_ || _); [done|].
  destruct (derReadTLV buf off) as [t|]; [|done].
  set (hit := if decide (t_tag t = Some 48) then catch (match_extension k buf oid (t_start t) (t_end t)) else Ok None) in *.
  assert ((if decide (t_tag t = Some 48) then catch (match_extension m buf oid (t_start t) (t_end t)) else Ok None) = hit) as ->.
  { unfold hit in *. case_decide; [|done]. apply match_extension_more; [|done].
    intros E. by rewrite E in H. }
  destruct hit as [[v|]|]; [done| |done]. cbn [mbind result_bind] in *.
  destruct (t_end t) as [c|]; [|done]. destruct (negb _); cbn [mbind result_bind] in *.
  - pose proof (IH m (t_start t) c (d + 1)) as Hd. destruct (walk k buf oid (t_start t) c (d + 1)) as [v|x] eqn:E.
    + rewrite Hd by done. cbn [mbind result_bind] in *. destruct v; [done|]. by apply IH.
    + rewrite Hd; [done| |done]. intros [= ->]. by destruct H.
  - by apply IH.
Qed.

(** ** The offsets of a loop *)

(** Where a loop can be and go on: left of it a byte is no length, right of it there
    is no header. *)
Definition inside (off : Z) : Prop := -1 <= off < blen buf.

Lemma outside off t : ~ inside off -> derReadTLV buf off = Ok t -> t_tag t = None /\ t_end t = None.
Proof.
  unfold inside, derReadTLV. intros Ho H. apply throw_if_Ok in H as [H1 H]. bool_to_prop.
  assert (forall i, i < 0 -> buf_get buf i = None) as Hg.
  { intros i Hi. unfold buf_get. by rewrite (proj2 (Z.ltb_lt _ _) Hi). }
  rewrite (Hg (off + 1)), (Hg off) in H by lia. apply throw_if_Ok in H as [_ H].
  cbn [bits default] in H. change (js_and 0 128) with 0 in H. cbn in H. by injection H as <-.
Qed.

Lemma inside_length (V : list Z) : NoDup V -> Forall inside V -> (length V <= S n)%nat.
Proof.
  intros Hd Hf. rewrite <-(Nat2Z.id (S n)), <-(length_seqZ (-1)).
  apply submseteq_length, NoDup_submseteq; [done|]. intros v Hv. apply elem_of_seqZ.
  rewrite Forall_forall in Hf. specialize (Hf v Hv). unfold inside, blen in Hf. lia.
Qed.

(** One more offset at which a loop has been. *)
Lemma inside_new (V : list Z) off :
  NoDup V -> Forall inside V -> inside off -> off ∉ V -> (S (length V) <= S n)%nat.
Proof.
  intros Hd Hf Hi Hn. apply (inside_length (off :: V)); [by constructor|by constructor].
Qed.

(** ** The siblings of an OID *)
Lemma find_octets_enough k off e (V : list Z) :
  ends (find_octets k buf (Some off) e) ->
  (forall v, v ∈ V -> find_octets k buf (Some v) e = Throw Diverges) -> NoDup V -> Forall inside V ->
  ends (find_octets (n + 2 - length V) buf (Some off) e).
Proof.
  revert off V. induction k as [|k IH]; intros off V H HV Hd Hf.
  { cbn [find_octets] in H. destruct e as [e|]; [|by destruct (n + 2 - length V)%nat].
    destruct (negb (off <? e)) eqn:E; [|done].
    destruct (n + 2 - length V)%nat; cbn [find_octets]; by rewrite E. }
  assert (forall v, v ∈ V -> find_octets k buf (Some v) e = Throw Diverges) as HVk.
  { intros v Hv. destruct (decide (find_octets k buf (Some v) e = Throw Diverges)) as [|Hne]; [done|].
    rewrite <-(HV v Hv). symmetry. apply find_octets_more; [done|lia]. }
  destruct (decide (ends (find_octets k buf (Some off) e))) as [Hk|Hk]; [by apply (IH _ V)|].
  apply dec_stable in Hk. assert (off ∉ V) as Hn by (intros Hin%HV; congruence).
  pose proof (inside_length V Hd Hf). replace (n + 2 - length V)%nat with (S (n + 1 - length V)) by lia.
  cbn [find_octets] in H |- *. destruct e as [e|]; [|done]. destruct (negb _); [done|].
  destruct (derReadTLV buf off) as [s|] eqn:Es; [|done]. cbn [mbind result_bind] in H |- *. case_decide; [done|].
  destruct (decide (inside off)) as [Hi|Ho].
  - destruct (t_end s) as [off'|]; [|by destruct (n + 1 - length V)%nat].
    pose proof (inside_new V off Hd Hf Hi Hn).
    replace (n + 1 - length V)%nat with (n + 2 - length (off :: V))%nat by (simpl; lia).
    apply IH; [done| |by constructor|by constructor].
    intros v [->|Hv]%elem_of_cons; [done|by apply HVk].
  - destruct (outside _ _ Ho Es) as [_ ->]. by destruct (n + 1 - length V)%nat.
Qed.

Lemma match_extension_enough k m cStart cEnd :
  ends (catch (match_extension k buf oid cStart cEnd)) -> (n + 2 <= m)%nat ->
  catch (match_extension m buf oid cStart cEnd) = catch (match_extension k buf oid cStart cEnd).
Proof.
  intros H Hm. transitivity (catch (match_extension (k + m) buf oid cStart cEnd)).
  2:{ apply match_extension_more; [done|lia]. }
  symmetry. apply match_extension_more; [|lia]. revert H. unfold match_extension.
  destruct (derReadTLV buf cStart) as [s|]; [|done]. cbn [mbind result_bind]. case_decide; [|done].
  intros Hc. assert (ends (find_octets k buf (t_end s) cEnd)) as Hk by (intros E; by rewrite E in Hc).
  assert (ends (find_octets m buf (t_end s) cEnd)) as Hm'.
  { destruct (t_end s) as [off|]; [|by destruct m].
    assert (ends (find_octets (n + 2 - 0) buf (Some off) cEnd)) as He
      by (apply (find_octets_enough k off cEnd []); [done|set_solver|constructor|constructor]).
    rewrite Nat.sub_0_r in He. by rewrite (find_octets_more (n + 2)). }
  by destruct (find_octets m buf (t_end s) cEnd) as [|[]].
Qed.

(** ** The walk *)
Lemma walk_same k m off e d :
  ends (walk k buf oid off e d) -> ends (walk m buf oid off e d) ->
  walk m buf oid off e d = walk k buf oid off e d.
Proof.
  intros Hk Hm. destruct (Nat.le_ge_cases k m); [by apply walk_more|]. symmetry. by apply walk_more.
Qed.

(** A level of the walk, with enough for the levels below it. *)
Lemma walk_level r e d (low : forall k off c, ends (walk k buf oid off c (d + 1)) ->
    ends (walk (r * (n + 3)) buf oid off c (d + 1))) k off (V : list Z) :
  (1 <= r)%nat -> ends (walk k buf oid off e d) ->
  (forall v, v ∈ V -> walk k buf oid v e d = Throw Diverges) -> NoDup V -> Forall inside V ->
  ends (walk (r * (n + 3) + (n + 2 - length V)) buf oid off e d).
Proof.
  intros Hr. revert off V. induction k as [|k IH]; intros off V H HV Hd Hf; [by destruct H|].
  assert (forall v, v ∈ V -> walk k buf oid v e d = Throw Diverges) as HVk.
  { intros v Hv. destruct (decide (walk k buf oid v e d = Throw Diverges)) as [|Hne]; [done|].
    rewrite <-(HV v Hv). symmetry. apply walk_more; [done|lia]. }
  destruct (decide (ends (walk k buf oid off e d))) as [Hk|Hk]; [by apply (IH _ V)|].
  apply dec_stable in Hk. assert (off ∉ V) as Hn by (intros Hin%HV; congruence).
  pose proof (inside_length V Hd Hf). set (m := (r * (n + 3) + (n + 1 - length V))%nat).
  replace (r * (n + 3) + (n + 2 - length V))%nat with (S m) by (unfold m; lia).
  assert (n + 2 <= m)%nat as Hm by (unfold m; nia). assert (r * (n + 3) <= m)%nat as Hm' by (unfold m; lia).
  cbn [walk] in H |- *. destruct (_ || _); [done|]. destruct (derReadTLV buf off) as [t|] eqn:Et; [|done].
  set (hit k := if decide (t_tag t = Some 48) then catch (match_extension k buf oid (t_start t) (t_end t)) else Ok None).
  fold (hit k) in H. fold (hit m).
  assert (hit m = hit k) as ->.
  { apply bind_ends in H as Hh. unfold hit in *. destruct (decide (t_tag t = Some 48)); [|done].
    by apply match_extension_enough. }
  destruct (hit k) as [[v|]|]; [done| |done]. cbn [mbind result_bind] in H |- *.
  destruct (decide (inside off)) as [Hi|Ho].
  2:{ by destruct (outside _ _ Ho Et) as [_ ->]. }
  destruct (t_end t) as [c|]; [|done].
  set (deep k := if negb (js_and (bits (t_tag t)) 32 =? 0) then walk k buf oid (t_start t) c (d + 1) else Ok None).
  fold (deep k) in H. fold (deep m).
  assert (deep m = deep k) as ->.
  { unfold deep in *. destruct (negb _); [|done]. apply bind_ends in H as Hdeep. apply walk_same; [done|].
    rewrite (walk_more (r * (n + 3))); [by eapply low|by eapply low|done]. }
  destruct (deep k) as [[v|]|]; [done| |done]. cbn [mbind result_bind] in H |- *.
  pose proof (inside_new V off Hd Hf Hi Hn).
  replace m with (r * (n + 3) + (n + 2 - length (off :: V)))%nat by (unfold m; simpl; lia).
  apply IH; [done| |by constructor|by constructor]. intros v [->|Hv]%elem_of_cons; [done|by apply HVk].
Qed.

Lemma walk_enough r k off e d :
  25 <= d + Z.of_nat r -> ends (walk k buf oid off e d) -> ends (walk (S r * (n + 3)) buf oid off e d).
Proof.
  revert k off e d. induction r as [|r IH]; intros k off e d Hd H.
  - replace (1 * (n + 3))%nat with (S (n + 2)) by lia. cbn [walk].
    rewrite Z.gtb_ltb, (proj2 (Z.ltb_lt 24 d)) by lia. done.
  - assert (ends (walk (S r * (n + 3) + (n + 2 - 0)) buf oid off e d)) as Hw.
    { apply (walk_level (S r) e d) with (k := k) (V := []); try done; [|lia|set_solver|constructor].
      intros k' off' c. apply IH. lia. }
    rewrite (walk_more (S r * (n + 3) + (n + 2 - 0))); [done|done|lia].
Qed.
End walk.

(** The search runs out of fuel exactly when the walk of the source has no end. *)
Lemma findExtensionValue_diverges (certDer oid : buffer) (oidDotted : string) :
  encodeOid oidDotted = Ok oid ->
  findExtensionValue certDer oidDotted = Throw Diverges <->
  forall k, walk k certDer oid 0 (blen certDer) 0 = Throw Diverges.
Proof.
  intros Ho. unfold findExtensionValue. rewrite Ho. cbn [mbind result_bind]. split; [|done].
  intros H k. destruct (decide (walk k certDer oid 0 (blen certDer) 0 = Throw Diverges)) as [|Hk]; [done|].
  by destruct (walk_enough certDer oid 25 k 0 (blen certDer) 0 ltac:(done) Hk).
Qed.
