(* ===== verification/AppAttest.v ===== *)
(** * App Attest validation ([token-issuer/appattest.js])

    [parseAuthenticatorData], the five checks and [validateAppAttest], over the
    decoders of [Cbor] and [Der]. Node's [crypto] is the interface [Crypto]: the
    digest, X.509 certificates, public keys and signature verification are
    operations about which nothing is assumed. A check returns or throws, and
    [validateAppAttest] turns every thrown error into a refusal. *)
From S2P Require Import Prelude JsMap JsText JsBase64 Cbor Der.
From Stdlib Require Import Ascii.

(** ** The interface of [node:crypto] *)

(** The fields of [publicKey.export({ format: 'jwk' })] that are read. *)
Record jwk := Jwk { kty : string; crv : string; jwk_x : string; jwk_y : string }.

Class Crypto := {
  (** [createHash('sha256').update(b).digest()]. *)
  sha256 : buffer -> buffer;
  (** [new X509Certificate(..)], from DER or from the PEM text. *)
  cert : Type;
  x509_der : buffer -> result exn cert;
  x509_pem : buffer -> result exn cert;
  (** [new Date(c.validFrom).getTime()], [None] when it is [NaN]. *)
  validFrom : cert -> option Z;
  validTo : cert -> option Z;
  checkIssued : cert -> cert -> bool;
  (** [child.verify(issuer.publicKey)]. *)
  cert_verify : cert -> cert -> bool;
  cert_raw : cert -> buffer;
  cert_jwk : cert -> result exn jwk;
  (** Public keys: from the JWK of a P-256 point, from PEM, to PEM. *)
  pubkey : Type;
  key_of_point : buffer -> buffer -> result exn pubkey;
  key_of_pem : string -> result exn pubkey;
  key_pem : pubkey -> string;
  (** [crypto.verify('sha256', data, key, signature)]. *)
  ecdsa_verify : buffer -> pubkey -> buffer -> result exn bool;
}.

(** [crypto.timingSafeEqual] throws on buffers of different lengths. *)
Definition timingSafeEqual (a b : buffer) : result exn bool :=
  throw_when negb (blen a =? blen b) with
    Exn "Input buffers must have the same byte length"
      (Some "ERR_CRYPTO_TIMING_SAFE_EQUAL_LENGTH") None ;;
  Ok (bool_decide (a = b)).

(** ** Configuration *)
Record attest_config := {
  APPLE_ROOT_CA_PEM_B64 : string;
  APPLE_TEAM_ID : string;
  APPLE_BUNDLE_ID : string;
  EXPECTED_AAGUID_LABEL : string;
  (** [parseInt(.., 10)], [None] when it is [NaN]: a comparison with [NaN] is
      false, so the validity windows then refuse nothing. *)
  CERT_CLOCK_SKEW_MS : option Z;
}.

Definition nonempty (s : string) : bool := match s with EmptyString => false | _ => true end.

Definition APP_ATTEST_READY (cfg : attest_config) : bool :=
  nonempty (APPLE_ROOT_CA_PEM_B64 cfg) && nonempty (APPLE_TEAM_ID cfg)
  && nonempty (APPLE_BUNDLE_ID cfg).

Definition APPLE_NONCE_OID : string := "1.2.840.113635.100.8.2".

Definition appId (cfg : attest_config) : string :=
  APPLE_TEAM_ID cfg +:+ "." +:+ APPLE_BUNDLE_ID cfg.

(** [Buffer.alloc(16)] with at most 16 bytes of the label copied in. *)
Definition expectedAaguid (cfg : attest_config) : buffer :=
  let label := take 16 (ascii_bytes (EXPECTED_AAGUID_LABEL cfg)) in
  label ++ replicate (16 - length label) x00.

(** A proof field: [None] when it is falsy, else what [Buffer.from(field, 'base64')]
    makes of it: the decoded bytes of a string. *)
Abbreviation proof := (option (result exn buffer)).
Definition text_proof (s : string) : proof :=
  if nonempty s then Some (Ok (base64_decode s)) else None.

Section attest.
Context `{C : Crypto} (cfg : attest_config).

Definition appIdHash : buffer := sha256 (utf8_bytes (appId cfg)).

(** ** authenticatorData *)
Record credential_data := Cred {
  c_aaguid : buffer; c_credentialId : buffer; c_key : pubkey; c_rawPoint : buffer }.
Record auth_data := AuthData {
  a_rpIdHash : buffer; a_flags : Z; a_signCount : Z; a_cred : option credential_data }.

Definition coseKeyToEcPublicKey (coseKey : cbor) : result exn (pubkey * buffer) :=
  match coseKey with
  | CMap m =>
      throw_when (match cmap_get m (CNum 1) with Some (CNum v) => negb (v =? 2) | _ => true end)
        with Err "cose: kty must be EC2" ;;
      throw_when (match cmap_get m (CNum 3) with Some (CNum v) => negb (v =? -7) | _ => true end)
        with Err "cose: alg must be ES256" ;;
      throw_when (match cmap_get m (CNum (-1)) with Some (CNum v) => negb (v =? 1) | _ => true end)
        with Err "cose: crv must be P-256" ;;
      match cmap_get m (CNum (-2)) with
      | Some (CBytes x) =>
          throw_when negb (blen x =? 32) with Err "cose: bad x" ;;
          match cmap_get m (CNum (-3)) with
          | Some (CBytes y) =>
              throw_when negb (blen y =? 32) with Err "cose: bad y" ;;
              key ← key_of_point x y;
              Ok (key, x04 :: x ++ y)
          | _ => Throw (Err "cose: bad y")
          end
      | _ => Throw (Err "cose: bad x")
      end
  | _ => Throw (Err "cose: not a map")
  end.

Definition parseAuthenticatorData (authData : buffer) (attestedCredentialData : bool) :
    result exn auth_data :=
  throw_when blen authData <? 37 with Err "authData: too short" ;;
  let rpIdHash := subarray authData 0 32 in
  let flags := default 0 (buf_get authData 32) in
  let signCount := readUInt32BE authData 33 in
  let atPresent := negb (Z.land flags 64 =? 0) in
  if attestedCredentialData && atPresent then
    throw_when 37 + 18 >? blen authData with Err "authData: attestedCredentialData truncated" ;;
    let aaguid := subarray authData 37 53 in
    let credIdLen := readUInt16BE authData 53 in
    throw_when 55 + credIdLen >? blen authData with Err "authData: credentialId truncated" ;;
    let credentialId := subarray authData 55 (55 + credIdLen) in
    '(coseKey, _) ← cborDecodeFirst (subarray authData (55 + credIdLen) (blen authData));
    '(key, rawPoint) ← coseKeyToEcPublicKey coseKey;
    Ok (AuthData rpIdHash flags signCount (Some (Cred aaguid credentialId key rawPoint)))
  else Ok (AuthData rpIdHash flags signCount None).

(** ** CHECK 1: the certificate chain *)
Fixpoint check_windows (now : Z) (l : list cert) : result exn unit :=
  match l with
  | [] => Ok tt
  | c :: l' =>
      match validFrom c, validTo c with
      | Some notBefore, Some notAfter =>
          throw_when (match CERT_CLOCK_SKEW_MS cfg with
                      | Some skew => now <? notBefore - skew | None => false end)
            with Err "chain: cert not yet valid" ;;
          throw_when (match CERT_CLOCK_SKEW_MS cfg with
                      | Some skew => now >? notAfter + skew | None => false end)
            with Err "chain: cert expired" ;;
          check_windows now l'
      | _, _ => Throw (Err "chain: bad validity dates")
      end
  end.

(** [for (i = 0; i < chain.length - 1; i++)]: each certificate against the next. *)
Fixpoint check_links (i : Z) (chain : list cert) : result exn unit :=
  match chain with
  | child :: ((issuer :: _) as chain') =>
      throw_when negb (checkIssued child issuer)
        with Err ("chain: cert " +:+ js_dec i +:+ " not issued by next") ;;
      throw_when negb (cert_verify child issuer)
        with Err ("chain: cert " +:+ js_dec i +:+ " signature invalid") ;;
      check_links (i + 1) chain'
  | _ => Ok tt
  end.

Fixpoint parse_certs (entries : list cbor) : result exn (list cert) :=
  match entries with
  | [] => Ok []
  | CBytes raw :: rest => c ← x509_der raw; cs ← parse_certs rest; Ok (c :: cs)
  | _ :: _ => Throw (Err "chain: x5c entry not bytes")
  end.

Definition verifyCertChain (entries : list cbor) (now : Z) : result exn cert :=
  throw_when negb (nonempty (APPLE_ROOT_CA_PEM_B64 cfg)) with Err "chain: no root CA configured" ;;
  throw_when Z.of_nat (length entries) <? 1 with Err "chain: empty x5c" ;;
  root ← x509_pem (base64_decode (APPLE_ROOT_CA_PEM_B64 cfg));
  certs ← parse_certs entries;
  _ ← check_windows now (certs ++ [root]);
  _ ← check_links 0 (certs ++ [root]);
  throw_when negb (cert_verify root root) with Err "chain: root not self-signed" ;;
  match certs with c :: _ => Ok c | [] => Throw (Err "chain: empty x5c") end.

(** ** CHECK 2: the nonce *)
Definition verifyNonce (authData clientDataHash : buffer) (credCert : cert) : result exn unit :=
  let expected := sha256 (authData ++ clientDataHash) in
  extn ← findExtensionValue (cert_raw credCert) APPLE_NONCE_OID;
  match extn with
  | None => Throw (Err "nonce: extension missing")
  | Some extnValue =>
      actual ← parseAppleNonce extnValue;
      eq ← timingSafeEqual expected actual;
      throw_when negb eq with Err "nonce: mismatch" ;;
      Ok tt
  end.

(** ** CHECK 3: the key id *)
Definition decodeKeyId (keyId : string) : result exn buffer :=
  throw_when negb (nonempty keyId) with Err "keyId: missing" ;;
  Ok (base64_decode keyId).

(** [a.length !== 32 || !timingSafeEqual(computed, a)]. *)
Definition differs32 (computed a : buffer) : result exn bool :=
  if negb (blen a =? 32) then Ok true else eq ← timingSafeEqual computed a; Ok (negb eq).

Definition verifyKeyId (credCert : cert) (presentedKeyId : string)
    (cred : option credential_data) : result exn buffer :=
  certJwk ← cert_jwk credCert;
  throw_when negb (bool_decide (kty certJwk = "EC") && bool_decide (crv certJwk = "P-256"))
    with Err "keyId: leaf key not P-256" ;;
  let certPoint := x04 :: base64_decode (jwk_x certJwk) ++ base64_decode (jwk_y certJwk) in
  match cred with
  | None => Throw (Exn "otherBuffer must be an instance of Buffer or Uint8Array"
      (Some "ERR_INVALID_ARG_TYPE") None)
  | Some cr =>
      throw_when bool_decide (certPoint <> c_rawPoint cr)
        with Err "keyId: cert key != authData credential key" ;;
      let computed := sha256 certPoint in
      presented ← decodeKeyId presentedKeyId;
      bad ← differs32 computed presented;
      throw_when bad with Err "keyId: presented keyId != SHA256(pubkey)" ;;
      bad ← differs32 computed (c_credentialId cr);
      throw_when bad with Err "keyId: credentialId != SHA256(pubkey)" ;;
      Ok computed
  end.

(** ** CHECK 4: authenticator data of an attestation *)
Definition verifyAttestationAuthData (parsed : auth_data) : result exn unit :=
  eq ← timingSafeEqual (a_rpIdHash parsed) appIdHash;
  throw_when negb eq with Err "authData: rpIdHash != SHA256(appID)" ;;
  throw_when Z.land (a_flags parsed) 64 =? 0 with Err "authData: AT flag not set" ;;
  throw_when (match a_cred parsed with
              | Some cr => negb (bool_decide (c_aaguid cr = expectedAaguid cfg))
              | None => true end) with Err "authData: aaguid mismatch" ;;
  throw_when negb (a_signCount parsed =? 0) with
    Err "authData: first attestation signCount must be 0" ;;
  Ok tt.

(** ** CHECK 5: an assertion *)
Definition verifyAssertion (assertionBuf clientDataHash : buffer) (key : pubkey)
    (storedCounter : Z) : result exn Z :=
  '(assertion, _) ← cborDecodeFirst assertionBuf;
  match assertion with
  | CMap m =>
      match cmap_get m (CText (units "signature")),
            cmap_get m (CText (units "authenticatorData")) with
      | Some (CBytes signature), Some (CBytes authData) =>
          let nonce := sha256 (authData ++ clientDataHash) in
          ok ← ecdsa_verify nonce key signature;
          throw_when negb ok with Err "assertion: bad signature" ;;
          parsed ← parseAuthenticatorData authData false;
          eq ← timingSafeEqual (a_rpIdHash parsed) appIdHash;
          throw_when negb eq with Err "assertion: rpIdHash != SHA256(appID)" ;;
          throw_when negb (a_signCount parsed >? storedCounter) with
            Err "assertion: signCount not strictly increasing" ;;
          Ok (a_signCount parsed)
      | _, _ => Throw (Err "assertion: missing signature/authenticatorData")
      end
  | _ => Throw (Err "assertion: not a CBOR map")
  end.

(** ** The attestation object *)
Definition decodeAttestation (attestationBuf : buffer) : result exn (list cbor * buffer) :=
  '(value, _) ← cborDecodeFirst attestationBuf;
  match value with
  | CMap m =>
      throw_when (match cmap_get m (CText (units "fmt")) with
                  | Some (CText f) => negb (bool_decide (f = units "apple-appattest"))
                  | _ => true end) with Err "attestation: fmt must be apple-appattest" ;;
      match cmap_get m (CText (units "attStmt")) with
      | Some (CMap attStmt) =>
          match cmap_get attStmt (CText (units "x5c")) with
          | Some (CArray entries) =>
              throw_when Z.of_nat (length entries) <? 1 with Err "attestation: x5c missing" ;;
              match cmap_get m (CText (units "authData")) with
              | Some (CBytes authData) => Ok (entries, authData)
              | _ => Throw (Err "attestation: authData missing")
              end
          | _ => Throw (Err "attestation: x5c missing")
          end
      | _ => Throw (Err "attestation: attStmt missing")
      end
  | _ => Throw (Err "attestation: not a CBOR map")
  end.

(** ** [validateAppAttest] *)
Inductive attest_mode := Attestation | Assertion.
Inductive attest_result :=
| AttestOk (mode : attest_mode) (keyId publicKeyPem : string) (signCount : Z)
| AttestRefused (reason : string) (detail : option string).

(** What [store.getAttestedKey] resolves to. *)
Record attested_key := AttestedKey { k_publicKeyPem : string; k_signCount : Z }.

(** The arguments. A key id or hash that is absent or no string is the empty
    string, which the source treats alike; [store] answers one read of the device's
    record. *)
Record attest_request := AttestRequest {
  r_keyId : string;
  r_attestation : proof;
  r_assertion : proof;
  r_clientDataHash : string;
  r_store : option (string -> result exn (option attested_key));
}.

Definition attestationBranch (now : Z) (keyId : string) (attestation : result exn buffer)
    (cdh : buffer) : result exn attest_result :=
  attestationBuf ← attestation;
  '(entries, authData) ← decodeAttestation attestationBuf;
  credCert ← verifyCertChain entries now;
  _ ← verifyNonce authData cdh credCert;
  parsed ← parseAuthenticatorData authData true;
  canonicalKeyId ← verifyKeyId credCert keyId (a_cred parsed);
  _ ← verifyAttestationAuthData parsed;
  match a_cred parsed with
  | Some cr => Ok (AttestOk Attestation (base64_encode canonicalKeyId)
                     (key_pem (c_key cr)) (a_signCount parsed))
  | None => Throw (Exn "credentialPublicKey is undefined" None None)
  end.

Definition assertionBranch (keyId : string) (assertion : result exn buffer) (cdh : buffer)
    (store : option (string -> result exn (option attested_key))) : result exn attest_result :=
  match store with
  | None => Ok (AttestRefused "no_attested_key_store" None)
  | Some getAttestedKey =>
      rawKeyId ← decodeKeyId keyId;
      let storeKeyId := base64_encode rawKeyId in
      record ← getAttestedKey storeKeyId;
      match record with
      | None => Ok (AttestRefused "unknown_device_key" None)
      | Some r =>
          if negb (nonempty (k_publicKeyPem r)) then Ok (AttestRefused "unknown_device_key" None)
          else
            pub ← key_of_pem (k_publicKeyPem r);
            assertionBuf ← assertion;
            newCount ← verifyAssertion assertionBuf cdh pub (k_signCount r);
            Ok (AttestOk Assertion storeKeyId (k_publicKeyPem r) newCount)
      end
  end.

(** The [catch] around the two branches. *)
Definition refuse_thrown (r : result exn attest_result) : result exn attest_result :=
  match r with
  | Throw (Exn message code _) =>
      Ok (if bool_decide (code = Some "state_unavailable")
          then AttestRefused "state_unavailable" None
          else AttestRefused "verification_failed" (Some message))
  | r => r
  end.

Definition validateAppAttest (now : Z) (req : attest_request) : result exn attest_result :=
  if negb (APP_ATTEST_READY cfg) then Ok (AttestRefused "app_attest_not_configured" None)
  else if negb (nonempty (r_clientDataHash req)) then
    Ok (AttestRefused "missing_client_data_hash" None)
  else
    let cdh := base64_decode (r_clientDataHash req) in
    if negb (blen cdh =? 32) then Ok (AttestRefused "client_data_hash_not_32_bytes" None)
    else refuse_thrown
      (match r_attestation req, r_assertion req with
       | Some attestation, _ => attestationBranch now (r_keyId req) attestation cdh
       | None, Some assertion => assertionBranch (r_keyId req) assertion cdh (r_store req)
       | None, None => Ok (AttestRefused "no_attestation_or_assertion" None)
       end).
End attest.

(** ** [attestationFailureCategory] *)
Definition failure_reasons : list (string * string) :=
  [ ("app_attest_not_configured", "configuration");
    ("missing_client_data_hash", "client_data");
    ("client_data_hash_not_32_bytes", "client_data");
    ("bad_client_data_hash", "client_data");
    ("no_attestation_or_assertion", "proof_format");
    ("no_attested_key_store", "configuration");
    ("unknown_device_key", "unknown_device_key");
    ("state_unavailable", "state_unavailable");
    ("key_mismatch", "key_binding");
    ("replayed_assertion", "counter");
    ("expired_epoch", "expired_epoch");
    ("quota_exceeded", "quota") ].

Definition attestationFailureCategory (reason : string) (detail : option string) : string :=
  match map_get String.eqb failure_reasons reason with
  | Some c => c
  | None =>
      let detail := default "" detail in
      let starts p := String.prefix p detail in
      if String.eqb detail "authData: aaguid mismatch" then "environment"
      else if String.eqb detail "authData: rpIdHash != SHA256(appID)"
              || String.eqb detail "assertion: rpIdHash != SHA256(appID)" then "app_identity"
      else if String.eqb detail "authData: first attestation signCount must be 0"
              || String.eqb detail "assertion: signCount not strictly increasing" then "counter"
      else if String.eqb detail "assertion: bad signature" then "assertion_signature"
      else if starts "chain:" then "certificate_chain"
      else if starts "nonce:" then "nonce_binding"
      else if starts "keyId:" then "key_binding"
      else if existsb starts ["cbor:"; "der:"; "cose:"; "authData:"; "attestation:"; "assertion:"]
      then "proof_format"
      else "verification"
  end.
