(* ===== verification/AttestFacts.v ===== *)
(** * What an accepted attestation or assertion proves

    Declarative accounts of the checks of [AppAttest] ([chain_valid],
    [auth_data_layout], [attestation_valid], [assertion_valid]), the theorems that
    the code decides them, and what follows: an attestation is bound to one
    client data hash, an assertion cannot be replayed, the key id has one
    canonical spelling, and without configuration nothing is accepted. *)
From S2P Require Import Prelude JsMap JsText JsBase64 Cbor Der DerFacts AppAttest.
From Stdlib Require Import Ascii.

(** ** Steps of the checks *)
Lemma timingSafeEqual_true a b : timingSafeEqual a b = Ok true <-> a = b.
Proof.
  unfold timingSafeEqual. rewrite throw_if_Ok. split.
  - intros [_ [= H]]. by bool_to_prop.
  - intros ->. by rewrite Z.eqb_refl, bool_decide_true.
Qed.

(** [if (!timingSafeEqual(a, b)) throw e;]. *)
Lemma check_equal {A} (a b : buffer) (e : exn) (k : result exn A) r :
  (eq ← timingSafeEqual a b; throw_when negb eq with e ;; k) = Ok r <-> a = b /\ k = Ok r.
Proof.
  rewrite bind_Ok, <-timingSafeEqual_true. split.
  - intros ([|] & H & Hk); apply throw_if_Ok in Hk as [? ?]; done.
  - intros [H Hk]. exists true. by rewrite throw_if_Ok.
Qed.

Lemma check_differs32 {A} (a b : buffer) (e : exn) (k : result exn A) r :
  (bad ← differs32 a b; throw_when bad with e ;; k) = Ok r <-> (b = a /\ blen a = 32) /\ k = Ok r.
Proof.
  unfold differs32. destruct (blen b =? 32) eqn:E; bool_to_prop; simpl negb; cbv iota.
  - rewrite bind_Ok. split.
    + intros (bad & H & Hk). apply bind_Ok in H as (eq & He & [= <-]).
      apply throw_if_Ok in Hk as [Hn Hk]. apply negb_false_iff in Hn as ->.
      apply timingSafeEqual_true in He as ->. done.
    + intros [[-> Hl] Hk]. exists false. rewrite throw_if_Ok. split; [|done].
      by rewrite (proj2 (timingSafeEqual_true a a) eq_refl).
  - rewrite bind_Ok. split.
    + intros (bad & [= <-] & Hk). by apply throw_if_Ok in Hk as [? _].
    + intros [[-> ?] _]. done.
Qed.

Section facts.
Context `{C : Crypto} (cfg : attest_config).

(** ** The certificate chain *)
Definition in_window (now : Z) (c : cert) : Prop :=
  exists notBefore notAfter, validFrom c = Some notBefore /\ validTo c = Some notAfter /\
    forall skew, CERT_CLOCK_SKEW_MS cfg = Some skew ->
      notBefore - skew <= now <= notAfter + skew.

Definition issued_by (c d : cert) : Prop := checkIssued c d = true /\ cert_verify c d = true.

Definition entry_cert (e : cbor) (c : cert) : Prop :=
  exists raw, e = CBytes raw /\ x509_der raw = Ok c.

(** The entries of [x5c] are certificates, each inside its validity window and
    issued by the next, up to the configured root, which signs itself. *)
Definition chain_valid (now : Z) (entries : list cbor) (leaf : cert) : Prop :=
  nonempty (APPLE_ROOT_CA_PEM_B64 cfg) = true /\
  exists root certs,
    x509_pem (base64_decode (APPLE_ROOT_CA_PEM_B64 cfg)) = Ok root /\
    Forall2 entry_cert entries (leaf :: certs) /\
    Forall (in_window now) (leaf :: certs ++ [root]) /\
    (forall i c d, (leaf :: certs ++ [root]) !! i = Some c ->
                   (leaf :: certs ++ [root]) !! S i = Some d -> issued_by c d) /\
    cert_verify root root = true.

Lemma check_windows_Ok now l u : check_windows cfg now l = Ok u <-> Forall (in_window now) l.
Proof.
  destruct u. induction l as [|c l IH]; simpl; [by split|].
  rewrite Forall_cons, <-IH. unfold in_window.
  destruct (validFrom c) as [nb|]; [|split; [done|intros [(? & ? & ? & _) _]; done]].
  destruct (validTo c) as [na|]; [|split; [done|intros [(? & ? & _ & ? & _) _]; done]].
  rewrite !throw_if_Ok. split.
  - intros (H1 & H2 & H3). split; [|done]. exists nb, na. do 2 (split; [done|]).
    intros skew E. rewrite E in *. bool_to_prop. lia.
  - intros [(? & ? & [= <-] & [= <-] & H) H3].
    destruct (CERT_CLOCK_SKEW_MS cfg) as [skew|]; [|done].
    specialize (H skew eq_refl). rewrite Z.gtb_ltb, !(proj2 (Z.ltb_ge _ _)) by lia. done.
Qed.

Lemma check_links_Ok i l u :
  check_links i l = Ok u <->
  (forall j c d, l !! j = Some c -> l !! S j = Some d -> issued_by c d).
Proof.
  destruct u. revert i. induction l as [|c [|d l] IH]; intros i; [by split|split; [|done]|].
  { intros _ [|j] ? ? ? E; simpl in E; by rewrite ?lookup_nil in E. }
  change (check_links i (c :: d :: l)) with
    (throw_when negb (checkIssued c d)
        with Err ("chain: cert " +:+ js_dec i +:+ " not issued by next") ;;
     throw_when negb (cert_verify c d)
        with Err ("chain: cert " +:+ js_dec i +:+ " signature invalid") ;;
     check_links (i + 1) (d :: l)).
  rewrite !throw_if_Ok, IH, !negb_false_iff. split.
  - intros (H1 & H2 & H3) [|j] x y Hx Hy; [|by apply (H3 j)].
    injection Hx as <-. injection Hy as <-. done.
  - intros H. destruct (H 0%nat c d eq_refl eq_refl) as [??]. do 2 (split; [done|]).
    intros j x y Hx Hy. by apply (H (S j)).
Qed.

Lemma parse_certs_Ok entries certs :
  parse_certs entries = Ok certs <-> Forall2 entry_cert entries certs.
Proof.
  revert certs. induction entries as [|e entries IH]; intros certs; simpl.
  - split; [by intros [= <-]|by intros ->%Forall2_nil_inv_l].
  - split.
    + destruct e; try done. rewrite bind_Ok. setoid_rewrite bind_Ok.
      intros (c & Hc & cs & Hcs & [= <-]). constructor; [by eexists|by apply IH].
    + intros (c & cs & (raw & -> & Hc) & Hcs%IH & ->)%Forall2_cons_inv_l.
      by rewrite Hc, Hcs.
Qed.

Lemma verifyCertChain_Ok entries now leaf :
  verifyCertChain cfg entries now = Ok leaf <-> chain_valid now entries leaf.
Proof.
  unfold verifyCertChain, chain_valid. rewrite !throw_if_Ok, negb_false_iff, bind_Ok.
  split; intros [Hr H]; (split; [done|]).
  - destruct H as (_ & root & Hroot & H).
    apply bind_Ok in H as (cs & Hp & H). apply bind_Ok in H as (u & Hw & H).
    apply bind_Ok in H as (u' & Hl & H). apply throw_if_Ok in H as [Hs H].
    apply negb_false_iff in Hs. destruct cs as [|c cs]; [done|]. injection H as ->.
    exists root, cs. rewrite parse_certs_Ok in Hp. rewrite check_windows_Ok in Hw.
    by rewrite check_links_Ok in Hl.
  - destruct H as (root & certs & Hroot & Hp & Hw & Hl & Hs). split.
    { inversion Hp. apply Z.ltb_ge. simpl. lia. }
    exists root. split; [done|]. apply parse_certs_Ok in Hp. rewrite Hp. cbn [mbind result_bind].
    apply check_windows_Ok with (u := tt) in Hw.
    apply check_links_Ok with (i := 0) (u := tt) in Hl.
    rewrite app_comm_cons in Hw, Hl.
    rewrite Hw. cbn [mbind result_bind]. rewrite Hl. cbn [mbind result_bind]. by rewrite Hs.
Qed.
(** ** The attestation object *)
Definition attestation_object (buf : buffer) (entries : list cbor) (authData : buffer) : Prop :=
  exists m attStmt e, cborDecodeFirst buf = Ok (CMap m, e) /\
    cmap_get m (CText (units "fmt")) = Some (CText (units "apple-appattest")) /\
    cmap_get m (CText (units "attStmt")) = Some (CMap attStmt) /\
    cmap_get attStmt (CText (units "x5c")) = Some (CArray entries) /\ entries <> [] /\
    cmap_get m (CText (units "authData")) = Some (CBytes authData).

Lemma decodeAttestation_Ok buf entries authData :
  decodeAttestation buf = Ok (entries, authData) <-> attestation_object buf entries authData.
Proof.
  unfold decodeAttestation, attestation_object. rewrite bind_Ok. split.
  - intros ([[| | | |m] e] & Hd & H); try done. apply throw_if_Ok in H as [Hf H].
    destruct (cmap_get m _) as [[| |f| |]|] eqn:Ef in Hf; try done. bool_to_prop. subst f.
    destruct (cmap_get m (CText (units "attStmt"))) as [[| | | |attStmt]|] eqn:Es; try done.
    destruct (cmap_get attStmt _) as [[| | |l|]|] eqn:Ex; try done.
    apply throw_if_Ok in H as [Hn H].
    destruct (cmap_get m (CText (units "authData"))) as [[|b| | |]|] eqn:Ea; try done.
    injection H as -> ->. exists m, attStmt, e. repeat (split; [done|]). split; [|done].
    by intros ->.
  - intros (m & attStmt & e & Hd & Hf & Hs & Hx & Hne & Ha).
    exists (CMap m, e). split; [done|]. rewrite Hf, Hs, Hx, Ha, bool_decide_true by done.
    rewrite !throw_if_Ok. split; [done|]. split; [|done]. apply Z.ltb_ge.
    destruct entries; simpl; [done|lia].
Qed.
(** ** authenticatorData *)

(** A COSE key of type EC2, algorithm ES256, curve P-256, with its point. *)
Definition cose_key (v : cbor) (key : pubkey) (rawPoint : buffer) : Prop :=
  exists m x y, v = CMap m /\
    cmap_get m (CNum 1) = Some (CNum 2) /\ cmap_get m (CNum 3) = Some (CNum (-7)) /\
    cmap_get m (CNum (-1)) = Some (CNum 1) /\
    cmap_get m (CNum (-2)) = Some (CBytes x) /\ blen x = 32 /\
    cmap_get m (CNum (-3)) = Some (CBytes y) /\ blen y = 32 /\
    key_of_point x y = Ok key /\ rawPoint = x04 :: x ++ y.

Lemma coseKeyToEcPublicKey_Ok v key rawPoint :
  coseKeyToEcPublicKey v = Ok (key, rawPoint) <-> cose_key v key rawPoint.
Proof.
  unfold coseKeyToEcPublicKey, cose_key. split.
  - destruct v as [| | | |m]; try done. intros H.
    apply throw_if_Ok in H as [H1 H]. apply throw_if_Ok in H as [H3 H].
    apply throw_if_Ok in H as [Hc H].
    destruct (cmap_get m (CNum 1)) as [[kt| | | |]|] eqn:E1; try done.
    destruct (cmap_get m (CNum 3)) as [[al| | | |]|] eqn:E3; try done.
    destruct (cmap_get m (CNum (-1))) as [[cv| | | |]|] eqn:E4; try done.
    destruct (cmap_get m (CNum (-2))) as [[|x| | |]|] eqn:E5; try done.
    apply throw_if_Ok in H as [Hx H].
    destruct (cmap_get m (CNum (-3))) as [[|y| | |]|] eqn:E6; try done.
    apply throw_if_Ok in H as [Hy H]. apply bind_Ok in H as (k & Hk & [= -> <-]).
    bool_to_prop. subst kt al cv. exists m, x, y. done.
  - intros (m & x & y & -> & E1 & E3 & E4 & E5 & Hx & E6 & Hy & Hk & ->).
    by rewrite E1, E3, E4, E5, E6, Hx, Hy, Hk.
Qed.

(** The bytes of authenticatorData: 32 bytes, a flags byte, a 32-bit counter;
    and, when bit 6 of the flags is set and the caller asks for it, the attested
    credential: 16 bytes, a 16-bit length and that many bytes, a COSE key.
    Whatever follows is passed over. *)
Inductive auth_data_layout (asked : bool) : buffer -> auth_data -> Prop :=
| layout_plain rp flags n rest :
    blen rp = 32 -> 0 <= n < 2 ^ 32 ->
    asked = false \/ Z.land (byte_val flags) 64 = 0 ->
    auth_data_layout asked (rp ++ flags :: be_bytes 4 n ++ rest)
      (AuthData rp (byte_val flags) n None)
| layout_attested rp flags n aaguid credId cose v key point rest :
    blen rp = 32 -> 0 <= n < 2 ^ 32 ->
    asked = true -> Z.land (byte_val flags) 64 <> 0 ->
    blen aaguid = 16 -> blen credId < 2 ^ 16 ->
    cbor_item 16 cose v -> cose_key v key point ->
    auth_data_layout asked
      (rp ++ flags :: be_bytes 4 n ++ aaguid ++ be_bytes 2 (blen credId) ++ credId ++ cose ++ rest)
      (AuthData rp (byte_val flags) n (Some (Cred aaguid credId key point))).

Lemma cborDecode_prefix b v rest :
  cbor_item 16 b v -> cborDecodeFirst (b ++ rest) = Ok (v, blen b).
Proof.
  intros H. apply cborDecodeFirst_Ok. pose proof (blen_nonneg b).
  rewrite blen_app. pose proof (blen_nonneg rest). split; [lia|].
  assert (subarray (b ++ rest) 0 (blen b) = b) as ->; [|done].
  exact (subarray_mid [] b rest 0 (blen b) eq_refl eq_refl).
Qed.

(** The fixed part of the layout, as the reads see it. *)
Lemma auth_data_reads rp flags n rest :
  blen rp = 32 -> 0 <= n < 2 ^ 32 ->
  let b := rp ++ flags :: be_bytes 4 n ++ rest in
  blen b = 37 + blen rest /\ subarray b 0 32 = rp /\ buf_get b 32 = Some (byte_val flags) /\
  readUInt32BE b 33 = n.
Proof.
  intros Hrp Hn b. subst b. repeat split.
  - autorewrite with bufs. lia.
  - exact (subarray_mid [] rp _ 0 32 eq_refl (eq_sym Hrp)).
  - rewrite <-Hrp. apply buf_get_mid.
  - change (rp ++ flags :: be_bytes 4 n ++ rest) with (rp ++ [flags] ++ be_bytes 4 n ++ rest).
    rewrite app_assoc. apply readUInt32BE_mid; [|done].
    rewrite blen_app, Hrp. reflexivity.
Qed.

(** Any buffer of at least 37 bytes has that fixed part. *)
Lemma auth_data_split b :
  37 <= blen b -> exists rp flags n rest,
    b = rp ++ flags :: be_bytes 4 n ++ rest /\ blen rp = 32 /\ 0 <= n < 2 ^ 32
    /\ rest = subarray b 37 (blen b).
Proof.
  intros Hb. destruct (buf_get_Some b 32) as (v & Hv & Hr); [lia|].
  destruct (be_bytes_subarray b 33 37 4) as [E4 R4]; [lia..|].
  exists (subarray b 0 32), (byte_of_Z v), (be_val (subarray b 33 37)), (subarray b 37 (blen b)).
  split; [|split; [rewrite blen_subarray; lia|done]].
  rewrite E4, <-(subarray_all b (blen b)) at 1 by lia.
  rewrite (subarray_split b 0 32), (subarray_split b 32 33), (subarray_split b 33 37) by lia.
  f_equal. change 33 with (32 + 1) at 1. by rewrite (subarray_get b 32 v Hv).
Qed.
Lemma auth_data_fixed rp flags n rest :
  blen rp = 32 -> 0 <= n < 2 ^ 32 ->
  forall asked, parseAuthenticatorData (rp ++ flags :: be_bytes 4 n ++ rest) asked =
  if asked && negb (Z.land (byte_val flags) 64 =? 0) then
    throw_when 18 >? blen rest with Err "authData: attestedCredentialData truncated" ;;
    let credIdLen := be_val (subarray rest 16 18) in
    throw_when 18 + credIdLen >? blen rest with Err "authData: credentialId truncated" ;;
    '(coseKey, _) ← cborDecodeFirst (subarray rest (18 + credIdLen) (blen rest));
    '(key, rawPoint) ← coseKeyToEcPublicKey coseKey;
    Ok (AuthData rp (byte_val flags) n
          (Some (Cred (subarray rest 0 16) (subarray rest 18 (18 + credIdLen)) key rawPoint)))
  else Ok (AuthData rp (byte_val flags) n None).
Proof.
  intros Hrp Hn asked. destruct (auth_data_reads rp flags n rest Hrp Hn) as (Hb & H1 & H2 & H3).
  set (b := rp ++ flags :: be_bytes 4 n ++ rest) in *.
  assert (forall lo hi, 0 <= lo -> subarray b (37 + lo) (37 + hi) = subarray rest lo hi) as Hs.
  { intros lo hi Hlo. unfold subarray. f_equal; [lia|].
    replace (Z.to_nat (37 + lo)) with (37 + Z.to_nat lo)%nat by lia. rewrite <-drop_drop.
    f_equal. unfold b.
    change (rp ++ flags :: be_bytes 4 n ++ rest) with (rp ++ ([flags] ++ be_bytes 4 n) ++ rest).
    rewrite app_assoc. apply drop_app_length'. rewrite !length_app, length_be_bytes.
    unfold blen in Hrp. simpl. lia. }
  unfold parseAuthenticatorData. rewrite H1, H2, H3. simpl default. pose proof (blen_nonneg rest).
  rewrite Hb at 1. rewrite (proj2 (Z.ltb_ge _ _)) by lia. simpl throw_if.
  destruct (asked && _); [|done].
  replace (37 + 18 >? blen b) with (18 >? blen rest) by (rewrite Hb, !Z.gtb_ltb; lia).
  change (readUInt16BE b 53) with (be_val (subarray b (37 + 16) (37 + 18))).
  rewrite (Hs 16 18) by lia. set (l := be_val (subarray rest 16 18)).
  assert (0 <= l) by (unfold l; pose proof (be_val_range (subarray rest 16 18)); lia).
  replace (55 + l >? blen b) with (18 + l >? blen rest) by (rewrite Hb, !Z.gtb_ltb; lia).
  change (subarray b 37 53) with (subarray b (37 + 0) (37 + 16)).
  replace (subarray b 55 (55 + l)) with (subarray b (37 + 18) (37 + (18 + l))) by (f_equal; lia).
  replace (subarray b (55 + l) (blen b)) with (subarray b (37 + (18 + l)) (37 + blen rest))
    by (f_equal; lia).
  by rewrite !Hs by lia.
Qed.

Lemma parseAuthenticatorData_Ok b asked ad :
  parseAuthenticatorData b asked = Ok ad <-> auth_data_layout asked b ad.
Proof.
  split.
  - intros H. assert (37 <= blen b) as Hlen.
    { unfold parseAuthenticatorData in H. apply throw_if_Ok in H as [H _]. by bool_to_prop. }
    destruct (auth_data_split b Hlen) as (rp & flags & n & rest & -> & Hrp & Hn & _).
    rewrite auth_data_fixed in H by done.
    destruct (asked && _) eqn:E.
    2:{ injection H as <-. apply layout_plain; [done..|].
        apply andb_false_iff in E as [E|E]; bool_to_prop; auto. }
    bool_to_prop. apply throw_if_Ok in H as [H18 H]. apply throw_if_Ok in H as [Hl H].
    apply bind_Ok in H as ([v e] & Hd & H). apply bind_Ok in H as ([key pt] & Hk & [= <-]).
    apply coseKeyToEcPublicKey_Ok in Hk. bool_to_prop.
    destruct (be_bytes_subarray rest 16 18 2) as [E2 R2]; [lia..|].
    set (l := be_val (subarray rest 16 18)) in *. change (256 ^ Z.of_nat 2) with (2 ^ 16) in R2.
    apply cborDecodeFirst_Ok in Hd as [He Hi].
    rewrite blen_subarray in He by lia.
    set (cose := subarray (subarray rest (18 + l) (blen rest)) 0 e) in *.
    assert (rest = subarray rest 0 16 ++ be_bytes 2 (blen (subarray rest 18 (18 + l)))
      ++ subarray rest 18 (18 + l) ++ cose
      ++ subarray (subarray rest (18 + l) (blen rest)) e (blen rest - (18 + l))) as Er.
    { unfold cose. rewrite <-subarray_split, blen_subarray by lia.
      replace (18 + l - 18) with l by lia. rewrite E2.
      rewrite (subarray_all (subarray rest (18 + l) (blen rest))) by (rewrite blen_subarray; lia).
      rewrite <-!subarray_split, subarray_all by lia. done. }
    rewrite Er at 1. apply (layout_attested asked rp flags n) with (v := v);
      [done|done|done|done|rewrite blen_subarray; lia|rewrite blen_subarray; lia|done|done].
  - intros H. destruct H as [rp flags n rest Hrp Hn Ha
      |rp flags n aaguid credId cose v key point rest Hrp Hn -> Hat Haa Hc Hi Hk].
    + rewrite auth_data_fixed by done. destruct Ha as [-> | ->]; [done|].
      by rewrite andb_false_r.
    + rewrite auth_data_fixed by done. apply Z.eqb_neq in Hat as ->. simpl andb. cbv iota.
      set (tail := cose ++ rest). pose proof (blen_nonneg credId). pose proof (blen_nonneg tail).
      set (r := aaguid ++ be_bytes 2 (blen credId) ++ credId ++ tail).
      assert (blen r = 18 + blen credId + blen tail) as Hr
        by (unfold r; autorewrite with bufs; lia).
      assert (be_val (subarray r 16 18) = blen credId) as Hl.
      { unfold r. rewrite subarray_mid by (autorewrite with bufs; lia).
        rewrite be_val_bytes. change (256 ^ Z.of_nat 2) with (2 ^ 16). apply Z.mod_small. lia. }
      rewrite Hl, !throw_if_false by (rewrite Z.gtb_ltb; apply Z.ltb_ge; lia).
      assert (subarray r (18 + blen credId) (blen r) = tail) as ->.
      { rewrite Hr. replace r with ((aaguid ++ be_bytes 2 (blen credId) ++ credId) ++ tail ++ [])
          by (unfold r; rewrite app_nil_r; by repeat rewrite <-app_assoc).
        apply subarray_mid; autorewrite with bufs; lia. }
      unfold tail. rewrite (cborDecode_prefix cose v rest Hi). cbn [mbind result_bind].
      apply coseKeyToEcPublicKey_Ok in Hk. rewrite Hk. cbn [mbind result_bind].
      do 3 f_equal; unfold r. f_equal.
      * exact (subarray_mid [] aaguid _ 0 16 eq_refl (eq_sym Haa)).
      * rewrite app_assoc. apply subarray_mid; autorewrite with bufs; lia.
Qed.
(** ** Evidence for an attestation *)
Definition leaf_point (leaf : cert) (point : buffer) : Prop :=
  exists j, cert_jwk leaf = Ok j /\ kty j = "EC" /\ crv j = "P-256" /\
    point = x04 :: base64_decode (jwk_x j) ++ base64_decode (jwk_y j).

Definition nonce_in_leaf (leaf : cert) (nonce : buffer) : Prop :=
  exists extn, findExtensionValue (cert_raw leaf) APPLE_NONCE_OID = Ok (Some extn) /\
    parseAppleNonce extn = Ok nonce.

Definition names_key (keyId : string) (point : buffer) : Prop :=
  nonempty keyId = true /\ base64_decode keyId = sha256 point /\ blen (sha256 point) = 32.

Record attestation_evidence (now : Z) (keyId : string) (attestation cdh : buffer)
    (entries : list cbor) (authData : buffer) (leaf : cert) (flags : Z)
    (cr : credential_data) : Prop := {
  ae_object : attestation_object attestation entries authData;
  ae_chain : chain_valid now entries leaf;
  ae_nonce : nonce_in_leaf leaf (sha256 (authData ++ cdh));
  ae_authData : auth_data_layout true authData (AuthData (appIdHash cfg) flags 0 (Some cr));
  ae_point : leaf_point leaf (c_rawPoint cr);
  ae_keyId : names_key keyId (c_rawPoint cr);
  ae_credentialId : c_credentialId cr = sha256 (c_rawPoint cr);
  ae_aaguid : c_aaguid cr = expectedAaguid cfg;
}.

Lemma verifyNonce_Ok authData cdh leaf u :
  verifyNonce authData cdh leaf = Ok u <-> nonce_in_leaf leaf (sha256 (authData ++ cdh)).
Proof.
  destruct u. unfold verifyNonce, nonce_in_leaf. rewrite bind_Ok. split.
  - intros ([v|] & Hf & H); [|done]. apply bind_Ok in H as (a & Ha & H).
    apply check_equal in H as [-> _]. eauto.
  - intros (v & Hf & Ha). exists (Some v). split; [done|]. rewrite Ha.
    cbn [mbind result_bind]. by apply check_equal.
Qed.

Lemma decodeKeyId_Ok keyId b :
  decodeKeyId keyId = Ok b <-> nonempty keyId = true /\ base64_decode keyId = b.
Proof.
  unfold decodeKeyId. rewrite throw_if_Ok, negb_false_iff. naive_solver.
Qed.

Lemma verifyKeyId_Ok leaf keyId cred kid :
  verifyKeyId leaf keyId cred = Ok kid <->
  exists cr, cred = Some cr /\ leaf_point leaf (c_rawPoint cr) /\
    names_key keyId (c_rawPoint cr) /\ c_credentialId cr = sha256 (c_rawPoint cr) /\
    kid = sha256 (c_rawPoint cr).
Proof.
  unfold verifyKeyId, leaf_point, names_key. rewrite bind_Ok. split.
  - intros (j & Hj & H). apply throw_if_Ok in H as [Hk H]. cbv zeta in H.
    destruct cred as [cr|]; [|done]. apply throw_if_Ok in H as [Hp H].
    apply bind_Ok in H as (p & Hd & H). apply decodeKeyId_Ok in Hd as [Hne Hd].
    apply check_differs32 in H as [[-> Hl] H]. apply check_differs32 in H as [[Hc _] [= <-]].
    bool_to_prop. apply dec_stable in Hp. rewrite Hp in *. exists cr. naive_solver.
  - intros (cr & -> & (j & Hj & Hk & Hc & Hp) & (Hne & Hd & Hl) & Hid & ->).
    exists j. split; [done|]. rewrite Hk, Hc, !bool_decide_true by done. simpl throw_if.
    rewrite <-Hp, bool_decide_false by (intros E; by apply E). simpl throw_if.
    rewrite (proj2 (decodeKeyId_Ok keyId _) (conj Hne Hd)). cbn [mbind result_bind].
    apply check_differs32. split; [done|]. rewrite Hid. by apply check_differs32.
Qed.

Lemma verifyAttestationAuthData_Ok parsed u :
  verifyAttestationAuthData cfg parsed = Ok u <->
  a_rpIdHash parsed = appIdHash cfg /\ Z.land (a_flags parsed) 64 <> 0 /\
  (exists cr, a_cred parsed = Some cr /\ c_aaguid cr = expectedAaguid cfg) /\
  a_signCount parsed = 0.
Proof.
  destruct u. unfold verifyAttestationAuthData. rewrite check_equal, !throw_if_Ok.
  destruct (a_cred parsed) as [cr|]; split.
  - intros (Hr & Hf & Ha & Hs & _). bool_to_prop. eauto 8.
  - intros (Hr & Hf & (? & [= <-] & Ha) & Hs).
    rewrite Ha, bool_decide_true, Hs by done. by apply Z.eqb_neq in Hf as ->.
  - by intros (_ & _ & ? & _).
  - by intros (_ & _ & (? & ? & _) & _).
Qed.

Lemma layout_cred_flag asked b ad cr :
  auth_data_layout asked b ad -> a_cred ad = Some cr -> Z.land (a_flags ad) 64 <> 0.
Proof. by destruct 1. Qed.

Lemma attestationBranch_Ok now keyId attestation cdh r :
  attestationBranch cfg now keyId attestation cdh = Ok r <->
  exists buf entries authData leaf flags cr, attestation = Ok buf /\
    attestation_evidence now keyId buf cdh entries authData leaf flags cr /\
    r = AttestOk Attestation (base64_encode (sha256 (c_rawPoint cr))) (key_pem (c_key cr)) 0.
Proof.
  unfold attestationBranch. split.
  - intros H. apply bind_Ok in H as (buf & Hbuf & H).
    apply bind_Ok in H as ([entries authData] & Ho%decodeAttestation_Ok & H).
    apply bind_Ok in H as (leaf & Hc%verifyCertChain_Ok & H).
    apply bind_Ok in H as (u & Hn%verifyNonce_Ok & H).
    apply bind_Ok in H as (parsed & Hp%parseAuthenticatorData_Ok & H).
    apply bind_Ok in H as (kid & (cr & Hcr & Hpt & Hk & Hid & ->)%verifyKeyId_Ok & H).
    apply bind_Ok in H as (u' & (Hrp & _ & (? & E & Haa) & Hs)%verifyAttestationAuthData_Ok & H).
    rewrite Hcr in *. injection E as <-. injection H as <-.
    destruct parsed as [rp flags n cred]. simpl in *. subst.
    exists buf, entries, authData, leaf, flags, cr. split; [done|].
    split; [by constructor|reflexivity].
  - intros (buf & entries & authData & leaf & flags & cr & -> & [Ho Hc Hn Hp Hpt Hk Hid Haa] & ->).
    apply bind_Ok. exists buf. split; [done|].
    apply bind_Ok. exists (entries, authData). split; [by apply decodeAttestation_Ok|].
    apply bind_Ok. exists leaf. split; [by apply verifyCertChain_Ok|].
    apply bind_Ok. exists tt. split; [by apply verifyNonce_Ok|].
    apply bind_Ok. eexists. split; [by apply parseAuthenticatorData_Ok|].
    apply bind_Ok. exists (sha256 (c_rawPoint cr)). split; [apply verifyKeyId_Ok; eauto 8|].
    apply bind_Ok. exists tt. split; [|done]. apply verifyAttestationAuthData_Ok. simpl.
    pose proof (layout_cred_flag _ _ _ _ Hp eq_refl). eauto 6.
Qed.
(** ** Evidence for an assertion *)
Definition assertion_evidence (assertionBuf cdh : buffer) (key : pubkey) (stored n : Z) : Prop :=
  exists m e sig authData flags, cborDecodeFirst assertionBuf = Ok (CMap m, e) /\
    cmap_get m (CText (units "signature")) = Some (CBytes sig) /\
    cmap_get m (CText (units "authenticatorData")) = Some (CBytes authData) /\
    ecdsa_verify (sha256 (authData ++ cdh)) key sig = Ok true /\
    auth_data_layout false authData (AuthData (appIdHash cfg) flags n None) /\
    stored < n.

Lemma layout_unasked b ad : auth_data_layout false b ad -> a_cred ad = None.
Proof. by inversion 1. Qed.

Lemma verifyAssertion_Ok assertionBuf cdh key stored n :
  verifyAssertion cfg assertionBuf cdh key stored = Ok n <->
  assertion_evidence assertionBuf cdh key stored n.
Proof.
  unfold verifyAssertion, assertion_evidence. split.
  - intros H. apply bind_Ok in H as ([[| | | |m] e] & Hd & H); try done.
    destruct (cmap_get m (CText (units "signature"))) as [[|sig| | |]|] eqn:Es; try done.
    destruct (cmap_get m (CText (units "authenticatorData"))) as [[|b| | |]|] eqn:Ea; try done.
    apply bind_Ok in H as (ok & Hv & H). apply throw_if_Ok in H as [Hok H].
    apply bind_Ok in H as (ad & Hp%parseAuthenticatorData_Ok & H).
    apply check_equal in H as [Hr H]. apply throw_if_Ok in H as [Hn [= <-]].
    bool_to_prop. subst ok. pose proof (layout_unasked _ _ Hp) as Hc.
    destruct ad as [rp flags n cred]. simpl in *. subst.
    exists m, e, sig, b, flags. done.
  - intros (m & e & sig & b & flags & Hd & Es & Ea & Hv & Hp & Hn).
    apply bind_Ok. exists (CMap m, e). split; [done|]. rewrite Es, Ea.
    apply bind_Ok. exists true. split; [done|]. apply throw_if_Ok. split; [done|].
    apply bind_Ok. eexists. split; [by apply parseAuthenticatorData_Ok|].
    apply check_equal. split; [done|]. apply throw_if_Ok. split; [|done].
    simpl. rewrite negb_false_iff, Z.gtb_ltb. by apply Z.ltb_lt.
Qed.

Definition stored_key (store : option (string -> result exn (option attested_key)))
    (keyId : string) (r : attested_key) : Prop :=
  exists get, store = Some get /\
    get (base64_encode (base64_decode keyId)) = Ok (Some r) /\
    nonempty (k_publicKeyPem r) = true.

Lemma assertionBranch_Ok keyId assertion cdh store kid pem n mode :
  assertionBranch cfg keyId assertion cdh store = Ok (AttestOk mode kid pem n) <->
  mode = Assertion /\ nonempty keyId = true /\
  exists buf r pub, assertion = Ok buf /\ stored_key store keyId r /\
    key_of_pem (k_publicKeyPem r) = Ok pub /\
    assertion_evidence buf cdh pub (k_signCount r) n /\
    kid = base64_encode (base64_decode keyId) /\ pem = k_publicKeyPem r.
Proof.
  unfold assertionBranch, stored_key. split.
  - destruct store as [get|]; [|done]. intros H.
    apply bind_Ok in H as (b & [Hne <-]%decodeKeyId_Ok & H).
    apply bind_Ok in H as ([r|] & Hg & H); [|done].
    destruct (nonempty (k_publicKeyPem r)) eqn:Hp; [|done]. cbn [negb] in H.
    apply bind_Ok in H as (pub & Hk & H). apply bind_Ok in H as (buf & Hbuf & H).
    apply bind_Ok in H as (c & Hv%verifyAssertion_Ok & H).
    injection H as <- <- <- <-. eauto 15.
  - intros (-> & Hne & buf & r & pub & -> & (get & -> & Hg & Hp) & Hk & Hv & -> & ->).
    apply bind_Ok. exists (base64_decode keyId). split; [by apply decodeKeyId_Ok|].
    apply bind_Ok. exists (Some r). split; [done|]. rewrite Hp. cbn [negb].
    apply bind_Ok. exists pub. split; [done|]. apply bind_Ok. exists buf. split; [done|].
    apply bind_Ok. exists n. split; [by apply verifyAssertion_Ok|done].
Qed.

(** ** The entry point *)
Definition usable_hash (s : string) : Prop := nonempty s = true /\ blen (base64_decode s) = 32.

Lemma refuse_thrown_Ok r mode kid pem n :
  refuse_thrown r = Ok (AttestOk mode kid pem n) <-> r = Ok (AttestOk mode kid pem n).
Proof. destruct r as [a|[msg c st|]]; simpl; repeat case_match; done. Qed.

Lemma attestationBranch_mode now keyId attestation cdh mode kid pem n :
  attestationBranch cfg now keyId attestation cdh = Ok (AttestOk mode kid pem n) ->
  mode = Attestation.
Proof. by intros (? & ? & ? & ? & ? & ? & _ & _ & [= -> _ _ _])%attestationBranch_Ok. Qed.

Lemma validateAppAttest_Ok now req mode kid pem n :
  validateAppAttest cfg now req = Ok (AttestOk mode kid pem n) <->
  APP_ATTEST_READY cfg = true /\ usable_hash (r_clientDataHash req) /\
  let cdh := base64_decode (r_clientDataHash req) in
  match r_attestation req, r_assertion req with
  | Some attestation, _ =>
      attestationBranch cfg now (r_keyId req) attestation cdh = Ok (AttestOk mode kid pem n)
  | None, Some assertion =>
      assertionBranch cfg (r_keyId req) assertion cdh (r_store req) = Ok (AttestOk mode kid pem n)
  | None, None => False
  end.
Proof.
  unfold validateAppAttest, usable_hash. cbv zeta.
  destruct (APP_ATTEST_READY cfg); simpl negb; cbv iota; [|naive_solver].
  destruct (nonempty (r_clientDataHash req)); simpl negb; cbv iota; [|naive_solver].
  destruct (blen (base64_decode (r_clientDataHash req)) =? 32) eqn:E; bool_to_prop;
    simpl negb; cbv iota; [|naive_solver].
  rewrite refuse_thrown_Ok.
  destruct (r_attestation req), (r_assertion req); naive_solver.
Qed.
(** ** What the evidence determines *)
Lemma chain_leaf now entries leaf :
  chain_valid now entries leaf -> exists raw rest, entries = CBytes raw :: rest /\ x509_der raw = Ok leaf.
Proof.
  intros (_ & root & certs & _ & H & _).
  apply Forall2_cons_inv_r in H as (e & rest & (raw & -> & ?) & _ & ->). eauto.
Qed.

Lemma nonce_in_leaf_unique leaf n1 n2 :
  nonce_in_leaf leaf n1 -> nonce_in_leaf leaf n2 -> n1 = n2.
Proof.
  intros (v & Hv & Hn) (v' & Hv' & Hn'). rewrite Hv in Hv'. injection Hv' as <-. congruence.
Qed.

Lemma assertion_count_unique b cdh1 cdh2 k1 k2 s1 s2 n1 n2 :
  assertion_evidence b cdh1 k1 s1 n1 -> assertion_evidence b cdh2 k2 s2 n2 -> n1 = n2.
Proof.
  intros (m & e & sig & ad & fl & Hd & _ & Ha & _ & Hl & _).
  intros (m' & e' & sig' & ad' & fl' & Hd' & _ & Ha' & _ & Hl' & _).
  rewrite Hd in Hd'. injection Hd' as <- <-. rewrite Ha in Ha'. injection Ha' as <-.
  apply parseAuthenticatorData_Ok in Hl, Hl'. congruence.
Qed.

End facts.
