(* ===== verification/AttestTheorems.v ===== *)
(** * The promises of [validateAppAttest]

    The properties of App Attest validation, over the lemmas of [AttestFacts],
    and a small instance of [Crypto] on which they are evaluated. *)
From S2P Require Import Prelude JsMap JsText JsBase64 Cbor Der DerFacts DerWalk AppAttest AttestFacts.
From Stdlib Require Import Ascii.

(** ** Spellings of a key id *)

(** The base64url spelling of a base64 string. *)
Definition url_char (c : ascii) : ascii :=
  if Ascii.eqb c "+" then "-"%char else if Ascii.eqb c "/" then "_"%char else c.
Definition url_spelling (s : string) : string :=
  String.string_of_list_ascii (url_char <$> String.list_ascii_of_string s).

Lemma url_char_digit c :
  b64_digit (url_char c) = b64_digit c /\ Ascii.eqb (url_char c) "=" = Ascii.eqb c "=".
Proof. destruct c as [[] [] [] [] [] [] [] []]; split; reflexivity. Qed.

Lemma url_spelling_decode s :
  base64_decode (url_spelling s) = base64_decode s /\ nonempty (url_spelling s) = nonempty s.
Proof.
  split; [|by destruct s].
  unfold base64_decode, url_spelling. f_equal.
  rewrite String.list_ascii_of_string_of_list_ascii.
  induction (String.list_ascii_of_string s) as [|c l IH]; [done|].
  cbn [fmap list_fmap b64_digits]. destruct (url_char_digit c) as [-> ->]. by rewrite IH.
Qed.

Section theorems.
Context `{C : Crypto} (cfg : attest_config).

Lemma decodeKeyId_spelling s : decodeKeyId (url_spelling s) = decodeKeyId s.
Proof. unfold decodeKeyId. by destruct (url_spelling_decode s) as [-> ->]. Qed.

(** ** Termination *)

Lemma bind_diverges {A B : Type} (m : result exn A) (k : A -> result exn B) :
  (m ≫= k) = Throw Diverges <-> m = Throw Diverges \/ exists a, m = Ok a /\ k a = Throw Diverges.
Proof. destruct m; simpl; naive_solver. Qed.

(** The bytes of the identifier of Apple's nonce extension, and the certificates on
    which the search for it never ends. *)
Definition nonce_oid_bytes : buffer := [x2a; x86; x48; x86; xf7; x63; x64; x08; x02].
Lemma nonce_oid : encodeOid APPLE_NONCE_OID = Ok nonce_oid_bytes.
Proof. vm_compute. reflexivity. Qed.
Definition endless (certDer : buffer) : Prop :=
  forall k, walk k certDer nonce_oid_bytes 0 (blen certDer) 0 = Throw Diverges.

(** The operations of [node:crypto] return or throw. *)
Record crypto_terminates : Prop := {
  ct_der b : terminates (x509_der b);
  ct_pem b : terminates (x509_pem b);
  ct_jwk c : terminates (cert_jwk c);
  ct_point x y : terminates (key_of_point x y);
  ct_key s : terminates (key_of_pem s);
  ct_verify d k s : terminates (ecdsa_verify d k s);
}.

Lemma timingSafeEqual_terminates a b : terminates (timingSafeEqual a b).
Proof. unfold timingSafeEqual. step_terminates. Qed.

Lemma differs32_terminates a b : terminates (differs32 a b).
Proof.
  unfold differs32. case_match; [done|].
  apply bind_terminates; [apply timingSafeEqual_terminates|done].
Qed.

Lemma decodeKeyId_terminates s : terminates (decodeKeyId s).
Proof. unfold decodeKeyId. step_terminates. Qed.

Lemma parseAppleNonce_terminates extn : terminates (parseAppleNonce extn).
Proof.
  unfold parseAppleNonce. step_terminates; try apply derReadTLV_terminates;
    repeat case_match; step_terminates.
Qed.

Context (T : crypto_terminates).

Lemma verifyCertChain_terminates entries now : terminates (verifyCertChain cfg entries now).
Proof.
  assert (forall l, terminates (check_windows cfg now l)) as Hw.
  { induction l as [|c l IH]; simpl; [done|]. repeat case_match; step_terminates. }
  assert (forall l i, terminates (check_links i l)) as Hl.
  { induction l as [|c [|d l] IH]; intros i; [done..|].
    simpl in *. apply throw_if_terminates; [done|intros _].
    apply throw_if_terminates; [done|intros _]. apply IH. }
  assert (forall l, terminates (parse_certs l)) as Hp.
  { induction l as [|[] l IH]; simpl; try done. apply bind_terminates; [apply (ct_der T)|intros c _].
    by apply bind_terminates. }
  unfold verifyCertChain. step_terminates; auto; [apply (ct_pem T)|]. by case_match.
Qed.

Lemma coseKey_terminates v : terminates (coseKeyToEcPublicKey v).
Proof.
  destruct v as [| | | |m]; try done. unfold coseKeyToEcPublicKey.
  do 3 (apply throw_if_terminates; [done|intros _]).
  destruct (cmap_get m (CNum (-2))) as [[|x| | |]|]; try done.
  apply throw_if_terminates; [done|intros _].
  destruct (cmap_get m (CNum (-3))) as [[|y| | |]|]; try done.
  apply throw_if_terminates; [done|intros _].
  by apply bind_terminates; [apply (ct_point T)|].
Qed.

Lemma parseAuthenticatorData_terminates b asked : terminates (parseAuthenticatorData b asked).
Proof.
  unfold parseAuthenticatorData. step_terminates. cbv zeta. case_match; [|done].
  step_terminates; [|apply coseKey_terminates].
  apply cborDecodeFirst_terminates.
Qed.

Lemma decodeAttestation_terminates buf : terminates (decodeAttestation buf).
Proof.
  unfold decodeAttestation. apply bind_terminates; [apply cborDecodeFirst_terminates|].
  intros [[| | | |m] e] _; try done. apply throw_if_terminates; [done|intros _].
  destruct (cmap_get m (CText (units "attStmt"))) as [[| | | |a]|]; try done.
  destruct (cmap_get a (CText (units "x5c"))) as [[| | |l|]|]; try done.
  apply throw_if_terminates; [done|intros _]. by repeat case_match.
Qed.

(** Check 2 ends unless the walk of the leaf does not. *)
Lemma verifyNonce_diverges authData cdh leaf :
  verifyNonce authData cdh leaf = Throw Diverges <-> endless (cert_raw leaf).
Proof.
  unfold verifyNonce. rewrite bind_diverges.
  rewrite (findExtensionValue_diverges _ _ _ nonce_oid). split; [|by left].
  intros [?|(v & _ & H)]; [done|]. exfalso. revert H. destruct v as [v|]; [|done].
  apply bind_terminates; [apply parseAppleNonce_terminates|intros a _].
  apply bind_terminates; [apply timingSafeEqual_terminates|]. step_terminates.
Qed.

(** The checks after the nonce. *)
Lemma attestation_rest_terminates leaf keyId authData :
  terminates (parsed ← parseAuthenticatorData authData true;
              canonicalKeyId ← verifyKeyId leaf keyId (a_cred parsed);
              _ ← verifyAttestationAuthData cfg parsed;
              match a_cred parsed with
              | Some cr => Ok (AttestOk Attestation (base64_encode canonicalKeyId)
                                 (key_pem (c_key cr)) (a_signCount parsed))
              | None => Throw (Exn "credentialPublicKey is undefined" None None)
              end).
Proof.
  apply bind_terminates; [apply parseAuthenticatorData_terminates|intros ad _].
  apply bind_terminates.
  { unfold verifyKeyId. apply bind_terminates; [apply (ct_jwk T)|intros j _].
    apply throw_if_terminates; [done|intros _]. destruct (a_cred ad); [|done].
    step_terminates; auto using decodeKeyId_terminates, differs32_terminates. }
  intros kid _. apply bind_terminates.
  { unfold verifyAttestationAuthData.
    apply bind_terminates; [apply timingSafeEqual_terminates|]. step_terminates. }
  intros _ _. by case_match.
Qed.

Lemma attestationBranch_diverges now keyId attestation cdh :
  terminates attestation ->
  attestationBranch cfg now keyId attestation cdh = Throw Diverges <->
  exists buf entries authData leaf, attestation = Ok buf /\ attestation_object buf entries authData /\
    chain_valid cfg now entries leaf /\ endless (cert_raw leaf).
Proof.
  intros Hpf. unfold attestationBranch. rewrite bind_diverges. split.
  - intros [?|(buf & Hb & H)]; [done|]. apply bind_diverges in H as [?|([entries ad] & Hd & H)];
      [by destruct (decodeAttestation_terminates buf)|].
    apply bind_diverges in H as [?|(leaf & Hc & H)]; [by destruct (verifyCertChain_terminates entries now)|].
    apply bind_diverges in H as [H|(u & _ & H)]; [|by destruct (attestation_rest_terminates leaf keyId ad)].
    exists buf, entries, ad, leaf. apply decodeAttestation_Ok in Hd. apply verifyCertChain_Ok in Hc.
    by apply verifyNonce_diverges in H.
  - intros (buf & entries & ad & leaf & Hb & Hd & Hc & He). right. exists buf. split; [done|].
    apply decodeAttestation_Ok in Hd. rewrite Hd. cbn [mbind result_bind].
    apply verifyCertChain_Ok in Hc. rewrite Hc. cbn [mbind result_bind].
    apply bind_diverges. left. by apply verifyNonce_diverges.
Qed.

Lemma assertionBranch_terminates keyId assertion cdh store :
  (forall get k, store = Some get -> terminates (get k)) -> terminates assertion ->
  terminates (assertionBranch cfg keyId assertion cdh store).
Proof.
  intros Hget Hpf. destruct store as [get|]; [|done]. unfold assertionBranch.
  apply bind_terminates; [apply decodeKeyId_terminates|intros k _].
  apply bind_terminates; [by apply Hget|intros [r|] _; [|done]]. case_match; [done|].
  apply bind_terminates; [apply (ct_key T)|intros pub _].
  apply bind_terminates; [done|intros buf _].
  apply bind_terminates; [|done]. unfold verifyAssertion.
  apply bind_terminates; [apply cborDecodeFirst_terminates|].
  intros [[| | | |m] e] _; try done.
  destruct (cmap_get m (CText (units "signature"))) as [[|sig| | |]|]; try done.
  destruct (cmap_get m (CText (units "authenticatorData"))) as [[|b| | |]|]; try done.
  apply bind_terminates; [apply (ct_verify T)|intros ok _].
  apply throw_if_terminates; [done|intros _].
  apply bind_terminates; [apply parseAuthenticatorData_terminates|intros ad _].
  apply bind_terminates; [apply timingSafeEqual_terminates|]. step_terminates.
Qed.
End theorems.

(** ** A small instance

    The digest keeps the last 32 bytes; there is one certificate, which carries
    the digest of the sample attestation, and one signature. *)
Module Sample.
Definition cdh : buffer := replicate 32 x07.
Definition px : buffer := replicate 32 x01.
Definition py : buffer := replicate 32 x02.
Definition cert_der : buffer :=
  der_enc (Cons 48 [Cons 48 [Prim 6 [x2a; x86; x48; x86; xf7; x63; x64; x08; x02];
                             Prim 4 (der_enc (nonce_ext cdh))]]).

Definition crypto : Crypto := {|
  sha256 b := be_bytes 32 (be_val b);
  cert := unit;
  x509_der b := if bool_decide (b = cert_der) then Ok tt else Throw (Err "bad certificate");
  x509_pem b := Ok tt;
  validFrom _ := Some 0;
  validTo _ := Some 1000;
  checkIssued _ _ := true;
  cert_verify _ _ := true;
  cert_raw _ := cert_der;
  cert_jwk _ := Ok (Jwk "EC" "P-256" (base64_encode px) (base64_encode py));
  pubkey := unit;
  key_of_point _ _ := Ok tt;
  key_of_pem _ := Ok tt;
  key_pem _ := "PEM";
  ecdsa_verify _ _ sig := Ok (bool_decide (sig = [xaa]));
|}.
#[export] Existing Instance crypto.

Definition cfg : attest_config := {|
  APPLE_ROOT_CA_PEM_B64 := "AAAA"; APPLE_TEAM_ID := "T"; APPLE_BUNDLE_ID := "B";
  EXPECTED_AAGUID_LABEL := "appattest"; CERT_CLOCK_SKEW_MS := Some 300 |}.

Definition cose : buffer :=
  [xa5; x01; x02; x03; x26; x20; x01; x21; x58; x20] ++ px ++ [x22; x58; x20] ++ py.
Definition attested_data : buffer :=
  appIdHash cfg ++ x40 :: be_bytes 4 0 ++ expectedAaguid cfg ++ be_bytes 2 32 ++ py ++ cose.
Definition attestation : string := base64_encode
  ([xa3; x63] ++ ascii_bytes "fmt" ++ x6f :: ascii_bytes "apple-appattest" ++
   x67 :: ascii_bytes "attStmt" ++ [xa1; x63] ++ ascii_bytes "x5c" ++
   [x81; x59] ++ be_bytes 2 (blen cert_der) ++ cert_der ++
   x68 :: ascii_bytes "authData" ++ x59 :: be_bytes 2 (blen attested_data) ++ attested_data).

Definition asserted_data : buffer := appIdHash cfg ++ x40 :: be_bytes 4 7.
Definition assertion : string := base64_encode
  ([xa2; x69] ++ ascii_bytes "signature" ++ [x41; xaa] ++
   x71 :: ascii_bytes "authenticatorData" ++ [x58; x25] ++ asserted_data).

Definition kid : string := base64_encode py.
Definition get (signCount : Z) (k : string) : result exn (option attested_key) :=
  Ok (if bool_decide (k = kid) then Some (AttestedKey "PEM" signCount) else None).

Definition first : attest_request :=
  AttestRequest kid (text_proof attestation) None (base64_encode cdh) None.
Definition later (signCount : Z) : attest_request :=
  AttestRequest kid None (text_proof assertion) (base64_encode cdh) (Some (get signCount)).

Example first_accepted : validateAppAttest cfg 5 first = Ok (AttestOk Attestation kid "PEM" 0).
Proof. vm_compute. reflexivity. Qed.
Example later_accepted : validateAppAttest cfg 5 (later 6) = Ok (AttestOk Assertion kid "PEM" 7).
Proof. vm_compute. reflexivity. Qed.
Example late_refused : validateAppAttest cfg 1301 first
  = Ok (AttestRefused "verification_failed" (Some "chain: cert expired")).
Proof. vm_compute. reflexivity. Qed.

Lemma terminating : crypto_terminates.
Proof.
  split; try (intros; exact (Ok_terminates _)).
  - intros b. unfold x509_der, crypto. by case_match.
Qed.
End Sample.

(** ** The properties *)
Section properties.
Context `{C : Crypto} (cfg : attest_config).

(** C7. A request is accepted as an attestation exactly when the module is
    configured, the client data hash has 32 bytes and the evidence is complete:
    a chain of certificates inside their validity windows up to the configured
    root, the nonce of this hash in the leaf, authenticator data for this app and
    environment with a zero counter, and one P-256 key in the leaf, the credential
    and the key id. The answer names that key. *)
Theorem validateAppAttest_attestation (now : Z) (req : attest_request) (kid pem : string) (n : Z) :
  validateAppAttest cfg now req = Ok (AttestOk Attestation kid pem n) <->
  APP_ATTEST_READY cfg = true /\ usable_hash (r_clientDataHash req) /\
  exists buf entries authData leaf flags cr, r_attestation req = Some (Ok buf) /\
    attestation_evidence cfg now (r_keyId req) buf
      (base64_decode (r_clientDataHash req)) entries authData leaf flags cr /\
    kid = base64_encode (sha256 (c_rawPoint cr)) /\ pem = key_pem (c_key cr) /\ n = 0.
Proof.
  rewrite validateAppAttest_Ok. cbv zeta.
  destruct (r_attestation req) as [p|], (r_assertion req) as [q|];
    rewrite ?attestationBranch_Ok, ?assertionBranch_Ok; naive_solver.
Qed.

(** C8. A request is accepted as an assertion exactly when it carries no
    attestation, the store holds a key under the canonical spelling of its key
    id, that key signed the authenticator data with this client data hash, the
    data are for this app, and the counter exceeds the stored one. *)
Theorem validateAppAttest_assertion (now : Z) (req : attest_request) (kid pem : string) (n : Z) :
  validateAppAttest cfg now req = Ok (AttestOk Assertion kid pem n) <->
  APP_ATTEST_READY cfg = true /\ usable_hash (r_clientDataHash req) /\
  r_attestation req = None /\ nonempty (r_keyId req) = true /\
  exists buf r pub, r_assertion req = Some (Ok buf) /\
    stored_key (r_store req) (r_keyId req) r /\ key_of_pem (k_publicKeyPem r) = Ok pub /\
    assertion_evidence cfg buf
      (base64_decode (r_clientDataHash req)) pub (k_signCount r) n /\
    kid = base64_encode (base64_decode (r_keyId req)) /\ pem = k_publicKeyPem r.
Proof.
  rewrite validateAppAttest_Ok. cbv zeta.
  destruct (r_attestation req) as [p|].
  { split; [by intros (_ & _ & ?%attestationBranch_mode)|by intros (_ & _ & ? & _)]. }
  destruct (r_assertion req) as [q|].
  2:{ split; [by intros (_ & _ & [])|by intros (_ & _ & _ & _ & ? & ? & ? & ? & _)]. }
  rewrite assertionBranch_Ok. split.
  - intros (Hr & Hu & _ & Hk & buf & r & pub & -> & H). eauto 12.
  - intros (Hr & Hu & _ & Hk & buf & r & pub & [= ->] & H). eauto 12.
Qed.

(** One attestation is accepted for one client data hash and one device key:
    two accepted requests with the same attestation name the same key and carry
    the same hash, or else they exhibit two inputs with the same SHA-256. *)
Theorem attestation_bound_to_hash (now1 now2 : Z) (req1 req2 : attest_request)
    (k1 p1 k2 p2 : string) (n1 n2 : Z) :
  validateAppAttest cfg now1 req1 = Ok (AttestOk Attestation k1 p1 n1) ->
  validateAppAttest cfg now2 req2 = Ok (AttestOk Attestation k2 p2 n2) ->
  r_attestation req1 = r_attestation req2 ->
  (k1 = k2 /\ p1 = p2) /\
  (base64_decode (r_clientDataHash req1) = base64_decode (r_clientDataHash req2) \/
   exists buf entries authData,
     r_attestation req1 = Some (Ok buf) /\ attestation_object buf entries authData /\
     let a := authData ++ base64_decode (r_clientDataHash req1) in
     let b := authData ++ base64_decode (r_clientDataHash req2) in
     a <> b /\ sha256 a = sha256 b).
Proof.
  rewrite !validateAppAttest_Ok. cbv zeta. intros (_ & _ & H1) (_ & _ & H2) E. rewrite E in *.
  destruct (r_attestation req2) as [p|].
  2:{ destruct (r_assertion req1); [apply assertionBranch_Ok in H1; naive_solver|done]. }
  apply attestationBranch_Ok in H1 as (b1 & es & ad & leaf & fl & cr & -> & [Ho Hc Hn Hp _ _ _ _] & [= -> -> _]).
  apply attestationBranch_Ok in H2 as (? & ? & ? & ? & ? & ? & [= <-] & [Ho' Hc' Hn' Hp' _ _ _ _] & [= -> -> _]).
  pose proof Ho as Hobj. apply decodeAttestation_Ok in Ho, Ho'. rewrite Ho in Ho'. injection Ho' as <- <-.
  apply parseAuthenticatorData_Ok in Hp, Hp'. rewrite Hp in Hp'. injection Hp' as <- <-.
  split; [done|].
  destruct (chain_leaf _ _ _ _ Hc) as (raw & es' & -> & Hl).
  destruct (chain_leaf _ _ _ _ Hc') as (? & ? & [= <- <-] & Hl'). rewrite Hl in Hl'.
  injection Hl' as <-. pose proof (nonce_in_leaf_unique _ _ _ Hn Hn') as Hs.
  destruct (decide (base64_decode (r_clientDataHash req1) = base64_decode (r_clientDataHash req2)));
    [by left|right]. eexists b1, _, ad. split; [done|]. split; [done|]. split; [|done].
  by intros ?%(inj (app ad)).
Qed.

(** An assertion that was accepted with a counter is refused from then on by
    any request whose store holds a counter at least as large, whatever the
    client data hash and key id it comes with. *)
Theorem assertion_not_replayed (now1 now2 : Z) (req1 req2 : attest_request)
    (k1 p1 k2 p2 : string) (n1 n2 : Z) (get : string -> result exn (option attested_key))
    (r : attested_key) :
  validateAppAttest cfg now1 req1 = Ok (AttestOk Assertion k1 p1 n1) ->
  r_assertion req1 = r_assertion req2 -> r_store req2 = Some get ->
  get (base64_encode (base64_decode (r_keyId req2))) = Ok (Some r) -> n1 <= k_signCount r ->
  validateAppAttest cfg now2 req2 <> Ok (AttestOk Assertion k2 p2 n2).
Proof.
  rewrite !validateAppAttest_Ok. cbv zeta. intros (_ & _ & H1) E Hst Hget Hle (_ & _ & H2).
  destruct (r_attestation req1); [by apply attestationBranch_mode in H1|].
  destruct (r_attestation req2); [by apply attestationBranch_mode in H2|].
  rewrite E in H1. destruct (r_assertion req2) as [q|]; [|done].
  apply assertionBranch_Ok in H1 as (_ & _ & b1 & r1 & pub1 & -> & _ & _ & Ev1 & _).
  apply assertionBranch_Ok in H2 as (_ & _ & b2 & r2 & pub2 & [= <-] & (g & Hg & Hr2 & _) & _ & Ev2 & _).
  rewrite Hst in Hg. injection Hg as <-. rewrite Hget in Hr2. injection Hr2 as <-.
  pose proof (assertion_count_unique _ _ _ _ _ _ _ _ _ _ Ev1 Ev2) as <-.
  destruct Ev2 as (? & ? & ? & ? & ? & _ & _ & _ & _ & _ & ?). lia.
Qed.

(** The base64 and the base64url spelling of a key id or client data hash are
    interchangeable: the outcome, the lookup in the store and the key id returned
    are the same. *)
Theorem validateAppAttest_spelling (now : Z) (req : attest_request) :
  validateAppAttest cfg now (AttestRequest (url_spelling (r_keyId req)) (r_attestation req)
    (r_assertion req) (url_spelling (r_clientDataHash req)) (r_store req))
  = validateAppAttest cfg now req.
Proof.
  unfold validateAppAttest, attestationBranch, assertionBranch, verifyKeyId.
  cbn [r_keyId r_attestation r_assertion r_clientDataHash r_store].
  rewrite decodeKeyId_spelling.
  by destruct (url_spelling_decode (r_clientDataHash req)) as [-> ->].
Qed.

(** The leaf of a request's attestation, which has passed the check of the chain,
    is one on which the walk never ends. *)
Definition leaf_hangs (now : Z) (req : attest_request) : Prop :=
  exists buf entries authData leaf, r_attestation req = Some (Ok buf) /\
    attestation_object buf entries authData /\ chain_valid cfg now entries leaf /\
    endless (cert_raw leaf).

Lemma validate_throws now req e : validateAppAttest cfg now req = Throw e -> e = Diverges.
Proof.
  unfold validateAppAttest. repeat (case_match; [done|]).
  match goal with |- refuse_thrown ?r = _ -> _ => destruct r as [a|[]] end; simpl; congruence.
Qed.

Lemma validate_diverges now req :
  crypto_terminates ->
  (forall get k, r_store req = Some get -> terminates (get k)) ->
  (forall p, r_attestation req = Some p \/ r_assertion req = Some p -> terminates p) ->
  validateAppAttest cfg now req = Throw Diverges <->
  APP_ATTEST_READY cfg = true /\ usable_hash (r_clientDataHash req) /\ leaf_hangs now req.
Proof.
  intros T Hst Hpr. unfold validateAppAttest, usable_hash, leaf_hangs.
  destruct (APP_ATTEST_READY cfg); simpl negb; cbv iota; [|naive_solver].
  destruct (nonempty (r_clientDataHash req)); simpl negb; cbv iota; [|naive_solver].
  destruct (blen (base64_decode (r_clientDataHash req)) =? 32) eqn:E; bool_to_prop;
    simpl negb; cbv iota; [|naive_solver].
  assert (forall r, refuse_thrown r = Throw Diverges <-> r = Throw Diverges) as -> by (by intros [|[]]).
  destruct (r_attestation req) as [p|].
  - rewrite attestationBranch_diverges by auto. naive_solver.
  - destruct (r_assertion req) as [q|]; [|naive_solver].
    split; [|naive_solver]. intros H. by destruct (assertionBranch_terminates cfg T (r_keyId req) q
      (base64_decode (r_clientDataHash req)) (r_store req)); auto.
Qed.

(** C40. Validation always answers, with an acceptance or a refusal, whatever the
    proofs are and whatever their decoding throws, save in one case: it never
    returns exactly when it gets as far as the nonce of an attestation whose leaf,
    already chained to the configured root, is a certificate on which the walk of
    [findExtensionValue] has no end. No such certificate is DER. *)
Theorem validateAppAttest_total (now : Z) (req : attest_request) :
  crypto_terminates ->
  (forall get k, r_store req = Some get -> terminates (get k)) ->
  (forall p, r_attestation req = Some p \/ r_assertion req = Some p -> terminates p) ->
  (validateAppAttest cfg now req = Throw Diverges <->
     APP_ATTEST_READY cfg = true /\ usable_hash (r_clientDataHash req) /\ leaf_hangs now req) /\
  (~ leaf_hangs now req -> exists res, validateAppAttest cfg now req = Ok res /\
     (APP_ATTEST_READY cfg = false -> res = AttestRefused "app_attest_not_configured" None)) /\
  (forall t, der_wf t -> blen (der_enc t) < 2 ^ 31 -> ~ endless (der_enc t)).
Proof.
  intros T Hst Hpr. pose proof (validate_diverges now req T Hst Hpr) as Hd. split; [done|]. split.
  - intros Hl. destruct (validateAppAttest cfg now req) as [res|e] eqn:E.
    + exists res. split; [done|]. intros Hr. unfold validateAppAttest in E. rewrite Hr in E. by injection E.
    + exfalso. apply Hl, Hd. f_equal. by eapply validate_throws.
  - intros t Hwf Hb He. specialize (He (walk_fuel (length (der_enc t)))). by rewrite walk_tree in He.
Qed.

(** [parseAuthenticatorData] decides the layout of authenticator data: it
    returns the fields of a buffer that has the layout, the attested credential
    and its COSE key included, and throws on every other buffer. *)
Theorem parseAuthenticatorData_spec (b : buffer) (asked : bool) :
  match parseAuthenticatorData b asked with
  | Ok ad => auth_data_layout asked b ad
  | Throw _ => forall ad, ~ auth_data_layout asked b ad
  end.
Proof.
  destruct (parseAuthenticatorData b asked) as [ad|e] eqn:E.
  - by apply parseAuthenticatorData_Ok.
  - intros ad H%parseAuthenticatorData_Ok. congruence.
Qed.
End properties.

(** The diagnostic of a refusal is one of fifteen fixed words, whatever the
    reason and the detail carry. *)
Theorem attestationFailureCategory_bounded (reason : string) (detail : option string) :
  attestationFailureCategory reason detail ∈
    ["configuration"; "client_data"; "proof_format"; "unknown_device_key"; "state_unavailable";
     "key_binding"; "counter"; "expired_epoch"; "quota"; "environment"; "app_identity";
     "assertion_signature"; "certificate_chain"; "nonce_binding"; "verification"].
Proof.
  unfold attestationFailureCategory.
  destruct (map_get String.eqb failure_reasons reason) as [c|] eqn:E.
  - apply map_get_elem in E; [|apply String.eqb_eq].
    repeat (apply elem_of_cons in E as [[= -> ->]|E]; [repeat constructor|]).
    by apply not_elem_of_nil in E.
  - cbv zeta. repeat (case_match; [repeat constructor|]). repeat constructor.
Qed.

(** ** Witnesses *)
#[local] Existing Instance Sample.crypto.

Lemma attestation_bound_to_hash_witness :
  validateAppAttest Sample.cfg 5 Sample.first = Ok (AttestOk Attestation Sample.kid "PEM" 0) /\
  Sample.kid = Sample.kid /\ "PEM"%string = "PEM"%string.
Proof.
  assert (validateAppAttest Sample.cfg 5 Sample.first
          = Ok (AttestOk Attestation Sample.kid "PEM" 0)) as H by (vm_compute; reflexivity).
  split; [exact H|].
  exact (proj1 (attestation_bound_to_hash Sample.cfg 5 5 Sample.first Sample.first
    Sample.kid "PEM" Sample.kid "PEM" 0 0 H H eq_refl)).
Defined.

Lemma assertion_not_replayed_witness :
  validateAppAttest Sample.cfg 6 (Sample.later 7) <> Ok (AttestOk Assertion Sample.kid "PEM" 7).
Proof.
  apply (assertion_not_replayed Sample.cfg 5 6 (Sample.later 6) (Sample.later 7)
    Sample.kid "PEM" Sample.kid "PEM" 7 7 (Sample.get 7) (AttestedKey "PEM" 7)).
  - vm_compute. reflexivity.
  - reflexivity.
  - reflexivity.
  - vm_compute. reflexivity.
  - reflexivity.
Defined.

Lemma validateAppAttest_total_witness :
  exists res, validateAppAttest Sample.cfg 5 Sample.first = Ok res.
Proof.
  destruct (validateAppAttest_total Sample.cfg 5 Sample.first) as (_ & H & Hder);
    [exact Sample.terminating|done| |].
  - intros p [[= <-]|?]; [apply Ok_terminates|done].
  - destruct H as (res & H & _); [|by exists res]. intros (? & ? & ? & leaf & _ & _ & _ & He). revert He.
    apply Hder; [|vm_compute; reflexivity]. simpl. repeat split; first [done | lia | discriminate].
Defined.
