(* ===== verification/Fixtures.v ===== *)
(** * Synthetic attestations ([token-issuer/appattest-fixtures.js])

    The encoders of the repository's own fixtures: DER and certificates, CBOR,
    authenticator data, and the attestation and assertion built of them.
    [FixtureTheorems] shows that the validator accepts what they build, whatever the
    keys, the challenge and the app. Key pairs and signatures are the class
    [TestKeys]; a fresh key pair is an argument. *)
From S2P Require Import Prelude JsMap JsText JsBase64 Der AppAttest.
From Stdlib Require Import Ascii.

(** ** DER *)

(** [while (v > 0) { bytes.unshift(v & 0xff); v >>= 8; }]: at most four bytes, since
    a shift leaves 31 bits. *)
Fixpoint len_bytes (fuel : nat) (v : Z) (bytes : list Z) : list Z :=
  match fuel with
  | O => bytes
  | S f => if v >? 0 then len_bytes f (js_shr v 8) (js_and v 255 :: bytes) else bytes
  end.
Definition derLen (n : Z) : buffer :=
  if n <? 128 then [byte_of_Z n]
  else let bytes := len_bytes 4 n [] in
       byte_of_Z <$> js_or 128 (Z.of_nat (length bytes)) :: bytes.

Definition tlv (tag : Z) (content : buffer) : buffer :=
  byte_of_Z tag :: derLen (blen content) ++ content.
Definition derSeq (items : list buffer) : buffer := tlv 48 (concat items).
Definition derSet (items : list buffer) : buffer := tlv 49 (concat items).
Definition derOctetString (buf : buffer) : buffer := tlv 4 buf.
Definition derBoolean (b : bool) : buffer := tlv 1 [byte_of_Z (if b then 255 else 0)].
Definition derContext (tagNum : Z) (constructed : bool) (content : buffer) : buffer :=
  tlv (js_or (js_or 128 (if constructed then 32 else 0)) tagNum) content.

(** A safe integer has at most seven bytes. *)
Fixpoint int_bytes (fuel : nat) (v : Z) (bytes : list Z) : list Z :=
  match fuel with
  | O => bytes
  | S f => if v >? 0 then int_bytes f (v / 256) (js_and v 255 :: bytes) else bytes
  end.
Definition derInteger (value : Z) : buffer :=
  let bytes := if value =? 0 then [0] else int_bytes 7 value [] in
  let bytes := match bytes with
               | b :: _ => if negb (js_and b 128 =? 0) then 0 :: bytes else bytes
               | [] => bytes
               end in
  tlv 2 (byte_of_Z <$> bytes).

Definition derOid (dotted : string) : buffer :=
  let parts := parse_int <$> js_split "."%char dotted in
  let head := match parts with Some a :: Some b :: _ => 40 * a + b | _ => 0 end in
  tlv 6 (byte_of_Z <$> head :: (drop 2 parts ≫= fun v => oid_arc (bits v))).

(** *** Dates *)

(** The UTC fields of a [Date]: days since 1970 in the proleptic Gregorian
    calendar, counted in eras of 400 years that begin on the first of March. *)
Record utc_date := UtcDate {
  u_year : Z; u_month : Z; u_day : Z; u_hours : Z; u_minutes : Z; u_seconds : Z }.
Definition utc_of (ms : Z) : utc_date :=
  let secs := ms / 1000 in
  let z := secs / 86400 + 719468 in
  let era := z / 146097 in
  let doe := z mod 146097 in
  let yoe := (doe - doe / 1460 + doe / 36524 - doe / 146096) / 365 in
  let doy := doe - (365 * yoe + yoe / 4 - yoe / 100) in
  let mp := (5 * doy + 2) / 153 in
  let month := if mp <? 10 then mp + 3 else mp - 9 in
  UtcDate (yoe + era * 400 + (if month <=? 2 then 1 else 0)) (month - 1) (doy - (153 * mp + 2) / 5 + 1)
    (secs mod 86400 / 3600) (secs mod 3600 / 60) (secs mod 60).

(** [String(n).padStart(2, '0')]. *)
Definition pad2 (n : Z) : string :=
  let s := js_dec n in if Nat.ltb (String.length s) 2 then "0" +:+ s else s.
Definition derUtcTime (date : utc_date) : buffer :=
  tlv 23 (ascii_bytes (pad2 (Z.rem (u_year date) 100) +:+ pad2 (u_month date + 1) +:+ pad2 (u_day date)
                       +:+ pad2 (u_hours date) +:+ pad2 (u_minutes date) +:+ pad2 (u_seconds date) +:+ "Z")).

Definition derName (commonName : string) : buffer :=
  let cnOid := derOid "2.5.4.3" in
  let cnVal := tlv 12 (utf8_bytes commonName) in
  derSeq [derSet [derSeq [cnOid; cnVal]]].
Definition ecdsaWithSha256AlgId : buffer := derSeq [derOid "1.2.840.10045.4.3.2"].
Definition appleNonceExtension (nonce32 : buffer) : buffer :=
  let inner := derSeq [derContext 1 true (derOctetString nonce32)] in
  derSeq [derOid "1.2.840.113635.100.8.2"; derOctetString inner].

(** ** CBOR *)

(** A value of 2^32 or more throws in [writeUInt32BE]; the values are small labels
    and lengths of buffers. *)
Definition cborUint (n : Z) : buffer :=
  if n <? 24 then [byte_of_Z n]
  else if n <? 256 then [byte_of_Z 24; byte_of_Z n]
  else if n <? 65536 then byte_of_Z 25 :: be_bytes 2 n
  else byte_of_Z 26 :: be_bytes 4 n.
(** [head[0] = (head[0] & 0x1f) | bits]. *)
Definition with_major (bits : Z) (head : buffer) : buffer :=
  match head with
  | b :: rest => byte_of_Z (Z.lor (Z.land (byte_val b) 31) bits) :: rest
  | [] => []
  end.
Definition cborNegInt (n : Z) : buffer := with_major 32 (cborUint (-1 - n)).
Definition cborBytes (buf : buffer) : buffer := with_major 64 (cborUint (blen buf)) ++ buf.
Definition cborText (str : string) : buffer :=
  let b := utf8_bytes str in with_major 96 (cborUint (blen b)) ++ b.
Definition cborArray (items : list buffer) : buffer :=
  with_major 128 (cborUint (Z.of_nat (length items))) ++ concat items.
Definition cborMap (pairs : list (buffer * buffer)) : buffer :=
  with_major 160 (cborUint (Z.of_nat (length pairs))) ++ (pairs ≫= fun '(k, v) => k ++ v).

(** ** authenticatorData *)
Definition aaguidBuf (label : string) : buffer :=
  let l := take 16 (ascii_bytes label) in l ++ replicate (16 - length l) x00.
(** The 37 bytes both builders begin with: the hash is copied in before flags and
    counter are written. *)
Definition auth_head (rpIdHash : buffer) (flags signCount : Z) : buffer :=
  take 32 (rpIdHash ++ replicate 32 x00) ++ byte_of_Z flags :: be_bytes 4 signCount.
Definition buildAssertionAuthData (rpIdHash : buffer) (signCount flags : Z) : buffer :=
  auth_head rpIdHash flags signCount.

(** ** Certificates *)

(** What is used of private keys. *)
Class TestKeys `{C : Crypto} := {
  privkey : Type;
  public_of : privkey -> pubkey;
  export_spki : pubkey -> buffer;
  export_jwk : pubkey -> jwk;
  crypto_sign : buffer -> privkey -> buffer;
}.

Section fixtures.
Context `{C : Crypto} {T : TestKeys}.

(** The part that is signed, and the certificate. *)
Definition tbs_cert (subjectCN issuerCN : string) (subjectKey : pubkey) (serial : Z)
    (extensions : list buffer) (notBefore notAfter : Z) : buffer :=
  derSeq ([derContext 0 true (derInteger 2); derInteger serial; ecdsaWithSha256AlgId; derName issuerCN;
           derSeq [derUtcTime (utc_of notBefore); derUtcTime (utc_of notAfter)]; derName subjectCN;
           export_spki subjectKey]
          ++ match extensions with [] => [] | _ => [derContext 3 true (derSeq extensions)] end).
Definition buildCert (subjectCN issuerCN : string) (subjectKey : pubkey) (issuerKey : privkey) (serial : Z)
    (extensions : list buffer) (notBefore notAfter : Z) : buffer :=
  let tbs := tbs_cert subjectCN issuerCN subjectKey serial extensions notBefore notAfter in
  let sigBitString := tlv 3 (x00 :: crypto_sign tbs issuerKey) in
  derSeq [tbs; ecdsaWithSha256AlgId; sigBitString].

(** [b64.replace(/(.{64})/g, '$1\n')]: [k] characters are left of a line. *)
Fixpoint break_lines (k : nat) (l : list ascii) : list ascii :=
  match l with
  | [] => []
  | c :: l' => match k with
               | O => c :: "010"%char :: break_lines 63 l'
               | S k' => c :: break_lines k' l'
               end
  end.
Definition newline : string := String "010" "".
Definition pemCert (der : buffer) : string :=
  "-----BEGIN CERTIFICATE-----" +:+ newline +:+ of_chars (break_lines 63 (chars (base64_encode der)))
  +:+ newline +:+ "-----END CERTIFICATE-----" +:+ newline.

Definition uncompressedPoint (publicKey : pubkey) : buffer :=
  let j := export_jwk publicKey in x04 :: base64_decode (jwk_x j) ++ base64_decode (jwk_y j).
Definition coseKeyFor (publicKey : pubkey) : buffer :=
  let j := export_jwk publicKey in
  cborMap [(cborUint 1, cborUint 2); (cborUint 3, cborNegInt (-7)); (cborNegInt (-1), cborUint 1);
           (cborNegInt (-2), cborBytes (base64_decode (jwk_x j)));
           (cborNegInt (-3), cborBytes (base64_decode (jwk_y j)))].
Definition buildAttestationAuthData (rpIdHash : buffer) (aaguidLabel : string) (credentialId : buffer)
    (credentialKey : pubkey) (signCount flags : Z) : buffer :=
  auth_head rpIdHash flags signCount ++ aaguidBuf aaguidLabel ++ be_bytes 2 (blen credentialId)
  ++ credentialId ++ coseKeyFor credentialKey.

(** ** A fixture *)
Section attestation.
Context (appId aaguidLabel : string) (challenge : buffer) (credKey rootKey interKey : privkey) (now : Z).

Definition not_before : Z := now - 3600 * 1000.
Definition not_after : Z := now + 24 * 3600 * 1000.
Definition fx_rpIdHash : buffer := sha256 (utf8_bytes appId).
Definition fx_clientDataHash : buffer := sha256 challenge.
Definition fx_keyIdRaw : buffer := sha256 (uncompressedPoint (public_of credKey)).
Definition fx_rootDer : buffer :=
  buildCert "Columbia Test App Attest Root CA" "Columbia Test App Attest Root CA"
    (public_of rootKey) rootKey 1 [] not_before not_after.
Definition fx_interDer : buffer :=
  buildCert "Columbia Test App Attestation CA 1" "Columbia Test App Attest Root CA"
    (public_of interKey) rootKey 100 [] not_before not_after.
Definition fx_authData : buffer :=
  buildAttestationAuthData fx_rpIdHash aaguidLabel fx_keyIdRaw (public_of credKey) 0 64.
Definition fx_nonce : buffer := sha256 (fx_authData ++ fx_clientDataHash).
Definition fx_leafDer : buffer :=
  buildCert "Columbia Test App Attest Credential" "Columbia Test App Attestation CA 1"
    (public_of credKey) interKey 2 [appleNonceExtension fx_nonce] not_before not_after.
Definition fx_attObj : buffer :=
  cborMap [(cborText "fmt", cborText "apple-appattest");
           (cborText "attStmt",
            cborMap [(cborText "x5c", cborArray [cborBytes fx_leafDer; cborBytes fx_interDer])]);
           (cborText "authData", cborBytes fx_authData)].

Record attestation_fixture := AttestationFixture {
  clientDataHashB64 : string; keyIdB64 : string; rootPemB64 : string; attestationB64 : string }.
Definition makeAttestationFixture : attestation_fixture :=
  AttestationFixture (base64_encode fx_clientDataHash) (base64_encode fx_keyIdRaw)
    (base64_encode (utf8_bytes (pemCert fx_rootDer))) (base64_encode fx_attObj).
End attestation.

(** [suffix] is [authDataSuffix]. *)
Section assertion.
Context (appId : string) (credPrivateKey : privkey) (signCount : Z) (challenge : buffer) (flags : Z)
  (suffix : buffer).
Definition as_authData : buffer :=
  buildAssertionAuthData (sha256 (utf8_bytes appId)) signCount flags ++ suffix.
Definition as_nonce : buffer := sha256 (as_authData ++ sha256 challenge).
Definition as_object : buffer :=
  cborMap [(cborText "signature", cborBytes (crypto_sign as_nonce credPrivateKey));
           (cborText "authenticatorData", cborBytes as_authData)].
(** The assertion and the client data hash. *)
Definition makeAssertion : string * string := (base64_encode as_object, base64_encode (sha256 challenge)).
End assertion.
End fixtures.

Example utc_sample : utc_of 1700000000123 = UtcDate 2023 10 14 22 13 20.
Proof. reflexivity. Qed.
Example utc_leap : utc_of 951782400000 = UtcDate 2000 1 29 0 0 0.
Proof. reflexivity. Qed.
