(* ===== verification/FixtureTheorems.v ===== *)
(** * The validator accepts what the fixtures build

    The encoders of [Fixtures] produce the grammars that [Cbor], [Der] and
    [AttestFacts] read: DER trees, CBOR items, the layout of authenticator data. So
    an attestation built for a key, an app and a challenge is accepted for them, and
    so is an assertion signed with that key. *)
From S2P Require Import Prelude JsMap JsText JsBase64 Cbor Der DerFacts AppAttest AttestFacts AttestTheorems.
From S2P Require Import Fixtures.
From Stdlib Require Import Ascii.

(** ** DER *)
Lemma js_shr8 v : 0 <= v < 2 ^ 31 -> js_shr v 8 = v / 256.
Proof. intros. unfold js_shr. rewrite to_int32_small, Z.shiftr_div_pow2 by lia. done. Qed.
Lemma js_and255 v : 0 <= v < 2 ^ 31 -> js_and v 255 = v mod 256.
Proof.
  intros. unfold js_and. rewrite (to_int32_small v), (to_int32_small 255) by lia.
  change 255 with (Z.ones 8). rewrite Z.land_ones by lia. change (2 ^ 8) with 256.
  apply to_int32_small. change (2 ^ 31) with 2147483648 in *. div_lia.
Qed.

Lemma len_bytes_step f v l :
  0 < v < 2 ^ 31 -> len_bytes (S f) v l = len_bytes f (v / 256) (v mod 256 :: l).
Proof. intros. cbn [len_bytes]. rewrite (proj2 (Z.gtb_lt v 0)) by lia. by rewrite js_shr8, js_and255 by lia. Qed.
Lemma len_bytes_0 f l : len_bytes f 0 l = l.
Proof. by destruct f. Qed.


Lemma byte_of_Z_mod a b : a mod 256 = b mod 256 -> byte_of_Z a = byte_of_Z b.
Proof. intros E. apply byte_val_inj. by rewrite !byte_val_of_Z. Qed.
Lemma be_bytes_1 n : be_bytes 1 n = [byte_of_Z n].
Proof. change (be_bytes 1 n) with [byte_of_Z (n / 1)]. by rewrite Z.div_1_r. Qed.
Lemma be_bytes_snoc k n : be_bytes (S k) n = be_bytes k (n / 256) ++ [byte_of_Z n].
Proof.
  induction k as [|k IH]; [apply be_bytes_1|].
  change (be_bytes (S (S k)) n) with (byte_of_Z (n / 256 ^ Z.of_nat (S k)) :: be_bytes (S k) n).
  rewrite IH. change (be_bytes (S k) (n / 256)) with (byte_of_Z (n / 256 / 256 ^ Z.of_nat k) :: be_bytes k (n / 256)).
  cbn [app]. f_equal. f_equal.
  rewrite Nat2Z.inj_succ, Z.pow_succ_r, Z.div_div by lia. done.
Qed.

(** The loop writes the base-256 digits. *)
Lemma len_bytes_be k f n l :
  (k <= f)%nat -> 0 <= n < 2 ^ 31 -> n < 256 ^ Z.of_nat k ->
  (forall j, k = S j -> 256 ^ Z.of_nat j <= n) ->
  byte_of_Z <$> len_bytes f n l = be_bytes k n ++ (byte_of_Z <$> l) /\
  length (len_bytes f n l) = (k + length l)%nat.
Proof.
  revert f n l. induction k as [|k IH]; intros f n l Hf Hn Hu Hl.
  - assert (n = 0) as -> by (change (256 ^ Z.of_nat 0) with 1 in Hu; lia). by rewrite len_bytes_0.
  - specialize (Hl k eq_refl). assert (0 < 256 ^ Z.of_nat k) by (apply Z.pow_pos_nonneg; lia).
    destruct f as [|f]; [lia|]. rewrite len_bytes_step by lia.
    rewrite Nat2Z.inj_succ, Z.pow_succ_r in Hu by lia.
    destruct (IH f (n / 256) (n mod 256 :: l)) as [-> ->].
    + lia.
    + change (2 ^ 31) with 2147483648 in *. div_lia.
    + apply Z.div_lt_upper_bound; lia.
    + intros j ->. rewrite Nat2Z.inj_succ, Z.pow_succ_r in Hl by lia. apply Z.div_le_lower_bound; lia.
    + rewrite be_bytes_snoc, <-app_assoc. split; [|simpl; lia]. f_equal. cbn [fmap list_fmap app]. f_equal.
      apply byte_of_Z_mod. apply Z.mod_mod. lia.
Qed.

Lemma derLen_eq n : 0 <= n < 2 ^ 31 -> derLen n = der_len n.
Proof.
  intros Hn. assert (forall k, (1 <= k <= 4)%nat -> 256 ^ Z.of_nat (pred k) <= n < 256 ^ Z.of_nat k ->
    byte_of_Z <$> js_or 128 (Z.of_nat (length (len_bytes 4 n []))) :: len_bytes 4 n []
    = byte_of_Z (128 + Z.of_nat k) :: be_bytes k n) as H.
  { intros k Hk Hb. destruct (len_bytes_be k 4 n []) as [E1 E2]; [lia|done|lia|intros j ->; cbn [Nat.pred] in Hb; lia|].
    cbn [fmap list_fmap]. rewrite E1, E2, app_nil_r, Nat.add_0_r. f_equal.
    do 5 (destruct k as [|k]; [by try lia|]). lia. }
  change (2 ^ 31) with 2147483648 in Hn. unfold derLen, der_len. cbv zeta.
  change (2 ^ 7) with 128. change (2 ^ 8) with 256. change (2 ^ 16) with 65536. change (2 ^ 24) with 16777216.
  repeat (case_match; bool_to_prop).
  - by rewrite be_bytes_1.
  - by rewrite (H 1%nat) by (simpl; lia).
  - by rewrite (H 2%nat) by (simpl; lia).
  - by rewrite (H 3%nat) by (simpl; lia).
  - by rewrite (H 4%nat) by (simpl; lia).
Qed.

(** An encoding longer than its content, in whatever way the length is written. *)
Lemma blen_fixture_tlv tag c : blen c <= blen (Fixtures.tlv tag c).
Proof. unfold Fixtures.tlv. rewrite blen_cons, blen_app. pose proof (blen_nonneg (derLen (blen c))). lia. Qed.
Lemma tlv_eq tag c : blen c < 2 ^ 31 -> Fixtures.tlv tag c = Der.tlv tag c.
Proof. intros H. unfold Fixtures.tlv, Der.tlv. rewrite derLen_eq; [done|]. pose proof (blen_nonneg c). lia. Qed.

Lemma prim_enc tag c : blen c < 2 ^ 31 -> Fixtures.tlv tag c = der_enc (Prim tag c).
Proof. apply tlv_eq. Qed.
Lemma cons_enc tag items l :
  blen (Fixtures.tlv tag (concat items)) < 2 ^ 31 ->
  (blen (concat items) < 2 ^ 31 -> items = der_enc <$> l) ->
  Fixtures.tlv tag (concat items) = der_enc (Cons tag l).
Proof.
  intros Hb H. pose proof (blen_fixture_tlv tag (concat items)). assert (items = der_enc <$> l) as -> by (apply H; lia).
  apply tlv_eq. lia.
Qed.

(** [b] is the encoding of the tree [t], as far as lengths below 2^31 go. *)
Definition encodes (b : buffer) (t : der) : Prop := blen b < 2 ^ 31 -> b = der_enc t.

Lemma encodes_prim tag c : encodes (Fixtures.tlv tag c) (Prim tag c).
Proof. intros H. apply tlv_eq. pose proof (blen_fixture_tlv tag c). lia. Qed.
Lemma encodes_raw t : encodes (der_enc t) t.
Proof. done. Qed.

Lemma encodes_all items l :
  Forall2 encodes items l -> blen (concat items) < 2 ^ 31 -> items = der_enc <$> l.
Proof.
  induction 1 as [|b t items l H _ IH]; [done|]. cbn [concat fmap list_fmap]. rewrite blen_app.
  pose proof (blen_nonneg b). pose proof (blen_nonneg (concat items)). intros Hb.
  rewrite <-H by lia. by rewrite <-IH by lia.
Qed.
Lemma encodes_cons tag items l : Forall2 encodes items l -> encodes (Fixtures.tlv tag (concat items)) (Cons tag l).
Proof. intros H Hb. apply cons_enc; [done|]. by apply encodes_all. Qed.
Lemma encodes_one tag b t : encodes b t -> encodes (Fixtures.tlv tag b) (Cons tag [t]).
Proof.
  intros H. assert (encodes (Fixtures.tlv tag (concat [b])) (Cons tag [t])) as Hc
    by (apply encodes_cons; by repeat constructor).
  cbn [concat] in Hc. by rewrite app_nil_r in Hc.
Qed.

(** *** The certificate of a fixture *)
Definition oid_tree (dotted : string) : der := Prim 6 (default [] (match encodeOid dotted with Ok b => Some b | _ => None end)).
Definition name_tree (cn : string) : der :=
  Cons 48 [Cons 49 [Cons 48 [oid_tree "2.5.4.3"; Prim 12 (utf8_bytes cn)]]].
Definition alg_tree : der := Cons 48 [oid_tree "1.2.840.10045.4.3.2"].
Definition date_content (date : utc_date) : buffer :=
  ascii_bytes (pad2 (Z.rem (u_year date) 100) +:+ pad2 (u_month date + 1) +:+ pad2 (u_day date)
               +:+ pad2 (u_hours date) +:+ pad2 (u_minutes date) +:+ pad2 (u_seconds date) +:+ "Z").

Lemma encodes_oid dotted b : encodeOid dotted = Ok b -> encodes (derOid dotted) (oid_tree dotted).
Proof.
  intros E. unfold oid_tree. rewrite E. simpl. unfold derOid.
  unfold encodeOid in E. destruct (parse_int <$> js_split "." dotted) as [|x [|y rest]]; [done..|].
  injection E as <-. cbn [drop].
  replace (match x with Some a => match y with Some b => 40 * a + b | None => 0 end | None => 0 end)
    with (match x, y with Some a, Some b => 40 * a + b | _, _ => 0 end) by by destruct x.
  apply encodes_prim.
Qed.
Ltac oid_encodes := eapply encodes_oid; vm_compute; reflexivity.
Lemma encodes_cn_oid : encodes (derOid "2.5.4.3") (oid_tree "2.5.4.3").
Proof. oid_encodes. Qed.
Lemma encodes_alg_oid : encodes (derOid "1.2.840.10045.4.3.2") (oid_tree "1.2.840.10045.4.3.2").
Proof. oid_encodes. Qed.
Lemma encodes_nonce_oid : encodes (derOid "1.2.840.113635.100.8.2") (oid_tree APPLE_NONCE_OID).
Proof. oid_encodes. Qed.
Lemma encodes_name cn : encodes (derName cn) (name_tree cn).
Proof.
  unfold derName, name_tree, derSeq, derSet. apply encodes_cons. constructor; [|constructor].
  apply encodes_cons. constructor; [|constructor]. apply encodes_cons.
  constructor; [apply encodes_cn_oid|]. constructor; [apply encodes_prim|constructor].
Qed.
Lemma encodes_alg : encodes ecdsaWithSha256AlgId alg_tree.
Proof. apply encodes_cons. constructor; [apply encodes_alg_oid|constructor]. Qed.

Lemma nonce_extension_eq nonce :
  blen nonce = 32 -> derSeq [derContext 1 true (derOctetString nonce)] = der_enc (nonce_ext nonce).
Proof.
  intros Hn. assert (forall tag c, blen c <= 1000 -> Fixtures.tlv tag c = Der.tlv tag c /\
    blen (Der.tlv tag c) <= blen c + 6) as Ht.
  { intros tag c Hc. split; [apply tlv_eq; lia|apply blen_tlv_le; lia]. }
  unfold derSeq, derContext, derOctetString. cbn [concat]. rewrite app_nil_r.
  change (js_or (js_or 128 32) 1) with 161.
  destruct (Ht 4 nonce) as [-> H1]; [lia|]. destruct (Ht 161 (Der.tlv 4 nonce)) as [-> H2]; [lia|].
  destruct (Ht 48 (Der.tlv 161 (Der.tlv 4 nonce))) as [-> _]; [lia|].
  unfold nonce_ext. cbn [der_enc map concat]. by rewrite !app_nil_r.
Qed.


(** ** CBOR *)
Lemma land31 x : 0 <= x < 32 -> Z.land x 31 = x.
Proof.
  intros. change 31 with (Z.ones 5). rewrite Z.land_ones by lia. change (2 ^ 5) with 32.
  by apply Z.mod_small.
Qed.
Lemma lor_major x major : 0 <= x < 32 -> 0 <= major -> Z.lor x (major * 32) = major * 32 + x.
Proof.
  intros Hx Hm. assert (Z.land x (major * 32) = 0) as E.
  { apply Z.bits_inj'. intros n Hn. rewrite Z.land_spec, Z.bits_0. change 32 with (2 ^ 5).
    destruct (Z_lt_dec n 5).
    - by rewrite Z.mul_pow2_bits_low, andb_false_r by lia.
    - destruct (decide (x = 0)) as [->|]; [by rewrite Z.bits_0|].
      rewrite (Z.bits_above_log2 x n); [done|lia|].
      assert (Z.log2 x < 5); [|lia]. apply Z.log2_lt_pow2; [lia|]. change (2 ^ 5) with 32. lia. }
  pose proof (Z.add_lor_land x (major * 32)) as H. rewrite E in H. lia.
Qed.

(** The head of an item of any major type. *)
Lemma with_major_head major n :
  0 <= major < 8 -> 0 <= n < 2 ^ 32 -> cbor_head major n (with_major (major * 32) (cborUint n)).
Proof.
  intros Hm Hn. assert (forall x, 0 <= x < 32 ->
    byte_of_Z (Z.lor (Z.land (byte_val (byte_of_Z x)) 31) (major * 32)) = byte_of_Z (major * 32 + x)) as Hb.
  { intros x Hx. rewrite byte_val_of_Z, Z.mod_small, land31, lor_major by lia. done. }
  unfold cborUint. repeat (case_match; bool_to_prop); cbn [with_major]; rewrite Hb by lia.
  - apply head_imm. lia.
  - rewrite <-be_bytes_1. apply head_1. change (2 ^ 8) with 256. lia.
  - apply head_2. change (2 ^ 16) with 65536. lia.
  - by apply head_4.
Qed.
Lemma cborUint_head n : 0 <= n < 2 ^ 32 -> cbor_head 0 n (cborUint n).
Proof.
  intros Hn. unfold cborUint. repeat (case_match; bool_to_prop).
  - apply (head_imm 0). lia.
  - rewrite <-be_bytes_1. apply (head_1 0). change (2 ^ 8) with 256. lia.
  - apply (head_2 0). change (2 ^ 16) with 65536. lia.
  - by apply (head_4 0).
Qed.

Lemma uint_item d n : 0 <= n < 2 ^ 32 -> cbor_item d (cborUint n) (CNum n).
Proof. intros. by apply item_uint, cborUint_head. Qed.
Lemma nint_item d n : - 2 ^ 32 <= n < 0 -> cbor_item d (cborNegInt n) (CNum n).
Proof.
  intros. replace (CNum n) with (CNum (-1 - (-1 - n))) by (f_equal; lia).
  apply item_nint, (with_major_head 1); lia.
Qed.
Lemma bytes_item d b : blen b < 2 ^ 32 -> cbor_item d (cborBytes b) (CBytes b).
Proof. intros. apply item_bytes, (with_major_head 2); pose proof (blen_nonneg b); lia. Qed.
Lemma text_item d s :
  blen (utf8_bytes s) < 2 ^ 32 -> cbor_item d (cborText s) (CText (utf8_decode (utf8_bytes s))).
Proof.
  intros. unfold cborText. cbv zeta. apply item_text, (with_major_head 3);
    pose proof (blen_nonneg (utf8_bytes s)); lia.
Qed.
Lemma array_item d items l :
  Forall2 (cbor_item d) items l -> Z.of_nat (length l) < 2 ^ 32 -> cbor_item (S d) (cborArray items) (CArray l).
Proof.
  intros H Hl. unfold cborArray. rewrite (Forall2_length _ _ _ H).
  apply item_array; [apply (with_major_head 4); lia|]. clear Hl.
  induction H as [|b v items l Hb _ IH]; [constructor|]. cbn [concat]. by constructor.
Qed.
Lemma map_item d pairs l :
  Forall2 (fun p kv => cbor_item d p.1 kv.1 /\ cbor_item d p.2 kv.2) pairs l ->
  Z.of_nat (length l) < 2 ^ 32 -> cbor_item (S d) (cborMap pairs) (CMap (cmap_of l [])).
Proof.
  intros H Hl. unfold cborMap. rewrite (Forall2_length _ _ _ H).
  apply item_map; [apply (with_major_head 5); lia|]. clear Hl.
  induction H as [|[bk bv] [k v] pairs l [Hk Hv] _ IH]; [constructor|]. cbn [mbind list_bind].
  rewrite <-app_assoc. by constructor.
Qed.


Section accepted.
Context `{C : Crypto} {T : TestKeys} (cfg : attest_config).

Definition int_content (value : Z) : buffer :=
  let bytes := if value =? 0 then [0] else int_bytes 7 value [] in
  byte_of_Z <$> match bytes with
                | b :: _ => if negb (js_and b 128 =? 0) then 0 :: bytes else bytes
                | [] => bytes
                end.
Lemma encodes_integer n : encodes (derInteger n) (Prim 2 (int_content n)).
Proof. apply encodes_prim. Qed.

Definition leaf_tree (subjectCN issuerCN : string) (spki : der) (serial : Z) (nonce : buffer)
    (notBefore notAfter : Z) (sig : buffer) : der :=
  Cons 48 [
    Cons 48 [Cons 160 [Prim 2 (int_content 2)]; Prim 2 (int_content serial); alg_tree; name_tree issuerCN;
             Cons 48 [Prim 23 (date_content (utc_of notBefore)); Prim 23 (date_content (utc_of notAfter))];
             name_tree subjectCN; spki;
             Cons 163 [Cons 48 [Cons 48 [oid_tree APPLE_NONCE_OID; Prim 4 (der_enc (nonce_ext nonce))]]]];
    alg_tree; Prim 3 (x00 :: sig)].

Lemma encodes_leaf subjectCN issuerCN pub spki key serial nonce nb na :
  export_spki pub = der_enc spki -> blen nonce = 32 ->
  let exts := [appleNonceExtension nonce] in
  encodes (buildCert subjectCN issuerCN pub key serial exts nb na)
    (leaf_tree subjectCN issuerCN spki serial nonce nb na
       (crypto_sign (tbs_cert subjectCN issuerCN pub serial exts nb na) key)).
Proof.
  intros Hs Hn exts. unfold buildCert, leaf_tree. cbv zeta.
  apply encodes_cons. repeat apply Forall2_cons_2; [|apply encodes_alg|apply encodes_prim|constructor].
  unfold tbs_cert, exts. rewrite Hs. apply encodes_cons. cbn [app].
  repeat apply Forall2_cons_2; [..|constructor].
  - change (derContext 0 true (derInteger 2)) with (Fixtures.tlv 160 (derInteger 2)).
    apply encodes_one, encodes_integer.
  - apply encodes_integer.
  - apply encodes_alg.
  - apply encodes_name.
  - apply encodes_cons. repeat apply Forall2_cons_2; [apply encodes_prim..|constructor].
  - apply encodes_name.
  - apply encodes_raw.
  - change (derContext 3 true ?c) with (Fixtures.tlv 163 c). apply encodes_one.
    apply encodes_cons. apply Forall2_cons_2; [|constructor]. unfold appleNonceExtension. cbv zeta.
    rewrite nonce_extension_eq by done. apply encodes_cons.
    repeat apply Forall2_cons_2; [apply encodes_nonce_oid|apply encodes_prim|constructor].
Qed.

Lemma leaf_wf subjectCN issuerCN spki serial nonce nb na sig :
  der_wf spki -> der_wf (leaf_tree subjectCN issuerCN spki serial nonce nb na sig).
Proof.
  intros H. unfold leaf_tree, name_tree, alg_tree, oid_tree. repeat (rewrite der_wf_Cons || cbn [forest_wf]).
  cbn [der_wf]. repeat split; first [done | lia].
Qed.
Lemma leaf_extension subjectCN issuerCN spki serial nonce nb na sig oid :
  encodeOid APPLE_NONCE_OID = Ok oid -> find_ext oid 22 spki = None ->
  find_ext oid 24 (leaf_tree subjectCN issuerCN spki serial nonce nb na sig) = Some (der_enc (nonce_ext nonce)).
Proof.
  intros E H. vm_compute in E. injection E as <-. unfold leaf_tree, name_tree, alg_tree, oid_tree.
  generalize (int_content 2) (int_content serial) (utf8_bytes subjectCN) (utf8_bytes issuerCN)
    (date_content (utc_of nb)) (date_content (utc_of na)) (der_enc (nonce_ext nonce)) (x00 :: sig).
  intros. revert H. vm_compute. by intros ->.
Qed.

(** ** Keys and authenticator data *)

(** A P-256 key as Node exports and imports it. *)
Record p256_key (pub : pubkey) (key : pubkey) : Prop := {
  pk_kty : kty (export_jwk pub) = "EC";
  pk_crv : crv (export_jwk pub) = "P-256";
  pk_x : blen (base64_decode (jwk_x (export_jwk pub))) = 32;
  pk_y : blen (base64_decode (jwk_y (export_jwk pub))) = 32;
  pk_import : key_of_point (base64_decode (jwk_x (export_jwk pub))) (base64_decode (jwk_y (export_jwk pub)))
              = Ok key;
}.

Lemma cose_item pub key :
  p256_key pub key -> exists v, cbor_item 16 (coseKeyFor pub) v /\ cose_key v key (uncompressedPoint pub).
Proof.
  intros [_ _ Hx Hy Hk]. unfold coseKeyFor, uncompressedPoint. cbv zeta.
  revert Hx Hy Hk. generalize (base64_decode (jwk_x (export_jwk pub))) (base64_decode (jwk_y (export_jwk pub))).
  intros x y Hx Hy Hk. eexists. split.
  - apply (map_item 15 _ [(CNum 1, CNum 2); (CNum 3, CNum (-7)); (CNum (-1), CNum 1); (CNum (-2), CBytes x);
                          (CNum (-3), CBytes y)]); [|done].
    repeat apply Forall2_cons_2; [..|constructor]; cbn [fst snd];
      (split; [first [by apply uint_item | by apply nint_item] |
               first [by apply uint_item | by apply nint_item | apply bytes_item; lia]]).
  - eexists _, x, y. split; [reflexivity|]. repeat (split; [first [reflexivity | done]|]). done.
Qed.

Lemma blen_cose pub key : p256_key pub key -> blen (coseKeyFor pub) = 77.
Proof.
  intros [_ _ Hx Hy _]. unfold coseKeyFor. cbv zeta. revert Hx Hy.
  generalize (base64_decode (jwk_x (export_jwk pub))) (base64_decode (jwk_y (export_jwk pub))).
  intros x y Hx Hy. unfold cborMap, cborBytes. rewrite Hx, Hy. cbn [mbind list_bind].
  rewrite !blen_app, Hx, Hy. vm_compute. reflexivity.
Qed.

Lemma auth_head_eq rp flags n : blen rp = 32 -> auth_head rp flags n = rp ++ byte_of_Z flags :: be_bytes 4 n.
Proof.
  intros H. unfold auth_head. f_equal. rewrite take_app_le by (unfold blen in H; lia).
  apply take_ge. unfold blen in H. lia.
Qed.

Lemma attested_layout rp label credId pub key :
  blen rp = 32 -> blen credId < 2 ^ 16 -> p256_key pub key ->
  auth_data_layout true (buildAttestationAuthData rp label credId pub 0 64)
    (AuthData rp 64 0 (Some (Cred (aaguidBuf label) credId key (uncompressedPoint pub)))).
Proof.
  intros Hrp Hc Hk. destruct (cose_item pub key Hk) as (v & Hv & Hp).
  unfold buildAttestationAuthData. rewrite auth_head_eq by done.
  rewrite <-app_assoc, <-app_comm_cons. rewrite <-(app_nil_r (coseKeyFor pub)).
  change 64 with (byte_val (byte_of_Z 64)) at 2.
  apply (layout_attested true rp (byte_of_Z 64) 0 (aaguidBuf label) credId (coseKeyFor pub) v); try done.
  unfold aaguidBuf. cbv zeta. rewrite blen_app. unfold blen. rewrite length_replicate, length_take. lia.
Qed.

(** ** The attestation object *)
Lemma name_units s : utf8_decode (utf8_bytes s) = units s -> forall d, blen (utf8_bytes s) < 2 ^ 32 ->
  cbor_item d (cborText s) (CText (units s)).
Proof. intros <- d H. by apply text_item. Qed.
Ltac named := apply name_units; vm_compute; reflexivity.

Lemma attestation_object_item leaf inter authData :
  blen leaf < 2 ^ 32 -> blen inter < 2 ^ 32 -> blen authData < 2 ^ 32 ->
  attestation_object
    (cborMap [(cborText "fmt", cborText "apple-appattest");
              (cborText "attStmt", cborMap [(cborText "x5c", cborArray [cborBytes leaf; cborBytes inter])]);
              (cborText "authData", cborBytes authData)])
    [CBytes leaf; CBytes inter] authData.
Proof.
  intros Hl Hi Ha. set (entries := [CBytes leaf; CBytes inter]).
  set (attStmt := [(CText (units "x5c"), CArray entries)] : cmap).
  set (l := [(CText (units "fmt"), CText (units "apple-appattest")); (CText (units "attStmt"), CMap attStmt);
             (CText (units "authData"), CBytes authData)] : cmap).
  match goal with |- attestation_object ?b _ _ => assert (cbor_item 16 b (CMap (cmap_of l []))) as Hb end.
  { apply map_item; [|done]. unfold l. repeat apply Forall2_cons_2; [..|constructor]; cbn [fst snd].
    - split; named.
    - split; [named|]. apply (map_item 14 _ attStmt); [|done]. apply Forall2_cons_2; [|constructor].
      cbn [fst snd]. split; [named|]. apply array_item; [|done].
      repeat apply Forall2_cons_2; [by apply bytes_item..|constructor].
    - split; [named|by apply bytes_item]. }
  apply (cborDecode_prefix _ _ []) in Hb. rewrite app_nil_r in Hb.
  eexists _, attStmt, _. split; [exact Hb|]. do 4 (split; [vm_compute; (reflexivity || discriminate)|]).
  vm_compute. reflexivity.
Qed.

(** ** The attestation *)

(** A certificate that Node reads back from its DER: the key and the dates are the
    ones it was built with, the dates to the second. *)
Record reads_back (parsed : result exn cert) (der : buffer) (c : cert) (pub : pubkey) (nb na : Z) : Prop := {
  rb_parsed : parsed = Ok c;
  rb_raw : cert_raw c = der;
  rb_from : validFrom c = Some (nb / 1000 * 1000);
  rb_to : validTo c = Some (na / 1000 * 1000);
  rb_jwk : cert_jwk c = Ok (export_jwk pub);
}.

Section fixture.
Context (appId label : string) (challenge : buffer) (credKey rootKey interKey : privkey) (built : Z).
Notation leafDer := (fx_leafDer appId label challenge credKey interKey built).
Notation interDer := (fx_interDer rootKey interKey built).
Notation rootDer := (fx_rootDer rootKey built).
Notation fixture := (makeAttestationFixture appId label challenge credKey rootKey interKey built).

(** What is assumed of Node's [crypto]: digests have 32 bytes; a P-256 key exports
    and imports, and its SPKI is DER without a nonce extension; the three
    certificates are read back, and found to be issued as they were. *)
Record node_reads (key : pubkey) (spki : der) (leaf inter root : cert) : Prop := {
  nr_digest b : blen (sha256 b) = 32;
  nr_key : p256_key (public_of credKey) key;
  nr_spki : export_spki (public_of credKey) = der_enc spki /\ der_wf spki /\
    find_ext [x2a; x86; x48; x86; xf7; x63; x64; x08; x02] 22 spki = None;
  nr_leaf : reads_back (x509_der leafDer) leafDer leaf (public_of credKey) (not_before built) (not_after built);
  nr_inter : reads_back (x509_der interDer) interDer inter (public_of interKey)
               (not_before built) (not_after built);
  nr_root : reads_back (x509_pem (utf8_bytes (pemCert rootDer))) rootDer root (public_of rootKey)
              (not_before built) (not_after built);
  nr_issued : issued_by leaf inter /\ issued_by inter root /\ cert_verify root root = true;
  nr_size : blen leafDer < 2 ^ 31 /\ blen interDer < 2 ^ 31;
}.

Lemma nonempty_encode b : b <> [] -> nonempty (base64_encode b) = true.
Proof.
  intros Hb. destruct (base64_encode b) eqn:E; [|done]. exfalso. apply Hb.
  by rewrite <-(base64_decode_encode b), E.
Qed.

Lemma leaf_nonce key spki leaf inter root :
  node_reads key spki leaf inter root -> nonce_in_leaf leaf (fx_nonce appId label challenge credKey).
Proof.
  intros [Hd _ (Hs & Hw & Hf) [_ Hraw _ _ _] _ _ _ [Hsize _]].
  assert (blen (fx_nonce appId label challenge credKey) = 32) as Hn by apply Hd.
  exists (der_enc (nonce_ext (fx_nonce appId label challenge credKey))). split.
  - pose proof (encodes_leaf "Columbia Test App Attest Credential" "Columbia Test App Attestation CA 1"
      (public_of credKey) spki interKey 2 _ (not_before built) (not_after built) Hs Hn Hsize) as E.
    match type of E with _ = der_enc ?t => set (tree := t) in E end.
    assert (leafDer = der_enc tree) as El by exact E. rewrite El in Hsize.
    rewrite Hraw, El. unfold findExtensionValue. rewrite nonce_oid. cbn [mbind result_bind].
    rewrite walk_tree; [|by apply leaf_wf|done]. f_equal. by apply leaf_extension.
  - rewrite parseAppleNonce_roundtrip by (rewrite Hn; lia). by rewrite Hn.
Qed.

(** The configuration that pins the fixture's root. *)
Definition fixture_config (team bundle : string) (skew : option Z) : attest_config := {|
  APPLE_ROOT_CA_PEM_B64 := rootPemB64 fixture; APPLE_TEAM_ID := team; APPLE_BUNDLE_ID := bundle;
  EXPECTED_AAGUID_LABEL := label; CERT_CLOCK_SKEW_MS := skew |}.
Definition fixture_request : attest_request :=
  AttestRequest (keyIdB64 fixture) (text_proof (attestationB64 fixture)) None (clientDataHashB64 fixture) None.
(** Within the validity of the certificates, to the second, give or take the skew. *)
Definition in_validity (skew : option Z) (now : Z) : Prop :=
  forall d, skew = Some d ->
    not_before built / 1000 * 1000 - d <= now <= not_after built / 1000 * 1000 + d.

Lemma fixture_chain key spki leaf inter root team bundle skew now :
  node_reads key spki leaf inter root -> in_validity skew now ->
  chain_valid (fixture_config team bundle skew) now [CBytes leafDer; CBytes interDer] leaf.
Proof.
  intros [_ _ _ [L1 _ L3 L4 _] [I1 _ I3 I4 _] [R1 _ R3 R4 _] (H1 & H2 & H3) _] Hv.
  assert (forall c, validFrom c = Some (not_before built / 1000 * 1000) ->
    validTo c = Some (not_after built / 1000 * 1000) -> in_window (fixture_config team bundle skew) now c) as Hw.
  { intros c Hf Ht. do 2 eexists. split; [exact Hf|]. split; [exact Ht|]. exact Hv. }
  split; [by apply nonempty_encode|].
  exists root, [inter]. split; [simpl; by rewrite base64_decode_encode|].
  split; [repeat apply Forall2_cons_2; [by eexists..|constructor]|].
  split; [repeat apply Forall_cons_2; [by apply Hw..|constructor]|]. split; [|done].
  intros [|[|[|i]]] c d Hc Hd; simpl in *; simplify_eq; done.
Qed.

(** C9. The validator accepts what it is meant to: the attestation built for any app,
    environment, challenge and P-256 key, with certificates up to a pinned root, is
    accepted by a validator of that app and environment that pins that root, within
    the validity of the certificates; the answer carries the fixture's key id, its
    key and the counter 0. *)
Theorem fixture_accepted (key : pubkey) (spki : der) (leaf inter root : cert) (team bundle : string)
    (skew : option Z) (now : Z) :
  node_reads key spki leaf inter root -> team <> "" -> bundle <> "" -> appId = team +:+ "." +:+ bundle ->
  in_validity skew now ->
  validateAppAttest (fixture_config team bundle skew) now fixture_request
  = Ok (AttestOk Attestation (keyIdB64 fixture) (key_pem key) 0).
Proof.
  intros Hr Ht Hb Happ Hv. pose proof (nr_digest _ _ _ _ _ Hr) as Hd.
  assert (forall b, sha256 b <> []) as Hne by (intros b E; specialize (Hd b); by rewrite E in Hd).
  apply validateAppAttest_Ok. split; [|split].
  - unfold APP_ATTEST_READY, fixture_config.
    cbn [APPLE_ROOT_CA_PEM_B64 APPLE_TEAM_ID APPLE_BUNDLE_ID rootPemB64 makeAttestationFixture].
    rewrite (nonempty_encode (utf8_bytes (pemCert rootDer))) by done.
    by destruct team, bundle.
  - split; cbn [r_clientDataHash fixture_request clientDataHashB64 makeAttestationFixture];
      [by apply nonempty_encode|]. rewrite base64_decode_encode. apply Hd.
  - cbv zeta. cbn [r_attestation r_clientDataHash r_keyId fixture_request clientDataHashB64 keyIdB64
                   attestationB64 makeAttestationFixture]. unfold text_proof. rewrite nonempty_encode by done. rewrite !base64_decode_encode.
    apply attestationBranch_Ok.
    set (authData := fx_authData appId label credKey).
    exists (fx_attObj appId label challenge credKey rootKey interKey built), [CBytes leafDer; CBytes interDer],
      authData, leaf, 64,
      (Cred (aaguidBuf label) (fx_keyIdRaw credKey) key (uncompressedPoint (public_of credKey))).
    split; [done|]. split; [|done].
    pose proof Hr as [_ Hk _ Hl _ _ _ [Hs1 Hs2]].
    assert (blen (fx_keyIdRaw credKey) < 2 ^ 16) as Hid by (unfold fx_keyIdRaw; rewrite Hd; lia).
    constructor.
    + apply attestation_object_item; [lia..|]. unfold authData, fx_authData, buildAttestationAuthData.
      rewrite auth_head_eq by apply Hd. autorewrite with bufs. rewrite (blen_cose _ key Hk).
      unfold fx_rpIdHash, fx_keyIdRaw. rewrite !Hd. unfold aaguidBuf. cbv zeta. rewrite blen_app.
      unfold blen. rewrite length_replicate, length_take. lia.
    + by eapply fixture_chain.
    + by eapply leaf_nonce.
    + unfold appIdHash. change (AppAttest.appId (fixture_config team bundle skew)) with (team +:+ "." +:+ bundle).
      rewrite <-Happ. by apply attested_layout.
    + exists (export_jwk (public_of credKey)). destruct Hl as [_ _ _ _ Hj], Hk as [Hk1 Hk2 _ _ _].
      split; [exact Hj|]. split; [exact Hk1|]. split; [exact Hk2|reflexivity].
    + split; [apply nonempty_encode, Hne|]. rewrite base64_decode_encode. split; [done|apply Hd].
    + done.
    + done.
Qed.
End fixture.

(** ** The assertion *)
Definition assertion_map (sig authData : buffer) : cmap :=
  [(CText (units "signature"), CBytes sig); (CText (units "authenticatorData"), CBytes authData)].
Lemma assertion_members sig authData :
  cmap_get (cmap_of (assertion_map sig authData) []) (CText (units "signature")) = Some (CBytes sig) /\
  cmap_get (cmap_of (assertion_map sig authData) []) (CText (units "authenticatorData")) = Some (CBytes authData).
Proof. split; vm_compute; reflexivity. Qed.

(** An assertion built with a device's key for a challenge and a counter is
    accepted for that challenge once the store holds the key with a smaller counter,
    whatever flags and trailing bytes its authenticator data carry. *)
Theorem assertion_fixture_accepted (priv : privkey) (key : pubkey) (pem kid : string)
    (get : string -> result exn (option attested_key)) (stored n flags : Z) (challenge suffix : buffer) (now : Z) :
  let '(assertion, hash) := makeAssertion (appId cfg) priv n challenge flags suffix in
  let nonce := as_nonce (appId cfg) n challenge flags suffix in
  APP_ATTEST_READY cfg = true -> (forall b, blen (sha256 b) = 32) ->
  key_of_pem pem = Ok key -> ecdsa_verify nonce key (crypto_sign nonce priv) = Ok true ->
  blen (crypto_sign nonce priv) < 2 ^ 32 -> blen suffix < 2 ^ 31 -> 0 <= n < 2 ^ 32 ->
  kid <> "" -> pem <> "" ->
  get (base64_encode (base64_decode kid)) = Ok (Some (AttestedKey pem stored)) -> stored < n ->
  validateAppAttest cfg now (AttestRequest kid None (text_proof assertion) hash (Some get))
  = Ok (AttestOk Assertion (base64_encode (base64_decode kid)) pem n).
Proof.
  unfold makeAssertion. cbv zeta. intros Hr Hd Hk Hv Hsig Hsuf Hn Hkid Hpem Hg Hlt.
  assert (forall b, sha256 b <> []) as Hne by (intros b E; specialize (Hd b); by rewrite E in Hd).
  set (sig := crypto_sign _ priv) in *.
  set (authData := as_authData (appId cfg) n flags suffix).
  assert (authData = sha256 (utf8_bytes (appId cfg)) ++ byte_of_Z flags :: be_bytes 4 n ++ suffix) as Ea.
  { unfold authData, as_authData, buildAssertionAuthData. rewrite auth_head_eq by apply Hd.
    by rewrite <-app_assoc. }
  assert (cbor_item 16 (as_object (appId cfg) priv n challenge flags suffix)
            (CMap (cmap_of (assertion_map sig authData) []))) as Ho.
  { apply map_item; [|done]. repeat apply Forall2_cons_2; [..|constructor]; cbn [fst snd];
      (split; [named|apply bytes_item]); [done|]. rewrite Ea. autorewrite with bufs. rewrite Hd. lia. }
  apply (cborDecode_prefix _ _ []) in Ho. rewrite app_nil_r in Ho.
  assert (as_object (appId cfg) priv n challenge flags suffix <> []) as Hoe
    by (intros E; by rewrite E in Ho).
  apply validateAppAttest_Ok. split; [done|]. split.
  { split; cbn [r_clientDataHash]; [by apply nonempty_encode|]. rewrite base64_decode_encode. apply Hd. }
  cbv zeta. cbn [r_attestation r_assertion r_clientDataHash r_keyId r_store].
  unfold text_proof. rewrite nonempty_encode by done. rewrite !base64_decode_encode.
  apply assertionBranch_Ok. split; [done|]. split; [by destruct kid|].
  exists (as_object (appId cfg) priv n challenge flags suffix), (AttestedKey pem stored), key.
  split; [done|]. split; [exists get; split; [done|]; split; [done|by destruct pem]|].
  split; [done|]. split; [|done].
  eexists _, _, sig, authData, (byte_val (byte_of_Z flags)). split; [exact Ho|].
  split; [apply assertion_members|]. split; [apply assertion_members|]. split; [exact Hv|].
  split; [|done]. rewrite Ea. apply layout_plain; [apply Hd|done|by left].
Qed.
End accepted.

(** ** Witnesses: one set of keys *)
Module FixtureSample.
Definition px : buffer := replicate 32 x01.
Definition py : buffer := replicate 32 x02.
Definition spki : der := Cons 48 [alg_tree; Prim 3 [x00; x04]].
(** The DER between the lines of a PEM text. *)
Definition pem_der (b : buffer) : buffer :=
  base64_decode (of_chars ((fun x => char_of (byte_val x)) <$> take (length b - 55) (drop 28 b))).
Definition crypto : Crypto := {|
  sha256 b := be_bytes 32 (be_val b);
  cert := buffer;
  x509_der b := Ok b;
  x509_pem b := Ok (pem_der b);
  validFrom _ := Some 3600000;
  validTo _ := Some 93600000;
  checkIssued _ _ := true;
  cert_verify _ _ := true;
  cert_raw c := c;
  cert_jwk _ := Ok (Jwk "EC" "P-256" (base64_encode px) (base64_encode py));
  pubkey := unit;
  key_of_point _ _ := Ok tt;
  key_of_pem _ := Ok tt;
  key_pem _ := "PEM";
  ecdsa_verify _ _ sig := Ok (bool_decide (sig = [xaa]));
|}.
Definition keys : TestKeys (C := crypto) := {|
  privkey := Z;
  public_of _ := (tt : @pubkey crypto);
  export_spki _ := der_enc spki;
  export_jwk _ := Jwk "EC" "P-256" (base64_encode px) (base64_encode py);
  crypto_sign _ _ := [xaa];
|}.
#[export] Existing Instances crypto keys.
Definition k1 : @privkey crypto keys := 1.
Definition k2 : @privkey crypto keys := 2.
Definition k3 : @privkey crypto keys := 3.
Definition challenge : buffer := [x01; x02; x03].
Definition leaf : buffer := fx_leafDer "T.B" "appattest" challenge k1 k3 7200000.
Definition inter : buffer := fx_interDer k2 k3 7200000.
Definition root : buffer := fx_rootDer k2 7200000.
Lemma reads : node_reads (C := crypto) "T.B" "appattest" challenge k1 k2 k3 7200000 tt spki leaf inter root.
Proof.
  constructor.
  - intros b. apply blen_be_bytes.
  - constructor; reflexivity.
  - split; [reflexivity|]. split; [|reflexivity]. unfold spki, alg_tree, oid_tree.
    repeat (rewrite der_wf_Cons || cbn [forest_wf]). cbn [der_wf]. repeat split; first [done|lia].
  - constructor; reflexivity.
  - constructor; reflexivity.
  - constructor; [|reflexivity..]. vm_compute. reflexivity.
  - repeat split; reflexivity.
  - split; vm_compute; reflexivity.
Qed.
Definition get (k : string) : result exn (option attested_key) := Ok (Some (AttestedKey "PEM" 6)).
Definition cfg : attest_config := fixture_config "T.B" "appattest" challenge k1 k2 k3 7200000 "T" "B" (Some 300).
End FixtureSample.
#[local] Existing Instances FixtureSample.crypto FixtureSample.keys.

Lemma fixture_accepted_witness :
  validateAppAttest FixtureSample.cfg 7200000
    (fixture_request "T.B" "appattest" FixtureSample.challenge FixtureSample.k1 FixtureSample.k2 FixtureSample.k3 7200000)
  = Ok (AttestOk Attestation
          (keyIdB64 (makeAttestationFixture "T.B" "appattest" FixtureSample.challenge FixtureSample.k1 FixtureSample.k2 FixtureSample.k3 7200000)) "PEM" 0).
Proof.
  apply (fixture_accepted "T.B" "appattest" FixtureSample.challenge FixtureSample.k1 FixtureSample.k2 FixtureSample.k3 7200000 tt FixtureSample.spki
    FixtureSample.leaf FixtureSample.inter FixtureSample.root "T" "B" (Some 300) 7200000).
  - exact FixtureSample.reads.
  - discriminate.
  - discriminate.
  - reflexivity.
  - intros d [= <-]. vm_compute. split; discriminate.
Defined.

Lemma assertion_fixture_accepted_witness :
  let '(assertion, hash) := makeAssertion "T.B" FixtureSample.k1 7 FixtureSample.challenge 64 [x00] in
  validateAppAttest FixtureSample.cfg 7200000
    (AttestRequest "AAAA" None (text_proof assertion) hash (Some FixtureSample.get))
  = Ok (AttestOk Assertion "AAAA" "PEM" 7).
Proof.
  apply (assertion_fixture_accepted FixtureSample.cfg FixtureSample.k1 tt "PEM" "AAAA" FixtureSample.get 6 7 64
    FixtureSample.challenge [x00] 7200000); try discriminate; try lia; reflexivity.
Defined.
