(* ===== verification/Timed.v ===== *)
(** * Calls with a deadline

    Both stores of the services wait for Azure under a deadline: [bounded] in
    [token-issuer/state-store.js] and in [ohttp-relay/redemption-store.js] races a
    request against a timer, and the promise [ready] runs the set-up of the table
    once. Here is the part they share: computations over a clock, the far side, and
    the requests sent to it. The program's own work takes no time; an answer takes
    as long as the far side likes, or never comes. *)
From S2P Require Import Prelude.

(** The promise [ready]: not made, pending until it settles, or fulfilled. *)
Inductive readiness : Type :=
| NotReady
| Pending (settles : Z) (out : result exn unit)
| Ready.

(** A request with the moment it was sent and the [timeout] it asked for. *)
Record sent_request {Req : Type} := Sent { sr_at : Z; sr_timeout : Z; sr_request : Req }.
Arguments sent_request : clear implicits.

Record tstate {W Req : Type} := TState {
  now : Z;
  world : W;
  ready : readiness;
  sent : list (sent_request Req);
}.
Arguments tstate : clear implicits.

(** An asynchronous function of the source, awaited to its end. *)
Definition io (W Req A : Type) : Type := tstate W Req -> result exn A * tstate W Req.
#[export] Instance io_ret (W Req : Type) : MRet (io W Req) := fun A a s => (Ok a, s).
#[export] Instance io_bind (W Req : Type) : MBind (io W Req) := fun A B k m s =>
  match m s with (Ok a, s') => k a s' | (Throw e, s') => (Throw e, s') end.
Definition lift {W Req A} (r : result exn A) : io W Req A := fun s => (r, s).
(** [try { r = await m } catch (e) { r = e }]: the outcome as a value. *)
Definition outcome {W Req A} (m : io W Req A) : io W Req (result exn A) := fun s =>
  let '(r, s') := m s in (Ok r, s').
(** [Date.now()]. *)
Definition clock {W Req} : io W Req Z := fun s => (Ok (now s), s).

Section timed.
Context {W Req Resp : Type}.
(** The far side: at a time, given the requested timeout, a request is answered
    after some milliseconds, or never, and changes the far side in any case. *)
Context (client : Z -> Z -> Req -> W -> option Z * result exn Resp * W).

(** [Promise.race] of the request and the timer: an answer that comes in time, or
    the timer's error. *)
Definition race (late : exn) (timeoutMs : Z) (r : Req) : io W Req Resp := fun s =>
  let timeout := Z.max 1 (timeoutMs - 1000) in
  let '(latency, answer, w) := client (now s) timeout r (world s) in
  let log := sent s ++ [Sent _ (now s) timeout r] in
  match latency with
  | Some ms =>
      if Z.max 0 ms <? timeoutMs
      then (answer, TState _ _ (now s + Z.max 0 ms) w (ready s) log)
      else (Throw late, TState _ _ (now s + timeoutMs) w (ready s) log)
  | None => (Throw late, TState _ _ (now s + timeoutMs) w (ready s) log)
  end.

Definition bounded (late : exn) (timeoutMs : Z) (r : Req) : io W Req Resp := fun s =>
  if timeoutMs <=? 0 then (Throw late, s) else race late timeoutMs r s.

(** [if (!ready) ready = init(); await ready]: a failure clears the promise. *)
Definition settled (out : result exn unit) : readiness :=
  match out with Ok _ => Ready | Throw _ => NotReady end.
Definition once (init : io W Req unit) : io W Req unit := fun s =>
  match ready s with
  | Ready => (Ok tt, s)
  | Pending t out => (out, TState _ _ (Z.max (now s) t) (world s) (settled out) (sent s))
  | NotReady =>
      let '(out, s') := init s in
      (out, TState _ _ (now s') (world s') (settled out) (sent s'))
  end.

(** ** Timeliness

    [timely dl n m]: begun before the deadline [dl], [m] ends by it, having sent at
    most [n] requests, each before the deadline and with a timeout of its own that
    lies inside it (or is the least one, a millisecond). *)
Definition ready_by (dl : Z) (s : tstate W Req) : Prop :=
  match ready s with Pending t _ => t <= dl | _ => True end.

Definition in_time (dl from : Z) (x : sent_request Req) : Prop :=
  from <= sr_at x < dl /\ 1 <= sr_timeout x <= Z.max 1 (dl - sr_at x - 1000).

Record fits_in (dl : Z) (n : nat) (s s' : tstate W Req) : Prop := {
  fi_now : now s <= now s' <= dl;
  fi_ready : ready_by dl s';
  fi_sent : exists l, sent s' = sent s ++ l /\ (length l <= n)%nat /\ Forall (in_time dl (now s)) l;
}.

Definition timely {A} (dl : Z) (n : nat) (m : io W Req A) : Prop :=
  forall s, now s <= dl -> ready_by dl s -> fits_in dl n s (m s).2.

Lemma fits_in_refl dl n s : now s <= dl -> ready_by dl s -> fits_in dl n s s.
Proof. intros H Hr. split; [lia|done|]. exists []. rewrite app_nil_r. split_and!; [done|simpl; lia|done]. Qed.

Lemma fits_in_trans dl n k s s' s'' :
  fits_in dl n s s' -> fits_in dl k s' s'' -> fits_in dl (n + k) s s''.
Proof.
  intros [H1 H2 (l & E & Hl & Hf)] [H3 H4 (l' & E' & Hl' & Hf')]. split; [lia|done|].
  exists (l ++ l'). rewrite E', E, app_assoc, length_app. split_and!; [done|lia|].
  apply Forall_app. split; [done|]. eapply Forall_impl; [exact Hf'|]. unfold in_time. intros x. lia.
Qed.

Lemma fits_in_weaken dl n k s s' : fits_in dl n s s' -> (n <= k)%nat -> fits_in dl k s s'.
Proof.
  intros [H1 H2 (l & E & Hl & Hf)] Hle. split; [done..|]. exists l. split_and!; [done|lia|done].
Qed.

Lemma timely_weaken {A} dl n k (m : io W Req A) : timely dl n m -> (n <= k)%nat -> timely dl k m.
Proof.
  intros Hm Hle s H Hr. by eapply fits_in_weaken; [apply Hm|].
Qed.

Lemma timely_lift {A} dl (r : result exn A) : timely dl 0 (lift r).
Proof. intros s H Hr. by apply fits_in_refl. Qed.
Lemma timely_ret {A} dl (a : A) : timely dl 0 (mret a).
Proof. apply (timely_lift dl (Ok a)). Qed.

Lemma timely_bind {A B} dl n k (m : io W Req A) (f : A -> io W Req B) :
  timely dl n m -> (forall a, timely dl k (f a)) -> timely dl (n + k) (m ≫= f).
Proof.
  intros Hm Hf s H Hr. specialize (Hm s H Hr). unfold mbind, io_bind.
  destruct (m s) as [[a|e] s']; simpl in *.
  - eapply fits_in_trans; [done|]. apply Hf; [apply Hm|apply Hm].
  - eapply fits_in_trans; [done|]. apply fits_in_refl; [apply Hm|apply Hm].
Qed.

Lemma timely_outcome {A} dl n (m : io W Req A) : timely dl n m -> timely dl n (outcome m).
Proof. intros Hm s H Hr. specialize (Hm s H Hr). unfold outcome. by destruct (m s). Qed.

Lemma timely_bounded dl late ms r s :
  now s <= dl -> ready_by dl s -> ms <= dl - now s -> fits_in dl 1 s (bounded late ms r s).2.
Proof.
  intros H Hr Hms. unfold bounded. destruct (ms <=? 0) eqn:E; bool_to_prop; [by apply fits_in_refl|].
  unfold race. destruct (client _ _ _ _) as [[lat ans] w].
  assert (forall d, 0 <= d <= ms ->
    fits_in dl 1 s (TState _ _ (now s + d) w (ready s) (sent s ++ [Sent _ (now s) (Z.max 1 (ms - 1000)) r])))
    as Hk.
  { intros d Hd. split; simpl; [lia|done|]. eexists. split_and!; [done|done|].
    constructor; [|done]. unfold in_time. simpl. lia. }
  destruct lat as [l|]; [destruct (_ <? ms) eqn:El; bool_to_prop|]; simpl; apply Hk; lia.
Qed.

Lemma timely_once dl n m : timely dl n m -> timely dl n (once m).
Proof.
  intros Hm s H Hr. unfold once. destruct (ready s) as [|t out|] eqn:E.
  - specialize (Hm s H Hr). destruct (m s) as [out s']. destruct Hm as [H1 H2 H3]. simpl in *.
    split; simpl; [done| |done]. by destruct out.
  - unfold ready_by in Hr. rewrite E in Hr. split; simpl; [lia|by destruct out|].
    exists []. rewrite app_nil_r. split_and!; [done|simpl; lia|done].
  - by apply fits_in_refl.
Qed.
End timed.
