(* ===== verification/AzureTable.v ===== *)
(** * The table client of Azure, as the two stores use it

    [@azure/data-tables] is not part of the repository: its client is an argument
    of the definitions that use it. Here are the requests the stores make of it,
    and [honest], what its documentation promises: rows are created once, replaced
    only under the tag they carry, and every request is answered. *)
From S2P Require Import Prelude JsMap Timed.

Record entity := Entity { e_etag : string; e_fields : list (string * string) }.
Definition e_field (e : entity) (k : string) : option string := map_get String.eqb (e_fields e) k.

Inductive table_request : Type :=
| CreateTable
| GetEntity (partitionKey rowKey : string)
| CreateEntity (partitionKey rowKey : string) (fields : list (string * string))
| ReplaceEntity (partitionKey rowKey : string) (fields : list (string * string)) (etag : string).

Definition table_client (W : Type) : Type :=
  Z -> Z -> table_request -> W -> option Z * result exn entity * W.

Section honest.
Context {W : Type} (client : table_client W).
(** The rows of the table, whether it has been created, and the longest a request
    takes, in milliseconds. *)
Context (rows : W -> string * string -> option entity) (made : W -> Prop) (L : Z).

(** What the answer to a request is, and what has become of the rows. *)
Definition answered (r : table_request) (w : W) (ans : result exn entity) (w' : W) : Prop :=
  match r with
  | CreateTable =>
      ((exists e, ans = Ok e) \/ (exists m c, ans = Throw (Exn m c (Some 409)))) /\
      made w' /\ (forall k, rows w' k = rows w k)
  | GetEntity pk rk =>
      made w' /\ (forall k, rows w' k = rows w k) /\
      match rows w (pk, rk) with
      | Some e => ans = Ok e
      | None => exists m c, ans = Throw (Exn m c (Some 404)) /\ c <> Some "TableNotFound"
      end
  | CreateEntity pk rk fields =>
      made w' /\
      match rows w (pk, rk) with
      | Some _ => (exists m c, ans = Throw (Exn m c (Some 409))) /\ (forall k, rows w' k = rows w k)
      | None => (exists e, ans = Ok e) /\ exists tag,
          forall k, rows w' k = if decide (k = (pk, rk)) then Some (Entity tag fields) else rows w k
      end
  | ReplaceEntity pk rk fields etag =>
      made w' /\
      if decide (e_etag <$> rows w (pk, rk) = Some etag)
      then (exists e, ans = Ok e) /\ exists tag,
          forall k, rows w' k = if decide (k = (pk, rk)) then Some (Entity tag fields) else rows w k
      else (exists m c, ans = Throw (Exn m c (Some 412))) /\ (forall k, rows w' k = rows w k)
  end.

Record honest : Prop := {
  h_latency t timeout r w : exists ms, (client t timeout r w).1.1 = Some ms /\ 0 <= ms <= L;
  h_answer t timeout r w : r = CreateTable \/ made w ->
    answered r w (client t timeout r w).1.2 (client t timeout r w).2;
}.

(** A request with time enough is answered, as the table answers it. *)
Lemma honest_bounded (late : exn) (ms : Z) (r : table_request) (s : tstate W table_request) :
  honest -> (r = CreateTable \/ made (world s)) -> L < ms ->
  exists ans s', bounded client late ms r s = (ans, s') /\ answered r (world s) ans (world s') /\
    now s <= now s' <= now s + L /\ ready s' = ready s.
Proof.
  intros [HL HA] Hm Hms. specialize (HL (now s) (Z.max 1 (ms - 1000)) r (world s)).
  specialize (HA (now s) (Z.max 1 (ms - 1000)) r (world s) Hm). destruct HL as (l & El & Hl).
  unfold bounded, race. destruct (ms <=? 0) eqn:E; bool_to_prop; [lia|].
  destruct (client _ _ _ _) as [[lat ans] w']. simpl in *. subst lat.
  replace (Z.max 0 l) with l by lia. destruct (l <? ms) eqn:E'; bool_to_prop; [|lia].
  do 2 eexists. split; [done|]. simpl. split; [done|]. split; [lia|done].
Qed.
End honest.

(** ** A table in memory, which is honest: any latency up to the bound *)
Record table := Table { t_made : bool; t_rows : gmap (string * string) entity; t_count : nat }.

Definition table_insert (w : table) (k : string * string) (fields : list (string * string)) : table :=
  Table (t_made w) (<[k := Entity (pretty (t_count w)) fields]> (t_rows w)) (S (t_count w)).
Definition table_error (status : Z) (code : string) : result exn entity :=
  Throw (Exn "RestError" (Some code) (Some status)).

Definition table_run (r : table_request) (w : table) : result exn entity * table :=
  let done := Ok (Entity "" []) in
  match r with
  | CreateTable => (if t_made w then table_error 409 "TableAlreadyExists" else done,
                    Table true (t_rows w) (t_count w))
  | GetEntity pk rk =>
      (if t_made w then match t_rows w !! (pk, rk) with
                        | Some e => Ok e | None => table_error 404 "ResourceNotFound" end
       else table_error 404 "TableNotFound", w)
  | CreateEntity pk rk fields =>
      match t_rows w !! (pk, rk) with
      | Some _ => (table_error 409 "EntityAlreadyExists", w)
      | None => (done, table_insert w (pk, rk) fields)
      end
  | ReplaceEntity pk rk fields etag =>
      if decide (e_etag <$> t_rows w !! (pk, rk) = Some etag)
      then (done, table_insert w (pk, rk) fields)
      else (table_error 412 "UpdateConditionNotSatisfied", w)
  end.

Definition memory_table (latency : table_request -> Z) : table_client table := fun _ _ r w =>
  (Some (latency r), (table_run r w).1, (table_run r w).2).

Lemma memory_table_honest latency L :
  (forall r, 0 <= latency r <= L) ->
  honest (memory_table latency) (fun w k => t_rows w !! k) (fun w => t_made w = true) L.
Proof.
  intros HL. split; [simpl; eauto|].
  assert (forall w k fields k', t_rows (table_insert w k fields) !! k'
    = if decide (k' = k) then Some (Entity (pretty (t_count w)) fields) else t_rows w !! k') as Hi.
  { intros w k fields k'. simpl. case_decide as E; [subst; by rewrite lookup_insert_eq|].
    by rewrite lookup_insert_ne. }
  intros t timeout r w [->|Hm]; [|destruct r as [|pk rk|pk rk f|pk rk f e]]; cbn -[table_insert];
    unfold table_error.
  - destruct (t_made w); naive_solver.
  - destruct (t_made w); naive_solver.
  - rewrite Hm. destruct (t_rows w !! _); naive_solver.
  - destruct (t_rows w !! (pk, rk)) eqn:E; cbn [fst snd]; [naive_solver|].
    split; [done|]. split; [eauto|]. eexists. intros k. apply Hi.
  - case_decide; cbn [fst snd]; [|naive_solver].
    split; [done|]. split; [eauto|]. eexists. intros k. apply Hi.
Qed.
