(* ===== verification/StateStore.v ===== *)
(** * Issuer state ([token-issuer/state-store.js])

    The records of attested devices: validation of a stored record ([checked]),
    the body of the compare-and-swap loop of [reserve] ([attempt]), the two
    backends, and the loop over the in-memory one. A record is kept as the JSON
    value that the memory backend clones and the Azure backend serialises.

    [step] is the system of any number of replicas and calls over one table: a
    write may be acknowledged, refused, lost, or committed after the call gave
    up waiting. *)
From S2P Require Import Prelude JsMap JsText JsJson AppAttest.

(** ** Errors *)
Definition StateUnavailable : exn :=
  Exn "issuer_state_unavailable" (Some "state_unavailable") None.

(** ** Records *)
Record device_record := DeviceRecord {
  d_publicKeyPem : string;
  d_signCount : Z;
  d_latestEpoch : Z;
  d_quota : list (string * Z);
}.

Fixpoint checked_counts (latestEpoch : Z) (o : list (string * json)) :
    option (list (string * Z)) :=
  match o with
  | [] => Some []
  | (epoch, count) :: o' =>
      if String.eqb epoch (js_dec latestEpoch) || String.eqb epoch (js_dec (latestEpoch - 1))
      then match as_safe (Some count) with
           | Some n => if n <? 0 then None
                       else match checked_counts latestEpoch o' with
                            | Some l => Some ((epoch, n) :: l)
                            | None => None
                            end
           | None => None
           end
      else None
  end.

Definition checked (record : json) : result exn device_record :=
  match jget record "version", as_string (jget record "publicKeyPem"),
        as_safe (jget record "signCount"), as_safe (jget record "latestEpoch"),
        jget record "quota" with
  | Some (JInt version), Some publicKeyPem, Some signCount, Some latestEpoch, Some (JObj quota) =>
      throw_when negb (version =? 1) with StateUnavailable ;;
      throw_when slen publicKeyPem >? 4096 with StateUnavailable ;;
      throw_when signCount <? 0 with StateUnavailable ;;
      throw_when latestEpoch <? 0 with StateUnavailable ;;
      throw_when Z.of_nat (length quota) >? 2 with StateUnavailable ;;
      match checked_counts latestEpoch quota with
      | Some counts => Ok (DeviceRecord publicKeyPem signCount latestEpoch counts)
      | None => Throw StateUnavailable
      end
  | _, _, _, _, _ => Throw StateUnavailable
  end.

(** ** [reserve] *)
Record reservation := Reservation {
  v_keyId : string;
  v_mode : string;
  v_publicKeyPem : string;
  v_signCount : Z;
  v_epoch : Z;
  v_count : Z;
}.

(** The guard on the arguments. *)
Definition reservation_ok (a : reservation) : bool :=
  (String.eqb (v_mode a) "attestation" || String.eqb (v_mode a) "assertion")
  && isSafe (v_signCount a) && negb (v_signCount a <? 0)
  && isSafe (v_epoch a) && negb (v_epoch a <? 0)
  && isSafe (v_count a) && negb (v_count a <? 1)
  && negb (slen (v_publicKeyPem a) >? 4096).

Inductive reply := Granted | Denied (reason : string).

Definition json_counts (l : list (string * Z)) : json :=
  JObj ((fun kv => (kv.1, JInt kv.2)) <$> l).

Definition record_json (commitID : string) (r : device_record) : json :=
  JObj [ ("version", JInt 1); ("commitID", JStr commitID);
         ("publicKeyPem", JStr (d_publicKeyPem r)); ("signCount", JInt (d_signCount r));
         ("latestEpoch", JInt (d_latestEpoch r)); ("quota", json_counts (d_quota r)) ].

(** [record?.quota?.[String(epoch)] || 0]. *)
Definition used_in (record : option device_record) (epoch : Z) : Z :=
  match record with
  | Some r => default 0 (map_get String.eqb (d_quota r) (js_dec epoch))
  | None => 0
  end.

(** [if (record?.quota?.[String(id)]) counts[id] = ..]. *)
Definition carry (record : option device_record) (id : Z) (counts : list (string * Z)) :
    list (string * Z) :=
  if used_in record id =? 0 then counts
  else map_set String.eqb counts (js_dec id) (used_in record id).

(** The record an accepted reservation writes. The counts stand in the order of
    insertion; JavaScript would list the integer keys of such an object in ascending
    order, and nothing reads that order. *)
Definition charged (a : reservation) (record : option device_record) (latestEpoch : Z) :
    device_record :=
  let counts := carry record (latestEpoch - 1) (carry record latestEpoch []) in
  DeviceRecord (v_publicKeyPem a)
    (Z.max (v_signCount a) (match record with Some r => d_signCount r | None => 0 end))
    latestEpoch
    (map_set String.eqb counts (js_dec (v_epoch a)) (used_in record (v_epoch a) + v_count a)).

(** [prior ? checked(prior.value) : null]. *)
Definition read_prior (prior : option json) : result exn (option device_record) :=
  match prior with
  | Some v => r ← checked v; Ok (Some r)
  | None => Ok None
  end.

Definition latest_after (record : option device_record) (epoch : Z) : Z :=
  Z.max epoch (match record with
               | Some r => if d_latestEpoch r =? 0 then epoch else d_latestEpoch r
               | None => epoch end).

(** The checks between the [get] and the [put]: an answer, or the value to write. *)
Definition decide_reservation (quota : Z) (commitID : string) (a : reservation)
    (record : option device_record) : result exn (reply + json) :=
  let assertion := String.eqb (v_mode a) "assertion" in
  if assertion && bool_decide (record = None) then Ok (inl (Denied "unknown_device_key"))
  else if (match record with
           | Some r => negb (String.eqb (d_publicKeyPem r) (v_publicKeyPem a))
           | None => false end) then Ok (inl (Denied "key_mismatch"))
  else if assertion && (match record with
                        | Some r => v_signCount a <=? d_signCount r
                        | None => false end) then Ok (inl (Denied "replayed_assertion"))
  else
    let latestEpoch := latest_after record (v_epoch a) in
    if v_epoch a <? latestEpoch - 1 then Ok (inl (Denied "expired_epoch"))
    else
      let total := used_in record (v_epoch a) + v_count a in
      throw_when negb (isSafe total) with StateUnavailable ;;
      if (quota >? 0) && (total >? quota) then Ok (inl (Denied "quota_exceeded"))
      else Ok (inr (record_json commitID (charged a record latestEpoch))).

(** The body of the loop up to the [put]. *)
Definition attempt (quota : Z) (commitID : string) (a : reservation) (prior : option json) :
    result exn (reply + json) :=
  record ← read_prior prior;
  decide_reservation quota commitID a record.

(** ** The in-memory backend *)
Record memory := Memory { m_rows : list (string * (string * json)); m_revision : Z }.

Definition memory_get (s : memory) (key : string) : option (string * json) :=
  map_get String.eqb (m_rows s) key.

Definition memory_put (maxKeys : Z) (s : memory) (key : string) (etag : option string)
    (value : json) : result exn bool * memory :=
  if negb (bool_decide (fst <$> memory_get s key = etag)) then (Ok false, s)
  else if negb (map_has String.eqb (m_rows s) key) && (map_size (m_rows s) >=? maxKeys) then
    (Throw StateUnavailable, s)
  else
    let revision := m_revision s + 1 in
    (Ok true, Memory (map_set String.eqb (m_rows s) key (js_dec revision, value)) revision).

(** ** The loop of [reserve], run without interruption over the memory backend *)
Fixpoint reserve_loop (n : nat) (maxKeys quota : Z) (key commitID : string) (a : reservation)
    (s : memory) : result exn reply * memory :=
  match n with
  | O => (Throw StateUnavailable, s)
  | S n' =>
      let prior := memory_get s key in
      match attempt quota commitID a (snd <$> prior) with
      | Throw e => (Throw e, s)
      | Ok (inl r) => (Ok r, s)
      | Ok (inr value) =>
          match memory_put maxKeys s key (fst <$> prior) value with
          | (Throw e, s') => (Throw e, s')
          | (Ok true, s') => (Ok Granted, s')
          | (Ok false, s') => reserve_loop n' maxKeys quota key commitID a s'
          end
      end
  end.

Definition reserve_memory (maxKeys quota : Z) (keyFor : string -> string) (commitID : string)
    (a : reservation) (s : memory) : result exn reply * memory :=
  if negb (reservation_ok a) then (Throw StateUnavailable, s)
  else reserve_loop 4 maxKeys quota (keyFor (v_keyId a)) commitID a s.

(** [getAttestedKey], given what [backend.get] resolves to. *)
Definition getAttestedKey (row : result exn (option (string * json))) :
    result exn (option attested_key) :=
  row ← row;
  match row with
  | Some (_, v) => r ← checked v; Ok (Some (AttestedKey (d_publicKeyPem r) (d_signCount r)))
  | None => Ok None
  end.

(** ** The Azure backend *)

(** [read]: what the table client answered, as the row or an error. [TableNotFound]
    is a failure, any other 404 is an absent row. *)
Definition azure_read (answer : result exn (string * json)) : result exn (option (string * json)) :=
  match answer with
  | Ok row => Ok (Some row)
  | Throw (Exn _ code (Some 404)) =>
      if bool_decide (code = Some "TableNotFound") then Throw StateUnavailable else Ok None
  | Throw Diverges => Throw Diverges
  | Throw _ => Throw StateUnavailable
  end.

Definition commitID_of (v : json) : option string := as_string (jget v "commitID").

(** [value.commitID && current?.value.commitID === value.commitID]. *)
Definition same_commit (value : json) (current : option (string * json)) : bool :=
  match commitID_of value, current with
  | Some id, Some (_, cur) => nonempty id && bool_decide (commitID_of cur = Some id)
  | _, _ => false
  end.

(** [current?.value.commitID] of a row whose [state] is [null]: a TypeError, which
    leaves [put]. *)
Definition reads_null (value : json) (current : option (string * json)) : bool :=
  match commitID_of value, current with
  | Some id, Some (_, JNull) => nonempty id
  | _, _ => false
  end.

Definition too_large (value : json) : bool := 2 * slen (stringify value) >? 60000.

(** [put] after its [initialize]: [ack] is the outcome of the write, [readback]
    what [read] gives when the write threw. *)
Definition azure_put (value : json) (ack : result exn unit)
    (readback : result exn (option (string * json))) : result exn bool :=
  throw_when too_large value with StateUnavailable ;;
  match ack with
  | Ok _ => Ok true
  | Throw e =>
      current ← readback;
      throw_when reads_null value current with Err "TypeError" ;;
      if same_commit value current then Ok true
      else match e with
           | Exn _ _ (Some 409) | Exn _ _ (Some 412) => Ok false
           | _ => Throw StateUnavailable
           end
  end.

(** [initialize]: the outcomes of [createTable], of creating the [config] row and
    of reading it back, the last as its [saltFingerprint]. *)
Definition initialize (saltFingerprint : string) (createTable createEntity : result exn unit)
    (config : result exn string) : result exn unit :=
  match createTable with
  | Throw (Exn _ _ (Some 409)) | Ok _ =>
      match createEntity with
      | Ok _ => Ok tt
      | Throw _ =>
          match config with
          | Throw _ => Throw StateUnavailable
          | Ok fp => throw_when negb (String.eqb fp saltFingerprint) with StateUnavailable ;; Ok tt
          end
      end
  | Throw _ => Throw StateUnavailable
  end.
