(* ===== verification/StateFacts.v ===== *)
(** * One reservation: what [attempt] admits and writes

    [admits] is the rule a reservation is held to, without reference to JSON or
    to the loop; [attempt] decides it, and the record it writes passes [checked],
    carries the new charge and keeps the counts of the two current epochs. *)
From S2P Require Import Prelude JsMap JsText JsJson AppAttest StateStore.

(** ** The counts of a record *)
Lemma eqb_string a b : String.eqb a b = true <-> a = b.
Proof. apply String.eqb_eq. Qed.

Lemma used_in_get r e : used_in (Some r) e = default 0 (map_get String.eqb (d_quota r) (js_dec e)).
Proof. done. Qed.

Lemma map_get_set_dec (m : list (string * Z)) a b v :
  map_get String.eqb (map_set String.eqb m (js_dec a) v) (js_dec b)
  = if a =? b then Some v else map_get String.eqb m (js_dec b).
Proof.
  destruct (a =? b) eqn:E; bool_to_prop.
  - subst. apply map_get_set_eq, eqb_string.
  - apply map_get_set_ne; [apply eqb_string|]. by intros ?%js_dec_inj.
Qed.

Lemma carry_get record id counts e :
  default 0 (map_get String.eqb (carry record id counts) (js_dec e))
  = if (id =? e) && negb (used_in record id =? 0) then used_in record id
    else default 0 (map_get String.eqb counts (js_dec e)).
Proof.
  unfold carry. destruct (used_in record id =? 0) eqn:E; simpl negb.
  - by rewrite andb_false_r.
  - rewrite map_get_set_dec, andb_true_r. by destruct (id =? e).
Qed.

Lemma used_in_charged a record L e :
  used_in (Some (charged a record L)) e =
  if e =? v_epoch a then used_in record e + v_count a
  else if (e =? L) || (e =? L - 1) then used_in record e else 0.
Proof.
  rewrite used_in_get. unfold charged. cbn [d_quota]. rewrite map_get_set_dec, Z.eqb_sym.
  destruct (e =? v_epoch a) eqn:E; bool_to_prop; [by subst|].
  rewrite !carry_get. cbn [map_get default].
  rewrite (Z.eqb_sym L e), (Z.eqb_sym (L - 1) e).
  destruct (e =? L) eqn:E1, (e =? L - 1) eqn:E2; bool_to_prop; subst; try lia; simpl;
    repeat case_match; simpl; bool_to_prop; done.
Qed.

(** ** Valid records *)
Record record_ok (r : device_record) : Prop := {
  ok_pem : slen (d_publicKeyPem r) <= 4096;
  ok_sign : 0 <= d_signCount r <= MAX_SAFE_INTEGER;
  ok_latest : 0 <= d_latestEpoch r <= MAX_SAFE_INTEGER;
  ok_size : (length (d_quota r) <= 2)%nat;
  ok_counts : Forall (fun kv : string * Z =>
    (kv.1 = js_dec (d_latestEpoch r) \/ kv.1 = js_dec (d_latestEpoch r - 1))
    /\ 0 <= kv.2 <= MAX_SAFE_INTEGER) (d_quota r);
}.

Lemma isSafe_range z : isSafe z = true <-> - MAX_SAFE_INTEGER <= z <= MAX_SAFE_INTEGER.
Proof. unfold isSafe. rewrite andb_true_iff, !Z.leb_le. done. Qed.

Lemma as_safe_int z : - MAX_SAFE_INTEGER <= z <= MAX_SAFE_INTEGER -> as_safe (Some (JInt z)) = Some z.
Proof. intros H. simpl. by apply isSafe_range in H as ->. Qed.

Lemma as_safe_Some v z : as_safe v = Some z -> v = Some (JInt z) /\ isSafe z = true.
Proof. destruct v as [[]|]; simpl; try done. case_match; naive_solver. Qed.

Lemma checked_counts_Some L o l :
  checked_counts L o = Some l <->
  o = (fun kv => (kv.1, JInt kv.2)) <$> l /\
  Forall (fun kv : string * Z => (kv.1 = js_dec L \/ kv.1 = js_dec (L - 1))
                               /\ 0 <= kv.2 <= MAX_SAFE_INTEGER) l.
Proof.
  revert l. induction o as [|[k c] o IH]; intros l; cbn [checked_counts].
  - split; [by intros [= <-]|]. intros [H _]. symmetry in H. by apply fmap_nil_inv in H as ->.
  - split.
    + case_match eqn:Hk; [|done]. destruct (as_safe (Some c)) as [n|] eqn:Hc; [|done].
      case_match; [done|]. destruct (checked_counts L o) as [l'|]; [|done]. intros [= <-].
      apply as_safe_Some in Hc as [[= ->] Hs]. apply isSafe_range in Hs.
      destruct (proj1 (IH l') eq_refl) as [-> Hl]. bool_to_prop. split; [done|].
      constructor; [|done]. simpl. rewrite orb_true_iff, !eqb_string in Hk. split; [done|lia].
    + destruct l as [|[k' n] l]; intros [H Hl]; [done|]. injection H as -> -> ->.
      apply Forall_cons in Hl as [[Hk Hn] Hl]. simpl in Hk, Hn.
      rewrite as_safe_int by lia. rewrite (proj2 (Z.ltb_ge _ _)) by lia.
      rewrite (proj2 (IH l) (conj eq_refl Hl)).
      case_match eqn:E; [done|]. rewrite orb_false_iff in E. destruct E as [E1 E2].
      destruct Hk as [->| ->]; by rewrite String.eqb_refl in *.
Qed.

Lemma checked_record_json c r : record_ok r -> checked (record_json c r) = Ok r.
Proof.
  intros [Hp Hs Hl Hn Hc]. destruct r as [pem sc L q]. simpl in *.
  unfold checked, record_json, jget, as_string. cbn [map_get String.eqb Ascii.eqb Bool.eqb d_publicKeyPem
    d_signCount d_latestEpoch d_quota]. rewrite !as_safe_int by lia. cbn [json_counts].
  rewrite !throw_if_false; first by rewrite (proj2 (checked_counts_Some L _ q) (conj eq_refl Hc)).
  - rewrite length_fmap, Z.gtb_ltb. apply Z.ltb_ge. lia.
  - apply Z.ltb_ge. lia.
  - apply Z.ltb_ge. lia.
  - rewrite Z.gtb_ltb. apply Z.ltb_ge. lia.
  - done.
Qed.

Lemma checked_Ok v r : checked v = Ok r -> record_ok r.
Proof.
  unfold checked.
  destruct (jget v "version") as [[| |ver| | | |]|]; try done.
  destruct (as_string _) as [pem|]; [|done].
  destruct (as_safe (jget v "signCount")) as [sc|] eqn:Es; [|done].
  destruct (as_safe (jget v "latestEpoch")) as [L|] eqn:El; [|done].
  destruct (jget v "quota") as [[| | | | | |q]|]; try done.
  intros H. apply throw_if_Ok in H as [_ H]. apply throw_if_Ok in H as [Hp H].
  apply throw_if_Ok in H as [Hs H]. apply throw_if_Ok in H as [Hl H].
  apply throw_if_Ok in H as [Hq H].
  destruct (checked_counts L q) as [l|] eqn:Ec; [|done]. injection H as <-.
  apply checked_counts_Some in Ec as [-> Hf].
  apply as_safe_Some in Es as [_ Es%isSafe_range], El as [_ El%isSafe_range].
  bool_to_prop. rewrite length_fmap in Hq. split; simpl; [lia..|done].
Qed.

Lemma used_in_ok r e : record_ok r -> 0 <= used_in (Some r) e <= MAX_SAFE_INTEGER.
Proof.
  intros [_ _ _ _ Hc]. rewrite used_in_get.
  destruct (map_get String.eqb (d_quota r) (js_dec e)) as [n|] eqn:E; simpl; [|unfold MAX_SAFE_INTEGER; lia].
  apply map_get_elem in E; [|apply eqb_string].
  rewrite Forall_forall in Hc. by apply (Hc _ E).
Qed.

(** ** The record written *)

(** What [charged] keeps of its counts: one entry per epoch, for [L] and [L - 1]. *)
Definition counts_ok (L : Z) (l : list (string * Z)) : Prop :=
  NoDup l.*1 /\ Forall (fun kv : string * Z => (kv.1 = js_dec L \/ kv.1 = js_dec (L - 1))
                                             /\ 0 <= kv.2 <= MAX_SAFE_INTEGER) l.

Lemma counts_ok_set L l e n :
  counts_ok L l -> e = L \/ e = L - 1 -> 0 <= n <= MAX_SAFE_INTEGER ->
  counts_ok L (map_set String.eqb l (js_dec e) n).
Proof.
  intros [Hd Hf] He Hn. split; [by apply (map_set_NoDup String.eqb eqb_string)|].
  clear Hd. induction Hf as [|[k m] l Hkm Hf IH]; cbn [map_set].
  - constructor; [|done]. split; [destruct He as [->| ->]; auto|simpl; lia].
  - case_match eqn:E; constructor; try done. simpl in *. split; [apply Hkm|lia].
Qed.

Lemma counts_ok_length L l : counts_ok L l -> (length l <= 2)%nat.
Proof.
  intros [Hd Hf]. rewrite <-(length_fmap fst).
  apply (submseteq_length l.*1 [js_dec L; js_dec (L - 1)]), NoDup_submseteq; [done|].
  intros k (kv & -> & Hin)%list_elem_of_fmap. rewrite Forall_forall in Hf.
  destruct (Hf _ Hin) as [[->| ->] _]; set_solver.
Qed.

Lemma counts_ok_carry L record e l :
  (forall r, record = Some r -> record_ok r) -> e = L \/ e = L - 1 -> counts_ok L l ->
  counts_ok L (carry record e l).
Proof.
  intros Hr He Hl. unfold carry. case_match; [done|]. apply counts_ok_set; [done..|].
  destruct record as [r|]; [by apply used_in_ok, Hr|done].
Qed.

Lemma charged_ok a record L :
  reservation_ok a = true -> (forall r, record = Some r -> record_ok r) ->
  v_epoch a = L \/ v_epoch a = L - 1 -> 0 <= L <= MAX_SAFE_INTEGER ->
  used_in record (v_epoch a) + v_count a <= MAX_SAFE_INTEGER ->
  record_ok (charged a record L).
Proof.
  intros Ha Hr He HL Hn. unfold reservation_ok in Ha. bool_to_prop.
  repeat match goal with H : isSafe _ = true |- _ => apply isSafe_range in H end.
  assert (0 <= used_in record (v_epoch a)) as Hu.
  { destruct record as [r|]; [|done]. apply used_in_ok. by apply Hr. }
  assert (counts_ok L (d_quota (charged a record L))) as Hc.
  { apply counts_ok_set; [|done|lia].
    do 2 (apply counts_ok_carry; [done|lia|]). split; constructor. }
  split; simpl.
  - done.
  - destruct record as [r|]; [pose proof (ok_sign r (Hr r eq_refl))|]; lia.
  - lia.
  - by apply (counts_ok_length L).
  - apply Hc.
Qed.

(** ** The rule *)

(** The newest epoch after a reservation for [epoch]. *)
Definition newest (record : option device_record) (epoch : Z) : Z :=
  match record with Some r => Z.max epoch (d_latestEpoch r) | None => epoch end.

Record admits (quota : Z) (a : reservation) (record : option device_record) : Prop := {
  ad_fresh : v_mode a = "assertion" ->
    exists r, record = Some r /\ d_signCount r < v_signCount a;
  ad_key r : record = Some r -> d_publicKeyPem r = v_publicKeyPem a;
  ad_epoch : newest record (v_epoch a) - 1 <= v_epoch a;
  ad_safe : used_in record (v_epoch a) + v_count a <= MAX_SAFE_INTEGER;
  ad_quota : 0 < quota -> used_in record (v_epoch a) + v_count a <= quota;
}.

(** The record behind a stored value. *)
Definition stored (prior : option json) (record : option device_record) : Prop :=
  match prior with
  | None => record = None
  | Some v => exists r, checked v = Ok r /\ record = Some r
  end.

Lemma stored_ok prior record r : stored prior record -> record = Some r -> record_ok r.
Proof.
  destruct prior; simpl; [|by intros ->]. intros (r' & H & ->) [= <-]. by eapply checked_Ok.
Qed.

Lemma read_prior_Ok prior record : read_prior prior = Ok record <-> stored prior record.
Proof.
  destruct prior as [v|]; simpl; [|naive_solver]. rewrite bind_Ok. naive_solver.
Qed.

Lemma latest_after_newest prior record epoch :
  stored prior record -> 0 <= epoch -> latest_after record epoch = newest record epoch.
Proof.
  intros Hst He. unfold latest_after, newest. destruct record as [r|]; [|lia].
  pose proof (ok_latest r (stored_ok _ _ _ Hst eq_refl)). case_match; bool_to_prop; lia.
Qed.

Lemma reservation_ok_range a :
  reservation_ok a = true ->
  0 <= v_epoch a <= MAX_SAFE_INTEGER /\ 1 <= v_count a /\ 0 <= v_signCount a <= MAX_SAFE_INTEGER.
Proof.
  intros H. unfold reservation_ok in H. bool_to_prop.
  repeat match goal with H : isSafe _ = true |- _ => apply isSafe_range in H end. lia.
Qed.

Lemma mode_guard (mode : string) (b : bool) :
  String.eqb mode "assertion" && b = false <-> (mode = "assertion" -> b = false).
Proof.
  destruct (String.eqb mode "assertion") eqn:E; simpl.
  - apply eqb_string in E. naive_solver.
  - apply String.eqb_neq in E. naive_solver.
Qed.

Lemma quota_guard (quota total : Z) (r : reply) (w v : json) :
  (if (quota >? 0) && (total >? quota) then Ok (inl r) else Ok (inr w)) = Ok (inr v) :> result exn _
  <-> (0 < quota -> total <= quota) /\ w = v.
Proof.
  destruct (quota >? 0) eqn:E1, (total >? quota) eqn:E2; bool_to_prop; simpl;
    split; try naive_solver lia.
Qed.

(** What passes the checks is what the rule admits. *)
Lemma decide_writes quota c a record v :
  let L := latest_after record (v_epoch a) in
  decide_reservation quota c a record = Ok (inr v) <->
  (v_mode a = "assertion" -> exists r, record = Some r /\ d_signCount r < v_signCount a) /\
  (forall r, record = Some r -> d_publicKeyPem r = v_publicKeyPem a) /\
  L - 1 <= v_epoch a /\ isSafe (used_in record (v_epoch a) + v_count a) = true /\
  (0 < quota -> used_in record (v_epoch a) + v_count a <= quota) /\
  v = record_json c (charged a record L).
Proof.
  intros L. unfold decide_reservation. fold L.
  destruct (String.eqb (v_mode a) "assertion" && bool_decide (record = None)) eqn:E1.
  { split; [done|]. intros (H & _). bool_to_prop. apply eqb_string in H0. subst record.
    by destruct (H H0) as (? & ? & _). }
  destruct record as [r|]; cbn [negb].
  - destruct (String.eqb (d_publicKeyPem r) (v_publicKeyPem a)) eqn:E2; simpl negb; cbv iota.
    2:{ split; [done|]. intros (_ & H & _). rewrite (H r eq_refl), String.eqb_refl in E2. done. }
    apply eqb_string in E2.
    destruct (String.eqb (v_mode a) "assertion" && (v_signCount a <=? d_signCount r)) eqn:E3.
    { split; [done|]. intros (H & _). bool_to_prop. apply eqb_string in H0.
      destruct (H H0) as (? & [= <-] & ?). lia. }
    rewrite mode_guard in E3. destruct (v_epoch a <? L - 1) eqn:E4; bool_to_prop.
    { split; [done|]. intros (_ & _ & ? & _). lia. }
    rewrite throw_if_Ok, negb_false_iff. rewrite (quota_guard quota).
    split; [|naive_solver]. intros (Hs & Hq & [= <-]).
    split; [|naive_solver]. intros Hm. exists r. split; [done|]. apply Z.leb_gt. auto.
  - rewrite andb_false_r. cbv iota. rewrite mode_guard in E1.
    destruct (v_epoch a <? L - 1) eqn:E4; bool_to_prop.
    { split; [done|]. intros (_ & _ & ? & _). lia. }
    rewrite throw_if_Ok, negb_false_iff, (quota_guard quota).
    split; [|naive_solver]. intros (Hs & Hq & [= <-]).
    split; [|naive_solver]. intros Hm. by specialize (E1 Hm).
Qed.

Lemma attempt_writes quota c a prior record v :
  reservation_ok a = true -> stored prior record ->
  attempt quota c a prior = Ok (inr v) <->
  admits quota a record /\ v = record_json c (charged a record (newest record (v_epoch a))).
Proof.
  intros Ha Hst. destruct (reservation_ok_range a Ha) as (He & Hc & _).
  assert (0 <= used_in record (v_epoch a)) as Hu.
  { destruct record as [r|]; [|done]. eapply used_in_ok, stored_ok; done. }
  unfold attempt. rewrite bind_Ok. transitivity (decide_reservation quota c a record = Ok (inr v)).
  - split; [|intros H; exists record; split; [by apply read_prior_Ok|done]].
    intros (record' & Hr & H). apply read_prior_Ok in Hst. congruence.
  - rewrite decide_writes. cbv zeta. rewrite (latest_after_newest prior) by (done || lia).
    rewrite isSafe_range. split.
    + intros (H1 & H2 & H3 & H4 & H5 & H6). split; [split; auto; lia|done].
    + intros [[H1 H2 H3 H4 H5] H6]. repeat (split; [done|]).
      unfold MAX_SAFE_INTEGER in *. repeat (split; [first [done|lia]|]). done.
Qed.

Lemma attempt_record_ok quota a prior record :
  reservation_ok a = true -> stored prior record -> admits quota a record ->
  record_ok (charged a record (newest record (v_epoch a))).
Proof.
  intros Ha Hst Had. apply charged_ok; [done|intros r; by eapply stored_ok| | |].
  - destruct Had. unfold newest in *. destruct record; lia.
  - pose proof (reservation_ok_range a Ha).
    unfold newest. destruct record as [r|]; [|lia].
    pose proof (ok_latest r (stored_ok _ _ _ Hst eq_refl)). lia.
  - apply Had.
Qed.
