(* ===== verification/StateSystem.v ===== *)
(** * Reservations by any number of replicas over one table

    [step] interleaves the calls of [reserve] in [StateStore]: each call reads the
    row of its device, decides, and writes with the entity tag it read, up to four
    times. The table carries out a write at most once and only while the tag still
    matches; the acknowledgment may be lost, and a write may be carried out after
    the call stopped waiting. What the code does with the outcomes is
    [StateStore.attempt] and [StateStore.azure_put]. *)
From S2P Require Import Prelude JsMap JsText JsJson AppAttest StateStore StateFacts.

(** ** The system *)
Inductive stage : Type :=
| Reading (left : nat)
| Writing (left : nat) (value : json)
| ReadingBack (left : nat) (value : json) (err : exn)
| Finished (out : result exn reply).

(** What has become of the last write of a call. *)
Inductive fate : Type := InFlight | Committed | Rejected | Lost.
Record write := Write { w_etag : option string; w_value : json; w_fate : fate }.

Record sys := Sys {
  s_rows : gmap string (string * json);
  s_revision : Z;
  s_calls : gmap nat (reservation * stage);
  s_writes : gmap nat write;
  (** The committed reservations, in the order of their commits. *)
  s_log : list (nat * reservation);
}.

Definition no_calls : sys := Sys ∅ 0 ∅ ∅ [].

(** The status codes that tell a rejected write. *)
Definition conflict (e : exn) : bool :=
  match e with Exn _ _ (Some 409) | Exn _ _ (Some 412) => true | _ => false end.

Section system.
Context (quota : Z) (keyFor : string -> string).
(** [crypto.randomUUID()] of the n-th call, and the tag of the n-th commit. *)
Context (uuid : nat -> string) (etag : Z -> string).

Definition key_of (a : reservation) : string := keyFor (v_keyId a).

(** After the guard on the arguments: four attempts, or an error. *)
Definition after_guard (a : reservation) : stage :=
  if reservation_ok a then Reading 4 else Finished (Throw StateUnavailable).

(** After the [get]: the call ends, or it starts to write. *)
Definition after_read (left : nat) (i : nat) (a : reservation) (prior : option (string * json)) :
    stage :=
  match attempt quota (uuid i) a (snd <$> prior) with
  | Throw e => Finished (Throw e)
  | Ok (inl r) => Finished (Ok r)
  | Ok (inr v) => if too_large v then Finished (Throw StateUnavailable) else Writing left v
  end.

Definition after_put (left : nat) (r : result exn bool) : stage :=
  match r with
  | Ok true => Finished (Ok Granted)
  | Ok false => Reading left
  | Throw e => Finished (Throw e)
  end.

Definition issue (i : nat) (st : stage) (prior : option (string * json)) (ws : gmap nat write) :
    gmap nat write :=
  match st with
  | Writing _ v => <[i := Write (fst <$> prior) v InFlight]> ws
  | _ => ws
  end.

Inductive step : sys -> sys -> Prop :=
| step_begin rows rev calls ws log i a :
    calls !! i = None ->
    step (Sys rows rev calls ws log)
      (Sys rows rev (<[i := (a, after_guard a)]> calls) ws log)
| step_read rows rev calls ws log i a left :
    calls !! i = Some (a, Reading (S left)) ->
    let prior := rows !! key_of a in
    let st := after_read left i a prior in
    step (Sys rows rev calls ws log)
      (Sys rows rev (<[i := (a, st)]> calls) (issue i st prior ws) log)
| step_read_fails rows rev calls ws log i a left :
    calls !! i = Some (a, Reading left) ->
    step (Sys rows rev calls ws log)
      (Sys rows rev (<[i := (a, Finished (Throw StateUnavailable))]> calls) ws log)
| step_commit rows rev calls ws log i a st e v :
    calls !! i = Some (a, st) -> ws !! i = Some (Write e v InFlight) ->
    (fst <$> rows !! key_of a) = e ->
    step (Sys rows rev calls ws log)
      (Sys (<[key_of a := (etag (rev + 1), v)]> rows) (rev + 1) calls
         (<[i := Write e v Committed]> ws) (log ++ [(i, a)]))
| step_reject rows rev calls ws log i a st e v :
    calls !! i = Some (a, st) -> ws !! i = Some (Write e v InFlight) ->
    (fst <$> rows !! key_of a) <> e ->
    step (Sys rows rev calls ws log) (Sys rows rev calls (<[i := Write e v Rejected]> ws) log)
| step_lose rows rev calls ws log i e v :
    ws !! i = Some (Write e v InFlight) ->
    step (Sys rows rev calls ws log) (Sys rows rev calls (<[i := Write e v Lost]> ws) log)
| step_ack rows rev calls ws log i a left v e v' :
    calls !! i = Some (a, Writing left v) -> ws !! i = Some (Write e v' Committed) ->
    step (Sys rows rev calls ws log)
      (Sys rows rev (<[i := (a, after_put left (azure_put v (Ok tt) (Ok None)))]> calls) ws log)
| step_error rows rev calls ws log i a left v err e v' f :
    calls !! i = Some (a, Writing left v) -> ws !! i = Some (Write e v' f) ->
    err <> Diverges -> (conflict err = true -> f = Rejected) ->
    step (Sys rows rev calls ws log)
      (Sys rows rev (<[i := (a, ReadingBack left v err)]> calls) ws log)
| step_readback rows rev calls ws log i a left v err back :
    calls !! i = Some (a, ReadingBack left v err) ->
    back = Ok (rows !! key_of a) \/ back = Throw StateUnavailable ->
    step (Sys rows rev calls ws log)
      (Sys rows rev (<[i := (a, after_put left (azure_put v (Throw err) back))]> calls) ws log).

Inductive reachable : sys -> Prop :=
| reach_start : reachable no_calls
| reach_step s s' : reachable s -> step s s' -> reachable s'.

(** ** What the log says *)
Definition charges (log : list (nat * reservation)) (k : string) (e : Z) : Z :=
  foldr (fun x acc => (if decide (key_of x.2 = k /\ v_epoch x.2 = e) then v_count x.2 else 0) + acc)
    0 log.

Definition granted (s : sys) (i : nat) (a : reservation) : Prop :=
  s_calls s !! i = Some (a, Finished (Ok Granted)).

(** The row of a device is the sum of the commits for it. *)
Record row_matches (log : list (nat * reservation)) (k : string) (r : device_record) : Prop := {
  rm_counts e : d_latestEpoch r - 1 <= e -> used_in (Some r) e = charges log k e;
  rm_entries i a : (i, a) ∈ log -> key_of a = k ->
    v_epoch a <= d_latestEpoch r /\ v_publicKeyPem a = d_publicKeyPem r
    /\ v_signCount a <= d_signCount r;
}.

(** A write that may still be carried out was decided on the row it will replace. *)
Definition decided (s : sys) (i : nat) (a : reservation) (w : write) : Prop :=
  reservation_ok a = true /\
  exists prior, w_etag w = fst <$> prior /\
    attempt quota (uuid i) a (snd <$> prior) = Ok (inr (w_value w)) /\
    (forall t v, prior = Some (t, v) -> exists n, t = etag n /\ n <= s_revision s) /\
    ((fst <$> s_rows s !! key_of a) = w_etag w -> s_rows s !! key_of a = prior).

Definition write_ok (s : sys) (i : nat) (a : reservation) (w : write) : Prop :=
  (w_fate w = Committed <-> i ∈ (s_log s).*1) /\
  (w_fate w = InFlight -> decided s i a w).

Definition call_ok (s : sys) (i : nat) (st : stage) : Prop :=
  match st with
  | Reading _ => i ∉ (s_log s).*1 /\ (forall w, s_writes s !! i = Some w -> w_fate w = Rejected)
  | Writing _ v => exists w, s_writes s !! i = Some w /\ commitID_of v = Some (uuid i)
  | ReadingBack _ v err => err <> Diverges /\ commitID_of v = Some (uuid i) /\
      exists w, s_writes s !! i = Some w /\ (conflict err = true -> w_fate w = Rejected)
  | Finished (Ok Granted) => i ∈ (s_log s).*1
  | Finished _ => True
  end.

Definition pending (st : stage) : bool := match st with Finished _ => false | _ => true end.

Record Inv (s : sys) : Prop := {
  I_row k t v : s_rows s !! k = Some (t, v) ->
    (exists n, t = etag n /\ n <= s_revision s) /\
    (exists j, commitID_of v = Some (uuid j) /\ j ∈ (s_log s).*1) /\
    exists r, checked v = Ok r /\ row_matches (s_log s) k r;
  I_no_row k : s_rows s !! k = None -> forall i a, (i, a) ∈ s_log s -> key_of a <> k;
  I_quota : 0 < quota -> forall k e, charges (s_log s) k e <= quota;
  I_replay l1 i a l2 : s_log s = l1 ++ (i, a) :: l2 -> v_mode a = "assertion" ->
    forall j b, (j, b) ∈ l1 -> key_of b = key_of a -> v_signCount b < v_signCount a;
  I_log i a : (i, a) ∈ s_log s -> exists st, s_calls s !! i = Some (a, st);
  I_nodup : NoDup (s_log s).*1;
  I_positive i a : (i, a) ∈ s_log s -> 1 <= v_count a;
  I_writes i w : s_writes s !! i = Some w ->
    exists a st, s_calls s !! i = Some (a, st) /\ write_ok s i a w;
  I_fresh i : s_calls s !! i = None -> i ∉ (s_log s).*1 /\ s_writes s !! i = None;
  I_calls i a st : s_calls s !! i = Some (a, st) ->
    call_ok s i st /\ (pending st = true -> reservation_ok a = true);
}.
End system.
