(* ===== verification/StateInv.v ===== *)
(** * The invariant of the issuer state

    Every step of [StateSystem.step] preserves [StateSystem.Inv]. The commit is the
    step that matters: the write it carries out was decided on the row it replaces,
    so the row stays the sum of the commits. *)
From S2P Require Import Prelude JsMap JsText JsJson AppAttest StateStore StateFacts StateSystem.

Section log.
Context (keyFor : string -> string).
Notation key_of := (key_of keyFor).
Notation charges := (charges keyFor).

(** ** The log *)
Lemma charges_app l1 l2 k e : charges (l1 ++ l2) k e = charges l1 k e + charges l2 k e.
Proof. unfold charges. induction l1 as [|x l1 IH]; simpl; [lia|]. rewrite IH. lia. Qed.

Lemma charges_one i a k e :
  charges [(i, a)] k e = if decide (key_of a = k /\ v_epoch a = e) then v_count a else 0.
Proof. unfold charges. simpl. lia. Qed.

Lemma charges_perm l l' k e : l ≡ₚ l' -> charges l k e = charges l' k e.
Proof. unfold charges. induction 1; simpl; lia. Qed.

Lemma charges_absent log k e :
  (forall i a, (i, a) ∈ log -> key_of a = k -> v_epoch a <> e) -> charges log k e = 0.
Proof.
  unfold charges. induction log as [|[i a] log IH]; intros H; [done|]. simpl.
  rewrite IH by (intros j b Hj; apply (H j b); set_solver). rewrite decide_False; [done|].
  intros [Hk He]. by apply (H i a); [set_solver| |].
Qed.

Lemma charges_nonneg log k e : (forall i a, (i, a) ∈ log -> 1 <= v_count a) -> 0 <= charges log k e.
Proof.
  unfold charges. induction log as [|[i a] log IH]; intros H; [done|]. simpl.
  assert (1 <= v_count a) by (apply (H i a); set_solver).
  specialize (IH ltac:(intros j b ?; apply (H j b); set_solver)). case_decide; lia.
Qed.

End log.

Section inv.
Context (quota : Z) (keyFor : string -> string) (uuid : nat -> string) (etag : Z -> string).
Context `{uuid_inj : !Inj (=) (=) uuid} `{etag_inj : !Inj (=) (=) etag}.

Notation Inv := (Inv quota keyFor uuid etag).
Notation step := (step quota keyFor uuid etag).
Notation key_of := (key_of keyFor).
Notation charges := (charges keyFor).

(** ** The written record *)
Lemma commitID_record_json c r : commitID_of (record_json c r) = Some c.
Proof. reflexivity. Qed.

Lemma writes_record i a prior v :
  attempt quota (uuid i) a prior = Ok (inr v) -> reservation_ok a = true ->
  exists record, stored prior record /\ admits quota a record /\
    v = record_json (uuid i) (charged a record (newest record (v_epoch a))).
Proof.
  intros H Ha. unfold attempt in H. pose proof H as H'.
  apply bind_Ok in H' as (record & Hr%read_prior_Ok & _).
  exists record. split; [done|]. by apply (attempt_writes quota (uuid i) a prior).
Qed.

(** [attempt] answers only to refuse. *)
Lemma attempt_denied i a prior r : attempt quota (uuid i) a prior = Ok (inl r) -> r <> Granted.
Proof.
  unfold attempt, decide_reservation. intros H. apply bind_Ok in H as (record & _ & H).
  cbv zeta in H. repeat (case_match; [by injection H as <-|]).
  apply throw_if_Ok in H as [_ H]. by case_match; simplify_eq.
Qed.

(** ** Steps of one call and its write *)
Lemma inv_update rows rev calls ws ws' log i a st st' :
  Inv (Sys rows rev calls ws log) -> calls !! i = Some (a, st) ->
  (forall j, j <> i -> ws' !! j = ws !! j) ->
  (forall w, ws' !! i = Some w -> write_ok quota keyFor uuid etag (Sys rows rev calls ws' log) i a w) ->
  call_ok uuid (Sys rows rev calls ws' log) i st' ->
  (pending st' = true -> reservation_ok a = true) ->
  Inv (Sys rows rev (<[i := (a, st')]> calls) ws' log).
Proof.
  intros [I1 I2 I3 I4 I5 I6 I7 I8 I9 I10] Hi Hws Hw Hst Hr. split; simpl in *; try done.
  - intros j b Hj. destruct (I5 j b Hj) as [st0 Hs]. destruct (decide (j = i)) as [->|].
    + rewrite Hi in Hs. injection Hs as -> ->. exists st'. apply lookup_insert_eq.
    + exists st0. by rewrite lookup_insert_ne.
  - intros j w Hj. destruct (decide (j = i)) as [->|].
    + exists a, st'. rewrite lookup_insert_eq. split; [done|]. by apply Hw.
    + rewrite Hws in Hj by done. destruct (I8 j w Hj) as (b & st0 & Hs & ?).
      exists b, st0. by rewrite lookup_insert_ne.
  - intros j Hj. apply lookup_insert_None in Hj as [Hj Hne]. rewrite Hws by done. by apply I9.
  - intros j b st0 Hj. destruct (decide (j = i)) as [->|].
    + rewrite lookup_insert_eq in Hj. by injection Hj as <- <-.
    + rewrite lookup_insert_ne in Hj by done. destruct (I10 j b st0 Hj) as [Hc ?]. split; [|done].
      unfold call_ok in *. simpl in *. destruct st0; rewrite ?Hws by done; done.
Qed.

Lemma inv_call rows rev calls ws log i a st st' :
  Inv (Sys rows rev calls ws log) -> calls !! i = Some (a, st) ->
  call_ok uuid (Sys rows rev calls ws log) i st' ->
  (pending st' = true -> reservation_ok a = true) ->
  Inv (Sys rows rev (<[i := (a, st')]> calls) ws log).
Proof.
  intros HI Hi Hst Hr. apply (inv_update _ _ _ ws _ _ _ _ st); try done.
  intros w Hw. destruct (I_writes _ _ _ _ _ HI i w Hw) as (a' & st0 & Hi' & ?).
  simpl in *. rewrite Hi in Hi'. by injection Hi' as <- <-.
Qed.

(** A write that is not carried out keeps its call in order. *)
Lemma inv_drop rows rev calls ws log i a st e v f :
  Inv (Sys rows rev calls ws log) -> calls !! i = Some (a, st) ->
  ws !! i = Some (Write e v InFlight) -> f = Rejected \/ f = Lost ->
  Inv (Sys rows rev calls (<[i := Write e v f]> ws) log).
Proof.
  intros HI Hi Hw Hf. pose proof HI as [_ _ _ _ _ _ _ I8 _ I10]. simpl in *.
  destruct (I8 i _ Hw) as (a' & st' & Hi' & [Hc _]). rewrite Hi in Hi'. injection Hi' as <- <-.
  destruct (I10 i a st Hi) as [Hst Hr]. rewrite <-(insert_id calls i (a, st) Hi).
  apply (inv_update _ _ _ ws _ _ _ _ st); [done|done| | | |done].
  - intros j Hj. by rewrite lookup_insert_ne.
  - rewrite lookup_insert_eq. intros w [= <-]. split; simpl in *; destruct Hf as [->| ->]; try done; split; try done; intros Hin;
      by apply Hc in Hin.
  - unfold call_ok in *. simpl in *. rewrite lookup_insert_eq. destruct st as [n|n v'|n v' err|out].
    + destruct Hst as [_ Hst]. by apply Hst in Hw.
    + destruct Hst as (w & Hw' & Hid). eauto.
    + destruct Hst as (He & Hid & w & Hw' & Hcf). rewrite Hw in Hw'. injection Hw' as <-.
      split; [done|]. split; [done|]. eexists. split; [done|]. intros C. by apply Hcf in C.
    + done.
Qed.

(** ** The commit *)

(** What the log says of a device before the commit. *)
Definition tracked (log : list (nat * reservation)) (k : string) (record : option device_record) :
    Prop :=
  match record with
  | Some r => row_matches keyFor log k r
  | None => forall i a, (i, a) ∈ log -> key_of a <> k
  end.

Lemma tracked_used log k record e :
  tracked log k record -> newest record e - 1 <= e -> used_in record e = charges log k e.
Proof.
  destruct record as [r|]; simpl; intros H He; [apply H; lia|].
  symmetry. apply charges_absent. intros j b Hj Hk. by destruct (H j b Hj).
Qed.

Lemma tracked_later log k r e :
  row_matches keyFor log k r -> d_latestEpoch r < e -> charges log k e = 0.
Proof.
  intros H He. apply charges_absent. intros j b Hj Hk. pose proof (rm_entries _ _ _ _ H j b Hj Hk). lia.
Qed.

Lemma row_matches_charged log i a k record :
  key_of a = k -> tracked log k record -> admits quota a record ->
  row_matches keyFor (log ++ [(i, a)]) k (charged a record (newest record (v_epoch a))).
Proof.
  intros Hk Ht Had. pose proof (ad_epoch _ _ _ Had) as He. split.
  - intros e Hle. rewrite used_in_charged, charges_app, charges_one.
    cbn [charged d_latestEpoch] in Hle. destruct (e =? v_epoch a) eqn:E; bool_to_prop.
    { subst e. rewrite decide_True by done. by rewrite (tracked_used log k record). }
    rewrite decide_False by naive_solver. rewrite Z.add_0_r.
    destruct ((e =? newest record (v_epoch a)) || _) eqn:E1.
    + apply tracked_used; [done|]. rewrite orb_true_iff, !Z.eqb_eq in E1.
      unfold newest in *. destruct record; lia.
    + bool_to_prop. destruct record as [r|]; simpl in *.
      * symmetry. apply (tracked_later _ _ r); [done|lia].
      * symmetry. apply charges_absent. intros j b Hj Hkb. by destruct (Ht j b Hj).
  - intros j b [Hj|Hj]%elem_of_app Hkb; cbn [charged d_latestEpoch d_publicKeyPem d_signCount].
    + destruct record as [r|]; [|by destruct (Ht j b Hj)].
      destruct (rm_entries _ _ _ _ Ht j b Hj Hkb) as (H1 & H2 & H3).
      pose proof (ad_key _ _ _ Had r eq_refl). simpl. split; [lia|]. split; [congruence|lia].
    + apply list_elem_of_singleton in Hj as [= -> ->]. unfold newest.
      destruct record; (split; [lia|split; [done|lia]]).
Qed.

Lemma row_matches_other log i a k r :
  key_of a <> k -> row_matches keyFor log k r -> row_matches keyFor (log ++ [(i, a)]) k r.
Proof.
  intros Hk [H1 H2]. split.
  - intros e He. rewrite charges_app, charges_one, decide_False, H1 by naive_solver. lia.
  - intros j b [Hj|[= -> ->]%list_elem_of_singleton]%elem_of_app Hkb; [by apply (H2 j)|done].
Qed.

Lemma snoc_split {A} (l l1 l2 : list A) (x y : A) :
  l ++ [x] = l1 ++ y :: l2 -> (l1 = l /\ y = x) \/ exists l3, l = l1 ++ y :: l3.
Proof.
  destruct l2 as [|z l2 _] using rev_ind; intros H.
  - apply app_inj_tail in H as [-> ->]. by left.
  - rewrite app_comm_cons, app_assoc in H. apply app_inj_tail in H as [-> _]. right. eauto.
Qed.

(** The row a write in flight will replace, when its tag still matches. *)
Lemma commit_decided s i a st e v :
  Inv s -> s_calls s !! i = Some (a, st) -> s_writes s !! i = Some (Write e v InFlight) ->
  (fst <$> s_rows s !! key_of a) = e ->
  i ∉ (s_log s).*1 /\ reservation_ok a = true /\ exists record,
    stored (snd <$> s_rows s !! key_of a) record /\ tracked (s_log s) (key_of a) record /\ admits quota a record /\
    v = record_json (uuid i) (charged a record (newest record (v_epoch a))) /\
    checked v = Ok (charged a record (newest record (v_epoch a))).
Proof.
  intros HI Hi Hw He. destruct (I_writes _ _ _ _ _ HI i _ Hw) as (a' & st' & Hi' & [Hc Hd]).
  rewrite Hi in Hi'. injection Hi' as <- <-.
  destruct (Hd eq_refl) as (Ha & prior & Ht & Hat & _ & Hrow). simpl in *. specialize (Hrow He).
  split; [by intros ?%Hc|]. split; [done|].
  destruct (writes_record _ _ _ _ Hat Ha) as (record & Hst & Had & ->).
  exists record. rewrite Hrow. split; [done|]. split; [|split; [done|split; [done|]]].
  2:{ apply checked_record_json. by apply (attempt_record_ok quota a (snd <$> prior)). }
  destruct prior as [[t w]|]; simpl in Hst.
  - destruct Hst as (r & Hr & ->). destruct (I_row _ _ _ _ _ HI _ _ _ Hrow) as (_ & _ & r' & Hr' & Hm).
    rewrite Hr in Hr'. by injection Hr' as <-.
  - subst record. simpl. by apply (I_no_row _ _ _ _ _ HI).
Qed.

Section commit.
Context (rows : gmap string (string * json)) (rev : Z) (calls : gmap nat (reservation * stage)).
Context (ws : gmap nat write) (log : list (nat * reservation)).
Context (i : nat) (a : reservation) (st : stage) (e : option string) (v : json).
Context (HI : Inv (Sys rows rev calls ws log)) (Hi : calls !! i = Some (a, st)).
Context (Hw : ws !! i = Some (Write e v InFlight)) (He : (fst <$> rows !! key_of a) = e).

Notation rows' := (<[key_of a := (etag (rev + 1), v)]> rows).
Notation log' := (log ++ [(i, a)]).
Notation s' := (Sys rows' (rev + 1) calls (<[i := Write e v Committed]> ws) log').

Lemma commit_ids j : j ∈ log'.*1 <-> j ∈ log.*1 \/ j = i.
Proof. rewrite fmap_app, elem_of_app. simpl. by rewrite list_elem_of_singleton. Qed.

Lemma commit_rows k t w : rows' !! k = Some (t, w) ->
  (exists n, t = etag n /\ n <= rev + 1) /\
  (exists j, commitID_of w = Some (uuid j) /\ j ∈ log'.*1) /\
  exists r, checked w = Ok r /\ row_matches keyFor log' k r.
Proof.
  destruct (commit_decided _ _ _ _ _ _ HI Hi Hw He) as (Hnin & Ha & record & _ & Ht & Had & Hv & Hck).
  simpl in *. intros Hk. destruct (decide (k = key_of a)) as [->|Hne].
  - rewrite lookup_insert_eq in Hk. injection Hk as <- <-. split; [eauto with lia|].
    split; [exists i; rewrite commit_ids, Hv; auto|]. eexists. split; [done|].
    by apply row_matches_charged.
  - rewrite lookup_insert_ne in Hk by done.
    destruct (I_row _ _ _ _ _ HI k t w Hk) as ((n & Hn & ?) & (j & Hj & ?) & r & Hr & Hm).
    simpl in *. split; [exists n; split; [done|lia]|].
    split; [exists j; rewrite commit_ids; auto|].
    exists r. split; [done|]. by apply row_matches_other.
Qed.

Lemma commit_quota k ep : 0 < quota -> charges log' k ep <= quota.
Proof.
  destruct (commit_decided _ _ _ _ _ _ HI Hi Hw He) as (Hnin & Ha & record & _ & Ht & Had & Hv & Hck).
  simpl in *. intros Hq. rewrite charges_app, charges_one. case_decide as Hd.
  - destruct Hd as [<- <-]. rewrite <-(tracked_used log _ record) by (done || apply Had).
    by apply Had.
  - rewrite Z.add_0_r. by apply (I_quota _ _ _ _ _ HI).
Qed.

Lemma commit_replay l1 j b l2 : log' = l1 ++ (j, b) :: l2 -> v_mode b = "assertion" ->
  forall j' b', (j', b') ∈ l1 -> key_of b' = key_of b -> v_signCount b' < v_signCount b.
Proof.
  destruct (commit_decided _ _ _ _ _ _ HI Hi Hw He) as (Hnin & Ha & record & _ & Ht & Had & Hv & Hck).
  simpl in *. intros Hl Hm j' b' Hj' Hk. apply snoc_split in Hl as [[-> [= -> ->]]|[l3 ->]].
  - destruct (ad_fresh _ _ _ Had Hm) as (r & -> & ?). simpl in Ht.
    pose proof (rm_entries _ _ _ _ Ht j' b' Hj' Hk). lia.
  - by apply (I_replay _ _ _ _ _ HI l1 j b l3 eq_refl Hm j' b').
Qed.

Lemma commit_writes j w : <[i := Write e v Committed]> ws !! j = Some w ->
  exists b st, calls !! j = Some (b, st) /\ write_ok quota keyFor uuid etag s' j b w.
Proof.
  destruct (commit_decided _ _ _ _ _ _ HI Hi Hw He) as (Hnin & _). simpl in *.
  intros Hj. destruct (decide (j = i)) as [->|Hne].
  { rewrite lookup_insert_eq in Hj. injection Hj as <-. exists a, st. split; [done|].
    split; simpl; [rewrite commit_ids; naive_solver|done]. }
  rewrite lookup_insert_ne in Hj by done.
  destruct (I_writes _ _ _ _ _ HI j w Hj) as (b & st' & Hb & [Hc Hd]).
  exists b, st'. split; [done|]. split; simpl in *; [rewrite commit_ids, Hc; naive_solver|].
  intros Hf. destruct (Hd Hf) as (Hok & prior & Hp & Hat & Hle & Hrow). simpl in *.
  split; [done|]. exists prior. split; [done|]. split; [done|]. split.
  - intros t x Hx. destruct (Hle t x Hx) as (n & ? & ?). exists n. split; [done|simpl; lia].
  - simpl. destruct (decide (key_of b = key_of a)) as [Hk|Hk];
      [|by rewrite lookup_insert_ne by done].
    rewrite Hk, lookup_insert_eq, Hp. simpl. intros Hq. destruct prior as [[t x]|]; [|done].
    injection Hq as <-. destruct (Hle _ x eq_refl) as (n & Hn & ?). apply (inj etag) in Hn. lia.
Qed.

Lemma commit_calls j b st' : calls !! j = Some (b, st') -> call_ok uuid s' j st'.
Proof.
  intros Hj. destruct (I_calls _ _ _ _ _ HI j b st' Hj) as [Hc _].
  unfold call_ok in *. simpl in *. destruct (decide (j = i)) as [->|Hne].
  - rewrite lookup_insert_eq.
    destruct st' as [n|n v'|n v' err|[[|]|]]; rewrite ?commit_ids; try done; [..|by right].
    + destruct Hc as [_ Hc]. by apply Hc in Hw.
    + destruct Hc as (w & Hw' & Hid). eauto.
    + destruct Hc as (Her & Hid & w & Hw' & Hf). rewrite Hw in Hw'. injection Hw' as <-.
      split; [done|]. split; [done|]. eexists. split; [done|]. intros C. by apply Hf in C.
  - rewrite lookup_insert_ne by done.
    destruct st' as [n|n v'|n v' err|[[|]|]]; rewrite ?commit_ids; try done; [|by left].
    destruct Hc as [Hc ?]. split; [|done]. by intros [?| ?].
Qed.

Lemma inv_commit : Inv s'.
Proof.
  destruct (commit_decided _ _ _ _ _ _ HI Hi Hw He) as (Hnin & Ha & _).
  pose proof HI as [I1 I2 I3 I4 I5 I6 I7 I8 I9 I10]. simpl in *. split; simpl.
  - apply commit_rows.
  - intros k Hk j b [Hj|[= -> ->]%list_elem_of_singleton]%elem_of_app;
      apply lookup_insert_None in Hk as [Hk Hne]; [by apply (I2 k Hk j)|done].
  - intros. by apply commit_quota.
  - apply commit_replay.
  - intros j b [Hj|[= -> ->]%list_elem_of_singleton]%elem_of_app; [by apply I5|eauto].
  - rewrite fmap_app. apply NoDup_app. split; [done|]. split; [|apply NoDup_singleton].
    intros j Hj ->%list_elem_of_singleton. done.
  - intros j b [Hj|[= -> ->]%list_elem_of_singleton]%elem_of_app; [by apply (I7 j)|].
    by apply reservation_ok_range.
  - apply commit_writes.
  - intros j Hj. destruct (I9 j Hj) as [Hn ?]. rewrite commit_ids.
    assert (j <> i) by congruence. rewrite lookup_insert_ne by done. naive_solver.
  - intros j b st' Hj. split; [by apply (commit_calls j b)|by apply (I10 j b st' Hj)].
Qed.
End commit.

(** ** Every step *)
Lemma inv_start : Inv no_calls.
Proof.
  assert (forall x : nat * reservation, x ∉ []) as Hnil by (intros; apply not_elem_of_nil).
  split; simpl.
  - intros k t v. by rewrite lookup_empty.
  - intros k _ i a H. by apply Hnil in H.
  - intros. unfold StateSystem.charges. simpl. lia.
  - intros l1 i a l2 H. by destruct l1.
  - intros i a H. by apply Hnil in H.
  - constructor.
  - intros i a H. by apply Hnil in H.
  - intros i w. by rewrite lookup_empty.
  - intros i _. rewrite lookup_empty. split; [apply not_elem_of_nil|done].
  - intros i a st. by rewrite lookup_empty.
Qed.

Lemma inv_begin rows rev calls ws log i a :
  Inv (Sys rows rev calls ws log) -> calls !! i = None ->
  Inv (Sys rows rev (<[i := (a, after_guard a)]> calls) ws log).
Proof.
  intros [I1 I2 I3 I4 I5 I6 I7 I8 I9 I10] Hi. simpl in *.
  destruct (I9 i Hi) as [Hn Hw]. split; simpl; try done.
  - intros j b Hj. destruct (I5 j b Hj) as [st0 Hs].
    exists st0. rewrite lookup_insert_ne; [done|congruence].
  - intros j w Hj. destruct (I8 j w Hj) as (b & st0 & Hs & ?).
    exists b, st0. rewrite lookup_insert_ne; [done|congruence].
  - intros j Hj. apply lookup_insert_None in Hj as [Hj _]. by apply I9.
  - intros j b st0 Hj. destruct (decide (j = i)) as [->|].
    + rewrite lookup_insert_eq in Hj. injection Hj as <- <-. unfold after_guard.
      destruct (reservation_ok a) eqn:E; [|done]. split; [|done]. split; [done|].
      intros w Hw'. simpl in Hw'. congruence.
    + rewrite lookup_insert_ne in Hj by done. by apply (I10 j b).
Qed.

Lemma inv_read rows rev calls ws log i a left :
  Inv (Sys rows rev calls ws log) -> calls !! i = Some (a, Reading (S left)) ->
  let prior := rows !! key_of a in
  let st := after_read quota uuid left i a prior in
  Inv (Sys rows rev (<[i := (a, st)]> calls) (issue i st prior ws) log).
Proof.
  intros HI Hi prior st.
  destruct (I_calls _ _ _ _ _ HI i a _ Hi) as [[Hnin _] Hr]. specialize (Hr eq_refl).
  simpl in Hnin. unfold after_read in st.
  destruct (attempt quota (uuid i) a (snd <$> prior)) as [[r|v]|err] eqn:Hat.
  - apply inv_call with (st := Reading (S left)); [done..| |done].
    destruct r; [by apply attempt_denied in Hat|done].
  - unfold st. destruct (too_large v); [by apply inv_call with (st := Reading (S left))|].
    assert (Hid : commitID_of v = Some (uuid i)).
    { destruct (writes_record _ _ _ _ Hat Hr) as (record & _ & _ & ->). reflexivity. }
    apply (inv_update _ _ _ ws _ _ _ _ (Reading (S left))); [done|done| | | |done].
    + intros j Hj. simpl. by rewrite lookup_insert_ne.
    + simpl. rewrite lookup_insert_eq. intros w [= <-]. split; simpl; [naive_solver|]. intros _.
      split; [done|]. exists prior. split; [done|]. split; [done|]. split; [|done].
      intros t w Hp. by destruct (I_row _ _ _ _ _ HI _ _ _ Hp) as [? _].
    + simpl. rewrite lookup_insert_eq. eauto.
  - by apply inv_call with (st := Reading (S left)).
Qed.

Lemma azure_put_thrown v e cur :
  azure_put v (Throw e) (Ok cur) =
  if too_large v then Throw StateUnavailable
  else if reads_null v cur then Throw (Err "TypeError")
  else if same_commit v cur then Ok true
  else if conflict e then Ok false else Throw StateUnavailable.
Proof.
  unfold azure_put, conflict. destruct (too_large v); [done|]. simpl.
  destruct (reads_null v cur); [done|]. simpl.
  destruct (same_commit v cur); [done|]. repeat (case_match; try done).
Qed.

Lemma inv_readback rows rev calls ws log i a left v err back :
  Inv (Sys rows rev calls ws log) -> calls !! i = Some (a, ReadingBack left v err) ->
  back = Ok (rows !! key_of a) \/ back = Throw StateUnavailable ->
  Inv (Sys rows rev (<[i := (a, after_put left (azure_put v (Throw err) back))]> calls) ws log).
Proof.
  intros HI Hi Hb. destruct (I_calls _ _ _ _ _ HI i a _ Hi) as [(He & Hid & w & Hw & Hc) Hr].
  destruct (I_writes _ _ _ _ _ HI i w Hw) as (a' & st0 & Hi' & [Hlog Hdec]).
  simpl in *. rewrite Hi in Hi'. injection Hi' as <- <-.
  apply inv_call with (st := ReadingBack left v err); [done..| |].
  - destruct Hb as [-> | ->]; [|by unfold azure_put; destruct (too_large v)].
    rewrite azure_put_thrown. destruct (too_large v); [done|]. destruct (reads_null _ _); [done|].
    destruct (same_commit v (rows !! key_of a)) eqn:Hs; simpl.
    + unfold same_commit in Hs. rewrite Hid in Hs.
      destruct (rows !! key_of a) as [[t x]|] eqn:Hrow; [|done]. bool_to_prop.
      destruct (I_row _ _ _ _ _ HI _ _ _ Hrow) as (_ & (j & Hj & Hin) & _).
      rewrite Hj in H0. by injection H0 as ->%(inj uuid).
    + destruct (conflict err); [|done]. simpl. specialize (Hc eq_refl). split.
      * intros ?%Hlog. congruence.
      * intros w' Hw'. rewrite Hw in Hw'. by injection Hw' as <-.
  - intros _. by apply Hr.
Qed.

Lemma inv_step s s' : Inv s -> step s s' -> Inv s'.
Proof.
  intros HI Hs. destruct Hs as [rows rev calls ws log i a Hi|rows rev calls ws log i a left Hi
    |rows rev calls ws log i a left Hi|rows rev calls ws log i a st e v Hi Hw He
    |rows rev calls ws log i a st e v Hi Hw He|rows rev calls ws log i e v Hw
    |rows rev calls ws log i a left v e v' Hi Hw|rows rev calls ws log i a left v err e v' f Hi Hw He Hf
    |rows rev calls ws log i a left v err back Hi Hb].
  - by apply inv_begin.
  - by apply inv_read.
  - by apply inv_call with (st := Reading left).
  - by apply (inv_commit _ _ _ _ _ _ _ st e v).
  - apply (inv_drop _ _ _ _ _ _ a st e v); auto.
  - destruct (I_writes _ _ _ _ _ HI i _ Hw) as (a & st & Hi & _).
    apply (inv_drop _ _ _ _ _ _ a st e v); auto.
  - apply inv_call with (st := Writing left v); [done..| |].
    + unfold azure_put. destruct (too_large v); [done|]. simpl.
      destruct (I_writes _ _ _ _ _ HI i _ Hw) as (a' & st' & _ & [Hc _]). by apply Hc.
    + unfold azure_put. by destruct (too_large v).
  - destruct (I_calls _ _ _ _ _ HI i a _ Hi) as [(w & Hw' & Hid) Hr].
    apply inv_call with (st := Writing left v); [done..| |by intros _; apply Hr].
    simpl in *. rewrite Hw in Hw'. injection Hw' as <-. eauto 8.
  - by apply inv_readback.
Qed.

Lemma reachable_inv s : reachable quota keyFor uuid etag s -> Inv s.
Proof. induction 1; [apply inv_start|by eapply inv_step]. Qed.
End inv.
