(* ===== verification/StateBounds.v ===== *)
(** * The size of a serialised record

    The Azure backend refuses a record of more than 60000 bytes of UTF-16. The
    lengths of [JSON.stringify]'s output show that no record [reserve] writes comes
    near. *)
From S2P Require Import Prelude JsMap JsText JsJson AppAttest StateStore StateFacts.
From Stdlib Require Import Ascii.

Lemma slen_app a b : slen (a +:+ b) = slen a + slen b.
Proof. unfold slen. induction a as [|c a IH]; [done|]. simpl. rewrite !Nat2Z.inj_succ, IH. lia. Qed.

Lemma slen_list (l : list ascii) : slen (String.string_of_list_ascii l) = Z.of_nat (length l).
Proof. unfold slen. induction l as [|c l IH]; simpl; lia. Qed.

Lemma slen_length s : Z.of_nat (length (String.list_ascii_of_string s)) = slen s.
Proof. unfold slen. induction s as [|c s IH]; simpl; lia. Qed.

(** A character is written in six or fewer. *)
Lemma length_escape c : (length (json_escape c) <= 6)%nat.
Proof. unfold json_escape. repeat (case_match; simpl; [lia|]). simpl. lia. Qed.

Lemma slen_json_string s : slen (json_string s) <= 2 + 6 * slen s.
Proof.
  assert (forall l : list ascii, (length (l ≫= json_escape) <= 6 * length l)%nat) as H.
  { induction l as [|c l IH]; [simpl; lia|]. rewrite bind_cons, length_app. cbn [length].
    pose proof (length_escape c). lia. }
  unfold json_string. rewrite slen_list. cbn [length]. rewrite length_app. cbn [length].
  specialize (H (String.list_ascii_of_string s)). rewrite <-(slen_length s). lia.
Qed.

Lemma length_dec_digits f n : (length (dec_digits f n) <= f)%nat.
Proof.
  revert n. induction f as [|f IH]; intros n; simpl; [lia|].
  case_match; simpl; [lia|]. rewrite length_app. specialize (IH (n / 10)). simpl. lia.
Qed.

Lemma slen_js_dec z : - MAX_SAFE_INTEGER <= z <= MAX_SAFE_INTEGER -> slen (js_dec z) <= 55.
Proof.
  assert (forall n, 0 <= n < 2 ^ 53 -> slen (dec_nat n) <= 54) as H.
  { intros n Hn. unfold dec_nat. rewrite slen_list, length_fmap.
    pose proof (length_dec_digits (dec_fuel n) n). unfold dec_fuel in *.
    assert (Z.log2 n < 54).
    { destruct (decide (n = 0)) as [->|]; [done|]. apply Z.log2_lt_pow2; [lia|].
      change (2 ^ 54) with (2 * 2 ^ 53). lia. }
    pose proof (Z.log2_nonneg n). lia. }
  unfold MAX_SAFE_INTEGER, js_dec. intros Hz. destruct (z <? 0) eqn:E; bool_to_prop.
  - change (String "-" (dec_nat (- z))) with ("-" +:+ dec_nat (- z)). rewrite slen_app.
    specialize (H (- z) ltac:(lia)). change (slen "-") with 1. lia.
  - specialize (H z ltac:(lia)). lia.
Qed.

(** One member of an object, and an object of several. *)
Lemma slen_member k v n : slen (stringify v) <= n -> slen (json_string k +:+ ":" +:+ stringify v) <= 3 + 6 * slen k + n.
Proof.
  intros H. rewrite !slen_app. pose proof (slen_json_string k). change (slen ":") with 1. lia.
Qed.

Lemma slen_join (sep : string) (l : list string) (n : Z) :
  slen sep = 1 -> Forall (fun s => slen s <= n) l -> 0 <= n ->
  slen (js_join sep l) <= Z.of_nat (length l) * (n + 1).
Proof.
  intros Hs Hl Hn. induction Hl as [|s l Hsn Hl IH]; [done|].
  destruct l as [|s' l]; [simpl; lia|].
  change (js_join sep (s :: s' :: l)) with (s +:+ sep +:+ js_join sep (s' :: l)).
  rewrite !slen_app, Hs. cbn [length] in *. lia.
Qed.

Lemma map_is_fmap {A B} (f : A -> B) (l : list A) : map f l = f <$> l.
Proof. induction l; [done|]. cbn. by f_equal. Qed.

Lemma slen_counts r : record_ok r -> slen (stringify (json_counts (d_quota r))) <= 790.
Proof.
  intros [_ _ HL Hn Hc]. unfold json_counts. cbn [stringify].
  rewrite !slen_app, map_is_fmap. change (slen "{") with 1. change (slen "}") with 1.
  set (l := _ <$> _).
  assert (length l <= 2)%nat as Hl by (unfold l; rewrite !length_fmap; lia).
  pose proof (slen_join "," l 393 eq_refl) as H.
  assert (Forall (fun s => slen s <= 393) l) as Hf; [|specialize (H Hf ltac:(lia)); lia].
  unfold l. apply Forall_fmap, Forall_fmap. eapply Forall_impl; [exact Hc|].
  intros [k v] [Hk Hv]. cbn in Hk, Hv.
  assert (slen k <= 55) as Hk55.
  { unfold MAX_SAFE_INTEGER in HL.
    destruct Hk as [->| ->]; apply slen_js_dec; unfold MAX_SAFE_INTEGER; lia. }
  pose proof (slen_member k (JInt v) 55 ltac:(apply slen_js_dec; lia)) as Hm. simpl in Hm.
  change (slen (json_string k +:+ ":" +:+ js_dec v) <= 393). lia.
Qed.

(** No record that a reservation writes is refused for its size: with a
    commit identifier of at most 36 characters (a UUID) every valid record stays
    below 60000 bytes of UTF-16, a key of 4096 control characters included. *)
Theorem record_fits (c : string) (r : device_record) :
  record_ok r -> slen c <= 36 -> too_large (record_json c r) = false.
Proof.
  intros Hr Hc. pose proof (slen_counts r Hr) as Hq. destruct Hr as [Hp Hs HL _ _].
  unfold too_large. rewrite Z.gtb_ltb. apply Z.ltb_ge.
  set (m := fun kv : string * json => json_string kv.1 +:+ ":" +:+ stringify kv.2).
  change (stringify (record_json c r)) with ("{" +:+ js_join "," (map m [
    ("version", JInt 1); ("commitID", JStr c); ("publicKeyPem", JStr (d_publicKeyPem r));
    ("signCount", JInt (d_signCount r)); ("latestEpoch", JInt (d_latestEpoch r));
    ("quota", json_counts (d_quota r))]) +:+ "}").
  cbn [map js_join]. unfold m. cbn [fst snd]. rewrite !slen_app.
  pose proof (slen_json_string c). pose proof (slen_json_string (d_publicKeyPem r)).
  pose proof (slen_js_dec (d_signCount r) ltac:(unfold MAX_SAFE_INTEGER in *; lia)).
  pose proof (slen_js_dec (d_latestEpoch r) ltac:(unfold MAX_SAFE_INTEGER in *; lia)).
  cbn [stringify] in *.
  assert (forall k, slen (json_string k) <= 2 + 6 * slen k) as Hk by apply slen_json_string.
  pose proof (Hk "version"). pose proof (Hk "commitID"). pose proof (Hk "publicKeyPem").
  pose proof (Hk "signCount"). pose proof (Hk "latestEpoch"). pose proof (Hk "quota").
  repeat match goal with |- context [slen (String ?a ?b)] =>
    let v := eval vm_compute in (slen (String a b)) in change (slen (String a b)) with v end.
  change (slen "version") with 7 in *. change (slen "commitID") with 8 in *.
  change (slen "publicKeyPem") with 12 in *. change (slen "signCount") with 9 in *.
  change (slen "latestEpoch") with 11 in *. change (slen "quota") with 5 in *.
  change (slen (js_dec 1)) with 1. lia.
Qed.

Lemma record_fits_witness :
  too_large (record_json "c" (DeviceRecord "pem" 3 5 [("5", 7)])) = false.
Proof.
  apply record_fits; [|vm_compute; congruence].
  split; cbn [d_publicKeyPem d_signCount d_latestEpoch d_quota];
    [reflexivity || discriminate|unfold MAX_SAFE_INTEGER; lia..|simpl; lia|].
  constructor; [|constructor]. split; [by left|unfold MAX_SAFE_INTEGER; simpl; lia].
Defined.
