(* ===== verification/StateTheorems.v ===== *)
(** * The promises of the issuer state

    Quota, single use of an assertion, atomicity and durability of device records,
    for any interleaving of replicas and any loss of acknowledgments; the loop run
    alone over the memory backend; and an executable version of the system on
    which the theorems are instantiated. *)
From S2P Require Import Prelude JsMap JsText JsJson AppAttest StateStore StateFacts StateSystem StateInv.

(** ** Executing the system *)
Inductive event : Type :=
| EBegin (i : nat) (a : reservation)
| ERead (i : nat) | EReadFails (i : nat)
| ECommit (i : nat) | EReject (i : nat) | ELose (i : nat)
| EAck (i : nat) | EError (i : nat) (err : exn) | EReadBack (i : nat) (ok : bool).

Section exec.
Context (quota : Z) (keyFor : string -> string) (uuid : nat -> string) (etag : Z -> string).
Notation key_of := (key_of keyFor).

Definition exec (ev : event) (s : sys) : option sys :=
  let '(Sys rows rev calls ws log) := s in
  let in_flight i (next : reservation -> option string -> json -> option sys) :=
    match calls !! i, ws !! i with
    | Some (a, _), Some (Write e v InFlight) => next a e v
    | _, _ => None
    end in
  match ev with
  | EBegin i a =>
      match calls !! i with
      | None => Some (Sys rows rev (<[i := (a, after_guard a)]> calls) ws log)
      | Some _ => None
      end
  | ERead i =>
      match calls !! i with
      | Some (a, Reading (S n)) =>
          let prior := rows !! key_of a in
          let st := after_read quota uuid n i a prior in
          Some (Sys rows rev (<[i := (a, st)]> calls) (issue i st prior ws) log)
      | _ => None
      end
  | EReadFails i =>
      match calls !! i with
      | Some (a, Reading _) =>
          Some (Sys rows rev (<[i := (a, Finished (Throw StateUnavailable))]> calls) ws log)
      | _ => None
      end
  | ECommit i => in_flight i (fun a e v =>
      if decide ((fst <$> rows !! key_of a) = e) then
        Some (Sys (<[key_of a := (etag (rev + 1), v)]> rows) (rev + 1) calls
                (<[i := Write e v Committed]> ws) (log ++ [(i, a)]))
      else None)
  | EReject i => in_flight i (fun a e v =>
      if decide ((fst <$> rows !! key_of a) = e) then None
      else Some (Sys rows rev calls (<[i := Write e v Rejected]> ws) log))
  | ELose i => in_flight i (fun a e v => Some (Sys rows rev calls (<[i := Write e v Lost]> ws) log))
  | EAck i =>
      match calls !! i, ws !! i with
      | Some (a, Writing n v), Some (Write _ _ Committed) =>
          Some (Sys rows rev (<[i := (a, after_put n (azure_put v (Ok tt) (Ok None)))]> calls) ws log)
      | _, _ => None
      end
  | EError i err =>
      match calls !! i, ws !! i with
      | Some (a, Writing n v), Some (Write _ _ f) =>
          match err, conflict err, f with
          | Diverges, _, _ => None
          | _, true, Rejected | _, false, _ =>
              Some (Sys rows rev (<[i := (a, ReadingBack n v err)]> calls) ws log)
          | _, true, _ => None
          end
      | _, _ => None
      end
  | EReadBack i ok =>
      match calls !! i with
      | Some (a, ReadingBack n v err) =>
          let back := if ok then Ok (rows !! key_of a) else Throw StateUnavailable in
          Some (Sys rows rev (<[i := (a, after_put n (azure_put v (Throw err) back))]> calls) ws log)
      | _ => None
      end
  end.

Fixpoint run (evs : list event) (s : sys) : option sys :=
  match evs with
  | [] => Some s
  | ev :: evs' => match exec ev s with Some s' => run evs' s' | None => None end
  end.

Lemma exec_step ev s s' : exec ev s = Some s' -> step quota keyFor uuid etag s s'.
Proof.
  destruct s as [rows rev calls ws log].
  destruct ev as [i a|i|i|i|i|i|i|i err|i ok]; simpl; intros H;
    repeat (case_match; try done); simplify_eq;
    solve [by econstructor | eapply step_error; done | eapply step_readback; eauto].
Qed.

Lemma run_reachable evs s s' :
  reachable quota keyFor uuid etag s -> run evs s = Some s' -> reachable quota keyFor uuid etag s'.
Proof.
  revert s. induction evs as [|ev evs IH]; intros s Hs; simpl; [by intros [= <-]|].
  destruct (exec ev s) as [s1|] eqn:E; [|done].
  apply IH. eapply reach_step; [done|]. by apply exec_step in E.
Qed.
End exec.

Section theorems.
Context (quota : Z) (keyFor : string -> string) (uuid : nat -> string) (etag : Z -> string).
Context `{uuid_inj : !Inj (=) (=) uuid} `{etag_inj : !Inj (=) (=) etag}.
Notation reachable := (reachable quota keyFor uuid etag).
Notation step := (step quota keyFor uuid etag).
Notation key_of := (key_of keyFor).

(** ** Granted calls and the log *)
Lemma granted_logged s i a : reachable s -> granted s i a -> (i, a) ∈ s_log s.
Proof.
  intros HI%reachable_inv Hg; [|done..]. unfold granted in Hg.
  destruct (I_calls _ _ _ _ _ HI i a _ Hg) as [Hin _]. simpl in Hin.
  apply list_elem_of_fmap in Hin as ([j b] & -> & Hjb). simpl in *.
  destruct (I_log _ _ _ _ _ HI j b Hjb) as [st Hst]. by rewrite Hg in Hst; injection Hst as ->.
Qed.

(** The counts of some calls, added up. *)
Definition total (l : list (nat * reservation)) : Z := foldr (fun x acc => v_count x.2 + acc) 0 l.

Lemma total_charges l log k e :
  l ⊆+ log -> (forall i a, (i, a) ∈ log -> 1 <= v_count a) ->
  (forall i a, (i, a) ∈ l -> key_of a = k /\ v_epoch a = e) -> total l <= charges keyFor log k e.
Proof.
  intros Hsub Hpos Hl.
  assert (total l = charges keyFor l k e) as ->.
  { clear Hsub. induction l as [|[i a] l IH]; [done|]. unfold charges in *. simpl.
    rewrite IH by (intros j b ?; apply (Hl j b); set_solver).
    rewrite decide_True; [done|]. apply (Hl i a). set_solver. }
  clear Hl. apply submseteq_Permutation in Hsub as [l' Hp].
  assert (charges keyFor log k e = charges keyFor (l ++ l') k e) as ->.
  { by apply charges_perm. }
  rewrite charges_app. enough (0 <= charges keyFor l' k e) by lia.
  apply charges_nonneg. intros i a Hin. apply (Hpos i a). rewrite Hp. set_solver.
Qed.

(** C1. The quota holds whatever the replicas do: the granted calls of one device
    in one epoch never add up to more than the quota, with writes racing, their
    acknowledgments lost, or carried out after the call gave up. *)
Theorem quota_respected (s : sys) (k : string) (e : Z) (l : list (nat * reservation)) :
  reachable s -> 0 < quota -> NoDup l.*1 ->
  (forall i a, (i, a) ∈ l -> granted s i a /\ key_of a = k /\ v_epoch a = e) ->
  total l <= quota.
Proof.
  intros Hr Hq Hd Hl. pose proof (reachable_inv _ _ _ _ _ Hr) as HI.
  transitivity (charges keyFor (s_log s) k e); [|by apply (I_quota _ _ _ _ _ HI)].
  apply total_charges.
  - apply NoDup_submseteq; [by eapply NoDup_fmap_1|]. intros [i a] Hin.
    apply granted_logged; [done|]. by apply Hl.
  - apply (I_positive _ _ _ _ _ HI).
  - intros i a Hin. by destruct (Hl i a Hin) as (_ & ? & ?).
Qed.

(** An assertion is spent once: of the calls for one device, no granted
    assertion carries the sign count of another granted call. *)
Theorem assertion_spent_once (s : sys) (i j : nat) (a b : reservation) :
  reachable s -> granted s i a -> granted s j b -> i <> j ->
  key_of a = key_of b -> v_mode a = "assertion" -> v_mode b = "assertion" ->
  v_signCount a <> v_signCount b.
Proof.
  intros Hr Ha Hb Hne Hk Hma Hmb. pose proof (reachable_inv _ _ _ _ _ Hr) as HI.
  apply granted_logged, list_elem_of_split in Ha as (l1 & l2 & Hl); [|done].
  apply granted_logged in Hb; [|done]. rewrite Hl in Hb.
  apply elem_of_app in Hb as [Hb|Hb].
  - pose proof (I_replay _ _ _ _ _ HI l1 i a l2 Hl Hma j b Hb (eq_sym Hk)). lia.
  - apply elem_of_cons in Hb as [Hb|Hb]; [congruence|].
    apply list_elem_of_split in Hb as (l3 & l4 & ->).
    pose proof (I_replay _ _ _ _ _ HI (l1 ++ (i, a) :: l3) j b l4
      ltac:(rewrite Hl, <-app_assoc; done) Hmb i a ltac:(set_solver) Hk). lia.
Qed.

(** C6. A granted call was carried out exactly once, and no call is ever carried
    out twice, retries after a lost acknowledgment included. *)
Theorem granted_committed_once (s : sys) (i : nat) (a : reservation) :
  reachable s -> granted s i a ->
  exists l1 l2, s_log s = l1 ++ (i, a) :: l2 /\ i ∉ l1.*1 /\ i ∉ l2.*1.
Proof.
  intros Hr Hg. pose proof (I_nodup _ _ _ _ _ (reachable_inv _ _ _ _ _ Hr)) as Hd.
  apply granted_logged, list_elem_of_split in Hg as (l1 & l2 & Hl); [|done].
  exists l1, l2. split; [done|]. rewrite Hl, fmap_app in Hd. simpl in Hd.
  apply NoDup_app in Hd as (_ & H1 & [H2 _]%NoDup_cons). split; [|done].
  intros Hin. apply (H1 _ Hin). set_solver.
Qed.

(** ** Atomicity *)

(** The table as records, and the atomic reservation on it. *)
Definition record_of (row : string * json) : option device_record :=
  match checked row.2 with Ok r => Some r | Throw _ => None end.
Definition devices (s : sys) : gmap string device_record := omap record_of (s_rows s).

Inductive atomic_reserve (m : gmap string device_record) : gmap string device_record -> Prop :=
| atomic_intro a :
    reservation_ok a = true -> admits quota a (m !! key_of a) ->
    let r := charged a (m !! key_of a) (newest (m !! key_of a) (v_epoch a)) in
    atomic_reserve m (<[key_of a := r]> m).

Lemma devices_stored s k record :
  stored (snd <$> s_rows s !! k) record -> devices s !! k = record.
Proof.
  unfold devices. rewrite lookup_omap. destruct (s_rows s !! k) as [[t v]|]; simpl; [|done].
  intros (r & Hr & ->). unfold record_of. simpl. by rewrite Hr.
Qed.

(** One step performs at most one atomic reservation. *)
Lemma step_atomic (s s' : sys) :
  reachable s -> step s s' -> devices s' = devices s \/ atomic_reserve (devices s) (devices s').
Proof.
  intros Hr Hs. pose proof (reachable_inv _ _ _ _ _ Hr) as HI.
  destruct Hs as [| | |rows rev calls ws log i a st e v Hi Hw He| | | | |]; try by left. right.
  destruct (commit_decided _ _ _ _ _ _ _ _ _ _ HI Hi Hw He)
    as (_ & Ha & record & Hst%devices_stored & _ & Had & Hv & Hck).
  assert (devices (Sys (<[key_of a := (etag (rev + 1), v)]> rows) (rev + 1) calls
      (<[i := Write e v Committed]> ws) (log ++ [(i, a)]))
    = <[key_of a := charged a record (newest record (v_epoch a))]>
        (devices (Sys rows rev calls ws log))) as ->.
  { unfold devices. simpl. apply omap_insert_Some. unfold record_of. simpl. by rewrite Hck. }
  simpl in Hst. rewrite <-Hst in *. by constructor.
Qed.

(** The records the service writes are the records it can read: in every
    reachable table the lookup of a device answers, with the key and sign count of
    its record, and never fails the validation of [checked]. *)
Theorem getAttestedKey_answers (s : sys) (keyId : string) :
  reachable s ->
  getAttestedKey (Ok (s_rows s !! keyFor keyId)) =
  Ok ((fun r => AttestedKey (d_publicKeyPem r) (d_signCount r)) <$> devices s !! keyFor keyId).
Proof.
  intros Hr. pose proof (reachable_inv _ _ _ _ _ Hr) as HI. unfold getAttestedKey, devices.
  rewrite lookup_omap. destruct (s_rows s !! keyFor keyId) as [[t v]|] eqn:E; [|done].
  destruct (I_row _ _ _ _ _ HI _ _ _ E) as (_ & _ & r & Hv & _).
  simpl. unfold record_of. simpl. by rewrite Hv.
Qed.

(** C12. The system refines an atomic store of device records: whatever was read,
    written and lost on the way, every reachable table is the outcome of a sequence
    of reservations, each admitted by the records of its moment and applied at
    once. *)
Theorem reserve_refines_atomic (s : sys) : reachable s -> rtc atomic_reserve ∅ (devices s).
Proof.
  induction 1 as [|s s' Hr IH Hs].
  - unfold devices. simpl. rewrite omap_empty. done.
  - destruct (step_atomic s s' Hr Hs) as [->|Ha]; [done|]. by eapply rtc_r.
Qed.

Lemma atomic_monotone m m' k r :
  atomic_reserve m m' -> m !! k = Some r ->
  exists r', m' !! k = Some r' /\ d_publicKeyPem r' = d_publicKeyPem r /\
    d_signCount r <= d_signCount r' /\ d_latestEpoch r <= d_latestEpoch r'.
Proof.
  intros [a Hok Had r'] Hk. destruct (decide (k = key_of a)) as [->|Hne].
  - rewrite lookup_insert_eq. eexists. split; [done|]. unfold r' in *. rewrite Hk in *. simpl.
    rewrite (ad_key _ _ _ Had r eq_refl). repeat split; lia.
  - rewrite lookup_insert_ne by done. eauto with lia.
Qed.

(** Registration is permanent: once a device has a record, no later step
    removes it or changes its public key, and its sign count and newest epoch never
    decrease. *)
Theorem device_record_monotone (s s' : sys) (k : string) (r : device_record) :
  reachable s -> rtc step s s' -> devices s !! k = Some r ->
  exists r', devices s' !! k = Some r' /\ d_publicKeyPem r' = d_publicKeyPem r /\
    d_signCount r <= d_signCount r' /\ d_latestEpoch r <= d_latestEpoch r'.
Proof.
  intros Hr Hs. revert r. induction Hs as [s|s s1 s' Hs _ IH]; intros r Hk; [eauto with lia|].
  assert (exists r1, devices s1 !! k = Some r1 /\ d_publicKeyPem r1 = d_publicKeyPem r /\
    d_signCount r <= d_signCount r1 /\ d_latestEpoch r <= d_latestEpoch r1)
    as (r1 & Hk1 & Hp & Hc & He).
  { destruct (step_atomic s s1 Hr Hs) as [->|Ha]; [eauto with lia|by eapply atomic_monotone]. }
  destruct (IH ltac:(by eapply reach_step) r1 Hk1) as (r2 & ? & ? & ? & ?).
  exists r2. split; [done|]. split; [congruence|lia].
Qed.
End theorems.

(** ** The loop alone, over the memory backend *)
Lemma memory_put_read maxKeys s key v :
  memory_put maxKeys s key (fst <$> memory_get s key) v =
  if negb (map_has String.eqb (m_rows s) key) && (map_size (m_rows s) >=? maxKeys)
  then (Throw StateUnavailable, s)
  else (Ok true, Memory (map_set String.eqb (m_rows s) key (js_dec (m_revision s + 1), v))
                   (m_revision s + 1)).
Proof. unfold memory_put. by rewrite bool_decide_true by done. Qed.

Lemma reserve_memory_eq maxKeys quota keyFor c a s :
  reservation_ok a = true ->
  let key := keyFor (v_keyId a) in
  reserve_memory maxKeys quota keyFor c a s =
  match attempt quota c a (snd <$> memory_get s key) with
  | Throw e => (Throw e, s)
  | Ok (inl r) => (Ok r, s)
  | Ok (inr v) =>
      if negb (map_has String.eqb (m_rows s) key) && (map_size (m_rows s) >=? maxKeys)
      then (Throw StateUnavailable, s)
      else (Ok Granted, Memory (map_set String.eqb (m_rows s) key (js_dec (m_revision s + 1), v))
                          (m_revision s + 1))
  end.
Proof.
  intros Ha key. unfold reserve_memory. rewrite Ha. simpl negb. cbv iota. fold key.
  cbn [reserve_loop]. destruct (attempt _ _ _ _) as [[r|v]|e]; [done| |done].
  rewrite memory_put_read. by destruct (negb _ && _).
Qed.

(** The memory backend has room for the device: a row already, or fewer than
    [maxKeys] rows. *)
Definition room (maxKeys : Z) (s : memory) (key : string) : Prop :=
  memory_get s key = None -> map_size (m_rows s) < maxKeys.

Lemma room_guard maxKeys s key :
  negb (map_has String.eqb (m_rows s) key) && (map_size (m_rows s) >=? maxKeys) = false
  <-> room maxKeys s key.
Proof.
  unfold room, memory_get, map_has. destruct (map_get String.eqb (m_rows s) key); simpl.
  - naive_solver.
  - rewrite Z.geb_leb, Z.leb_gt. naive_solver.
Qed.

(** Run without interruption over the memory backend, [reserve] grants exactly
    the reservations the rule admits and the backend has room for. It then stores
    the charged record under the key of the device and touches no other row; when
    it does not grant, nothing changes. *)
Theorem reserve_memory_spec (maxKeys quota : Z) (keyFor : string -> string) (c : string)
    (a : reservation) (s : memory) (record : option device_record) :
  let key := keyFor (v_keyId a) in
  let '(out, s') := reserve_memory maxKeys quota keyFor c a s in
  stored (snd <$> memory_get s key) record ->
  (out = Ok Granted <-> reservation_ok a = true /\ admits quota a record /\ room maxKeys s key) /\
  (out <> Ok Granted -> s' = s) /\
  (forall k, k <> key -> memory_get s' k = memory_get s k) /\
  (out = Ok Granted -> exists t v, memory_get s' key = Some (t, v) /\
     checked v = Ok (charged a record (newest record (v_epoch a)))).
Proof.
  intros key. destruct (reserve_memory maxKeys quota keyFor c a s) as [out s'] eqn:E. intros Hst.
  destruct (reservation_ok a) eqn:Ha.
  2:{ unfold reserve_memory in E. rewrite Ha in E. injection E as <- <-. naive_solver. }
  rewrite reserve_memory_eq in E by done. fold key in E.
  pose proof (fun v => attempt_writes quota c a _ record v Ha Hst) as Hw.
  assert (forall r, attempt quota c a (snd <$> memory_get s key) = Ok (inl r) -> r <> Granted) as Hd
    by (intros r; apply (attempt_denied quota (fun _ => c) 0)).
  destruct (attempt quota c a (snd <$> memory_get s key)) as [[r|v]|e].
  - injection E as <- <-. specialize (Hd r eq_refl). split; [|naive_solver].
    split; [by intros [= ->]|]. intros (_ & Had & _). discriminate (proj2 (Hw _) (conj Had eq_refl)).
  - destruct (proj1 (Hw v) eq_refl) as [Had ->].
    destruct (negb _ && _) eqn:Er; injection E as <- <-.
    + split; [|naive_solver]. split; [done|]. intros (_ & _ & Hr%room_guard). congruence.
    + apply room_guard in Er. split; [done|]. split; [done|]. split.
      * intros k Hk. unfold memory_get. simpl. by apply map_get_set_ne; [apply eqb_string|].
      * intros _. do 2 eexists. unfold memory_get. simpl.
        split; [by apply map_get_set_eq, eqb_string|].
        apply checked_record_json. by apply (attempt_record_ok quota a (snd <$> memory_get s key)).
  - injection E as <- <-. split; [|naive_solver]. split; [done|].
    intros (_ & Had & _). discriminate (proj2 (Hw _) (conj Had eq_refl)).
Qed.

(** ** Witnesses: two calls for one device, a race and a lost acknowledgment *)
Module Run.
Definition uuid (n : nat) : string := js_dec (Z.of_nat n).
#[export] Instance uuid_inj : Inj (=) (=) uuid.
Proof. intros a b H%js_dec_inj. lia. Qed.
#[export] Instance dec_inj : Inj (=) (=) js_dec.
Proof. exact js_dec_inj. Qed.

Definition register : reservation := Reservation "k" "attestation" "PEM" 0 7 4.
Definition use (signCount : Z) : reservation := Reservation "k" "assertion" "PEM" signCount 7 3.
Definition timeout : exn := Err "timeout".
Definition precondition : exn := Exn "precondition" None (Some 412).

(** Call 0 registers; calls 1 and 2 read the same row. Call 1 commits and loses
    its acknowledgment, call 2 is rejected, tries again and is granted; call 3
    exceeds the quota. *)
Definition trace : list event :=
  [ EBegin 0 register; ERead 0; ECommit 0; EAck 0;
    EBegin 1 (use 1); EBegin 2 (use 2); ERead 1; ERead 2;
    ECommit 1; EError 1 timeout; EReadBack 1 true;
    EReject 2; EError 2 precondition; EReadBack 2 true; ERead 2; ECommit 2; EAck 2;
    EBegin 3 (use 3); ERead 3 ].

Definition final : sys := default no_calls (run 10 id uuid js_dec trace no_calls).

Example final_runs : is_Some (run 10 id uuid js_dec trace no_calls).
Proof. eexists. vm_compute. reflexivity. Qed.
Example final_denied : snd <$> s_calls final !! 3%nat = Some (Finished (Ok (Denied "quota_exceeded"))).
Proof. vm_compute. reflexivity. Qed.

Lemma final_reachable : reachable 10 id uuid js_dec final.
Proof.
  unfold final. destruct (run 10 id uuid js_dec trace no_calls) as [s|] eqn:E;
    [|constructor]. simpl. eapply run_reachable; [constructor|done].
Qed.

Lemma granted_0 : granted final 0 register. Proof. vm_compute. reflexivity. Qed.
Lemma granted_1 : granted final 1 (use 1). Proof. vm_compute. reflexivity. Qed.
Lemma granted_2 : granted final 2 (use 2). Proof. vm_compute. reflexivity. Qed.
End Run.
#[local] Existing Instances Run.uuid_inj Run.dec_inj.

Lemma quota_respected_witness :
  total [(0%nat, Run.register); (1%nat, Run.use 1); (2%nat, Run.use 2)] <= 10.
Proof.
  apply (quota_respected 10 id Run.uuid js_dec Run.final "k" 7).
  - exact Run.final_reachable.
  - lia.
  - apply (bool_decide_eq_true_1 (NoDup [0%nat; 1%nat; 2%nat])). reflexivity.
  - intros i a Hin. apply elem_of_cons in Hin as [[= -> ->]|Hin]; [split; [exact Run.granted_0|done]|].
    apply elem_of_cons in Hin as [[= -> ->]|Hin]; [split; [exact Run.granted_1|done]|].
    apply list_elem_of_singleton in Hin as [= -> ->]. split; [exact Run.granted_2|done].
Defined.

Lemma assertion_spent_once_witness : v_signCount (Run.use 1) <> v_signCount (Run.use 2).
Proof.
  apply (assertion_spent_once 10 id Run.uuid js_dec Run.final 1 2 (Run.use 1) (Run.use 2));
    [exact Run.final_reachable|exact Run.granted_1|exact Run.granted_2|lia|reflexivity..].
Defined.

Lemma granted_committed_once_witness : exists l1 l2,
  s_log Run.final = l1 ++ (1%nat, Run.use 1) :: l2 /\ 1%nat ∉ l1.*1 /\ 1%nat ∉ l2.*1.
Proof.
  apply (granted_committed_once 10 id Run.uuid js_dec Run.final 1 (Run.use 1));
    [exact Run.final_reachable|exact Run.granted_1].
Defined.

Lemma reserve_refines_atomic_witness : rtc (atomic_reserve 10 id) ∅ (devices Run.final).
Proof. apply (reserve_refines_atomic 10 id Run.uuid js_dec), Run.final_reachable. Defined.

Lemma device_record_monotone_witness : exists r,
  devices Run.final !! "k" = Some r /\ d_publicKeyPem r = "PEM".
Proof.
  destruct (devices Run.final !! "k") as [r|] eqn:E; [|vm_compute in E; discriminate].
  destruct (device_record_monotone 10 id Run.uuid js_dec Run.final Run.final "k" r
    Run.final_reachable (rtc_refl _ _) E) as (r' & Hr' & Hp & _).
  exists r'. split; [congruence|]. rewrite Hp. vm_compute in E. injection E as <-. reflexivity.
Defined.

Lemma reserve_memory_spec_witness :
  (reserve_memory 5 10 id "c" Run.register (Memory [] 0)).1 = Ok Granted.
Proof.
  pose proof (reserve_memory_spec 5 10 id "c" Run.register (Memory [] 0) None) as H. cbv zeta in H.
  destruct (reserve_memory 5 10 id "c" Run.register (Memory [] 0)) as [out s'].
  destruct (H eq_refl) as [[_ Hg] _]. apply Hg. split; [reflexivity|]. split.
  - split; [discriminate|discriminate|simpl; lia|unfold MAX_SAFE_INTEGER; simpl; lia|simpl; lia].
  - intros _. reflexivity.
Defined.

Lemma getAttestedKey_answers_witness :
  getAttestedKey (Ok (s_rows Run.final !! id "k")) = Ok (Some (AttestedKey "PEM" 2)).
Proof.
  rewrite (getAttestedKey_answers 10 id Run.uuid js_dec Run.final "k" Run.final_reachable).
  vm_compute. reflexivity.
Defined.
