(* ===== verification/StateBackend.v ===== *)
(** * The issuer's state over its backend ([token-issuer/state-store.js])

    [createIssuerState] works against an interface, a backend with [get] and [put]:
    the class [Backend]. [AtomicBackend] states what a backend promises while
    nobody else uses it, and [reserve_once] what [reserve] then does, whichever the
    backend. The two backends are instances: [memoryDeviceBackend], and
    [azureDeviceBackend] with its one-time set-up, its deadlines and its read-back,
    over any client; an [honest] client makes it atomic. *)
From S2P Require Import Prelude JsMap JsText JsJson AppAttest StateStore StateFacts.
From S2P Require Import StateBounds StateTheorems Timed AzureTable.

(** ** The interface *)
Class Backend (S : Type) : Type := {
  date_now : S -> Z;
  backend_get : string -> Z -> S -> result exn (option (string * json)) * S;
  backend_put : string -> option string -> json -> Z -> S -> result exn bool * S;
}.

Section issuer_state.
Context {S : Type} `{B : Backend S}.
Context (quota operationTimeoutMs : Z) (keyFor : string -> string).

(** The loop of [reserve], [left] attempts to go. *)
Fixpoint attempts (left : nat) (key commitID : string) (a : reservation) (deadline : Z) (s : S) :
    result exn reply * S :=
  match left with
  | O => (Throw StateUnavailable, s)
  | Datatypes.S left' =>
      match backend_get key deadline s with
      | (Throw e, s) => (Throw e, s)
      | (Ok prior, s) =>
          match attempt quota commitID a (snd <$> prior) with
          | Throw e => (Throw e, s)
          | Ok (inl r) => (Ok r, s)
          | Ok (inr value) =>
              match backend_put key (fst <$> prior) value deadline s with
              | (Throw e, s) => (Throw e, s)
              | (Ok true, s) => (Ok Granted, s)
              | (Ok false, s) => attempts left' key commitID a deadline s
              end
          end
      end
  end.

Definition reserve (commitID : string) (a : reservation) (s : S) : result exn reply * S :=
  if negb (reservation_ok a) then (Throw StateUnavailable, s)
  else attempts 4 (keyFor (v_keyId a)) commitID a (date_now s + operationTimeoutMs) s.

Definition getAttestedKey (keyId : string) (s : S) : result exn (option attested_key) * S :=
  let '(row, s) := backend_get (keyFor keyId) (date_now s + operationTimeoutMs) s in
  (StateStore.getAttestedKey row, s).
End issuer_state.

(** What a backend promises to its only user: [get] gives the row of a key, [put]
    replaces it under the tag it carries, both within [op_cost] milliseconds. *)
Class AtomicBackend (S : Type) `{B : Backend S} : Type := {
  view : S -> string -> option (string * json);
  good : S -> Prop;
  usable : string -> S -> Prop;
  storable : json -> Prop;
  op_cost : Z;
  op_cost_nonneg : 0 <= op_cost;
  get_atomic key dl s :
    good s -> usable key s -> date_now s + op_cost < dl ->
    exists s', backend_get key dl s = (Ok (view s key), s') /\
      good s' /\ usable key s' /\ (forall k, view s' k = view s k) /\
      date_now s <= date_now s' <= date_now s + op_cost;
  put_atomic key v dl s :
    good s -> usable key s -> date_now s + op_cost < dl -> storable v ->
    exists s', backend_put key (fst <$> view s key) v dl s = (Ok true, s') /\
      good s' /\ (snd <$> view s' key) = Some v /\ (forall k, k <> key -> view s' k = view s k);
}.

Section atomic.
Context {S : Type} `{A : AtomicBackend S}.
Context (quota operationTimeoutMs : Z) (keyFor : string -> string).

(** With time for two operations the first attempt decides: the answer is the one
    of [attempt] on the row, and only a grant changes anything, namely that row. *)
Lemma reserve_once (c : string) (a : reservation) (s : S) :
  let key := keyFor (v_keyId a) in
  good s -> usable key s -> 2 * op_cost < operationTimeoutMs -> reservation_ok a = true ->
  (forall v, attempt quota c a (snd <$> view s key) = Ok (inr v) -> storable v) ->
  exists s', good s' /\ (forall k, k <> key -> view s' k = view s k) /\
    match attempt quota c a (snd <$> view s key) with
    | Throw e => reserve quota operationTimeoutMs keyFor c a s = (Throw e, s') /\
        view s' key = view s key
    | Ok (inl r) => reserve quota operationTimeoutMs keyFor c a s = (Ok r, s') /\
        view s' key = view s key
    | Ok (inr v) => reserve quota operationTimeoutMs keyFor c a s = (Ok Granted, s') /\
        (snd <$> view s' key) = Some v
    end.
Proof.
  intros key Hg Hu Ht Ha Hv. unfold reserve. rewrite Ha. cbn [negb attempts]. fold key.
  set (dl := date_now s + operationTimeoutMs). pose proof op_cost_nonneg.
  destruct (get_atomic key dl s Hg Hu ltac:(subst dl; lia)) as (s1 & E1 & Hg1 & Hu1 & Hw1 & Hc1).
  rewrite E1. destruct (attempt _ _ _ _) as [[r|v]|e]; [exists s1; naive_solver| |exists s1; naive_solver].
  destruct (put_atomic key v dl s1 Hg1 Hu1 ltac:(subst dl; lia) (Hv v eq_refl)) as (s2 & E2 & Hg2 & Hv2 & Hw2).
  rewrite Hw1 in E2. rewrite E2. exists s2. split_and!; [done| |done|done].
  intros k Hk. by rewrite Hw2, Hw1.
Qed.

(** What a reservation does to the rows, as a function of the row: the answer, and
    the row's new value if it is granted. *)
Definition reservation_effect (c : string) (a : reservation) (row : option json) :
    result exn reply * option json :=
  if negb (reservation_ok a) then (Throw StateUnavailable, None)
  else match attempt quota c a row with
       | Throw e => (Throw e, None)
       | Ok (inl r) => (Ok r, None)
       | Ok (inr v) => (Ok Granted, Some v)
       end.

Lemma reserve_effect (c : string) (a : reservation) (s : S) :
  let key := keyFor (v_keyId a) in
  let effect := reservation_effect c a (snd <$> view s key) in
  good s -> usable key s -> 2 * op_cost < operationTimeoutMs ->
  (forall v, effect.2 = Some v -> storable v) ->
  let '(out, s') := reserve quota operationTimeoutMs keyFor c a s in
  out = effect.1 /\ good s' /\
  forall k, snd <$> view s' k =
    match effect.2 with Some v => if decide (k = key) then Some v else snd <$> view s k
    | None => snd <$> view s k end.
Proof.
  intros key effect Hg Hu Ht Hv. unfold effect, reservation_effect in *.
  destruct (reservation_ok a) eqn:Ha; cbn [negb] in *.
  2:{ unfold reserve. rewrite Ha. naive_solver. }
  destruct (reserve_once c a s Hg Hu Ht Ha) as (s' & Hg' & Hk & H).
  { intros v Ev. apply Hv. fold key in Ev. by rewrite Ev. }
  fold key in H, Hk. destruct (attempt _ _ _ _) as [[r|v]|e]; destruct H as [-> Hkey]; cbn [fst snd];
    (split; [done|]; split; [done|]); intros k; destruct (decide (k = key)) as [->|Hne];
    rewrite ?Hk by done; congruence.
Qed.
End atomic.

(** ** [memoryDeviceBackend] *)
Definition memoryDeviceBackend (maxKeys : Z) : Backend (Z * memory) := {|
  date_now := fst;
  backend_get key _ s := (Ok (memory_get s.2 key), s);
  backend_put key etag v _ s :=
    let '(r, m) := memory_put maxKeys s.2 key etag v in (r, (s.1, m));
|}.
#[export] Existing Instance memoryDeviceBackend.

#[export] Program Instance memory_atomic (maxKeys : Z) :
    AtomicBackend (Z * memory) (B := memoryDeviceBackend maxKeys) := {
  view s := memory_get s.2;
  good _ := True;
  usable key s := room maxKeys s.2 key;
  storable _ := True;
  op_cost := 0;
}.
Next Obligation. done. Qed.
Next Obligation.
  intros maxKeys key dl s _ Hu Ht. exists s. split_and!; try done; simpl; lia.
Qed.
Next Obligation.
  intros maxKeys key v dl [t m] _ Hu _ _. cbn [backend_put memoryDeviceBackend snd fst].
  rewrite memory_put_read, (proj2 (room_guard maxKeys m key) Hu). cbn [snd fst].
  eexists. split_and!; [done..| |]; unfold memory_get; simpl.
  - by rewrite map_get_set_eq by apply eqb_string.
  - intros k Hk. by apply map_get_set_ne; [apply eqb_string|].
Qed.

(** Over this backend [reserve] is the loop of [StateStore]. *)
Lemma reserve_over_memory maxKeys quota op keyFor c a t m :
  reserve (B := memoryDeviceBackend maxKeys) quota op keyFor c a (t, m) =
  let '(r, m') := reserve_memory maxKeys quota keyFor c a m in (r, (t, m')).
Proof.
  unfold reserve, reserve_memory. destruct (negb _); [done|]. cbn [date_now memoryDeviceBackend fst].
  generalize (t + op) as dl. generalize 4%nat as n. intros n dl. revert m.
  induction n as [|n IH]; intros m; [done|]. cbn [attempts reserve_loop]. cbn [backend_get backend_put memoryDeviceBackend snd fst].
  destruct (attempt _ _ _ _) as [[r|v]|e]; [done| |done].
  destruct (memory_put _ _ _ _ _) as [[[]|e] m'] eqn:E; rewrite ?E; [done|apply IH|done].
Qed.

(** ** [azureDeviceBackend] *)
Section azure.
Context {W : Type} (client : table_client W).
(** [JSON.parse], the hash of the salt, and the option [timeoutMs]. *)
Context (JSON_parse : string -> result exn json) (saltFingerprint : string) (timeoutMs : Z).

Abbreviation st := (tstate W table_request).
Abbreviation io := (Timed.io W table_request).
Definition partitionKey : string := "issuer-state-v1".

Definition remaining (deadline : Z) (s : st) : Z := Z.min timeoutMs (deadline - now s).
Definition call (r : table_request) (deadline : Z) : io entity := fun s =>
  bounded client StateUnavailable (remaining deadline s) r s.

(** The body of [initialize]: create the table, create the [config] row or read
    it back. What each outcome leads to is [StateStore.initialize]. *)
Definition config_of (e : entity) : result exn string :=
  Ok (default "" (e_field e "saltFingerprint")).
Definition initialization (deadline : Z) : io unit :=
  table ← outcome (call CreateTable deadline);
  (match table with
   | Ok _ | Throw (Exn _ _ (Some 409)) => mret tt
   | Throw _ => lift (Throw StateUnavailable)
   end ≫= fun _ =>
   row ← outcome (call (CreateEntity partitionKey "config" [("saltFingerprint", saltFingerprint)]) deadline);
   match row with
   | Ok _ => mret tt
   | Throw e =>
       config ← outcome (call (GetEntity partitionKey "config") deadline);
       lift (initialize saltFingerprint (Ok tt) (Throw e) (config ≫= config_of))
   end).
Definition ensure_ready (deadline : Z) : io unit := once (initialization deadline).

(** [read]: a row whose [state] does not parse is a failure like any other. *)
Definition row_of (e : entity) : result exn (string * json) :=
  match e_field e "state" with
  | Some state => v ← JSON_parse state; Ok (e_etag e, v)
  | None => Throw (Err "SyntaxError")
  end.
Definition read (key : string) (deadline : Z) : io (option (string * json)) :=
  row ← outcome (call (GetEntity partitionKey key) deadline);
  lift (azure_read (row ≫= row_of)).

Definition get (key : string) (deadline : Z) : io (option (string * json)) :=
  ensure_ready deadline ≫= fun _ => read key deadline.

(** [put]: the write under its tag, and after an error the read-back that tells a
    committed write from a refused one ([StateStore.azure_put]). *)
Definition write_request (key : string) (etag : option string) (value : json) : table_request :=
  let fields := [("state", stringify value)] in
  match etag with
  | None => CreateEntity partitionKey key fields
  | Some tag => ReplaceEntity partitionKey key fields tag
  end.
Definition put (key : string) (etag : option string) (value : json) (deadline : Z) : io bool :=
  ensure_ready deadline ≫= fun _ =>
  if too_large value then lift (Throw StateUnavailable)
  else
    ack ← outcome (call (write_request key etag value) deadline);
    match ack with
    | Ok _ => mret true
    | Throw e =>
        current ← outcome (read key deadline);
        lift (azure_put value (Throw e) current)
    end.

Definition azureDeviceBackend : Backend st := {|
  date_now := now;
  backend_get := get;
  backend_put := put;
|}.
End azure.
