(* ===== verification/StateDeadline.v ===== *)
(** * The issuer's Azure backend: its deadline, and that it is atomic

    Whatever the table client does, a reservation is over by its deadline and makes
    fifteen requests at most; over an honest client in time, the backend keeps the
    promise of [AtomicBackend], so that [StateBackend.reserve_once] applies. A table
    that was set up under another salt answers nobody. *)
From S2P Require Import Prelude JsMap JsText JsJson AppAttest StateStore StateFacts.
From S2P Require Import StateBounds StateTheorems Timed AzureTable StateBackend.

Section azure.
Context {W : Type} (client : table_client W).
Context (JSON_parse : string -> result exn json) (saltFingerprint : string) (timeoutMs : Z).
Context (quota operationTimeoutMs : Z) (keyFor : string -> string).

Abbreviation st := (tstate W table_request).
#[local] Abbreviation call := (StateBackend.call client timeoutMs).
#[local] Abbreviation read := (StateBackend.read client JSON_parse timeoutMs).
#[local] Abbreviation initialization := (StateBackend.initialization client saltFingerprint timeoutMs).
#[local] Abbreviation ensure_ready := (StateBackend.ensure_ready client saltFingerprint timeoutMs).
#[local] Existing Instance azureDeviceBackend.
#[local] Abbreviation azure := (azureDeviceBackend client JSON_parse saltFingerprint timeoutMs).

(** ** Deadlines *)
Lemma call_timely r dl : timely dl 1 (call r dl).
Proof. intros s H Hr. apply timely_bounded; [done..|unfold remaining; lia]. Qed.

Lemma initialization_timely dl : timely dl 3 (initialization dl).
Proof.
  unfold StateBackend.initialization.
  apply (timely_bind dl 1 2); [apply timely_outcome, call_timely|]. intros t.
  apply (timely_bind dl 0 2); [destruct t as [|[? ? [[|p|]|]|]]; repeat case_match; apply timely_lift|].
  intros _. apply (timely_bind dl 1 1); [apply timely_outcome, call_timely|].
  intros [e|e]; [eapply timely_weaken; [apply timely_ret|lia]|].
  apply (timely_bind dl 1 0); [apply timely_outcome, call_timely|]. intros c. apply timely_lift.
Qed.

Lemma ensure_ready_timely dl : timely dl 3 (ensure_ready dl).
Proof. apply timely_once, initialization_timely. Qed.

Lemma read_timely key dl : timely dl 1 (read key dl).
Proof.
  apply (timely_bind dl 1 0); [apply timely_outcome, call_timely|]. intros row. apply timely_lift.
Qed.

(** Once the table is set up it stays so, and costs nothing more. *)
Definition stays_ready {A} (m : io W table_request A) : Prop :=
  forall s, ready s = Ready -> ready (m s).2 = Ready.
Lemma call_ready r dl : stays_ready (call r dl).
Proof.
  intros s H. unfold StateBackend.call, bounded, race. case_match; [done|].
  destruct (client _ _ _ _) as [[lat ans] w]. destruct lat; [case_match|]; done.
Qed.
Lemma outcome_ready {A} (m : io W table_request A) : stays_ready m -> stays_ready (outcome m).
Proof. intros Hm s H. specialize (Hm s H). unfold outcome. by destruct (m s). Qed.
Lemma read_ready key dl : stays_ready (read key dl).
Proof.
  intros s H. pose proof (outcome_ready _ (call_ready (GetEntity partitionKey key) dl) s H) as Hc.
  unfold StateBackend.read, mbind, io_bind. by destruct (outcome _ s) as [[?|?] ?].
Qed.

Lemma ensure_ready_settles dl s :
  match ensure_ready dl s with (Ok _, s') => ready s' = Ready | (Throw _, _) => True end.
Proof.
  unfold StateBackend.ensure_ready, once. destruct (ready s) as [|t out|] eqn:E.
  - destruct (initialization dl s) as [[[]|e] s']; done.
  - by destruct out as [[]|e].
  - done.
Qed.
Lemma ensure_ready_id dl s : ready s = Ready -> ensure_ready dl s = (Ok tt, s).
Proof. unfold StateBackend.ensure_ready, once. by intros ->. Qed.

Definition put_body (key : string) (etag : option string) (value : json) (dl : Z) : io W table_request bool :=
  if too_large value then lift (Throw StateUnavailable)
  else
    ack ← outcome (call (write_request key etag value) dl);
    match ack with
    | Ok _ => mret true
    | Throw e => current ← outcome (read key dl); lift (azure_put value (Throw e) current)
    end.
Lemma put_body_timely key etag v dl : timely dl 2 (put_body key etag v dl).
Proof.
  unfold put_body. destruct (too_large v); [eapply timely_weaken; [apply timely_lift|lia]|].
  apply (timely_bind dl 1 1); [apply timely_outcome, call_timely|].
  intros [e|e]; [eapply timely_weaken; [apply timely_ret|lia]|].
  apply (timely_bind dl 1 0); [apply timely_outcome, read_timely|]. intros c. apply timely_lift.
Qed.
Lemma put_body_ready key etag v dl : stays_ready (put_body key etag v dl).
Proof.
  intros s H. unfold put_body. destruct (too_large v); [done|].
  pose proof (outcome_ready _ (call_ready (write_request key etag v) dl) s H) as Hc.
  unfold mbind, io_bind. destruct (outcome _ s) as [[[?|e]|?] s']; [done| |done].
  pose proof (outcome_ready _ (read_ready key dl) s' Hc) as Hr.
  by destruct (outcome _ s') as [[?|?] ?].
Qed.

(** With the table set up, an attempt costs three requests. *)
Lemma attempts_timely n key c a dl s :
  ready s = Ready -> now s <= dl ->
  fits_in dl (3 * n) s (attempts (B := azure) quota n key c a dl s).2.
Proof.
  revert s. induction n as [|n IH]; intros s Hr Hn;
    [cbn [attempts snd]; apply fits_in_refl; [done|by unfold ready_by; rewrite Hr]|].
  assert (forall s : st, ready s = Ready -> ready_by dl s) as Hby
    by (intros s' E; unfold ready_by; by rewrite E).
  cbn [attempts backend_get backend_put azureDeviceBackend].
  unfold StateBackend.get, mbind, io_bind. rewrite ensure_ready_id by done.
  pose proof (read_timely key dl s Hn (Hby _ Hr)) as Ht. pose proof (read_ready key dl s Hr) as Hr1.
  destruct (read key dl s) as [[prior|e] s1]; simpl in Ht, Hr1; [|eapply fits_in_weaken; [done|lia]].
  destruct (attempt _ _ _ _) as [[r|v]|e]; [eapply fits_in_weaken; [done|lia]| |eapply fits_in_weaken; [done|lia]].
  unfold StateBackend.put, mbind, io_bind. rewrite ensure_ready_id by done.
  change (if too_large v then _ else _) with (put_body key (fst <$> prior) v dl).
  pose proof (put_body_timely key (fst <$> prior) v dl s1 ltac:(apply Ht) (Hby _ Hr1)) as Hp.
  pose proof (put_body_ready key (fst <$> prior) v dl s1 Hr1) as Hr2.
  destruct (put_body _ _ _ _ s1) as [[[]|e] s2]; simpl in Hp, Hr2;
    pose proof (fits_in_trans dl 1 2 s s1 s2 Ht Hp) as H3;
    [eapply fits_in_weaken; [done|lia]| |eapply fits_in_weaken; [done|lia]].
  replace (3 * S n)%nat with (3 + 3 * n)%nat by lia. eapply fits_in_trans; [exact H3|].
  apply IH; [done|apply Hp].
Qed.

(** The first attempt sets the table up, or fails with it. *)
Lemma attempts_ensure n key c a dl s :
  attempts (B := azure) quota (S n) key c a dl s =
  match ensure_ready dl s with
  | (Ok _, s') => attempts (B := azure) quota (S n) key c a dl s'
  | (Throw e, s') => (Throw e, s')
  end.
Proof.
  pose proof (ensure_ready_settles dl s) as Hs. cbn [attempts backend_get azureDeviceBackend].
  unfold StateBackend.get, mbind, io_bind at 1. destruct (ensure_ready dl s) as [[[]|e] s'] eqn:E; [|done].
  unfold io_bind. by rewrite ensure_ready_id by done.
Qed.

(** C14. A reservation over the Azure backend is over by its deadline, [operationTimeoutMs]
    after it began, whatever the table does: answer late, wrongly, or never. Until
    then it makes fifteen requests at most, each before the deadline and, unless the
    deadline is a second away, with a timeout that ends a second before it. *)
Theorem reserve_meets_deadline (c : string) (a : reservation) (s : st) :
  0 <= operationTimeoutMs -> ready_by (now s + operationTimeoutMs) s ->
  fits_in (now s + operationTimeoutMs) 15 s
    (reserve (B := azure) quota operationTimeoutMs keyFor c a s).2.
Proof.
  intros Hop Hr. unfold reserve. destruct (negb _); [cbn [snd]; apply fits_in_refl; [lia|done]|].
  cbn [date_now azureDeviceBackend]. set (dl := now s + operationTimeoutMs) in *.
  rewrite attempts_ensure. pose proof (ensure_ready_timely dl s ltac:(unfold dl; lia) Hr) as He.
  pose proof (ensure_ready_settles dl s) as Hs.
  destruct (ensure_ready dl s) as [[u|e] s1]; simpl in He; [|eapply fits_in_weaken; [done|lia]].
  apply (fits_in_trans dl 3 12 s s1); [done|]. apply (attempts_timely 4); [done|apply He].
Qed.

(** ** Over an honest table *)
Context (rows : W -> string * string -> option entity) (made : W -> Prop) (L : Z).
Context (HT : honest client rows made L) (HL : 0 <= L < timeoutMs).

Definition row_value (e : entity) : option (string * json) :=
  match row_of JSON_parse e with Ok v => Some v | Throw _ => None end.
Definition device_view (s : st) (key : string) : option (string * json) :=
  rows (world s) (partitionKey, key) ≫= row_value.

(** The table is empty, or was set up under the same salt; the rows parse. *)
Definition salted (w : W) : Prop :=
  forall e, rows w (partitionKey, "config") = Some e ->
    e_field e "saltFingerprint" = Some saltFingerprint.
Record azure_good (s : st) : Prop := {
  ag_ready : ready s = NotReady \/ ready s = Ready /\ made (world s);
  ag_salted : salted (world s);
  ag_rows key e : rows (world s) (partitionKey, key) = Some e -> key <> "config" ->
    is_Some (row_value e);
}.

(** An answer that leaves the devices alone. *)
Definition same_devices (s s' : st) : Prop :=
  forall key, key <> "config" -> rows (world s') (partitionKey, key) = rows (world s) (partitionKey, key).

Lemma call_honest r dl s :
  r = CreateTable \/ made (world s) -> now s + L < dl ->
  exists ans s', call r dl s = (ans, s') /\ answered rows made r (world s) ans (world s') /\
    now s <= now s' <= now s + L /\ ready s' = ready s.
Proof. intros Hm Hdl. apply (honest_bounded client rows made L); [done..|unfold remaining; lia]. Qed.

Lemma outcome_of {A} (m : io W table_request A) s r s' : m s = (r, s') -> outcome m s = (Ok r, s').
Proof. unfold outcome. by intros ->. Qed.

(** What the set-up leaves: the table made, the devices as they were. *)
Record set_up (s s' : st) : Prop := {
  su_made : made (world s');
  su_salted : salted (world s');
  su_same : same_devices s s';
  su_now : now s <= now s' <= now s + 3 * L;
}.

(** The set-up once the table is made. *)
Definition config_row (dl : Z) : io W table_request unit :=
  row ← outcome (call (CreateEntity partitionKey "config" [("saltFingerprint", saltFingerprint)]) dl);
  match row with
  | Ok _ => mret tt
  | Throw e =>
      config ← outcome (call (GetEntity partitionKey "config") dl);
      lift (initialize saltFingerprint (Ok tt) (Throw e) (config ≫= config_of))
  end.
Lemma initialization_table dl s :
  now s + L < dl ->
  exists s', initialization dl s = config_row dl s' /\ made (world s') /\
    (forall k, rows (world s') k = rows (world s) k) /\ now s <= now s' <= now s + L.
Proof.
  intros Hdl.
  destruct (call_honest CreateTable dl s ltac:(by left) Hdl) as (a1 & s1 & E1 & (Ha1 & Hm1 & Hr1) & Hn1 & _).
  exists s1. split; [|done]. unfold StateBackend.initialization, mbind, io_bind at 1.
  rewrite (outcome_of _ _ _ _ E1). by destruct Ha1 as [[? ->]|(? & ? & ->)].
Qed.

(** The set-up over an honest table, with a [config] row or without one. *)
Lemma initialization_runs dl s :
  now s + 3 * L < dl ->
  exists s', made (world s') /\ now s <= now s' <= now s + 3 * L /\
    match rows (world s) (partitionKey, "config") with
    | Some e =>
        initialization dl s =
          (if String.eqb (default "" (e_field e "saltFingerprint")) saltFingerprint then Ok tt
           else Throw StateUnavailable, s') /\
        forall k, rows (world s') k = rows (world s) k
    | None =>
        initialization dl s = (Ok tt, s') /\ exists tag, forall k, rows (world s') k =
          if decide (k = (partitionKey, "config")) then Some (Entity tag [("saltFingerprint", saltFingerprint)])
          else rows (world s) k
    end.
Proof.
  intros Hdl. destruct (initialization_table dl s ltac:(lia)) as (s1 & E1 & Hm1 & Hr1 & Hn1).
  destruct (call_honest (CreateEntity partitionKey "config" [("saltFingerprint", saltFingerprint)]) dl s1
    ltac:(by right) ltac:(lia)) as (a2 & s2 & E2 & (Hm2 & Ha2) & Hn2 & _).
  rewrite E1. unfold config_row, mbind, io_bind. rewrite (outcome_of _ _ _ _ E2). rewrite Hr1 in Ha2.
  destruct (rows (world s) (partitionKey, "config")) as [e|] eqn:Ec.
  - destruct Ha2 as [(m & cd & ->) Hr2].
    destruct (call_honest (GetEntity partitionKey "config") dl s2 ltac:(by right) ltac:(lia))
      as (a3 & s3 & E3 & (Hm3 & Hr3 & Ha3) & Hn3 & _).
    rewrite Hr2, Hr1, Ec in Ha3. subst a3. rewrite (outcome_of _ _ _ _ E3).
    exists s3. split_and!; [done|lia..| |].
    + unfold lift, initialize. cbn [mbind result_bind]. unfold config_of. simpl.
      by destruct (String.eqb _ _).
    + intros k. by rewrite Hr3, Hr2, Hr1.
  - destruct Ha2 as [(m & ->) (tag & Hr2)]. exists s2. split_and!; [done|lia..|done|]. exists tag.
    intros k. by rewrite Hr2, Hr1.
Qed.

Lemma initialization_honest dl s :
  salted (world s) -> now s + 3 * L < dl ->
  exists s', initialization dl s = (Ok tt, s') /\ set_up s s'.
Proof.
  intros Hsalt Hdl. destruct (initialization_runs dl s Hdl) as (s' & Hm & Hn & H). exists s'.
  pose proof Hsalt as Hs. unfold salted in Hs. destruct (rows (world s) (partitionKey, "config")) as [e|] eqn:Ec.
  - destruct H as [-> Hr]. rewrite (Hs e eq_refl); simpl; rewrite String.eqb_refl. split; [done|]. split; [done| | |lia].
    + intros e'. rewrite Hr. apply Hsalt.
    + intros key Hk. apply Hr.
  - destruct H as [-> [tag Hr]]. split; [done|]. split; [done| | |lia].
    + intros e'. rewrite Hr, decide_True by done. by intros [= <-].
    + intros key Hk. by rewrite Hr, decide_False by congruence.
Qed.

Lemma ensure_ready_honest dl s :
  azure_good s -> now s + 3 * L < dl ->
  exists s', ensure_ready dl s = (Ok tt, s') /\ azure_good s' /\ set_up s s' /\ ready s' = Ready.
Proof.
  intros [[Hr|[Hr Hm]] Hs Hv] Hdl.
  - destruct (initialization_honest dl s Hs Hdl) as (s' & E & [Hm Hs' Hd Hn]).
    unfold StateBackend.ensure_ready, once. rewrite Hr, E. eexists. split; [done|]. split; [|done].
    split; [by right|done|]. intros key e He Hk. apply (Hv key); [|done]. by rewrite <-Hd.
  - exists s. rewrite ensure_ready_id by done. split; [done|]. split; [by split; [right| |]|].
    split; [|done]. split; [done..|lia].
Qed.

Lemma read_honest key dl s :
  azure_good s -> made (world s) -> key <> "config" -> now s + L < dl ->
  exists s', read key dl s = (Ok (device_view s key), s') /\ (forall k, rows (world s') k = rows (world s) k) /\
    made (world s') /\ ready s' = ready s /\ now s <= now s' <= now s + L.
Proof.
  intros [Hr Hs Hv] Hm Hk Hdl.
  destruct (call_honest (GetEntity partitionKey key) dl s ltac:(by right) Hdl)
    as (ans & s' & E & (Hm' & Hr' & Ha) & Hn & Hr2).
  unfold StateBackend.read, mbind, io_bind. rewrite (outcome_of _ _ _ _ E). exists s'. unfold lift, device_view.
  specialize (Hv key). destruct (rows (world s) (partitionKey, key)) as [e|].
  - subst ans. destruct (Hv e eq_refl Hk) as [v Hrow]. simpl. unfold row_value in Hrow |- *.
    destruct (row_of JSON_parse e); [|done]. injection Hrow as ->. by cbn.
  - destruct Ha as (m & cd & -> & Hcd). cbn [mbind result_bind azure_read option_bind].
    rewrite bool_decide_eq_false_2 by done. done.
Qed.

Lemma put_body_honest key v dl s :
  azure_good s -> made (world s) -> ready s = Ready -> key <> "config" -> now s + L < dl ->
  too_large v = false -> JSON_parse (stringify v) = Ok v ->
  exists s', put_body key (fst <$> device_view s key) v dl s = (Ok true, s') /\ azure_good s' /\
    (snd <$> device_view s' key) = Some v /\
    (forall k, k <> key -> device_view s' k = device_view s k).
Proof.
  intros Hg Hm Hr Hk Hdl Hl Hp. set (r := write_request key (fst <$> device_view s key) v).
  destruct (call_honest r dl s ltac:(by right) Hdl) as (ans & s' & E & Ha & Hn & Hr').
  assert ((exists e, ans = Ok e) /\ made (world s') /\ exists tag, forall k, rows (world s') k =
    if decide (k = (partitionKey, key)) then Some (Entity tag [("state", stringify v)]) else rows (world s) k)
    as ((e & ->) & Hm' & tag & Hrows).
  { pose proof (ag_rows s Hg key) as Hv. subst r. unfold device_view, row_value, row_of in *.
    destruct (rows (world s) (partitionKey, key)) as [en|] eqn:Er; simpl in *.
    - destruct (Hv en eq_refl Hk) as [x Hx]. destruct (e_field en "state") as [t|]; [|done].
      destruct (JSON_parse t); [|done]. simpl in *. rewrite Er in Ha. simpl in Ha.
      rewrite decide_True in Ha by done. naive_solver.
    - rewrite Er in Ha. naive_solver. }
  exists s'. unfold put_body. rewrite Hl. fold r. unfold mbind, io_bind. rewrite (outcome_of _ _ _ _ E).
  split; [done|]. assert (row_value (Entity tag [("state", stringify v)]) = Some (tag, v)) as Hrv
    by (unfold row_value, row_of; simpl; by rewrite Hp).
  split; [|split].
  - destruct Hg as [_ Hs Hv]. split; [right; by rewrite Hr'| |].
    + intros en. rewrite Hrows, decide_False by congruence. apply Hs.
    + intros k en. rewrite Hrows. case_decide as Ek.
      * intros [= <-] _. by rewrite Hrv.
      * apply Hv.
  - unfold device_view. rewrite Hrows, decide_True by done. simpl. by rewrite Hrv.
  - intros k Hne. unfold device_view. rewrite Hrows, decide_False by congruence. done.
Qed.

Definition azure_view (s : st) (key : string) : option (string * json) :=
  if decide (key = "config") then None else device_view s key.

Lemma azure_view_set_up s s' key : set_up s s' -> azure_view s' key = azure_view s key.
Proof.
  intros [_ _ H _]. unfold azure_view, device_view. case_decide; [done|]. by rewrite H.
Qed.

#[export] Program Instance azure_atomic : AtomicBackend st (B := azure) := {
  view := azure_view;
  good := azure_good;
  usable key _ := key <> "config";
  storable v := too_large v = false /\ JSON_parse (stringify v) = Ok v;
  op_cost := 4 * L;
}.
Next Obligation. lia. Qed.
Next Obligation.
  intros key dl s Hg Hk Ht. cbn [backend_get azureDeviceBackend date_now] in *.
  destruct (ensure_ready_honest dl s Hg ltac:(lia)) as (s1 & E1 & Hg1 & Hu & Hr1). pose proof Hu as [Hm _ _ Hn].
  destruct (read_honest key dl s1 Hg1 Hm Hk ltac:(lia)) as (s2 & E2 & Hr2 & Hm2 & Hy & Hn2).
  exists s2. unfold StateBackend.get, mbind, io_bind. rewrite E1, E2.
  pose proof (azure_view_set_up s s1 key Hu) as Hkey. unfold azure_view in Hkey. rewrite decide_False in Hkey by done.
  split; [unfold azure_view; rewrite decide_False by done; by rewrite Hkey, decide_False by done|].
  split; [|split; [done|split; [|lia]]].
  - destruct Hg1 as [_ Hs Hv]. split; [right; by rewrite Hy| |].
    + intros e. rewrite Hr2. apply Hs.
    + intros k e. rewrite Hr2. apply Hv.
  - intros k. rewrite <-(azure_view_set_up s s1 k Hu). unfold azure_view, device_view. case_decide; [done|].
    by rewrite Hr2.
Qed.
Next Obligation.
  intros key v dl s Hg Hk Ht [Hl Hp]. cbn [backend_put azureDeviceBackend date_now] in *.
  destruct (ensure_ready_honest dl s Hg ltac:(lia)) as (s1 & E1 & Hg1 & Hu & Hr1). pose proof Hu as [Hm _ _ Hn].
  destruct (put_body_honest key v dl s1 Hg1 Hm Hr1 Hk ltac:(lia) Hl Hp) as (s2 & E2 & Hg2 & Hv2 & Hw2).
  pose proof (azure_view_set_up s s1 key Hu) as Hkey. unfold azure_view in Hkey. rewrite !decide_False in Hkey by done.
  exists s2. unfold StateBackend.put, mbind, io_bind. rewrite E1.
  change (if too_large v then _ else _) with (put_body key (fst <$> azure_view s key) v dl).
  assert (azure_view s key = device_view s1 key) as -> by (unfold azure_view; by rewrite decide_False, Hkey by done).
  split; [done|]. split; [done|]. split; [unfold azure_view; by rewrite decide_False by done|].
  intros k Hne. rewrite <-(azure_view_set_up s s1 k Hu). unfold azure_view. case_decide; [done|]. by apply Hw2.
Qed.

(** Whatever [reserve] decides to write fits a row. *)
Lemma attempt_fits c a prior v :
  reservation_ok a = true -> slen c <= 36 -> attempt quota c a prior = Ok (inr v) -> too_large v = false.
Proof.
  intros Ha Hc Hv. pose proof Hv as Hv'. unfold attempt in Hv'.
  apply bind_Ok in Hv' as (record & Hr%read_prior_Ok & _).
  pose proof (proj1 (attempt_writes quota c a prior record v Ha Hr) Hv) as [Had ->].
  apply record_fits; [|done]. by apply (attempt_record_ok quota a prior record).
Qed.

(** C15. The two backends serve one user alike. An Azure table whose every request is
    answered within [L] milliseconds, eight of which make no more than the time of
    an operation, and the rows in memory: if they hold the same records then a
    reservation gets the same answer from both, and they hold the same records
    afterwards. *)
Theorem backends_agree (maxKeys : Z) (c : string) (a : reservation) (s : st) (t : Z) (m : memory) :
  let key := keyFor (v_keyId a) in
  azure_good s -> key <> "config" -> room maxKeys m key -> 8 * L < operationTimeoutMs -> slen c <= 36 ->
  (forall v, (reservation_effect quota c a (snd <$> azure_view s key)).2 = Some v ->
     JSON_parse (stringify v) = Ok v) ->
  (forall k, snd <$> azure_view s k = snd <$> memory_get m k) ->
  let '(r, s') := reserve (B := azure) quota operationTimeoutMs keyFor c a s in
  let '(r', (_, m')) := reserve (B := memoryDeviceBackend maxKeys) quota operationTimeoutMs keyFor c a (t, m) in
  r = r' /\ azure_good s' /\ forall k, snd <$> azure_view s' k = snd <$> memory_get m' k.
Proof.
  intros key Hg Hk Hroom Ht Hc HJ Hsame.
  pose proof (reserve_effect (A := azure_atomic) quota operationTimeoutMs keyFor c a s Hg Hk ltac:(simpl; lia)) as H1.
  pose proof (reserve_effect (A := memory_atomic maxKeys) quota operationTimeoutMs keyFor c a (t, m) I Hroom
    ltac:(simpl; lia) ltac:(done)) as H2.
  cbn [view azure_atomic memory_atomic snd storable good] in H1, H2. rewrite <-Hsame in H2. fold key in H1, H2.
  destruct (reserve _ _ _ c a s) as [r s']. destruct (reserve _ _ _ c a (t, m)) as [r' [t' m']].
  destruct H1 as (-> & Hg' & H1).
  { intros v Hv. split; [|by apply HJ]. unfold reservation_effect in Hv.
    destruct (reservation_ok a) eqn:Ha; [|done]. simpl in Hv.
    destruct (attempt _ _ _ _) as [[?|?]|?] eqn:E; try done. injection Hv as ->. by eapply attempt_fits. }
  destruct H2 as (-> & _ & H2). split; [done|]. split; [done|]. intros k. cbn [snd] in H2. rewrite H1, H2.
  repeat case_match; by rewrite ?Hsame.
Qed.

(** ** Another salt *)

(** C37. Over an honest table that was set up under another salt nobody is answered and
    no device's row is written: [get] and [put] fail, and the next try fails again. *)
Theorem wrong_salt_fails_closed (key : string) (etag : option string) (v : json) (dl : Z) (s : st) (e : entity) :
  ready s = NotReady -> rows (world s) (partitionKey, "config") = Some e ->
  default "" (e_field e "saltFingerprint") <> saltFingerprint -> now s + 3 * L < dl ->
  exists s', backend_get (Backend := azure) key dl s = (Throw StateUnavailable, s') /\
    backend_put (Backend := azure) key etag v dl s = (Throw StateUnavailable, s') /\
    ready s' = NotReady /\ forall k, rows (world s') k = rows (world s) k.
Proof.
  intros Hr He Hne Hdl.
  destruct (initialization_runs dl s Hdl) as (s' & _ & _ & H). rewrite He in H.
  destruct H as [E Hrows]. rewrite (proj2 (String.eqb_neq _ _) Hne) in E.
  exists (TState _ _ (now s') (world s') NotReady (sent s')).
  cbn [backend_get backend_put azureDeviceBackend].
  unfold StateBackend.get, StateBackend.put, mbind, io_bind, StateBackend.ensure_ready, once. by rewrite Hr, E.
Qed.
End azure.

(** ** Witnesses: a table that never answers, and one that takes 100 ms a request *)
Module Azure.
Definition silent : table_client unit := fun _ _ _ w => (None, Throw (Err "never"), w).
Definition table100 : table_client table := memory_table (fun _ => 100).
Definition written : json := record_json "c" (DeviceRecord "PEM" 0 7 [("7", 4)]).
Definition parse (s : string) : result exn json :=
  if String.eqb s (stringify written) then Ok written else Throw (Err "SyntaxError").
Definition start (w : table) : tstate table table_request := TState _ _ 1000 w NotReady [].
Definition other_salt : table :=
  Table true {[ (partitionKey, "config") := Entity "0" [("saltFingerprint", "old")] ]} 1.

Example granted_in_time :
  let '(r, s) := reserve (B := azureDeviceBackend table100 parse "salt" 5000) 10 8000 id "c" Run.register
    (start (Table false ∅ 0)) in
  r = Ok Granted /\ now s = 1400 /\ length (sent s) = 4%nat.
Proof. vm_compute. done. Qed.
End Azure.

Lemma reserve_meets_deadline_witness :
  let '(r, s) := reserve (B := azureDeviceBackend Azure.silent Azure.parse "salt" 5000) 10 8000 id "c" Run.register
    (TState _ _ 0 tt NotReady []) in
  r = Throw StateUnavailable /\ now s <= 8000.
Proof.
  pose proof (reserve_meets_deadline Azure.silent Azure.parse "salt" 5000 10 8000 id "c" Run.register
    (TState _ _ 0 tt NotReady []) ltac:(lia) I) as H.
  destruct (reserve _ _ _ _ _ _) as [r s] eqn:E.
  split; [|apply H]. apply (f_equal fst) in E. vm_compute in E. by rewrite <-E.
Defined.

Lemma backends_agree_witness :
  (reserve (B := azureDeviceBackend Azure.table100 Azure.parse "salt" 5000) 10 8000 id "c" Run.register
    (Azure.start (Table false ∅ 0))).1 =
  (reserve (B := memoryDeviceBackend 5) 10 8000 id "c" Run.register (0, Memory [] 0)).1.
Proof.
  pose proof (backends_agree Azure.table100 Azure.parse "salt" 5000 10 8000 id
    (fun w k => t_rows w !! k) (fun w => t_made w = true) 100
    (memory_table_honest (fun _ => 100) 100 ltac:(intros; lia)) ltac:(lia)
    5 "c" Run.register (Azure.start (Table false ∅ 0)) 0 (Memory [] 0)) as H.
  cbv zeta in H. destruct (reserve _ _ _ _ _ (Azure.start _)) as [r s'].
  destruct (reserve _ _ _ _ _ (0, _)) as [r' [t' m']]. simpl. apply H.
  - split; [by left| |]; intros *; discriminate.
  - discriminate.
  - intros _. reflexivity.
  - lia.
  - unfold slen. simpl. lia.
  - intros v Hv. vm_compute in Hv. injection Hv as <-. vm_compute. reflexivity.
  - intros k. unfold azure_view, device_view. simpl. case_decide; reflexivity.
Defined.

Lemma wrong_salt_fails_closed_witness : exists s',
  backend_get (Backend := azureDeviceBackend Azure.table100 Azure.parse "salt" 5000) "k" 9000
    (Azure.start Azure.other_salt) = (Throw StateUnavailable, s').
Proof.
  destruct (wrong_salt_fails_closed Azure.table100 Azure.parse "salt" 5000
    (fun w k => t_rows w !! k) (fun w => t_made w = true) 100
    (memory_table_honest (fun _ => 100) 100 ltac:(intros; lia)) ltac:(lia)
    "k" None JNull 9000 (Azure.start Azure.other_salt) (Entity "0" [("saltFingerprint", "old")]))
    as (s' & H & _); [reflexivity|reflexivity|discriminate|simpl; lia|]. exists s'. exact H.
Defined.
