(* ===== verification/Redemption.v ===== *)
(** * Token redemption ([ohttp-relay/redemption-store.js])

    A token is spent at most once: [memory_redeem] is the in-memory store, and the
    steps of [rstep] interleave any number of calls of the Azure store, whose rows
    are created and never changed. A create may be acknowledged, refused, lost, or
    carried out after its call has given up; the call then reads the row back and
    compares the claim. *)
From S2P Require Import Prelude JsMap JsText.
From Stdlib Require Import Ascii.

Definition RedemptionUnavailable : exn :=
  Exn "redemption_state_unavailable" (Some "state_unavailable") None.

(** ** The in-memory store *)
Definition redemption_key (fingerprint nullifier : string) : string :=
  fingerprint +:+ ":" +:+ nullifier.

Definition memory_redeem (maxKeys : Z) (spent : list string) (fingerprint nullifier : string) :
    result exn bool * list string :=
  let key := redemption_key fingerprint nullifier in
  if bool_decide (key ∈ spent) then (Ok false, spent)
  else if Z.of_nat (length spent) >=? maxKeys then (Throw RedemptionUnavailable, spent)
  else (Ok true, spent ++ [key]).

(** A sequence of redemptions and their answers. *)
Fixpoint redeem_all (maxKeys : Z) (spent : list string) (l : list (string * string)) :
    list (result exn bool) * list string :=
  match l with
  | [] => ([], spent)
  | (fp, nul) :: l' =>
      let '(r, spent) := memory_redeem maxKeys spent fp nul in
      let '(rs, spent) := redeem_all maxKeys spent l' in
      (r :: rs, spent)
  end.

(** ** The Azure store *)

(** [/^[a-f0-9]{64}$/]. *)
Definition hex_char (c : ascii) : bool :=
  is_digit c || ((97 <=? code c) && (code c <=? 102)).
Definition hex64 (s : string) : bool :=
  let l := String.list_ascii_of_string s in
  Nat.eqb (length l) 64 && forallb hex_char l.

(** A row created by [createEntity]: partition and row key, and the claim. *)
Definition row_key (fingerprint nullifier : string) : string * string :=
  ("spent-v1-" +:+ fingerprint, nullifier).

(** The end of [redeem] once the create threw: [back] is the outcome of [getEntity]
    as the claim of the row. *)
Definition after_failed_create (claimID : string) (back : result exn string) : result exn bool :=
  match back with
  | Ok claim => Ok (bool_decide (claim = claimID))
  | Throw _ => Throw RedemptionUnavailable
  end.

(** What has become of a create. *)
Inductive rfate : Type := RInFlight | RCommitted | RRejected | RLost.

Record rcall := RCall { rc_fingerprint : string; rc_nullifier : string }.
Definition rc_key (c : rcall) : string * string := row_key (rc_fingerprint c) (rc_nullifier c).

(** The table, the calls with their answers, and the creates: a create outlives its
    call, so its fate is kept apart. *)
Record rsys := RSys {
  r_rows : gmap (string * string) nat;
  r_calls : gmap nat (rcall * option (result exn bool) * bool);
  r_writes : gmap nat rfate;
}.

Section azure.
(** [crypto.randomUUID()] of the n-th call. A row holds the number of the call
    whose claim it carries. *)
Context (uuid : nat -> string).

Definition begin_redeem (c : rcall) : option (result exn bool) :=
  if negb (hex64 (rc_fingerprint c)) || negb (hex64 (rc_nullifier c))
  then Some (Throw RedemptionUnavailable) else None.

(** A call is [(c, answer, waiting)]: [waiting] while the create is awaited, then
    the row is read back. *)
Inductive rstep : rsys -> rsys -> Prop :=
| rstep_refuse rows calls ws i c :
    calls !! i = None -> begin_redeem c = Some (Throw RedemptionUnavailable) ->
    rstep (RSys rows calls ws)
      (RSys rows (<[i := (c, Some (Throw RedemptionUnavailable), false)]> calls) ws)
| rstep_no_table rows calls ws i c :
    calls !! i = None -> begin_redeem c = None ->
    rstep (RSys rows calls ws)
      (RSys rows (<[i := (c, Some (Throw RedemptionUnavailable), false)]> calls) ws)
| rstep_create rows calls ws i c :
    calls !! i = None -> begin_redeem c = None ->
    rstep (RSys rows calls ws)
      (RSys rows (<[i := (c, None, true)]> calls) (<[i := RInFlight]> ws))
| rstep_commit rows calls ws i c out w :
    calls !! i = Some (c, out, w) -> ws !! i = Some RInFlight -> rows !! rc_key c = None ->
    rstep (RSys rows calls ws) (RSys (<[rc_key c := i]> rows) calls (<[i := RCommitted]> ws))
| rstep_reject rows calls ws i c out w :
    calls !! i = Some (c, out, w) -> ws !! i = Some RInFlight -> is_Some (rows !! rc_key c) ->
    rstep (RSys rows calls ws) (RSys rows calls (<[i := RRejected]> ws))
| rstep_lose rows calls ws i :
    ws !! i = Some RInFlight ->
    rstep (RSys rows calls ws) (RSys rows calls (<[i := RLost]> ws))
| rstep_ack rows calls ws i c :
    calls !! i = Some (c, None, true) -> ws !! i = Some RCommitted ->
    rstep (RSys rows calls ws) (RSys rows (<[i := (c, Some (Ok true), false)]> calls) ws)
| rstep_error rows calls ws i c :
    calls !! i = Some (c, None, true) ->
    rstep (RSys rows calls ws) (RSys rows (<[i := (c, None, false)]> calls) ws)
| rstep_check rows calls ws i c back :
    calls !! i = Some (c, None, false) ->
    (forall j, rows !! rc_key c = Some j -> back = Ok (uuid j) \/ exists e, back = Throw e) ->
    (rows !! rc_key c = None -> exists e, back = Throw e) ->
    rstep (RSys rows calls ws)
      (RSys rows (<[i := (c, Some (after_failed_create (uuid i) back), false)]> calls) ws).
End azure.

(** ** Keys *)
Lemma row_key_inj fp1 n1 fp2 n2 : row_key fp1 n1 = row_key fp2 n2 -> fp1 = fp2 /\ n1 = n2.
Proof.
  intros H. pose proof (f_equal fst H) as H1. pose proof (f_equal snd H) as H2.
  simpl in H1, H2. by injection H1.
Qed.

(** The colon separates: a fingerprint holds hexadecimal digits only. *)
Lemma hex_no_colon s : hex64 s = true -> ":"%char ∉ String.list_ascii_of_string s.
Proof.
  unfold hex64. rewrite andb_true_iff, forallb_forall. intros [_ H] Hin%list_elem_of_In.
  by apply H in Hin.
Qed.

Lemma redemption_key_inj fp1 n1 fp2 n2 :
  hex64 fp1 = true -> hex64 fp2 = true ->
  redemption_key fp1 n1 = redemption_key fp2 n2 -> fp1 = fp2 /\ n1 = n2.
Proof.
  intros H1%hex_no_colon H2%hex_no_colon E. unfold redemption_key in E.
  apply (f_equal String.list_ascii_of_string) in E. rewrite !list_of_string_app in E.
  simpl in E.
  apply split_at_sep in E as [?%string_of_list_inj ?%string_of_list_inj]; done.
Qed.

(** ** The in-memory store spends once *)
Lemma redeem_grows maxKeys l spent : spent ⊆ (redeem_all maxKeys spent l).2.
Proof.
  revert spent. induction l as [|[fp n] l IH]; intros spent; simpl; [done|].
  destruct (memory_redeem maxKeys spent fp n) as [r spent'] eqn:E.
  specialize (IH spent'). destruct (redeem_all maxKeys spent' l) as [rs spent'']. simpl in *.
  unfold memory_redeem in E. repeat case_match; simplify_eq; set_solver.
Qed.

Lemma redeem_spent maxKeys l spent i fp n :
  redemption_key fp n ∈ spent -> l !! i = Some (fp, n) ->
  (redeem_all maxKeys spent l).1 !! i = Some (Ok false).
Proof.
  revert spent i. induction l as [|[fp' n'] l IH]; intros spent i Hin Hi; [done|]. simpl.
  destruct (memory_redeem maxKeys spent fp' n') as [r spent'] eqn:E.
  assert (spent ⊆ spent') as Hsub.
  { unfold memory_redeem in E. repeat case_match; simplify_eq; set_solver. }
  destruct i as [|i]; simpl in Hi.
  - injection Hi as -> ->. unfold memory_redeem in E. rewrite bool_decide_true in E by done.
    injection E as <- <-. by destruct (redeem_all maxKeys spent l).
  - specialize (IH spent' i (Hsub _ Hin) Hi). by destruct (redeem_all maxKeys spent' l).
Qed.

Lemma redeem_true_spent maxKeys spent fp n spent' :
  memory_redeem maxKeys spent fp n = (Ok true, spent') -> redemption_key fp n ∈ spent'.
Proof. unfold memory_redeem. intros H. repeat case_match; simplify_eq. set_solver. Qed.

(** The in-memory store accepts a token at most once and remembers it: in any
    sequence of redemptions, after the one that is accepted every later one of the
    same token is refused. *)
Theorem memory_spends_once (maxKeys : Z) (l : list (string * string)) (spent : list string)
    (i j : nat) (fp n : string) :
  (i < j)%nat -> l !! i = Some (fp, n) -> l !! j = Some (fp, n) ->
  (redeem_all maxKeys spent l).1 !! i = Some (Ok true) ->
  (redeem_all maxKeys spent l).1 !! j = Some (Ok false).
Proof.
  revert spent i j. induction l as [|[fp' n'] l IH]; intros spent i j Hij Hi Hj Ht; [done|].
  simpl in *. destruct (memory_redeem maxKeys spent fp' n') as [r spent'] eqn:E.
  destruct j as [|j]; [lia|]. destruct i as [|i]; simpl in Hi, Hj.
  - injection Hi as -> ->.
    pose proof (fun H => redeem_spent maxKeys l spent' j fp n H Hj) as Hs.
    destruct (redeem_all maxKeys spent' l) as [rs sp]. simpl in *. injection Ht as ->.
    by apply Hs, (redeem_true_spent maxKeys spent).
  - specialize (IH spent' i j ltac:(lia) Hi Hj).
    destruct (redeem_all maxKeys spent' l) as [rs sp]. by apply IH.
Qed.

(** Exactly what the in-memory store answers: it accepts a token it has not
    seen while it has room, refuses one it has seen even when it is full, and is
    unavailable for a new one when full; two tokens never share an entry. *)
Theorem memory_redeem_spec (maxKeys : Z) (spent : list (string * string)) (fp n : string) :
  hex64 fp = true -> Forall (fun t => hex64 t.1 = true) spent ->
  let keys := (fun t => redemption_key t.1 t.2) <$> spent in
  memory_redeem maxKeys keys fp n =
  if bool_decide ((fp, n) ∈ spent) then (Ok false, keys)
  else if Z.of_nat (length spent) >=? maxKeys then (Throw RedemptionUnavailable, keys)
  else (Ok true, (fun t => redemption_key t.1 t.2) <$> (spent ++ [(fp, n)])).
Proof.
  intros Hfp Hs keys. unfold memory_redeem, keys.
  assert (redemption_key fp n ∈ (fun t => redemption_key t.1 t.2) <$> spent <-> (fp, n) ∈ spent) as Hin.
  { rewrite list_elem_of_fmap. split.
    - intros ([fp' n'] & E & Hin). rewrite Forall_forall in Hs. specialize (Hs _ Hin). simpl in *.
      by apply redemption_key_inj in E as [-> ->].
    - intros Hin. by exists (fp, n). }
  rewrite (bool_decide_ext _ _ Hin), length_fmap, fmap_app. done.
Qed.

(** ** The Azure store *)
Section azure_facts.
Context (uuid : nat -> string) `{uuid_inj : !Inj (=) (=) uuid}.

Inductive rreachable : rsys -> Prop :=
| rreach_start : rreachable (RSys ∅ ∅ ∅)
| rreach_step s s' : rreachable s -> rstep uuid s s' -> rreachable s'.

Record RInv (s : rsys) : Prop := {
  ri_row k i : r_rows s !! k = Some i ->
    r_writes s !! i = Some RCommitted /\ exists c out w, r_calls s !! i = Some (c, out, w) /\ rc_key c = k;
  ri_committed i c out w : r_calls s !! i = Some (c, out, w) -> r_writes s !! i = Some RCommitted ->
    r_rows s !! rc_key c = Some i;
  ri_true i c w : r_calls s !! i = Some (c, Some (Ok true), w) -> r_rows s !! rc_key c = Some i;
  ri_false i c w : r_calls s !! i = Some (c, Some (Ok false), w) ->
    exists j, j <> i /\ r_rows s !! rc_key c = Some j;
  ri_fresh i : r_calls s !! i = None -> r_writes s !! i = None;
}.

(** A step that gives a call an answer, or starts it. *)
Lemma rinv_call rows calls ws ws' i c out w :
  RInv (RSys rows calls ws) ->
  (forall c' out' w', calls !! i = Some (c', out', w') -> c' = c) ->
  (forall j, j <> i -> ws' !! j = ws !! j) ->
  (ws' !! i = Some RCommitted <-> ws !! i = Some RCommitted) ->
  (out = Some (Ok true) -> rows !! rc_key c = Some i) ->
  (out = Some (Ok false) -> exists j, j <> i /\ rows !! rc_key c = Some j) ->
  RInv (RSys rows (<[i := (c, out, w)]> calls) ws').
Proof.
  intros [I1 I2 I3 I4 I5] Hc Hws Hi Ht Hf. split; simpl in *.
  - intros k j Hk. destruct (I1 k j Hk) as (Hw & c' & out' & w' & Hj & <-).
    destruct (decide (j = i)) as [->|Hne].
    + rewrite Hi. split; [done|]. rewrite lookup_insert_eq. apply Hc in Hj as ->. eauto.
    + rewrite Hws, lookup_insert_ne by done. eauto 6.
  - intros j c' out' w' Hj Hw. destruct (decide (j = i)) as [->|Hne].
    + rewrite lookup_insert_eq in Hj. injection Hj as <- <- <-. apply Hi in Hw.
      destruct (calls !! i) as [[[c' out'] w']|] eqn:E.
      * rewrite <-(Hc _ _ _ eq_refl). by apply (I2 _ _ _ _ E).
      * apply I5 in E. congruence.
    + rewrite lookup_insert_ne in Hj by done. rewrite Hws in Hw by done. by apply (I2 j c' out' w').
  - intros j c' w' Hj. destruct (decide (j = i)) as [->|Hne].
    + rewrite lookup_insert_eq in Hj. injection Hj as <- Ho _. by apply Ht.
    + rewrite lookup_insert_ne in Hj by done. by apply (I3 j c' w').
  - intros j c' w' Hj. destruct (decide (j = i)) as [->|Hne].
    + rewrite lookup_insert_eq in Hj. injection Hj as <- Ho _. by apply Hf.
    + rewrite lookup_insert_ne in Hj by done. by apply (I4 j c' w').
  - intros j Hj. apply lookup_insert_None in Hj as [Hj Hne]. rewrite Hws by done. by apply I5.
Qed.

Lemma rinv_drop rows calls ws i f :
  RInv (RSys rows calls ws) -> ws !! i = Some RInFlight -> f <> RCommitted ->
  RInv (RSys rows calls (<[i := f]> ws)).
Proof.
  intros [I1 I2 I3 I4 I5] Hi Hf. split; simpl in *; try done.
  - intros k j Hk. destruct (I1 k j Hk) as [Hw ?]. rewrite lookup_insert_ne; [done|congruence].
  - intros j c out w Hj Hw. apply lookup_insert_Some in Hw as [[_ ?]|[_ Hw]]; [done|].
    by apply (I2 j c out w).
  - intros j Hj. apply I5 in Hj. rewrite lookup_insert_ne; [done|congruence].
Qed.

Lemma rinv_commit rows calls ws i c out w :
  RInv (RSys rows calls ws) -> calls !! i = Some (c, out, w) -> ws !! i = Some RInFlight ->
  rows !! rc_key c = None ->
  RInv (RSys (<[rc_key c := i]> rows) calls (<[i := RCommitted]> ws)).
Proof.
  intros [I1 I2 I3 I4 I5] Hc Hi Hr. split; simpl in *.
  - intros k j Hk. apply lookup_insert_Some in Hk as [[<- <-]|[Hne Hk]].
    + rewrite lookup_insert_eq. eauto 6.
    + destruct (I1 k j Hk) as [Hw ?]. rewrite lookup_insert_ne; [done|congruence].
  - intros j c' out' w' Hj Hw. apply lookup_insert_Some in Hw as [[<- _]|[Hne Hw]].
    + rewrite Hc in Hj. injection Hj as <- <- <-. by rewrite lookup_insert_eq.
    + pose proof (I2 j c' out' w' Hj Hw). rewrite lookup_insert_ne; [done|congruence].
  - intros j c' w' Hj. pose proof (I3 j c' w' Hj). rewrite lookup_insert_ne; [done|congruence].
  - intros j c' w' Hj. destruct (I4 j c' w' Hj) as (j' & ? & ?). exists j'. split; [done|].
    rewrite lookup_insert_ne; [done|congruence].
  - intros j Hj. apply I5 in Hj. rewrite lookup_insert_ne; [done|congruence].
Qed.

Lemma rreachable_inv s : rreachable s -> RInv s.
Proof.
  induction 1 as [|s s' _ IH Hs].
  { split; simpl; intros *; rewrite ?lookup_empty; done. }
  destruct Hs as [rows calls ws i c Hi Hb|rows calls ws i c Hi Hb|rows calls ws i c Hi Hb
    |rows calls ws i c out w Hi Hw Hr|rows calls ws i c out w Hi Hw Hr|rows calls ws i Hw
    |rows calls ws i c Hi Hw|rows calls ws i c Hi|rows calls ws i c back Hi Hs1 Hs2].
  - apply (rinv_call _ _ ws); try done. intros *. by rewrite Hi.
  - apply (rinv_call _ _ ws); try done. intros *. by rewrite Hi.
  - apply (rinv_call _ _ ws); try done; [intros *; by rewrite Hi| |].
    + intros j Hj. by rewrite lookup_insert_ne.
    + rewrite lookup_insert_eq. pose proof (ri_fresh _ IH i Hi) as Hn. simpl in Hn. rewrite Hn.
      split; congruence.
  - by apply (rinv_commit _ _ _ _ _ out w).
  - by apply rinv_drop.
  - by apply rinv_drop.
  - apply (rinv_call _ _ ws); try done; [intros *; rewrite Hi; congruence|].
    intros _. by apply (ri_committed _ IH i c _ _ Hi).
  - apply (rinv_call _ _ ws); try done. intros *. rewrite Hi. congruence.
  - apply (rinv_call _ _ ws); try done; [intros *; rewrite Hi; congruence| |].
    + destruct (rows !! rc_key c) as [j|] eqn:E.
      * destruct (Hs1 j eq_refl) as [->|[e ->]]; simpl; [|done].
        intros [= H%bool_decide_eq_true_1%(inj uuid)]. by subst.
      * destruct (Hs2 eq_refl) as [e ->]. done.
    + destruct (rows !! rc_key c) as [j|] eqn:E.
      * destruct (Hs1 j eq_refl) as [->|[e ->]]; simpl; [|done].
        intros [= H%bool_decide_eq_false_1]. exists j. split; [|done]. by intros ->.
      * destruct (Hs2 eq_refl) as [e ->]. done.
Qed.

(** A token is spent at most once, by whatever replicas and calls: no two
    calls for one token are both answered [true], with creates racing, refused,
    acknowledged late or never, or carried out after their call gave up. *)
Theorem azure_spends_once (s : rsys) (i j : nat) (c d : rcall) (w w' : bool) :
  rreachable s -> i <> j ->
  r_calls s !! i = Some (c, Some (Ok true), w) -> r_calls s !! j = Some (d, Some (Ok true), w') ->
  (rc_fingerprint c, rc_nullifier c) <> (rc_fingerprint d, rc_nullifier d).
Proof.
  intros HI%rreachable_inv Hne Hi%(ri_true _ HI) Hj%(ri_true _ HI) [= H1 H2].
  unfold rc_key in *. rewrite H1, H2 in Hi. congruence.
Qed.

(** A token is refused as spent only when another call has claimed it: the
    answer [false] is never given to the call whose own create was carried out,
    even when its acknowledgment was lost. *)
Theorem azure_refuses_soundly (s : rsys) (i : nat) (c : rcall) (w : bool) :
  rreachable s -> r_calls s !! i = Some (c, Some (Ok false), w) ->
  r_writes s !! i <> Some RCommitted /\
  exists j d out w', j <> i /\ r_calls s !! j = Some (d, out, w') /\
    (rc_fingerprint d, rc_nullifier d) = (rc_fingerprint c, rc_nullifier c) /\
    r_writes s !! j = Some RCommitted.
Proof.
  intros HI%rreachable_inv Hi. destruct (ri_false _ HI i c w Hi) as (j & Hne & Hr).
  split.
  - intros Hw. pose proof (ri_committed _ HI _ _ _ _ Hi Hw). congruence.
  - destruct (ri_row _ HI _ _ Hr) as (Hw & d & out & w' & Hj & Hk).
    exists j, d, out, w'. apply row_key_inj in Hk as [-> ->]. done.
Qed.
End azure_facts.

(** ** Witnesses *)
Module RedeemRun.
Definition fp : string := String.string_of_list_ascii (replicate 64 "a"%char).
Definition fp' : string := String.string_of_list_ascii (replicate 64 "b"%char).
Definition token : rcall := RCall fp fp.
Definition other : rcall := RCall fp fp'.
Definition uuid (n : nat) : string := js_dec (Z.of_nat n).
#[export] Instance uuid_inj : Inj (=) (=) uuid.
Proof. intros a b H%js_dec_inj. lia. Qed.
Abbreviation reached := (rreachable uuid).

(** One call from its create to its acknowledgment. *)
Lemma redeemed rows calls ws i c :
  reached (RSys rows calls ws) -> calls !! i = None -> begin_redeem c = None ->
  rows !! rc_key c = None ->
  reached (RSys (<[rc_key c := i]> rows)
    (<[i := (c, Some (Ok true), false)]> (<[i := (c, None, true)]> calls))
    (<[i := RCommitted]> (<[i := RInFlight]> ws))).
Proof.
  intros Hr Hi Hb Hn. eapply rreach_step; [|apply rstep_ack; [apply lookup_insert_eq|apply lookup_insert_eq]].
  eapply rreach_step; [|eapply rstep_commit; [apply lookup_insert_eq|apply lookup_insert_eq|done]].
  eapply rreach_step; [exact Hr|]. by apply rstep_create.
Qed.

(** One call whose create fails and whose read-back finds another claim. *)
Lemma refused rows calls ws i j c :
  reached (RSys rows calls ws) -> calls !! i = None -> begin_redeem c = None ->
  rows !! rc_key c = Some j ->
  reached (RSys rows
    (<[i := (c, Some (after_failed_create (uuid i) (Ok (uuid j))), false)]>
      (<[i := (c, None, false)]> (<[i := (c, None, true)]> calls)))
    (<[i := RInFlight]> ws)).
Proof.
  intros Hr Hi Hb Hn.
  eapply rreach_step; [|eapply rstep_check; [apply lookup_insert_eq| |by rewrite Hn]].
  2:{ intros j' Hj. rewrite Hn in Hj. injection Hj as <-. by left. }
  eapply rreach_step; [|apply rstep_error, lookup_insert_eq].
  eapply rreach_step; [exact Hr|]. by apply rstep_create.
Qed.
End RedeemRun.
#[local] Existing Instance RedeemRun.uuid_inj.

Lemma memory_spends_once_witness :
  (redeem_all 2 [] [("a", "1"); ("b", "1"); ("a", "1")]).1 !! 2%nat = Some (Ok false).
Proof. apply (memory_spends_once 2 _ [] 0 2 "a" "1"); [lia|reflexivity..]. Defined.

Lemma memory_redeem_spec_witness :
  memory_redeem 1 [redemption_key RedeemRun.fp "1"] RedeemRun.fp "2"
  = (Throw RedemptionUnavailable, [redemption_key RedeemRun.fp "1"]).
Proof.
  etransitivity; [apply (memory_redeem_spec 1 [(RedeemRun.fp, "1")] RedeemRun.fp "2")|];
    [reflexivity|constructor; [reflexivity|constructor]|reflexivity].
Defined.

Lemma azure_spends_once_witness :
  (RedeemRun.fp, RedeemRun.fp) <> (RedeemRun.fp, RedeemRun.fp').
Proof.
  pose proof (RedeemRun.redeemed ∅ ∅ ∅ 0 RedeemRun.token (rreach_start _)
    eq_refl ltac:(vm_compute; reflexivity) eq_refl) as H0.
  pose proof (RedeemRun.redeemed _ _ _ 1 RedeemRun.other H0
    ltac:(vm_compute; reflexivity) ltac:(vm_compute; reflexivity) ltac:(vm_compute; reflexivity)) as H1.
  apply (azure_spends_once RedeemRun.uuid _ 0 1 RedeemRun.token RedeemRun.other false false H1);
    [lia|vm_compute; reflexivity..].
Defined.

Lemma azure_refuses_soundly_witness : exists s,
  rreachable RedeemRun.uuid s /\ r_writes s !! 1%nat <> Some RCommitted.
Proof.
  pose proof (RedeemRun.redeemed ∅ ∅ ∅ 0 RedeemRun.token (rreach_start _)
    eq_refl ltac:(vm_compute; reflexivity) eq_refl) as H0.
  pose proof (RedeemRun.refused _ _ _ 1 0 RedeemRun.token H0
    ltac:(vm_compute; reflexivity) ltac:(vm_compute; reflexivity) ltac:(vm_compute; reflexivity)) as H1.
  eexists. split; [exact H1|].
  apply (azure_refuses_soundly RedeemRun.uuid _ 1 RedeemRun.token false H1).
  vm_compute. reflexivity.
Defined.
