(* ===== verification/RedeemDeadline.v ===== *)
(** * The relay's Azure store: its deadline, and that it spends like the one in memory

    [azureRedemptionStore] of [ohttp-relay/redemption-store.js], await by await,
    over any table client: [redeem] is over by its deadline whatever the client
    does, and over an honest one it answers as [Redemption.memory_redeem]. *)
From S2P Require Import Prelude JsMap JsText Timed AzureTable Redemption.

Section azure.
Context {W : Type} (client : table_client W) (timeoutMs : Z).
Abbreviation st := (tstate W table_request).
Abbreviation io := (Timed.io W table_request).

(** [bounded(call, deadline)]. *)
Definition bounded (r : table_request) (deadline : Z) : io entity := fun s =>
  Timed.bounded client RedemptionUnavailable (deadline - now s) r s.

Definition create_table (deadline : Z) : io unit :=
  once (table ← outcome (bounded CreateTable deadline);
        match table with
        | Ok _ | Throw (Exn _ _ (Some 409)) => mret tt
        | Throw _ => lift (Throw RedemptionUnavailable)
        end).

Definition claim_of (e : entity) : result exn string := Ok (default "" (e_field e "claimID")).

(** [redeem] with the claim that [crypto.randomUUID()] gives it. *)
Definition redeem (claimID fingerprint nullifier : string) : io bool := fun s =>
  if negb (hex64 fingerprint) || negb (hex64 nullifier) then (Throw RedemptionUnavailable, s)
  else
    let deadline := now s + timeoutMs in
    let '(partitionKey, rowKey) := row_key fingerprint nullifier in
    (create_table deadline ≫= fun _ =>
     row ← outcome (bounded (CreateEntity partitionKey rowKey [("claimID", claimID)]) deadline);
     match row with
     | Ok _ => mret true
     | Throw _ =>
         back ← outcome (bounded (GetEntity partitionKey rowKey) deadline);
         lift (after_failed_create claimID (back ≫= claim_of))
     end) s.

(** ** Deadline *)
Lemma redeem_call_timely r dl : timely dl 1 (bounded r dl).
Proof. intros s H Hr. apply timely_bounded; [done..|lia]. Qed.

(** A redemption is over within [timeoutMs], whatever the table does, after three
    requests at most, all sent before the deadline. *)
Theorem redeem_meets_deadline (claimID fp n : string) (s : st) :
  0 <= timeoutMs -> ready_by (now s + timeoutMs) s ->
  fits_in (now s + timeoutMs) 3 s (redeem claimID fp n s).2.
Proof.
  intros Ht Hr. unfold redeem. set (dl := now s + timeoutMs) in *.
  destruct (_ || _); [cbn [snd]; apply fits_in_refl; [unfold dl; lia|done]|].
  cbn [row_key]. apply (timely_bind dl 1 2); [|intros _|unfold dl; lia|done].
  - apply timely_once, (timely_bind dl 1 0); [apply timely_outcome, redeem_call_timely|].
    intros [e|[? ? [?|]|]]; repeat case_match; apply timely_lift.
  - apply (timely_bind dl 1 1); [apply timely_outcome, redeem_call_timely|].
    intros [e|e]; [eapply timely_weaken; [apply timely_ret|lia]|].
    apply (timely_bind dl 1 0); [apply timely_outcome, redeem_call_timely|]. intros c. apply timely_lift.
Qed.

(** ** Over an honest table *)
Context (rows : W -> string * string -> option entity) (made : W -> Prop) (L : Z).
Context (HT : honest client rows made L) (HL : 0 <= L) (HLt : 3 * L < timeoutMs).

Lemma redeem_call_honest r dl s :
  r = CreateTable \/ made (world s) -> now s + L < dl ->
  exists ans s', bounded r dl s = (ans, s') /\ answered rows made r (world s) ans (world s') /\
    now s <= now s' <= now s + L /\ ready s' = ready s.
Proof. intros Hm Hdl. apply (honest_bounded client rows made L); [done..|lia]. Qed.

Definition set_up (s : st) : Prop := ready s = NotReady \/ ready s = Ready /\ made (world s).

Lemma redeem_outcome_of {A} (m : io A) s r s' : m s = (r, s') -> outcome m s = (Ok r, s').
Proof. unfold outcome. by intros ->. Qed.

Lemma create_table_honest dl s :
  set_up s -> now s + L < dl ->
  exists s', create_table dl s = (Ok tt, s') /\ made (world s') /\ ready s' = Ready /\
    (forall k, rows (world s') k = rows (world s) k) /\ now s <= now s' <= now s + L.
Proof.
  intros [Hr|[Hr Hm]] Hdl; unfold create_table, once; rewrite Hr.
  2:{ exists s. split_and!; [done..|lia|lia]. }
  destruct (redeem_call_honest CreateTable dl s ltac:(by left) Hdl) as (a & s1 & E & (Ha & Hm1 & Hr1) & Hn & _).
  unfold mbind, io_bind. rewrite (redeem_outcome_of _ _ _ _ E).
  destruct Ha as [[? ->]|(? & ? & ->)]; (eexists; split; [done|]; split_and!; [done..|simpl; lia|simpl; lia]).
Qed.

(** The rows of the table are the spent tokens. *)
Definition spends (w : W) (spent : list string) : Prop :=
  forall fp n, hex64 fp = true -> hex64 n = true ->
    (is_Some (rows w (row_key fp n)) <-> redemption_key fp n ∈ spent).

(** C23. The Azure store and the one in memory spend alike: over a table whose every
    request is answered within a third of the deadline, and whose rows are the
    tokens spent in memory, both give the same answer about a token with a new
    claim, while the memory has room, and the rows are then again the tokens
    spent. *)
Theorem stores_agree (maxKeys : Z) (claimID fp n : string) (s : st) (spent : list string) :
  set_up s -> spends (world s) spent ->
  hex64 fp = true -> hex64 n = true -> Z.of_nat (length spent) < maxKeys ->
  (forall e, rows (world s) (row_key fp n) = Some e -> claim_of e <> Ok claimID) ->
  let '(r, s') := redeem claimID fp n s in
  let '(r', spent') := memory_redeem maxKeys spent fp n in
  r = r' /\ set_up s' /\ spends (world s') spent'.
Proof.
  intros Hs Hsp Hf Hn Hroom Hclaim. unfold redeem. rewrite Hf, Hn. cbn [negb orb row_key].
  set (dl := now s + timeoutMs).
  destruct (create_table_honest dl s Hs ltac:(unfold dl; lia)) as (s1 & E1 & Hm1 & Hy1 & Hr1 & Hn1).
  unfold mbind, io_bind. rewrite E1. fold (row_key fp n) in *.
  destruct (redeem_call_honest (CreateEntity ("spent-v1-" +:+ fp) n [("claimID", claimID)]) dl s1 ltac:(by right)
    ltac:(unfold dl; lia)) as (a2 & s2 & E2 & (Hm2 & Ha2) & Hn2 & Hy2).
  rewrite (redeem_outcome_of _ _ _ _ E2). change ("spent-v1-" +:+ fp, n) with (row_key fp n) in Ha2. rewrite Hr1 in Ha2.
  unfold memory_redeem. pose proof (Hsp fp n Hf Hn) as Hin.
  destruct (rows (world s) (row_key fp n)) as [e|] eqn:Er.
  - destruct Ha2 as [(m & cd & ->) Hr2]. rewrite bool_decide_eq_true_2 by (apply Hin; eauto).
    destruct (redeem_call_honest (GetEntity ("spent-v1-" +:+ fp) n) dl s2 ltac:(by right)
      ltac:(unfold dl; lia)) as (a3 & s3 & E3 & (Hm3 & Hr3 & Ha3) & Hn3 & Hy3).
    change ("spent-v1-" +:+ fp, n) with (row_key fp n) in Ha3. rewrite Hr2, Hr1, Er in Ha3. subst a3.
    rewrite (redeem_outcome_of _ _ _ _ E3). unfold lift, after_failed_create. cbn [mbind result_bind].
    specialize (Hclaim e eq_refl). unfold claim_of in *. rewrite bool_decide_eq_false_2 by congruence.
    split; [done|]. split; [right; by rewrite Hy3, Hy2|].
    intros fp' n' ? ?. rewrite Hr3, Hr2, Hr1. by apply Hsp.
  - destruct Ha2 as [(m & ->) (tag & Hr2)].
    rewrite bool_decide_eq_false_2 by (intros [? ?]%Hin; done).
    destruct (_ >=? _) eqn:Eg; bool_to_prop; [lia|]. split; [done|]. split; [right; by rewrite Hy2|].
    intros fp' n' Hf' Hn'. rewrite Hr2, Hr1, elem_of_app, list_elem_of_singleton.
    pose proof (Hsp fp' n' Hf' Hn') as <-.
    case_decide as Ek.
    + apply row_key_inj in Ek as [-> ->]. split; [by right|eauto].
    + split; [by left|]. intros [?|Ek']; [done|]. apply redemption_key_inj in Ek' as [-> ->]; done.
Qed.
End azure.

(** ** Witnesses: a table that never answers, and one that takes 100 ms a request *)
Module Spending.
Definition silent : table_client unit := fun _ _ _ w => (None, Throw (Err "never"), w).
Definition table100 : table_client table := memory_table (fun _ => 100).
Definition fp : string := "0123456789abcdef0123456789abcdef0123456789abcdef0123456789abcdef".
Definition start : tstate table table_request := TState _ _ 0 (Table false ∅ 0) NotReady [].
End Spending.

Lemma redeem_meets_deadline_witness :
  let '(r, s) := redeem Spending.silent 5000 "c" Spending.fp Spending.fp (TState _ _ 0 tt NotReady []) in
  r = Throw RedemptionUnavailable /\ now s <= 5000.
Proof.
  pose proof (redeem_meets_deadline Spending.silent 5000 "c" Spending.fp Spending.fp
    (TState _ _ 0 tt NotReady []) ltac:(lia) I) as H.
  destruct (redeem _ _ _ _ _ _) as [r s] eqn:E.
  split; [|apply H]. apply (f_equal fst) in E. vm_compute in E. by rewrite <-E.
Defined.

Lemma stores_agree_witness :
  (redeem Spending.table100 5000 "c" Spending.fp Spending.fp Spending.start).1 = Ok true /\
  (memory_redeem 10 [] Spending.fp Spending.fp).1 = Ok true.
Proof.
  pose proof (stores_agree Spending.table100 5000 (fun w k => t_rows w !! k) (fun w => t_made w = true) 100
    (memory_table_honest (fun _ => 100) 100 ltac:(intros; lia)) ltac:(lia) ltac:(lia)
    10 "c" Spending.fp Spending.fp Spending.start []) as H.
  assert ((memory_redeem 10 [] Spending.fp Spending.fp).1 = Ok true) as Hm by reflexivity.
  destruct (redeem _ _ _ _ _ _) as [r s']. destruct (memory_redeem _ _ _ _) as [r' spent'].
  destruct H as [-> _]; [by left| |reflexivity|reflexivity|simpl; lia|discriminate|by split].
  intros f n _ _. simpl. rewrite lookup_empty. split; [by intros [? ?]|by intros ?%elem_of_nil].
Defined.
