(* ===== verification/KeyCache.v ===== *)
(** * The issuer key cache of the relay ([ohttp-relay/issuer-key-cache.js])

    [parse] validates the published key document; [refresh_start], [refresh_end]
    and [lookup] are the parts of [get] between its awaits, and [run] plays any
    sequence of them. Time is in milliseconds; a clock reading divided twice is
    taken as the exact quotient (the values are below 2^53 and the difference of a
    quotient from an integer is far above the rounding of a double). *)
From S2P Require Import Prelude JsMap JsText JsBase64 JsJson Redemption.
From Stdlib Require Import Ascii Sorting.Sorted.

(** [digest('hex')]. *)
Definition hex_byte (b : byte) : list ascii :=
  [hex_digit (byte_val b / 16); hex_digit (byte_val b mod 16)].
Definition hex (b : buffer) : string := String.string_of_list_ascii (b ≫= hex_byte).
(** [s.slice(0, n)]. *)
Definition slice0 (n : nat) (s : string) : string :=
  String.string_of_list_ascii (take n (String.list_ascii_of_string s)).

(** What is used of [node:crypto] for public keys. *)
Class KeyCrypto := {
  digest : buffer -> buffer;
  pkey : Type;
  createPublicKey : buffer -> result exn pkey;
  asymmetricKeyType : pkey -> string;
  modulusLength : pkey -> option Z;
  export_spki : pkey -> buffer;
}.

Section cache.
Context `{K : KeyCrypto}.

Record cache_entry := CacheEntry { ce_key : pkey; ce_fingerprint : string; ce_expiresAt : Z }.
Abbreviation key_map := (list (string * cache_entry)).

Definition key_fingerprint (k : pkey) : string := hex (digest (export_spki k)).

(** ** [parse] *)
Fixpoint parse_entries (epoch epochSeconds : Z) (l : list json) (next : key_map) (epochs : list Z) :
    result exn (key_map * list Z) :=
  match l with
  | [] => Ok (next, epochs)
  | entry :: l' =>
      match jget entry "epoch", as_string (jget entry "publicKeySpki") with
      | Some (JInt e), Some spki =>
          throw_when negb ((e =? epoch) || (e =? epoch - 1)) with RedemptionUnavailable ;;
          throw_when bool_decide (e ∈ epochs) with RedemptionUnavailable ;;
          throw_when slen spki >? 2048 with RedemptionUnavailable ;;
          publicKey ← createPublicKey (base64_decode spki);
          throw_when negb (String.eqb (asymmetricKeyType publicKey) "rsa"
                           || String.eqb (asymmetricKeyType publicKey) "rsa-pss")
            with RedemptionUnavailable ;;
          throw_when bool_decide (modulusLength publicKey <> Some 2048) with RedemptionUnavailable ;;
          let fingerprint := key_fingerprint publicKey in
          let keyId := slice0 32 fingerprint in
          throw_when negb (is_str (jget entry "keyId") keyId) with RedemptionUnavailable ;;
          let expiresAt := (e + 2) * epochSeconds * 1000 in
          let prior := match map_get String.eqb next keyId with
                       | Some p => ce_expiresAt p | None => 0 end in
          parse_entries epoch epochSeconds l'
            (map_set String.eqb next keyId
               (CacheEntry publicKey fingerprint (Z.max expiresAt prior)))
            (epochs ++ [e])
      | _, _ => Throw RedemptionUnavailable
      end
  end.

Definition parse (now : Z) (doc : json) : result exn key_map :=
  throw_when negb (is_num (jget doc "schemaVersion") 1) with RedemptionUnavailable ;;
  throw_when negb (is_str (jget doc "suite") "RSABSSA-SHA384-PSS-Deterministic")
    with RedemptionUnavailable ;;
  match as_safe (jget doc "epochSeconds"), jget doc "keys" with
  | Some epochSeconds, Some (JArr keys) =>
      throw_when (epochSeconds <? 1) || (epochSeconds >? 31557600) with RedemptionUnavailable ;;
      throw_when (Z.of_nat (length keys) <? 1) || (Z.of_nat (length keys) >? 2)
        with RedemptionUnavailable ;;
      let epoch := now / (1000 * epochSeconds) in
      throw_when negb (is_num (jget doc "epoch") epoch) with RedemptionUnavailable ;;
      '(next, epochs) ← parse_entries epoch epochSeconds keys [] [];
      throw_when bool_decide (epoch ∉ epochs) with RedemptionUnavailable ;;
      Ok next
  | _, _ => Throw RedemptionUnavailable
  end.

(** ** The cache *)
Record cache_config := { kc_url : bool; kc_ttlMs : Z; kc_backoffMs : Z }.
(** The guard of [createIssuerKeyCache]. *)
Definition config_ok (cfg : cache_config) : bool :=
  isSafe (kc_ttlMs cfg) && negb (kc_ttlMs cfg <? 1)
  && isSafe (kc_backoffMs cfg) && negb (kc_backoffMs cfg <? 1).

Record cache := Cache {
  k_keys : key_map; k_refreshedAt : Z; k_nextAttempt : Z; k_pending : bool }.
Definition empty_cache : cache := Cache [] 0 0 false.

Section operations.
Context (cfg : cache_config).

(** [refresh] up to its [await]: the new state, and whether a fetch starts. *)
Definition refresh_start (now : Z) (s : cache) : cache * bool :=
  if k_pending s then (s, false)
  else if negb (kc_url cfg) || (now <? k_nextAttempt s) then (s, false)
  else (Cache (k_keys s) (k_refreshedAt s) (now + kc_backoffMs cfg) true, true).

(** The fetch ends, with a document or in failure. *)
Definition refresh_end (now : Z) (doc : option json) (s : cache) : cache :=
  match doc with
  | Some d =>
      match parse now d with
      | Ok keys => Cache keys now (k_nextAttempt s) false
      | Throw _ => Cache (k_keys s) (k_refreshedAt s) (k_nextAttempt s) false
      end
  | None => Cache (k_keys s) (k_refreshedAt s) (k_nextAttempt s) false
  end.

(** [get] up to its [await]. *)
Definition get_start (now : Z) (keyId : string) (s : cache) : cache * bool :=
  let stale := match map_get String.eqb (k_keys s) keyId with
               | None => true
               | Some e => (now >=? ce_expiresAt e) || (now - k_refreshedAt s >=? kc_ttlMs cfg)
               end in
  if stale then refresh_start now s else (s, false).

(** [get] after it. *)
Definition lookup (now : Z) (keyId : string) (s : cache) : result exn (option cache_entry) :=
  match map_get String.eqb (k_keys s) keyId with
  | Some e =>
      if now <? ce_expiresAt e then Ok (Some e)
      else if existsb (fun kv => now <? ce_expiresAt kv.2) (k_keys s) then Ok None
      else Throw RedemptionUnavailable
  | None =>
      if existsb (fun kv => now <? ce_expiresAt kv.2) (k_keys s) then Ok None
      else Throw RedemptionUnavailable
  end.

(** ** Any sequence of operations *)
Inductive cache_event := KGet (keyId : string) | KFetched (doc : option json).

(** The state and the times at which fetches started. A fetch ends only when one
    is pending. *)
Definition play (s : cache) (started : list Z) (ev : Z * cache_event) : cache * list Z :=
  match ev with
  | (now, KGet keyId) =>
      let '(s', starts) := get_start now keyId s in
      (s', if starts then started ++ [now] else started)
  | (now, KFetched doc) => ((if k_pending s then refresh_end now doc s else s), started)
  end.

Definition run (evs : list (Z * cache_event)) : cache * list Z :=
  foldl (fun st ev => play st.1 st.2 ev) (empty_cache, []) evs.
End operations.
End cache.

(** ** Facts *)
Section facts.
Context `{K : KeyCrypto}.
Abbreviation key_map := (list (string * cache_entry)).

(** An entry of a document of epoch [epoch]: its identifier and fingerprint are
    those of its key, an RSA key of 2048 bits, and it expires with the window that
    follows its own epoch. *)
Record entry_ok (epoch epochSeconds : Z) (kv : string * cache_entry) : Prop := {
  eo_id : kv.1 = slice0 32 (ce_fingerprint kv.2);
  eo_fingerprint : ce_fingerprint kv.2 = key_fingerprint (ce_key kv.2);
  eo_rsa : asymmetricKeyType (ce_key kv.2) = "rsa" \/ asymmetricKeyType (ce_key kv.2) = "rsa-pss";
  eo_bits : modulusLength (ce_key kv.2) = Some 2048;
  eo_expiry : exists e, (e = epoch \/ e = epoch - 1) /\
    ce_expiresAt kv.2 = (e + 2) * epochSeconds * 1000;
}.

Lemma map_set_Forall (P : string * cache_entry -> Prop) m k v :
  Forall P m -> P (k, v) -> Forall P (map_set String.eqb m k v).
Proof.
  intros Hm Hk. induction Hm as [|[k' v'] m Hp Hm IH]; simpl; [by constructor|].
  destruct (String.eqb k k') eqn:E; [|by constructor].
  apply String.eqb_eq in E as <-. by constructor.
Qed.

Lemma map_get_Forall (P : string * cache_entry -> Prop) m k v :
  Forall P m -> map_get String.eqb m k = Some v -> P (k, v).
Proof.
  intros Hm Hk. apply map_get_elem in Hk; [|apply String.eqb_eq].
  rewrite Forall_forall in Hm. by apply Hm.
Qed.

(** One entry of the document. *)
Lemma parse_entries_cons epoch es entry l next epochs out :
  parse_entries epoch es (entry :: l) next epochs = Ok out ->
  exists e spki key, jget entry "epoch" = Some (JInt e) /\ (e = epoch \/ e = epoch - 1) /\
    e ∉ epochs /\ createPublicKey (base64_decode spki) = Ok key /\
    (asymmetricKeyType key = "rsa" \/ asymmetricKeyType key = "rsa-pss") /\
    modulusLength key = Some 2048 /\
    let id := slice0 32 (key_fingerprint key) in
    let prior := match map_get String.eqb next id with Some p => ce_expiresAt p | None => 0 end in
    parse_entries epoch es l
      (map_set String.eqb next id
        (CacheEntry key (key_fingerprint key) (Z.max ((e + 2) * es * 1000) prior)))
      (epochs ++ [e]) = Ok out.
Proof.
  cbn [parse_entries]. destruct (jget entry "epoch") as [[| |e| | | |]|]; try done.
  destruct (as_string _) as [spki|]; [|done]. intros H.
  apply throw_if_Ok in H as [He H]. apply throw_if_Ok in H as [Hn H].
  apply throw_if_Ok in H as [_ H]. apply bind_Ok in H as (key & Hk & H).
  apply throw_if_Ok in H as [Ht H]. apply throw_if_Ok in H as [Hm H].
  apply throw_if_Ok in H as [_ H]. bool_to_prop. apply dec_stable in Hm.
  rewrite orb_true_iff, !Z.eqb_eq in He. rewrite orb_true_iff, !String.eqb_eq in Ht.
  exists e, spki, key. done.
Qed.

(** Every epoch read so far has an entry that lives through its window. *)
Definition covers (es : Z) (next : key_map) (epochs : list Z) : Prop :=
  forall e, e ∈ epochs ->
    exists id v, map_get String.eqb next id = Some v /\ (e + 2) * es * 1000 <= ce_expiresAt v.

Lemma covers_set es next epochs id v e :
  covers es next epochs ->
  (forall p, map_get String.eqb next id = Some p -> ce_expiresAt p <= ce_expiresAt v) ->
  (e + 2) * es * 1000 <= ce_expiresAt v ->
  covers es (map_set String.eqb next id v) (epochs ++ [e]).
Proof.
  intros Hc Hp He e' [Hin| ->%list_elem_of_singleton]%elem_of_app.
  - destruct (Hc e' Hin) as (id' & v' & Hg & Hle). destruct (decide (id = id')) as [<-|Hne].
    + exists id, v. rewrite map_get_set_eq by apply String.eqb_eq. split; [done|].
      specialize (Hp _ Hg). lia.
    + exists id', v'. by rewrite map_get_set_ne by (apply String.eqb_eq || done).
  - exists id, v. by rewrite map_get_set_eq by apply String.eqb_eq.
Qed.

Lemma parse_entries_ok epoch es l next epochs m epochs' :
  0 <= epoch -> 1 <= es -> parse_entries epoch es l next epochs = Ok (m, epochs') ->
  Forall (entry_ok epoch es) next -> covers es next epochs ->
  Forall (entry_ok epoch es) m /\ covers es m epochs'.
Proof.
  intros Hep Hes. revert next epochs. induction l as [|entry l IH]; intros next epochs H Hn Hc.
  { by injection H as <- <-. }
  apply parse_entries_cons in H as (e & spki & key & _ & Hee & _ & _ & Ht & Hb & H).
  set (id := slice0 32 (key_fingerprint key)) in *. cbv zeta in H. apply IH in H; [done| |].
  - apply map_set_Forall; [done|]. split; try done. simpl.
    destruct (map_get String.eqb next id) as [p|] eqn:E; [|exists e; split; [done|nia]].
    apply (map_get_Forall _ _ _ _ Hn) in E. destruct (eo_expiry _ _ _ E) as (e' & He' & Hp).
    simpl in Hp. rewrite Hp.
    destruct (Z.max_spec ((e + 2) * es * 1000) ((e' + 2) * es * 1000)) as [[_ ->]|[_ ->]]; eauto.
  - apply covers_set; [done| |simpl; lia]. intros p E. simpl. rewrite E. lia.
Qed.

(** A parsed document: its entries are sound, unexpired and short-lived, and one of
    them serves the epoch of the clock to its end and through the next. *)
Record keys_ok (now : Z) (m : key_map) : Prop := {
  ko_entries : exists es, 1 <= es <= 31557600 /\ Forall (entry_ok (now / (1000 * es)) es) m /\
    Forall (fun kv => now < ce_expiresAt kv.2 <= now + 2 * es * 1000) m /\
    exists kv, kv ∈ m /\ now + es * 1000 < ce_expiresAt kv.2;
}.

Lemma window_bounds now es e :
  1 <= es -> e = now / (1000 * es) \/ e = now / (1000 * es) - 1 ->
  now < (e + 2) * es * 1000 <= now + 2 * es * 1000.
Proof.
  intros Hes He. pose proof (Z.div_mod now (1000 * es) ltac:(lia)).
  pose proof (Z.mod_pos_bound now (1000 * es) ltac:(lia)). destruct He as [->| ->]; nia.
Qed.

Lemma parse_ok now doc m : 0 <= now -> parse now doc = Ok m -> keys_ok now m.
Proof.
  intros Hnow. unfold parse. intros H. apply throw_if_Ok in H as [_ H].
  apply throw_if_Ok in H as [_ H]. destruct (as_safe _) as [es|]; [|done].
  destruct (jget doc "keys") as [[| | | | |l|]|]; try done.
  apply throw_if_Ok in H as [Hes H]. apply throw_if_Ok in H as [_ H].
  apply throw_if_Ok in H as [_ H]. apply bind_Ok in H as ([m' epochs] & Hp & H).
  apply throw_if_Ok in H as [Hin [= ->]]. bool_to_prop. apply dec_stable in Hin.
  apply parse_entries_ok in Hp as [Hm Hc]; [|apply Z.div_pos; lia|lia|constructor|].
  2:{ intros e He. by apply not_elem_of_nil in He. }
  constructor. exists es. split; [lia|]. split; [done|]. split.
  - eapply Forall_impl; [exact Hm|]. intros kv Hkv. simpl.
    destruct (eo_expiry _ _ _ Hkv) as (e & He & ->). apply window_bounds; [lia|done].
  - destruct (Hc _ Hin) as (id & v & Hg & Hle). exists (id, v).
    split; [by apply map_get_elem in Hg; [|apply String.eqb_eq]|]. simpl.
    pose proof (window_bounds now es (now / (1000 * es) - 1) ltac:(lia) ltac:(auto)). lia.
Qed.

(** ** Any sequence of operations *)
Context (cfg : cache_config).

Lemma run_snoc evs ev : run cfg (evs ++ [ev]) = play cfg (run cfg evs).1 (run cfg evs).2 ev.
Proof. unfold run. by rewrite foldl_app. Qed.

Lemma get_start_keys now id s : k_keys (get_start cfg now id s).1 = k_keys s.
Proof. unfold get_start, refresh_start. repeat (case_match; try done). Qed.

(** What the cache holds came out of one fetched document, whole. *)
Lemma run_keys evs :
  k_keys (run cfg evs).1 = [] \/
  exists t doc, (t, KFetched (Some doc)) ∈ evs /\ parse t doc = Ok (k_keys (run cfg evs).1).
Proof.
  induction evs as [|[now ev] evs IH] using rev_ind; [by left|]. rewrite run_snoc.
  destruct (run cfg evs) as [s st]. simpl in IH. cbn [fst snd].
  assert (k_keys s = [] \/ exists t doc, (t, KFetched (Some doc)) ∈ evs ++ [(now, ev)]
    /\ parse t doc = Ok (k_keys s)) as IH'.
  { destruct IH as [?|(t & doc & ? & ?)]; [by left|right]. exists t, doc. set_solver. }
  destruct ev as [id|doc]; simpl.
  - pose proof (get_start_keys now id s) as Hk. destruct (get_start cfg now id s) as [s' b].
    simpl in *. by rewrite Hk.
  - destruct (k_pending s); [|done]. destruct doc as [d|]; [|done]. simpl.
    destruct (parse now d) as [m|] eqn:E; [|done]. right. exists now, d. set_solver.
Qed.

(** ** The properties *)

(** C34. A key the cache hands out is the one asked for: it hashes to the
    identifier, is an RSA key of 2048 bits, came from a document fetched before and
    valid then, and has not outlived the window of its epoch and the next one,
    however long refreshes have been failing. *)
Theorem lookup_sound (evs : list (Z * cache_event)) (now : Z) (keyId : string) (e : cache_entry) :
  Forall (fun ev => 0 <= ev.1) evs ->
  lookup now keyId (run cfg evs).1 = Ok (Some e) ->
  now < ce_expiresAt e /\
  keyId = slice0 32 (key_fingerprint (ce_key e)) /\ ce_fingerprint e = key_fingerprint (ce_key e) /\
  modulusLength (ce_key e) = Some 2048 /\
  exists t doc m es, (t, KFetched (Some doc)) ∈ evs /\ parse t doc = Ok m /\ (keyId, e) ∈ m /\
    1 <= es <= 31557600 /\ t < ce_expiresAt e <= t + 2 * es * 1000.
Proof.
  intros Ht. unfold lookup. destruct (map_get String.eqb _ keyId) as [e'|] eqn:E; [|by case_match].
  destruct (now <? ce_expiresAt e') eqn:El; [|by case_match]. intros [= <-]. bool_to_prop.
  destruct (run_keys evs) as [H|(t & doc & Hin & Hp)]; [by rewrite H in E|].
  rewrite Forall_forall in Ht.
  destruct (ko_entries _ _ (parse_ok _ _ _ (Ht _ Hin) Hp)) as (es & Hes & Ho & Hb & _).
  pose proof (map_get_Forall _ _ _ _ Ho E) as [Hid Hfp _ Hbits _].
  pose proof (map_get_Forall _ _ _ _ Hb E) as Hx. simpl in *.
  split; [done|]. split; [congruence|]. split; [done|]. split; [done|].
  apply map_get_elem in E; [|apply String.eqb_eq]. exists t, doc, (k_keys (run cfg evs).1), es. done.
Qed.

(** The fetches that ended. *)
Definition is_end (ev : Z * cache_event) : bool :=
  match ev.2 with KFetched _ => true | KGet _ => false end.
Definition ends (evs : list (Z * cache_event)) : nat := length (List.filter is_end evs).

Lemma get_start_backs_off now id s b s' :
  get_start cfg now id s = (s', b) ->
  (b = false /\ s' = s) \/
  (b = true /\ k_pending s = false /\ k_pending s' = true /\ k_nextAttempt s <= now /\
   k_nextAttempt s' = now + kc_backoffMs cfg).
Proof.
  unfold get_start, refresh_start. case_match; [|intros [= <- <-]; auto].
  destruct (k_pending s) eqn:Ep; [intros [= <- <-]; auto|].
  destruct (negb (kc_url cfg) || _) eqn:E; intros [= <- <-]; [auto|]. bool_to_prop. right. done.
Qed.

Lemma sorted_snoc (R : Z -> Z -> Prop) l x :
  StronglySorted R l -> (forall a, a ∈ l -> R a x) -> StronglySorted R (l ++ [x]).
Proof.
  induction 1 as [|y l Hl IH Hy]; intros Hx; simpl; [repeat constructor|].
  constructor; [apply IH; intros a Ha; apply Hx; by right|].
  apply Forall_app. split; [done|]. repeat constructor. apply Hx. by left.
Qed.

(** What [run] keeps about the fetches started. *)
Definition paced (evs : list (Z * cache_event)) (s : cache) (st : list Z) : Prop :=
  StronglySorted (fun a b => a + kc_backoffMs cfg <= b) st /\
  (forall a, a ∈ st -> a + kc_backoffMs cfg <= k_nextAttempt s) /\
  (length st <= ends evs + if k_pending s then 1 else 0)%nat.

Lemma run_paced evs : config_ok cfg = true -> paced evs (run cfg evs).1 (run cfg evs).2.
Proof.
  intros Hcfg. assert (1 <= kc_backoffMs cfg) as Hb by (unfold config_ok in Hcfg; bool_to_prop; lia).
  induction evs as [|[now ev] evs IH] using rev_ind.
  { split; [constructor|]. split; [intros a Ha; by apply not_elem_of_nil in Ha|simpl; lia]. }
  rewrite run_snoc. destruct (run cfg evs) as [s st]. destruct IH as (Hs & Hn & Hl).
  cbn [fst snd] in *. unfold paced, ends in *. rewrite List.filter_app, length_app.
  destruct ev as [id|doc]; simpl.
  - destruct (get_start cfg now id s) as [s' b] eqn:E.
    apply get_start_backs_off in E as [[-> ->]|(-> & Hp & Hp' & Hle & Hnx)]; simpl.
    { split; [done|]. split; [done|]. case_match; lia. }
    rewrite Hp in Hl. rewrite Hp', Hnx, length_app. split; [|split; [|simpl; lia]].
    + apply sorted_snoc; [done|]. intros a Ha. specialize (Hn a Ha). lia.
    + intros a [Ha| ->%list_elem_of_singleton]%elem_of_app; [specialize (Hn a Ha)|]; lia.
  - destruct (k_pending s) eqn:Hp; [|split; [done|]; split; [done|]; rewrite Hp; lia].
    assert (k_nextAttempt (refresh_end now doc s) = k_nextAttempt s) as ->
      by (unfold refresh_end; repeat case_match; done).
    split; [done|]. split; [done|]. case_match; lia.
Qed.

(** Refreshes back off: whatever is asked of the cache, any two fetches start
    at least [backoffMs] apart, and a fetch starts only after the one before it has
    ended. *)
Theorem refresh_backs_off (evs : list (Z * cache_event)) :
  config_ok cfg = true ->
  StronglySorted (fun a b => a + kc_backoffMs cfg <= b) (run cfg evs).2 /\
  (length (run cfg evs).2 <= 1 + ends evs)%nat.
Proof.
  intros Hcfg. destruct (run_paced evs Hcfg) as (Hs & _ & Hl). split; [done|].
  destruct (k_pending (run cfg evs).1); lia.
Qed.

(** [parse] accepts a document only as a whole: every entry is sound, unexpired
    at the time of parsing and gone two windows later, and one of them outlives the
    current window, so that the cache can serve through the next. *)
Theorem parse_sound (now : Z) (doc : json) (m : list (string * cache_entry)) :
  0 <= now -> parse now doc = Ok m ->
  exists es, 1 <= es <= 31557600 /\ Forall (entry_ok (now / (1000 * es)) es) m /\
    Forall (fun kv => now < ce_expiresAt kv.2 <= now + 2 * es * 1000) m /\
    exists kv, kv ∈ m /\ now + es * 1000 < ce_expiresAt kv.2.
Proof. intros Hn Hp. apply ko_entries. by eapply parse_ok. Qed.
End facts.

(** ** Witnesses *)
Module CacheSample.
(** A digest that keeps nothing apart, and one key. *)
Definition crypto : KeyCrypto := {|
  digest b := replicate 32 x0a; pkey := unit; createPublicKey _ := Ok tt;
  asymmetricKeyType _ := "rsa"; modulusLength _ := Some 2048; export_spki _ := [] |}.
Definition keyId : string := slice0 32 (hex (replicate 32 x0a)).
Definition doc (now : Z) : json := JObj [
  ("schemaVersion", JInt 1); ("suite", JStr "RSABSSA-SHA384-PSS-Deterministic");
  ("epochSeconds", JInt 60); ("epoch", JInt (now / 60000));
  ("keys", JArr [JObj [("epoch", JInt (now / 60000)); ("publicKeySpki", JStr "AAAA");
                       ("keyId", JStr keyId)]])].
Definition cfg : cache_config := {| kc_url := true; kc_ttlMs := 300000; kc_backoffMs := 5000 |}.
Definition evs : list (Z * cache_event) :=
  [(120000, KGet keyId); (120010, KFetched (Some (doc 120010)))].
End CacheSample.
#[local] Existing Instance CacheSample.crypto.

Lemma parse_sound_witness : exists m es,
  parse 120010 (CacheSample.doc 120010) = Ok m /\ 1 <= es <= 31557600.
Proof.
  destruct (parse 120010 (CacheSample.doc 120010)) as [m|] eqn:E; [|vm_compute in E; discriminate].
  destruct (parse_sound 120010 _ m ltac:(lia) E) as (es & Hes & _). exists m, es. done.
Defined.

Lemma lookup_sound_witness : exists e,
  lookup 130000 CacheSample.keyId (run CacheSample.cfg CacheSample.evs).1 = Ok (Some e) /\
  130000 < ce_expiresAt e.
Proof.
  destruct (lookup 130000 CacheSample.keyId (run CacheSample.cfg CacheSample.evs).1)
    as [[e|]|] eqn:E; [|vm_compute in E; discriminate..].
  exists e. split; [done|].
  apply (lookup_sound CacheSample.cfg CacheSample.evs 130000 CacheSample.keyId e); [|exact E].
  repeat constructor; simpl; lia.
Defined.

Lemma refresh_backs_off_witness : (length (run CacheSample.cfg CacheSample.evs).2 <= 2)%nat.
Proof. apply (refresh_backs_off CacheSample.cfg CacheSample.evs). reflexivity. Defined.
