(* ===== verification/KeyFetch.v ===== *)
(** * The fetch of the key document ([ohttp-relay/issuer-key-cache.js])

    [fetchDocument] as a machine over the events of its request, and [setForTest].
    A destroyed request or response is followed by its error event, which settles
    the promise; the two are one event here. *)
From S2P Require Import Prelude JsMap JsText JsJson Redemption KeyCache.

(** The events on request and response. *)
Inductive fetch_event :=
| FData (chunk : buffer)
| FEnd (statusCode : Z)
| FError (e : exn)
| FTimeout.
(** The promise is pending, with the chunks so far, or settled. *)
Inductive fetch_state :=
| Fetching (chunks : buffer)
| Settled (r : result exn json).

Section fetch.
(** [JSON.parse] of the bytes. *)
Context (JSON_parse : buffer -> result exn json).

(** [new URL(url)], if it parses, by its protocol. *)
Definition fetchDocument (protocol : option string) : fetch_state :=
  match protocol with
  | Some p => if String.eqb p "https:" then Fetching [] else Settled (Throw RedemptionUnavailable)
  | None => Settled (Throw RedemptionUnavailable)
  end.

Definition fetch_step (st : fetch_state) (ev : fetch_event) : fetch_state :=
  match st with
  | Settled _ => st
  | Fetching chunks =>
      match ev with
      | FData c =>
          if blen (chunks ++ c) >? 65536 then Settled (Throw RedemptionUnavailable)
          else Fetching (chunks ++ c)
      | FEnd statusCode =>
          Settled (if negb (statusCode =? 200) then Throw RedemptionUnavailable
                   else match JSON_parse chunks with
                        | Ok doc => Ok doc
                        | Throw _ => Throw RedemptionUnavailable
                        end)
      | FError e => Settled (Throw e)
      | FTimeout => Settled (Throw RedemptionUnavailable)
      end
  end.
Definition fetch_run (protocol : option string) (evs : list fetch_event) : fetch_state :=
  foldl fetch_step (fetchDocument protocol) evs.

(** What the cache is told: [refresh] catches every error. *)
Definition fetched_doc (st : fetch_state) : option json :=
  match st with Settled (Ok doc) => Some doc | _ => None end.

Lemma settled_stays r evs : foldl fetch_step (Settled r) evs = Settled r.
Proof. by induction evs. Qed.

Lemma fetching_resolves got evs doc :
  blen got <= 65536 ->
  foldl fetch_step (Fetching got) evs = Settled (Ok doc) <->
  exists cs rest, evs = (FData <$> cs) ++ FEnd 200 :: rest /\
    blen (got ++ concat cs) <= 65536 /\ JSON_parse (got ++ concat cs) = Ok doc.
Proof.
  revert got. induction evs as [|ev evs IH]; intros got Hg; cbn [foldl].
  { split; [done|]. by intros ([|] & rest & ? & _). }
  destruct ev as [c|code|e|]; cbn [fetch_step]; rewrite ?settled_stays.
  - destruct (_ >? _) eqn:E; bool_to_prop.
    + rewrite settled_stays. split; [done|]. intros ([|c' cs] & rest & [=] & Hb & _). subst c'.
      cbn [concat] in Hb. rewrite app_assoc, blen_app in Hb. pose proof (blen_nonneg (concat cs)). lia.
    + rewrite IH by done. split.
      * intros (cs & rest & -> & Hb & Hd). exists (c :: cs), rest. cbn [concat]. by rewrite app_assoc.
      * intros ([|c' cs] & rest & [= -> ->] & Hb & Hd). exists cs, rest. cbn [concat] in *. by rewrite app_assoc in *.
  - split.
    + destruct (code =? 200) eqn:E; [|done]. bool_to_prop. subst. simpl.
      destruct (JSON_parse got) eqn:Ej; intros [= <-]. exists [], evs. by rewrite app_nil_r.
    + intros ([|c' cs] & rest & [= -> ->] & Hb & Hd). rewrite app_nil_r in Hd. simpl. by rewrite Hd.
  - split; [done|]. by intros ([|] & rest & [=] & _).
  - split; [done|]. by intros ([|] & rest & [=] & _).
Qed.

(** The cache is handed a document exactly when the URL is an https one and the
    response ends with status 200, before any error or timeout, within 65536 bytes
    that parse to it. *)
Theorem fetchDocument_spec (protocol : option string) (evs : list fetch_event) (doc : json) :
  fetched_doc (fetch_run protocol evs) = Some doc <->
  protocol = Some "https:" /\
  exists cs rest, evs = (FData <$> cs) ++ FEnd 200 :: rest /\
    blen (concat cs) <= 65536 /\ JSON_parse (concat cs) = Ok doc.
Proof.
  transitivity (fetch_run protocol evs = Settled (Ok doc)).
  { destruct (fetch_run protocol evs) as [|[|]]; simpl; naive_solver. }
  unfold fetch_run, fetchDocument. destruct protocol as [p|]; [destruct (String.eqb p "https:") eqn:E|];
    rewrite ?settled_stays; [|naive_solver..].
  apply String.eqb_eq in E as ->. rewrite (fetching_resolves []) by (unfold blen; simpl; lia). naive_solver.
Qed.
End fetch.

(** ** [setForTest] *)
Section test_hook.
Context `{K : KeyCrypto} (cfg : cache_config).

Definition setForTest (now expiresAt : Z) (m : list (string * pkey)) (s : cache) : cache :=
  Cache ((fun kv => (kv.1, CacheEntry kv.2 (key_fingerprint kv.2) expiresAt)) <$> m)
    now (now + kc_backoffMs cfg) (k_pending s).
End test_hook.
