(* ===== verification/EpochKeys.v ===== *)
(** * Epoch keys of the issuer ([token-issuer/epoch-keys.js])

    The operator's manifest ([read_manifest]), the import of private keys
    ([importKey]), the choice of a key for an epoch ([keysForEpoch]) and the raw
    RSA signature ([blindSign]). Node's [crypto] is the class [PrivateCrypto];
    [JSON.parse] is a parameter. *)
From S2P Require Import Prelude JsMap JsText JsBase64 JsJson AppAttest AttestFacts StateFacts KeyCache.
From Stdlib Require Import Ascii.

Definition EpochKeyUnavailable : exn :=
  Exn "issuer_epoch_key_unavailable" (Some "epoch_key_unavailable") None.

Definition MAX_MANIFEST_BYTES : Z := 32768.

(** ** What is used of [node:crypto] *)
Class PrivateCrypto := {
  privkey : Type;
  hash256 : buffer -> buffer;
  (** [createPrivateKey], from PEM and from DER of the two types. *)
  private_pem : string -> result exn privkey;
  private_pkcs8 : buffer -> result exn privkey;
  private_pkcs1 : buffer -> result exn privkey;
  private_type : privkey -> string;
  private_bits : privkey -> option Z;
  (** The JWK members [n] and [e], and the SPKI of the public half, through
      [webcrypto]. *)
  private_n : privkey -> string;
  private_e : privkey -> string;
  public_spki : privkey -> result exn buffer;
  (** [privateDecrypt] and [publicEncrypt] without padding. *)
  rsa_private : privkey -> buffer -> result exn buffer;
  rsa_public : privkey -> buffer -> result exn buffer;
}.

(** [Buffer.byteLength(s)]: a code unit from 128 to 255 takes two bytes of UTF-8. *)
Definition utf8_length (s : string) : Z :=
  foldr (fun c n => (if code c <? 128 then 1 else 2) + n) 0 (String.list_ascii_of_string s).

(** [s.includes(sub)]. *)
Fixpoint js_includes (sub s : string) : bool :=
  String.prefix sub s ||
  match s with EmptyString => false | String _ s' => js_includes sub s' end.

Section keys.
Context `{P : PrivateCrypto} (JSON_parse : string -> result exn json).

Record key_entry := KeyEntry { ke_signer : privkey; ke_spkiB64 : string; ke_keyId : string }.

(** ** Import *)
Definition parsePrivateKeyEnv (envValue : string) : result exn privkey :=
  throw_when negb (nonempty (js_trim envValue)) with EpochKeyUnavailable ;;
  let value := js_trim envValue in
  if js_includes "-----BEGIN" value then private_pem value
  else
    let raw := base64_decode value in
    match private_pkcs8 raw with
    | Ok k => Ok k
    | Throw Diverges => Throw Diverges
    | Throw _ => private_pkcs1 raw
    end.

Definition keyIdFromSpki (spki : buffer) : string := slice0 32 (hex (hash256 spki)).

(** The fingerprint of the RSA material: [n], a zero byte, [e]. *)
Definition rsa_fingerprint (k : privkey) : string :=
  hex (hash256 (ascii_bytes (private_n k) ++ x00 :: ascii_bytes (private_e k))).

Definition importKey (material : string) : result exn (string * key_entry) :=
  match
    (nodeKey ← parsePrivateKeyEnv material;
     throw_when negb (String.eqb (private_type nodeKey) "rsa"
                      || String.eqb (private_type nodeKey) "rsa-pss") with EpochKeyUnavailable ;;
     throw_when bool_decide (private_bits nodeKey <> Some 2048) with EpochKeyUnavailable ;;
     spki ← public_spki nodeKey;
     Ok (rsa_fingerprint nodeKey, KeyEntry nodeKey (base64_encode spki) (keyIdFromSpki spki)))
  with
  | Ok r => Ok r
  | Throw Diverges => Throw Diverges
  | Throw _ => Throw EpochKeyUnavailable
  end.

(** ** Signing *)
Definition blindSign (entry : key_entry) (blindedMsg : buffer) : result exn buffer :=
  s ← rsa_private (ke_signer entry) blindedMsg;
  check ← rsa_public (ke_signer entry) s;
  throw_when negb (blen s =? blen blindedMsg) with Err "signing failure" ;;
  eq ← timingSafeEqual check blindedMsg;
  throw_when negb eq with Err "signing failure" ;;
  Ok s.

(** ** The manifest *)
Definition readEpoch (epoch : Z) : result exn Z :=
  throw_when negb (isSafe epoch) || (epoch <? 0) with EpochKeyUnavailable ;; Ok epoch.

Fixpoint manifest_records (now : Z) (l : list json) (epochs : list Z) :
    result exn (list (Z * string)) :=
  match l with
  | [] => Ok []
  | record :: l' =>
      match as_safe (jget record "epoch"), as_string (jget record "privateKey") with
      | Some epoch, Some privateKey =>
          throw_when epoch <? 0 with EpochKeyUnavailable ;;
          throw_when negb ((epoch =? now) || (epoch =? now - 1)) with EpochKeyUnavailable ;;
          throw_when bool_decide (epoch ∈ epochs) with EpochKeyUnavailable ;;
          throw_when negb (nonempty (js_trim privateKey)) with EpochKeyUnavailable ;;
          rest ← manifest_records now l' (epochs ++ [epoch]);
          Ok ((epoch, privateKey) :: rest)
      | _, _ => Throw EpochKeyUnavailable
      end
  end.

Definition read_manifest (currentEpoch : Z) (manifestJSON : string) :
    result exn (list (Z * string)) :=
  match
    (throw_when utf8_length manifestJSON >? MAX_MANIFEST_BYTES with EpochKeyUnavailable ;;
     manifest ← JSON_parse manifestJSON;
     now ← readEpoch currentEpoch;
     throw_when negb (is_num (jget manifest "version") 1) with EpochKeyUnavailable ;;
     match jget manifest "keys" with
     | Some (JArr keys) =>
         throw_when (Z.of_nat (length keys) <? 1) || (Z.of_nat (length keys) >? 2)
           with EpochKeyUnavailable ;;
         manifest_records now keys []
     | _ => Throw EpochKeyUnavailable
     end)
  with
  | Ok r => Ok r
  | Throw Diverges => Throw Diverges
  | Throw _ => Throw EpochKeyUnavailable
  end.

(** ** The provider: an explicit manifest, or the one legacy key *)
Inductive provider := Manifest (records : list (Z * string)) | Legacy (signingKeyB64 : string).

Definition createEpochKeyProvider (legacySigningKeyB64 : string) (manifestJSON : option string)
    (currentEpoch : Z) : result exn provider :=
  match manifestJSON with
  | Some text => records ← read_manifest currentEpoch text; Ok (Manifest records)
  | None => Ok (Legacy legacySigningKeyB64)
  end.

Fixpoint import_all (records : list (Z * string)) : result exn (list (Z * (string * key_entry))) :=
  match records with
  | [] => Ok []
  | (epoch, material) :: rest =>
      k ← importKey material; ks ← import_all rest; Ok ((epoch, k) :: ks)
  end.

(** [load] in manifest mode: every key, or none. *)
Definition load_manifest (records : list (Z * string)) : result exn (list (Z * key_entry)) :=
  keys ← import_all records;
  throw_when bool_decide (~ NoDup ((fun k => k.2.1) <$> keys)) with EpochKeyUnavailable ;;
  Ok ((fun k => (k.1, k.2.2)) <$> keys).

Definition isLive (now epoch : Z) : result exn bool :=
  now ← readEpoch now;
  Ok (isSafe epoch && (epoch >=? 0) && ((epoch =? now) || (epoch =? now - 1))).

(** [keysForEpoch]: [now1] is the epoch of the clock before the import is awaited,
    [now2] after it. *)
Definition keysForEpoch (p : provider) (now1 now2 epoch : Z) : result exn key_entry :=
  live ← isLive now1 epoch;
  throw_when negb live with EpochKeyUnavailable ;;
  match p with
  | Manifest records =>
      keys ← load_manifest records;
      live ← isLive now2 epoch;
      throw_when negb live with EpochKeyUnavailable ;;
      match map_get Z.eqb keys epoch with
      | Some entry => Ok entry
      | None => Throw EpochKeyUnavailable
      end
  | Legacy material =>
      k ← importKey material;
      live ← isLive now2 epoch;
      throw_when negb live with EpochKeyUnavailable ;;
      Ok k.2
  end.
End keys.

(** ** Facts *)
Section facts.
Context `{P : PrivateCrypto} (JSON_parse : string -> result exn json).

Definition live (now epoch : Z) : Prop :=
  0 <= now <= MAX_SAFE_INTEGER /\ 0 <= epoch /\ (epoch = now \/ epoch = now - 1).

Lemma isLive_true now epoch : isLive now epoch = Ok true <-> live now epoch.
Proof.
  unfold isLive, readEpoch, live. rewrite bind_Ok. split.
  - intros (n & H & [= Hl]). apply throw_if_Ok in H as [H [= <-]].
    rewrite !andb_true_iff, orb_true_iff, !Z.eqb_eq in Hl. destruct Hl as [[_ Hge] Hl].
    apply orb_false_iff in H as [Hs Hn]. apply negb_false_iff, isSafe_range in Hs.
    bool_to_prop. lia.
  - intros ((? & ?) & ? & He). exists now. split.
    + apply throw_if_Ok. split; [|done]. apply orb_false_iff. split; [|by apply Z.ltb_ge].
      apply negb_false_iff, isSafe_range. unfold MAX_SAFE_INTEGER in *. lia.
    + f_equal. rewrite !andb_true_iff, orb_true_iff, !Z.eqb_eq, Z.geb_leb, Z.leb_le.
      split; [split; [|done]|done]. apply isSafe_range. unfold MAX_SAFE_INTEGER in *. lia.
Qed.

(** [if (!isLive(epoch)) throw ..;]. *)
Lemma check_live {A} now epoch (k : result exn A) (r : A) :
  (l ← isLive now epoch; throw_when negb l with EpochKeyUnavailable ;; k) = Ok r
  <-> live now epoch /\ k = Ok r.
Proof.
  rewrite bind_Ok, <-isLive_true. split.
  - intros ([|] & H & Hk); apply throw_if_Ok in Hk as [? ?]; done.
  - intros [H Hk]. exists true. by rewrite throw_if_Ok.
Qed.

(** All records import, and no two of them are one RSA key. *)
Definition all_import (records : list (Z * string)) (keys : list (Z * (string * key_entry))) : Prop :=
  Forall2 (fun r k => k.1 = r.1 /\ importKey r.2 = Ok k.2) records keys /\
  NoDup ((fun k => k.2.1) <$> keys).

Lemma import_all_Ok records keys :
  import_all records = Ok keys <-> Forall2 (fun r k => k.1 = r.1 /\ importKey r.2 = Ok k.2) records keys.
Proof.
  revert keys. induction records as [|[e m] records IH]; intros keys; simpl.
  - split; [by intros [= <-]|by intros ->%Forall2_nil_inv_l].
  - rewrite bind_Ok. setoid_rewrite bind_Ok. split.
    + intros (k & Hk & ks & Hks & [= <-]). constructor; [done|by apply IH].
    + intros ([e' k] & ks & [He Hk] & Hks%IH & ->)%Forall2_cons_inv_l. simpl in *. subst e'.
      eauto 6.
Qed.

Lemma load_manifest_Ok records m :
  load_manifest records = Ok m <->
  exists keys, all_import records keys /\ m = (fun k => (k.1, k.2.2)) <$> keys.
Proof.
  unfold load_manifest, all_import. rewrite bind_Ok. setoid_rewrite import_all_Ok. split.
  - intros (keys & Hk & H). apply throw_if_Ok in H as [Hd [= <-]].
    bool_to_prop. apply dec_stable in Hd. eauto.
  - intros (keys & [Hk Hd] & ->). exists keys. split; [done|]. apply throw_if_Ok.
    split; [|done]. by apply bool_decide_eq_false_2; auto.
Qed.

(** The records of a manifest: for this epoch and the one before, each at most
    once. *)
Lemma manifest_records_ok now l epochs records :
  manifest_records now l epochs = Ok records ->
  NoDup records.*1 /\ Forall (fun r => (0 <= r.1 /\ (r.1 = now \/ r.1 = now - 1)) /\ r.1 ∉ epochs) records.
Proof.
  revert epochs records. induction l as [|x l IH]; intros epochs records; cbn [manifest_records].
  { intros [= <-]. split; constructor. }
  destruct (as_safe _) as [e|]; [|done]. destruct (as_string _) as [m|]; [|done]. intros H.
  apply throw_if_Ok in H as [Hpos H]. apply throw_if_Ok in H as [He H].
  apply throw_if_Ok in H as [Hn H]. apply throw_if_Ok in H as [_ H].
  apply bind_Ok in H as (rest & Hr & [= <-]). bool_to_prop. rewrite orb_true_iff, !Z.eqb_eq in He.
  destruct (IH _ _ Hr) as [Hd Hf]. rewrite Forall_forall in Hf. split.
  - simpl. constructor; [|done]. intros (r & Hre & Hin)%list_elem_of_fmap.
    destruct (Hf r Hin) as [_ Hx]. rewrite <-Hre in Hx. set_solver.
  - constructor; [done|]. apply Forall_forall. intros r Hin.
    destruct (Hf r Hin) as [? Hx]. split; [done|]. set_solver.
Qed.

Lemma read_manifest_ok now text records :
  read_manifest JSON_parse now text = Ok records ->
  0 <= now <= MAX_SAFE_INTEGER /\ NoDup records.*1 /\
  Forall (fun r => 0 <= r.1 /\ (r.1 = now \/ r.1 = now - 1)) records.
Proof.
  unfold read_manifest. intros H. match goal with H : match ?m with _ => _ end = _ |- _ =>
    assert (m = Ok records) as Hm by (destruct m as [|[]]; congruence) end.
  clear H. apply throw_if_Ok in Hm as [_ H]. apply bind_Ok in H as (man & _ & H).
  apply bind_Ok in H as (n & Hn & H). apply throw_if_Ok in H as [_ H].
  apply throw_if_Ok in Hn as [Hn [= <-]].
  destruct (jget man "keys") as [[| | | | |l|]|]; try done.
  apply throw_if_Ok in H as [_ H]. apply manifest_records_ok in H as [Hd Hf].
  split; [|split; [done|]; eapply Forall_impl; [exact Hf|]; by intros r [? _]].
  apply orb_false_iff in Hn as [Hs Hn]. apply negb_false_iff, isSafe_range in Hs. bool_to_prop. lia.
Qed.

Lemma map_get_keys records keys (e : Z) entry :
  Forall2 (fun r k => k.1 = r.1 /\ importKey r.2 = Ok k.2) records keys -> NoDup records.*1 ->
  map_get Z.eqb ((fun k => (k.1, k.2.2)) <$> keys) e = Some entry <->
  exists material fp, (e, material) ∈ records /\ importKey material = Ok (fp, entry).
Proof.
  induction 1 as [|[e1 m1] [e2 [fp2 k2]] records keys [He Hi] Hf IH]; intros Hd.
  { split; [done|]. intros (m & _ & H & _). by apply not_elem_of_nil in H. }
  simpl in He, Hi. subst e2. apply NoDup_cons in Hd as [Hn Hd]. cbn [fmap list_fmap map_get fst snd].
  destruct (e =? e1) eqn:E; bool_to_prop.
  - subst. split.
    + intros [= <-]. exists m1, fp2. split; [by left|done].
    + intros (m & fp & [[= ->]|Hin]%elem_of_cons & Hm); [congruence|].
      destruct Hn. apply list_elem_of_fmap. by exists (e1, m).
  - rewrite IH by done. split; intros (m & fp & Hin & Hm); exists m, fp; (split; [|done]).
    + by right.
    + apply elem_of_cons in Hin as [[= ? ?]|Hin]; done.
Qed.

(** What a provider hands out of the records of a manifest. *)
Lemma manifest_key records now1 now2 epoch entry :
  NoDup records.*1 ->
  keysForEpoch (Manifest records) now1 now2 epoch = Ok entry <->
  live now1 epoch /\ live now2 epoch /\ (exists keys, all_import records keys) /\
  exists material fp, (epoch, material) ∈ records /\ importKey material = Ok (fp, entry).
Proof.
  intros Hd. unfold keysForEpoch. rewrite check_live, bind_Ok.
  split.
  - intros (H1 & m & (keys & [Hf Hn] & ->)%load_manifest_Ok & H).
    apply check_live in H as [H2 H]. case_match eqn:E; [|done]. injection H as ->.
    split; [done|]. split; [done|]. split; [by exists keys|]. by apply (map_get_keys records keys).
  - intros (H1 & H2 & (keys & [Hf Hn]) & Hm). split; [done|].
    exists ((fun k => (k.1, k.2.2)) <$> keys). split; [apply load_manifest_Ok; by exists keys|].
    apply check_live. split; [done|]. apply (map_get_keys records keys) in Hm; [|done..].
    by rewrite Hm.
Qed.

(** ** The properties *)

(** C33. With a manifest, a key is handed out for an epoch exactly when the epoch is
    the current or the previous one, before and after the import is awaited, every
    key of the manifest imports, no two of them are one RSA key, and the key is the
    one the manifest names for that epoch. There is no other source of keys. *)
Theorem keysForEpoch_manifest (text : string) (records : list (Z * string)) (now now1 now2 epoch : Z)
    (entry : key_entry) :
  read_manifest JSON_parse now text = Ok records ->
  keysForEpoch (Manifest records) now1 now2 epoch = Ok entry <->
  live now1 epoch /\ live now2 epoch /\ (exists keys, all_import records keys) /\
  exists material fp, (epoch, material) ∈ records /\ importKey material = Ok (fp, entry).
Proof. intros (_ & Hd & _)%read_manifest_ok. by apply manifest_key. Qed.

(** A manifest expires: its keys serve the epoch of the clock at start-up and
    the one before, and from the second epoch after start-up on every request is
    refused, until the operator supplies a new one. *)
Theorem manifest_expires (legacy text : string) (p : provider) (now now1 now2 epoch : Z)
    (entry : key_entry) :
  createEpochKeyProvider JSON_parse legacy (Some text) now = Ok p ->
  keysForEpoch p now1 now2 epoch = Ok entry ->
  (epoch = now \/ epoch = now - 1) /\ now1 <= now + 1 /\ now2 <= now + 1.
Proof.
  intros Hp Hk. unfold createEpochKeyProvider in Hp.
  apply bind_Ok in Hp as (records & Hr & [= <-]).
  destruct (read_manifest_ok _ _ _ Hr) as (_ & Hd & Hf). unfold keysForEpoch in Hk.
  apply check_live in Hk as [(_ & _ & H1) Hk].
  apply bind_Ok in Hk as (m & (keys & [Hi _] & ->)%load_manifest_Ok & Hk).
  apply check_live in Hk as [(_ & _ & H2) Hk]. case_match eqn:E; [|done].
  apply (map_get_keys records keys) in E as (material & fp & Hin & _); [|done..].
  rewrite Forall_forall in Hf. specialize (Hf _ Hin). simpl in Hf. lia.
Qed.

(** Every signature returned verifies: the public operation on it gives back
    the blinded message, and it has the length of the message. *)
Theorem blindSign_verifies (entry : key_entry) (m s : buffer) :
  blindSign entry m = Ok s -> rsa_public (ke_signer entry) s = Ok m /\ blen s = blen m.
Proof.
  unfold blindSign. intros H. apply bind_Ok in H as (x & Hx & H).
  apply bind_Ok in H as (c & Hc & H). apply throw_if_Ok in H as [Hl H].
  apply check_equal in H as [-> [= ->]]. by bool_to_prop.
Qed.
End facts.

(** ** Witnesses *)
Module EpochSample.
(** A key is the bytes it was read from; the raw operations are the identity. *)
Definition crypto : PrivateCrypto := {|
  privkey := buffer; hash256 b := b;
  private_pem _ := Throw (Err "no PEM");
  private_pkcs8 b := Ok b; private_pkcs1 b := Ok b;
  private_type _ := "rsa"; private_bits _ := Some 2048;
  private_n k := match k with x00 :: _ => "AA" | _ => "BB" end; private_e _ := "AQAB"; public_spki k := Ok k;
  rsa_private _ b := Ok b; rsa_public _ b := Ok b |}.
Definition manifest : json := JObj [("version", JInt 1); ("keys", JArr [
  JObj [("epoch", JInt 7); ("privateKey", JStr "AAAA")];
  JObj [("epoch", JInt 6); ("privateKey", JStr "BBBB")]])].
Definition parse (text : string) : result exn json :=
  if String.eqb text "manifest" then Ok manifest else Throw (Err "Unexpected token").
Definition records : list (Z * string) := [(7, "AAAA"); (6, "BBBB")].
Definition entry : @key_entry crypto := @KeyEntry crypto [x00; x00; x00] "AAAA" "000000".
End EpochSample.
#[local] Existing Instance EpochSample.crypto.

Lemma keysForEpoch_manifest_witness :
  keysForEpoch (Manifest EpochSample.records) 7 8 7 = Ok EpochSample.entry /\ live 8 7.
Proof.
  assert (keysForEpoch (Manifest EpochSample.records) 7 8 7 = Ok EpochSample.entry) as E
    by (vm_compute; reflexivity).
  split; [exact E|].
  apply (keysForEpoch_manifest EpochSample.parse "manifest" EpochSample.records 7 7 8 7
    EpochSample.entry) in E; [|vm_compute; reflexivity].
  apply E.
Defined.

Lemma manifest_expires_witness :
  keysForEpoch (Manifest EpochSample.records) 7 8 7 = Ok EpochSample.entry /\ 8 <= 7 + 1.
Proof.
  assert (keysForEpoch (Manifest EpochSample.records) 7 8 7 = Ok EpochSample.entry) as E
    by (vm_compute; reflexivity).
  split; [exact E|].
  apply (manifest_expires EpochSample.parse "" "manifest" (Manifest EpochSample.records) 7 7 8 7
    EpochSample.entry); [vm_compute; reflexivity|exact E].
Defined.

Lemma blindSign_verifies_witness : exists e s, blindSign e [x05] = Ok s /\ blen s = blen [x05].
Proof.
  exists (@KeyEntry EpochSample.crypto [x01] "" ""), [x05]. split; [reflexivity|].
  apply (blindSign_verifies (@KeyEntry EpochSample.crypto [x01] "" "") [x05] [x05]). reflexivity.
Defined.
