(* ===== verification/Http.v ===== *)
(** * HTTP requests and the front-door lock

    What the three services share: a request and a response, the constant-time
    comparison of a header with a secret, the lock on requests that did not come
    through the front door, and the words a service may log. *)
From S2P Require Import Prelude JsMap JsText JsJson AppAttest AttestFacts.
From Stdlib Require Import Ascii.

(** A request with its headers as Node keeps them, by lower-case name, and a
    response: status, headers and body. *)
Record http_request := HttpRequest {
  q_method : string; q_url : string; q_headers : list (string * string); q_remote : string }.
Record http_response := HttpResponse {
  p_status : Z; p_headers : list (string * string); p_body : string }.

Definition header (req : http_request) (name : string) : option string :=
  map_get String.eqb (q_headers req) name.
Definition empty_response (status : Z) : http_response := HttpResponse status [] "".
Definition json_type : string * string := ("Content-Type", "application/json").
Definition error_body (e : string) : string := stringify (JObj [("error", JStr e)]).

(** [s.split(c)[0]]. *)
Definition before_char (c : ascii) (s : string) : string :=
  match js_split c s with x :: _ => x | [] => "" end.

(** The media type of a request, without its parameters. *)
Definition media_type (raw : option string) : string :=
  js_lower (js_trim (before_char ";" (default "" raw))).

(** A JSON value in a condition. *)
Definition truthy (v : option json) : bool :=
  match v with
  | None | Some JNull | Some (JBool false) | Some (JInt 0) => false
  | Some (JStr s) => nonempty s
  | Some _ => true
  end.

(** ** The front-door lock *)
Section lock.
Context (sha256 : buffer -> buffer).
(** [REQUIRE_FDID], empty when the lock is off, and [FDID_HEADER]. *)
Context (REQUIRE_FDID FDID_HEADER : string).

Definition timingSafeEqualStr (presented expected : string) : bool :=
  nonempty presented && bool_decide (sha256 (utf8_bytes presented) = sha256 (utf8_bytes expected)).

Definition frontDoorAllowed (req : http_request) : bool :=
  if negb (nonempty REQUIRE_FDID) then true
  else match header req FDID_HEADER with
  | Some raw =>
      nonempty raw &&
      existsb (fun tok => timingSafeEqualStr (js_trim tok) REQUIRE_FDID) (js_split "," raw)
  | None => false
  end.

(** Some token of the comma-joined header value hashes like the secret. *)
Definition presents_fdid (req : http_request) : Prop :=
  exists raw tok, header req FDID_HEADER = Some raw /\ tok ∈ js_split "," raw /\
    js_trim tok <> "" /\ sha256 (utf8_bytes (js_trim tok)) = sha256 (utf8_bytes REQUIRE_FDID).

Lemma nonempty_true s : nonempty s = true <-> s <> "".
Proof. by destruct s. Qed.

Lemma timingSafeEqualStr_true a b :
  timingSafeEqualStr a b = true <-> a <> "" /\ sha256 (utf8_bytes a) = sha256 (utf8_bytes b).
Proof. unfold timingSafeEqualStr. by rewrite andb_true_iff, nonempty_true, bool_decide_eq_true. Qed.

Lemma frontDoorAllowed_true req :
  frontDoorAllowed req = true <-> REQUIRE_FDID = "" \/ presents_fdid req.
Proof.
  unfold frontDoorAllowed, presents_fdid. destruct REQUIRE_FDID as [|c s] eqn:E; simpl; [naive_solver|].
  rewrite <-E. split.
  - intros H. right. destruct (header req FDID_HEADER) as [raw|]; [|done].
    apply andb_true_iff in H as [_ (tok & Hin & [Hn Hh]%timingSafeEqualStr_true)%existsb_exists].
    exists raw, tok. by apply list_elem_of_In in Hin.
  - intros [?|(raw & tok & -> & Hin & Hn & Hh)]; [congruence|]. apply andb_true_iff. split.
    + destruct raw; [|done]. apply list_elem_of_singleton in Hin. by subst.
    + apply existsb_exists. exists tok. split; [by apply list_elem_of_In|].
      by apply timingSafeEqualStr_true.
Qed.
End lock.

(** ** What may be logged *)

(** A value passed to [log]. *)
Definition log_fields := list (string * json).
Definition log_get (fields : log_fields) (k : string) : option json := map_get String.eqb fields k.

(** A line of a service's [safeLogFields]: the key it may set, and from what. *)
Definition log_rule : Type := string * (log_fields -> option json).
Fixpoint apply_rules (rules : list log_rule) (fields : log_fields) : log_fields :=
  match rules with
  | [] => []
  | (k, f) :: rules' =>
      match f fields with
      | Some v => (k, v) :: apply_rules rules' fields
      | None => apply_rules rules' fields
      end
  end.

(** [if (words.includes(fields[k])) safe[k] = fields[k]]. *)
Definition keep_word (words : list string) (k : string) : log_rule :=
  (k, fun fields => match log_get fields k with
                    | Some (JStr s) => if bool_decide (s ∈ words) then Some (JStr s) else None
                    | _ => None
                    end).
(** [if (fields[k] !== undefined) safe[k] = words.includes(fields[k]) ? fields[k] : 'other']. *)
Definition word_or_other (words : list string) (k : string) : log_rule :=
  (k, fun fields => match log_get fields k with
                    | Some (JStr s) => Some (JStr (if bool_decide (s ∈ words) then s else "other"))
                    | Some _ => Some (JStr "other")
                    | None => None
                    end).
Definition keep_int (lo hi : Z) (k : string) : log_rule :=
  (k, fun fields => match log_get fields k with
                    | Some (JInt z) => if (lo <=? z) && (z <=? hi) then Some (JInt z) else None
                    | _ => None
                    end).
Definition keep_bool (k : string) : log_rule :=
  (k, fun fields => match log_get fields k with Some (JBool b) => Some (JBool b) | _ => None end).
(** [durationMs] is a difference of two clock readings, an integer. *)
Definition keep_duration : log_rule :=
  ("durationMs", fun fields => match log_get fields "durationMs" with
                               | Some (JInt z) => Some (JInt (Z.max 0 z))
                               | _ => None
                               end).

(** What a logged value may be: a fixed word, a bounded number, a boolean. *)
Inductive log_type := Word (words : list string) | Number (lo : Z) (hi : option Z) | Flag.
Definition has_type (t : log_type) (v : json) : bool :=
  match t, v with
  | Word words, JStr s => bool_decide (s ∈ words)
  | Number lo hi, JInt z => (lo <=? z) && match hi with Some h => z <=? h | None => true end
  | Flag, JBool _ => true
  | _, _ => false
  end.
Definition log_schema := list (string * log_type).
Definition conforms (schema : log_schema) (fields : log_fields) : bool :=
  forallb (fun kv => existsb (fun kt => String.eqb kt.1 kv.1 && has_type kt.2 kv.2) schema) fields.

Lemma apply_rules_app rs1 rs2 f : apply_rules (rs1 ++ rs2) f = apply_rules rs1 f ++ apply_rules rs2 f.
Proof. induction rs1 as [|[k g] rs1 IH]; simpl; [done|]. by destruct (g f); rewrite IH. Qed.

(** A rule respects a schema when it types whatever it lets through. *)
Definition rule_ok (schema : log_schema) (r : log_rule) : Prop :=
  exists t, (r.1, t) ∈ schema /\ forall f v, r.2 f = Some v -> has_type t v = true.

Lemma apply_rules_conforms schema rules f :
  Forall (rule_ok schema) rules -> conforms schema (apply_rules rules f) = true.
Proof.
  unfold conforms. induction 1 as [|[k g] rules (t & Ht & Hg) _ IH]; [done|]. cbn [apply_rules].
  destruct (g f) as [v|] eqn:E; [|done]. cbn [forallb]. rewrite IH, andb_true_r.
  apply existsb_exists. exists (k, t). split; [by apply list_elem_of_In|]. simpl.
  by rewrite String.eqb_refl, (Hg _ _ E).
Qed.

Lemma keep_word_ok schema words k : (k, Word words) ∈ schema -> rule_ok schema (keep_word words k).
Proof.
  intros H. exists (Word words). split; [done|]. cbn. intros f v. repeat case_match; intros [= <-].
  by cbn.
Qed.
Lemma word_or_other_ok schema words k :
  (k, Word (words ++ ["other"])) ∈ schema -> rule_ok schema (word_or_other words k).
Proof.
  intros H. exists (Word (words ++ ["other"])). split; [done|]. cbn. intros f v.
  repeat case_match; intros [= <-]; cbn; bool_to_prop; apply bool_decide_eq_true_2; set_solver.
Qed.
Lemma keep_int_ok schema lo hi k : (k, Number lo (Some hi)) ∈ schema -> rule_ok schema (keep_int lo hi k).
Proof.
  intros H. exists (Number lo (Some hi)). split; [done|]. cbn. intros f v. repeat case_match; intros [= <-].
  done.
Qed.
Lemma keep_bool_ok schema k : (k, Flag) ∈ schema -> rule_ok schema (keep_bool k).
Proof. intros H. exists Flag. split; [done|]. cbn. intros f v. repeat case_match; by intros [= <-]. Qed.
Lemma keep_duration_ok schema : ("durationMs", Number 0 None) ∈ schema -> rule_ok schema keep_duration.
Proof.
  intros H. exists (Number 0 None). split; [done|]. cbn -[Z.max]. intros f v.
  repeat case_match; intros [= <-]. cbn -[Z.max]. rewrite andb_true_r. apply Z.leb_le. lia.
Qed.
Create HintDb logs.
#[export] Hint Resolve keep_word_ok word_or_other_ok keep_int_ok keep_bool_ok keep_duration_ok : logs.
