(* ===== verification/Issuer.v ===== *)
(** * The token issuer ([token-issuer/server.js])

    The epoch binding of a batch ([expectedClientDataHash], [boundEpoch]), the two
    handlers ([handleIssue], [handleIssuerKeys]), the dispatch of requests, the
    collection of a body and the filter of log fields. The keys, the
    validation and the store are arguments of [handleIssue], so that its theorems
    hold for [EpochKeys], [AppAttest] and [StateStore] and for any other. *)
From S2P Require Import Prelude JsMap JsText JsBase64 JsJson AppAttest StateStore EpochKeys Http.
From Stdlib Require Import Ascii.

(** ** Configuration *)
Record issuer_config := {
  EPOCH_SECONDS : Z;
  MAX_TOKENS_PER_REQUEST : Z;
  MAX_BODY : Z;
  REQUIRE_CLIENT_DATA_BINDING : bool;
  REQUIRE_FDID : string;
  FDID_HEADER : string;
}.
Definition RSA_MODULUS_BITS : Z := 2048.

(** ** Log fields *)
Definition log_reasons : list string :=
  ["bad_json"; "missing_keyid"; "bad_batch_size"; "attest_failed"; "client_data_binding_failed";
   "quota_exceeded"; "bad_blinded_type"; "bad_blinded_len"; "no_signing_key"; "blind_sign_error";
   "state_unavailable"; "unhandled"].
Definition log_proof_modes : list string := ["attestation"; "assertion"; "missing"].
Definition log_failures : list string :=
  ["configuration"; "client_data"; "proof_format"; "unknown_device_key"; "state_unavailable";
   "key_binding"; "counter"; "expired_epoch"; "quota"; "environment"; "app_identity";
   "assertion_signature"; "certificate_chain"; "nonce_binding"; "verification"].

(** A field of the [listen] line. *)
Definition listen_word (key : string) (f : log_fields -> string) : log_rule :=
  (key, fun fields => if is_str (log_get fields "event") "listen" then Some (JStr (f fields)) else None).

Definition issuer_log_rules (MAX_TOKENS : Z) : list log_rule :=
  [ word_or_other ["/health"; "/issuer-keys"; "/issue"] "route"; keep_int 100 599 "status"; keep_duration;
    keep_word log_reasons "reason"; keep_word log_proof_modes "proofMode";
    keep_word log_failures "attestFailure";
    keep_int 0 MAX_TOKENS "issued"; keep_int 0 MAX_TOKENS "count"; keep_int 0 MAX_SAFE_INTEGER "epoch";
    listen_word "event" (fun _ => "listen"); listen_word "role" (fun _ => "token-issuer");
    listen_word "appAttest" (fun f => if is_str (log_get f "appAttest") "enforced"
                                      then "enforced" else "stub-fail-closed");
    listen_word "signingKey" (fun f => if is_str (log_get f "signingKey") "present"
                                       then "present" else "missing-fail-closed") ].
Definition safeLogFields (MAX_TOKENS : Z) : log_fields -> log_fields :=
  apply_rules (issuer_log_rules MAX_TOKENS).

Section issuer.
Context (cfg : issuer_config) (sha256 : buffer -> buffer).

(** ** Epochs *)
Definition currentEpoch (now : Z) : Z := now / (1000 * EPOCH_SECONDS cfg).

(** The bytes that a client data hash commits to. *)
Definition batch_preimage (epochId : Z) (blinded : list string) : buffer :=
  ascii_bytes (js_dec epochId) ++ (blinded ≫= fun b => x00 :: base64_decode b).

Definition expectedClientDataHash (epochId : Z) (blinded : list string) : buffer :=
  sha256 (batch_preimage epochId blinded).

Fixpoint bound_candidate (got : buffer) (blinded : list string) (candidates : list Z) :
    result exn (option Z) :=
  match candidates with
  | [] => Ok None
  | candidate :: rest =>
      eq ← timingSafeEqual got (expectedClientDataHash candidate blinded);
      if eq : bool then Ok (Some candidate) else bound_candidate got blinded rest
  end.

(** [clientDataHash] is [None] when it is no string. *)
Definition boundEpoch (clientDataHash : option string) (blinded : list string) (epochId : Z) :
    result exn (option Z) :=
  match clientDataHash with
  | None => Ok None
  | Some s =>
      let got := base64_decode s in
      if negb (blen got =? 32) then Ok None
      else bound_candidate got blinded [epochId; epochId - 1]
  end.

(** ** Dispatch *)
Definition fdidExempt (req : http_request) (path : string) : bool :=
  String.eqb (q_method req) "GET" && (String.eqb path "/health" || String.eqb path "/issuer-keys").

Inductive issuer_route :=
| RouteDraining | RouteForbidden | RouteHealth | RouteIssuerKeys | RouteBadType | RouteIssue
| RouteNotFound.

Definition dispatch (draining : bool) (req : http_request) : issuer_route :=
  if draining then RouteDraining
  else if nonempty (REQUIRE_FDID cfg)
          && negb (fdidExempt req (before_char "?" (q_url req))) && negb (frontDoorAllowed sha256 (REQUIRE_FDID cfg) (FDID_HEADER cfg) req)
  then RouteForbidden
  else if String.eqb (q_method req) "GET" && String.eqb (q_url req) "/health" then RouteHealth
  else if String.eqb (q_method req) "GET" && String.eqb (q_url req) "/issuer-keys" then RouteIssuerKeys
  else if String.eqb (q_method req) "POST" && String.eqb (q_url req) "/issue" then
    if negb (String.eqb (media_type (header req "content-type")) "application/json")
    then RouteBadType else RouteIssue
  else RouteNotFound.

(** The answer of a route that starts no handler. *)
Definition route_response (r : issuer_route) : option http_response :=
  match r with
  | RouteDraining => Some (HttpResponse 503 [("Retry-After", "2")] "")
  | RouteForbidden => Some (empty_response 403)
  | RouteHealth => Some (HttpResponse 200 [("Content-Type", "text/plain")] "ok")
  | RouteBadType => Some (empty_response 415)
  | RouteNotFound => Some (empty_response 404)
  | RouteIssuerKeys | RouteIssue => None
  end.

(** ** Collecting the body of [/issue] *)
Inductive body_event := Data (chunk : buffer) | End (draining : bool).
Inductive body_state :=
| Collecting (chunks : buffer)
| Aborted
| Complete (body : buffer)
| Closed.

(** A step, with the response it sends. *)
Definition body_step (st : body_state) (ev : body_event) : body_state * option http_response :=
  match st, ev with
  | Collecting chunks, Data c =>
      if blen (chunks ++ c) >? MAX_BODY cfg then (Aborted, Some (empty_response 413))
      else (Collecting (chunks ++ c), None)
  | Collecting chunks, End draining =>
      if draining : bool then (Closed, Some (HttpResponse 503 [("Retry-After", "2")] ""))
      else (Complete chunks, None)
  | st, _ => (st, None)
  end.

Fixpoint body_run (st : body_state) (evs : list body_event) : body_state * list http_response :=
  match evs with
  | [] => (st, [])
  | ev :: evs' =>
      let '(st, r) := body_step st ev in
      let '(st, rs) := body_run st evs' in
      (st, match r with Some p => p :: rs | None => rs end)
  end.
End issuer.

(** ** [/issue] *)

(** What the handler takes out of the request. *)
Record issue_request := IssueRequest {
  i_keyId : string;
  i_attestation : proof;
  i_assertion : proof;
  i_clientDataHash : option string;
  i_blinded : list string;
}.

Definition answer : Type := http_response * log_fields.
Definition refuse (status : Z) (reason : string) : answer :=
  (empty_response status,
   [("route", JStr "/issue"); ("status", JInt status); ("reason", JStr reason)]).

Definition mode_string (m : attest_mode) : string :=
  match m with Attestation => "attestation" | Assertion => "assertion" end.

(** The checks on one blinded message, in order: the reason of a refusal, or the
    decoded messages. *)
Fixpoint check_blinded (l : list json) : string + list string :=
  match l with
  | [] => inr []
  | JStr b :: l' =>
      if negb (blen (base64_decode b) =? RSA_MODULUS_BITS / 8) then inl "bad_blinded_len"
      else match check_blinded l' with inl r => inl r | inr bs => inr (b :: bs) end
  | _ :: _ => inl "bad_blinded_type"
  end.

(** Before the reservation: an accepted request, and what it may be issued. *)
Record candidate := Candidate {
  n_epoch : Z; n_signing : Z; n_keys_id : string; n_blinded : list string;
  n_mode : attest_mode; n_keyId : string; n_publicKeyPem : string; n_signCount : Z }.

Section handlers.
Context `{P : PrivateCrypto} (cfg : issuer_config) (sha256 : buffer -> buffer).
(** [JSON.parse(body.toString('utf8'))], and [Buffer.from(v, 'base64')] of a JSON
    value that is no string. *)
Context (JSON_parse : buffer -> result exn json) (Buffer_from : json -> result exn buffer).
(** The components the handler calls: the key of an epoch, the validation of App
    Attest evidence against the state, and the reservation, which alone changes it. *)
Context {St : Type}.
Context (keysForEpoch : Z -> result exn key_entry).
Context (validate : St -> issue_request -> result exn attest_result).
Context (reserve : reservation -> St -> result exn reply * St).

Definition proof_field (v : option json) : proof :=
  if truthy v then
    match v with
    | Some (JStr s) => Some (Ok (base64_decode s))
    | Some w => Some (Buffer_from w)
    | None => None
    end
  else None.

(** The shape checks. *)
Definition read_request (parsed : json) : answer + issue_request :=
  match as_string (jget parsed "keyId") with
  | Some keyId =>
      if negb (nonempty keyId) then inl (refuse 400 "missing_keyid")
      else match jget parsed "blinded" with
      | Some (JArr blinded) =>
          if (Z.of_nat (length blinded) <? 1)
             || (Z.of_nat (length blinded) >? MAX_TOKENS_PER_REQUEST cfg)
          then inl (refuse 400 "bad_batch_size")
          else match check_blinded blinded with
          | inl reason => inl (refuse 400 reason)
          | inr bs => inr (IssueRequest keyId (proof_field (jget parsed "attestation"))
                             (proof_field (jget parsed "assertion"))
                             (as_string (jget parsed "clientDataHash")) bs)
          end
      | _ => inl (refuse 400 "bad_batch_size")
      end
  | None => inl (refuse 400 "missing_keyid")
  end.

(** The answer to a proof that was not accepted. *)
Definition refuse_proof (req : issue_request) (reason : string) (detail : option string) : answer :=
  let unavailable := String.eqb reason "state_unavailable" in
  let status := if unavailable then 503 else 401 in
  (HttpResponse status (json_type :: if unavailable then [("Retry-After", "2")] else [])
     (error_body (if unavailable then "state_unavailable"
                  else if String.eqb reason "unknown_device_key" then "unknown_device_key"
                  else "attest_failed")),
   [("route", JStr "/issue"); ("status", JInt status);
    ("reason", JStr (if unavailable then "state_unavailable" else "attest_failed"));
    ("proofMode", JStr (match i_attestation req, i_assertion req with
                        | Some _, _ => "attestation" | None, Some _ => "assertion"
                        | None, None => "missing" end));
    ("attestFailure", JStr (attestationFailureCategory reason detail))]).

(** Binding, key and proof, up to the reservation. *)
Definition issue_checks (now : Z) (req : issue_request) (seen : St) :
    result exn (answer + candidate * key_entry) :=
  let epochId := currentEpoch cfg now in
  signing ← (if REQUIRE_CLIENT_DATA_BINDING cfg
             then boundEpoch sha256 (i_clientDataHash req) (i_blinded req) epochId
             else Ok (Some epochId));
  match signing with
  | None => Ok (inl (refuse 401 "client_data_binding_failed"))
  | Some signingEpochId =>
      match keysForEpoch signingEpochId with
      | Throw Diverges => Throw Diverges
      | Throw _ => Ok (inl (refuse 503 "no_signing_key"))
      | Ok keys =>
          match validate seen req with
          | Throw Diverges => Throw Diverges
          | Throw _ => Ok (inl (refuse_proof req "verification_exception" None))
          | Ok (AttestRefused reason detail) => Ok (inl (refuse_proof req reason detail))
          | Ok (AttestOk mode keyId publicKeyPem signCount) =>
              Ok (inr (Candidate epochId signingEpochId (ke_keyId keys) (i_blinded req)
                         mode keyId publicKeyPem signCount, keys))
          end
      end
  end.

Definition reservation_of (c : candidate) : reservation :=
  Reservation (n_keyId c) (mode_string (n_mode c)) (n_publicKeyPem c) (n_signCount c)
    (n_epoch c) (Z.of_nat (length (n_blinded c))).

(** The seconds to the next epoch, at least one. *)
Definition retry_after (epochId now : Z) : Z :=
  Z.max 1 (- ((now - (epochId + 1) * EPOCH_SECONDS cfg * 1000) / 1000)).

Definition refuse_reservation (late : Z) (c : candidate) (reason : string) : answer :=
  let limited := String.eqb reason "quota_exceeded" in
  let status := if limited then 429 else 401 in
  (HttpResponse status
     (json_type :: if limited then [("Retry-After", js_dec (retry_after (n_epoch c) late))] else [])
     (error_body (if limited then "quota_exceeded"
                  else if String.eqb reason "unknown_device_key" then "unknown_device_key"
                  else "attest_failed")),
   [("route", JStr "/issue"); ("status", JInt status);
    ("reason", JStr (if limited then "quota_exceeded" else "attest_failed"));
    ("proofMode", JStr (mode_string (n_mode c)));
    ("attestFailure", JStr (attestationFailureCategory reason None));
    ("count", JInt (Z.of_nat (length (n_blinded c))))]).

(** The blind signatures, in the order of the batch. *)
Fixpoint sign_all (keys : key_entry) (blinded : list string) : result exn (list string) :=
  match blinded with
  | [] => Ok []
  | b :: rest =>
      sig ← blindSign keys (base64_decode b);
      sigs ← sign_all keys rest;
      Ok (base64_encode sig :: sigs)
  end.

Definition issued (c : candidate) (sigs : list string) : answer :=
  (HttpResponse 200 [json_type]
     (stringify (JObj [("epoch", JInt (n_signing c)); ("keyId", JStr (n_keys_id c));
                       ("blindSigs", JArr (JStr <$> sigs))])),
   [("route", JStr "/issue"); ("status", JInt 200);
    ("issued", JInt (Z.of_nat (length sigs))); ("epoch", JInt (n_epoch c))]).

(** [now] is the clock at the epoch reading, [late] after the reservation; [seen]
    is the state the validation reads, [s] the state the reservation finds. *)
Definition handleIssue (now late : Z) (body : buffer) (seen s : St) : result exn answer * St :=
  match JSON_parse body with
  | Throw Diverges => (Throw Diverges, s)
  | Throw _ => (Ok (refuse 400 "bad_json"), s)
  | Ok parsed =>
      match read_request parsed with
      | inl a => (Ok a, s)
      | inr req =>
          match issue_checks now req seen with
          | Throw e => (Throw e, s)
          | Ok (inl a) => (Ok a, s)
          | Ok (inr (c, keys)) =>
              let '(out, s') := reserve (reservation_of c) s in
              match out with
              | Throw Diverges => (Throw Diverges, s')
              | Throw _ =>
                  (Ok (HttpResponse 503 [json_type; ("Retry-After", "2")]
                         (error_body "state_unavailable"),
                       [("route", JStr "/issue"); ("status", JInt 503);
                        ("reason", JStr "state_unavailable")]), s')
              | Ok (Denied reason) => (Ok (refuse_reservation late c reason), s')
              | Ok Granted =>
                  match sign_all keys (n_blinded c) with
                  | Throw Diverges => (Throw Diverges, s')
                  | Throw _ => (Ok (refuse 500 "blind_sign_error"), s')
                  | Ok sigs => (Ok (issued c sigs), s')
                  end
              end
          end
      end
  end.

(** The [catch] of the dispatcher around it. *)
Definition handleIssue_caught (now late : Z) (body : buffer) (seen s : St) : result exn answer * St :=
  match handleIssue now late body seen s with
  | (Throw Diverges, s') => (Throw Diverges, s')
  | (Throw _, s') => (Ok (refuse 500 "unhandled"), s')
  | r => r
  end.

(** ** [/issuer-keys] *)
Fixpoint publish_keys (epochs : list Z) : result exn (list json) :=
  match epochs with
  | [] => Ok []
  | id :: rest =>
      k ← keysForEpoch id;
      ks ← publish_keys rest;
      Ok (JObj [("epoch", JInt id); ("keyId", JStr (ke_keyId k)); ("publicKeySpki", JStr (ke_spkiB64 k))]
          :: ks)
  end.

Definition key_document (epochId : Z) (keys : list json) : json :=
  JObj [("schemaVersion", JInt 1); ("suite", JStr "RSABSSA-SHA384-PSS-Deterministic");
        ("epoch", JInt epochId); ("epochSeconds", JInt (EPOCH_SECONDS cfg)); ("keys", JArr keys)].

Definition handleIssuerKeys (now : Z) : result exn answer :=
  let epochId := currentEpoch cfg now in
  match publish_keys [epochId; epochId - 1] with
  | Throw Diverges => Throw Diverges
  | Throw _ => Ok (empty_response 503,
      [("route", JStr "/issuer-keys"); ("status", JInt 503); ("reason", JStr "no_signing_key")])
  | Ok keys => Ok (HttpResponse 200 [json_type] (stringify (key_document epochId keys)),
      [("route", JStr "/issuer-keys"); ("status", JInt 200); ("epoch", JInt epochId)])
  end.
End handlers.
