(* ===== verification/Drain.v ===== *)
(** * Shutdown of the issuer ([token-issuer/server.js])

    A signal stops the admission of work; the process exits with 0 once the server
    has closed and the last handler has settled, or with 1 when the timer fires
    first. [st_at] runs the machine along an infinite sequence of events, over which
    the liveness of the shutdown is stated. *)
From S2P Require Import Prelude.

Record drain_state := DrainState {
  draining : bool;
  httpClosed : bool;
  activeWork : Z;
  (** [process.exit]: the code, once called. *)
  exited : option Z;
}.
Definition serving : drain_state := DrainState false false 0 None.

Definition finishDrain (s : drain_state) : drain_state :=
  if draining s && httpClosed s && (activeWork s =? 0)
  then DrainState (draining s) (httpClosed s) (activeWork s) (Some 0) else s.

(** [beginShutdown]; [server.close] takes its callback, [ServerClosed], with it. *)
Definition beginShutdown (s : drain_state) : drain_state :=
  if draining s then s else DrainState true (httpClosed s) (activeWork s) (exited s).
Definition server_closed (s : drain_state) : drain_state :=
  finishDrain (DrainState (draining s) true (activeWork s) (exited s)).
Definition shutdown_timeout (s : drain_state) : drain_state :=
  DrainState (draining s) (httpClosed s) (activeWork s) (Some 1).

(** [trackWork]: around a handler that starts, and its [finally]. *)
Definition work_starts (s : drain_state) : drain_state :=
  if draining s then s else DrainState (draining s) (httpClosed s) (activeWork s + 1) (exited s).
Definition work_settles (s : drain_state) : drain_state :=
  finishDrain (DrainState (draining s) (httpClosed s) (activeWork s - 1) (exited s)).

Inductive drain_event := WorkStarts | WorkSettles | Signal | ServerClosed | Timeout.

(** An event that cannot happen leaves the state: nothing settles when nothing
    runs, the callback and the timer exist only after a signal, and the callback
    comes once. *)
Definition drain_step (s : drain_state) (e : drain_event) : drain_state :=
  match exited s with
  | Some _ => s
  | None =>
  match e with
  | WorkStarts => work_starts s
  | WorkSettles => if activeWork s >? 0 then work_settles s else s
  | Signal => beginShutdown s
  | ServerClosed => if draining s && negb (httpClosed s) then server_closed s else s
  | Timeout => if draining s then shutdown_timeout s else s
  end
  end.

Fixpoint st_at (evs : nat -> drain_event) (n : nat) : drain_state :=
  match n with O => serving | S n' => drain_step (st_at evs n') (evs n') end.

(** ** Invariant *)
Record drain_ok (s : drain_state) : Prop := {
  do_work : 0 <= activeWork s;
  do_closed : httpClosed s = true -> draining s = true;
  (** Closed and idle is exited. *)
  do_prompt : draining s = true -> httpClosed s = true -> activeWork s = 0 -> is_Some (exited s);
  do_exit0 : exited s = Some 0 -> draining s = true /\ httpClosed s = true /\ activeWork s = 0;
  do_codes : forall c, exited s = Some c -> draining s = true /\ (c = 0 \/ c = 1);
}.

(** All cases of a step. *)
Ltac step_cases :=
  unfold drain_step, work_starts, work_settles, beginShutdown, server_closed, shutdown_timeout,
    finishDrain;
  repeat (case_match; bool_to_prop; simplify_eq; simpl in * ).

Lemma drain_step_ok s e : drain_ok s -> drain_ok (drain_step s e).
Proof.
  intros Hok. unfold drain_step. destruct (exited s) eqn:He; [done|].
  destruct Hok as [Hw Hc Hp H0 Hx].
  destruct s as [d h w x]; simpl in *; subst x.
  destruct e; step_cases;
    constructor; simpl in *; intros; simplify_eq; bool_to_prop; naive_solver (eauto; lia).
Qed.

Lemma st_at_ok evs n : drain_ok (st_at evs n).
Proof. induction n; simpl; [by constructor; simpl; naive_solver lia|by apply drain_step_ok]. Qed.

(** ** Along a run *)
Section run.
Context (evs : nat -> drain_event).
Notation st := (st_at evs).

Lemma exited_stays n m c : (n <= m)%nat -> exited (st n) = Some c -> exited (st m) = Some c.
Proof.
  induction 1; [done|]. intros Hn%IHle. simpl. unfold drain_step.
  by rewrite Hn.
Qed.

Lemma draining_stays n m : (n <= m)%nat -> draining (st n) = true -> draining (st m) = true.
Proof.
  induction 1; [done|]. intros Hn%IHle. simpl. destruct (st m) as [d h w x]. simpl in *. subst.
  by step_cases.
Qed.
Lemma closed_stays n m : (n <= m)%nat -> httpClosed (st n) = true -> httpClosed (st m) = true.
Proof.
  induction 1; [done|]. intros Hn%IHle. simpl. destruct (st m) as [d h w x]. simpl in *. subst.
  by step_cases.
Qed.
Lemma work_falls n m :
  (n <= m)%nat -> draining (st n) = true -> activeWork (st m) <= activeWork (st n).
Proof.
  induction 1 as [|m Hm IH]; [done|]. intros H. specialize (IH H).
  pose proof (draining_stays n m Hm H) as Hd. simpl. destruct (st m) as [d h w x]. simpl in *.
  subst. step_cases; lia.
Qed.

(** A signal starts the drain, the callback closes, a settled handler is counted,
    unless the process has exited. *)
Lemma signal_drains n : evs n = Signal -> exited (st n) = None -> draining (st (S n)) = true.
Proof. intros E H. simpl. rewrite E. destruct (st n) as [d h w x]. simpl in *. subst. by step_cases. Qed.
Lemma closed_closes n :
  evs n = ServerClosed -> draining (st n) = true -> exited (st n) = None ->
  httpClosed (st (S n)) = true.
Proof.
  intros E Hd H. simpl. rewrite E. destruct (st n) as [d h w x]. simpl in *. subst. by step_cases.
Qed.
Lemma settle_counts n :
  evs n = WorkSettles -> draining (st n) = true -> exited (st n) = None -> 0 < activeWork (st n) ->
  activeWork (st (S n)) = activeWork (st n) - 1.
Proof.
  intros E Hd H Hw. simpl. rewrite E. destruct (st n) as [d h w x]. simpl in *. subst.
  step_cases; lia.
Qed.

(** Every handler that runs settles, after a signal the callback comes. *)
Definition fair : Prop :=
  (forall n, 0 < activeWork (st n) -> exists m, (n <= m)%nat /\ evs m = WorkSettles) /\
  (forall n, evs n = Signal -> exists m, (n < m)%nat /\ evs m = ServerClosed).

Lemma work_drains (k : nat) n :
  fair -> draining (st n) = true -> activeWork (st n) <= Z.of_nat k ->
  exists m, (n <= m)%nat /\ (is_Some (exited (st m)) \/ activeWork (st m) = 0).
Proof.
  intros [Hf _]. revert n. induction k as [|k IH]; intros n Hd Hw.
  { exists n. split; [done|]. right. pose proof (do_work _ (st_at_ok evs n)). lia. }
  destruct (decide (activeWork (st n) = 0)) as [?|Hz]; [by exists n; eauto|].
  pose proof (do_work _ (st_at_ok evs n)) as Hp.
  destruct (Hf n) as (m & Hm & Em); [lia|].
  pose proof (draining_stays n m Hm Hd) as Hdm. pose proof (work_falls n m Hm Hd) as Hle.
  destruct (exited (st m)) as [c|] eqn:Ex; [by exists m; rewrite Ex; eauto|].
  destruct (decide (activeWork (st m) = 0)) as [?|Hz']; [by exists m; eauto|].
  pose proof (do_work _ (st_at_ok evs m)).
  destruct (IH (S m)) as (m' & ? & ?).
  - by apply (draining_stays m); [lia|].
  - rewrite settle_counts by (done || lia). lia.
  - exists m'. split; [lia|done].
Qed.

(** The timer's step ends the process. *)
Lemma timer_exits n : evs n = Timeout -> draining (st n) = true -> exited (st n) = None ->
  exited (st (S n)) = Some 1.
Proof. intros E Hd H. simpl. rewrite E. destruct (st n) as [d h w x]. simpl in *. subst. by step_cases. Qed.

(** Code 1 is the timer's. *)
Lemma exit_1_timer n : exited (st n) = Some 1 -> exists k, (k < n)%nat /\ evs k = Timeout.
Proof.
  induction n as [|n IH]; [done|]. destruct (exited (st n)) as [c|] eqn:Ex.
  - rewrite (exited_stays n (S n) c) by (done || lia). intros [= ->].
    destruct (IH eq_refl) as (k & ? & ?). exists k. split; [lia|done].
  - intros H. exists n. split; [lia|]. revert H. simpl. destruct (st n) as [d h w x]; simpl in *; subst.
    by step_cases.
Qed.

(** A signal after which the handlers settle and the server closes ends the process. *)
Lemma drained_exits n : evs n = Signal -> fair -> exists m, (n < m)%nat /\ is_Some (exited (st m)).
Proof.
  intros E Hf. destruct (exited (st n)) as [c|] eqn:Ex.
  { exists (S n). split; [lia|]. exists c. apply (exited_stays n); [lia|done]. }
  pose proof (signal_drains n E Ex) as Hd. destruct Hf as [Hf1 Hf2].
  destruct (Hf2 n E) as (m & Hm & Em). pose proof (draining_stays (S n) m Hm Hd) as Hdm.
  destruct (exited (st m)) as [c|] eqn:Exm; [by exists m; rewrite Exm; eauto|].
  pose proof (closed_closes m Em Hdm Exm) as Hc.
  assert (draining (st (S m)) = true) as Hdm' by (apply (draining_stays m); [lia|done]).
  destruct (work_drains (Z.to_nat (activeWork (st (S m)))) (S m)) as (m' & Hm' & Hr);
    [by split|done|pose proof (do_work _ (st_at_ok evs (S m))); lia|].
  exists m'. split; [lia|]. destruct Hr as [?|Hz]; [done|].
  apply (do_prompt _ (st_at_ok evs m')); [by apply (draining_stays (S m))|by apply (closed_stays (S m))|done].
Qed.

(** C26. A signal ends the process, in one of two ways. When the timer fires, the
    process has exited, whatever the handlers and the server do: with code 1, unless
    it had exited before. And along every sequence of events in which the handlers
    that run settle and the server's close callback comes after the signal, it exits
    with or without the timer. Code 0 means that the server had closed and nothing
    was running any more, code 1 that the timer had fired; there is no other. *)
Theorem shutdown_completes (n : nat) :
  evs n = Signal ->
  (forall m, (n < m)%nat -> evs m = Timeout ->
     is_Some (exited (st (S m))) /\ (exited (st m) = None -> exited (st (S m)) = Some 1)) /\
  (fair -> exists m, (n < m)%nat /\ is_Some (exited (st m))) /\
  (forall m c, exited (st m) = Some c ->
     c = 0 /\ httpClosed (st m) = true /\ activeWork (st m) = 0 \/
     c = 1 /\ exists k, (k < m)%nat /\ evs k = Timeout).
Proof.
  intros E. split; [|split; [by apply drained_exits|]].
  - intros m Hm Em. destruct (exited (st m)) as [c|] eqn:Ex.
    { split; [|done]. exists c. apply (exited_stays m); [lia|done]. }
    assert (exited (st n) = None) as Hn.
    { destruct (exited (st n)) as [c|] eqn:En; [|done].
      rewrite (exited_stays n m c) in Ex by (done || lia). done. }
    assert (draining (st m) = true) as Hd by (apply (draining_stays (S n)); [lia|by apply signal_drains]).
    rewrite (timer_exits m Em Hd Ex). by split.
  - intros m c Hx. destruct (do_codes _ (st_at_ok evs m) c Hx) as [_ [-> | ->]].
    + left. by destruct (do_exit0 _ (st_at_ok evs m) Hx) as (_ & ? & ?).
    + right. split; [done|]. by apply exit_1_timer.
Qed.
End run.

(** ** Witness *)
Module DrainSample.
(** One handler runs when the signal comes; the server closes before it settles. *)
Definition evs (n : nat) : drain_event :=
  match n with O => WorkStarts | 1%nat => Signal | 2%nat => ServerClosed | _ => WorkSettles end.
(** A handler that never settles: the timer is the sixth event. *)
Definition stuck (n : nat) : drain_event :=
  match n with O => WorkStarts | 1%nat => Signal | 2%nat => ServerClosed | 5%nat => Timeout | _ => WorkStarts end.
Lemma evs_fair : fair evs.
Proof.
  split.
  - intros n _. exists (n + 3)%nat. split; [lia|]. by destruct n as [|[|[|n]]].
  - intros [|[|[|n]]] E; try discriminate E. exists 2%nat. split; [lia|reflexivity].
Qed.
End DrainSample.

Lemma shutdown_completes_witness :
  (exists m, (1 < m)%nat /\ is_Some (exited (st_at DrainSample.evs m))) /\
  exited (st_at DrainSample.stuck 6) = Some 1.
Proof.
  split.
  - destruct (shutdown_completes DrainSample.evs 1) as (_ & H & _); [reflexivity|].
    exact (H DrainSample.evs_fair).
  - destruct (shutdown_completes DrainSample.stuck 1) as (H & _); [reflexivity|].
    destruct (H 5%nat) as [_ Hx]; [lia|reflexivity|]. apply Hx. reflexivity.
Defined.
