(* ===== verification/IssuerTheorems.v ===== *)
(** * Properties of the issuer's handlers

    What [handleIssue] answers and when, for any components that it calls: a batch
    is signed exactly as it was proved, reserved and bound; the state changes
    through one reservation after every check; a client data hash commits to one
    batch; the log says what happened and nothing of the request. *)
From S2P Require Import Prelude JsMap JsText JsBase64 JsJson AppAttest AttestFacts AttestTheorems.
From S2P Require Import StateStore StateFacts EpochKeys Http Issuer.
From Stdlib Require Import Ascii.

(** ** The shape of a request *)

(** A blinded message decodes to the 256 bytes of the modulus. *)
Definition full_length (b : string) : Prop := blen (base64_decode b) = 256.

Lemma check_blinded_ok l bs :
  check_blinded l = inr bs <-> l = JStr <$> bs /\ Forall full_length bs.
Proof.
  revert bs. induction l as [|x l IH]; intros bs; simpl.
  - split; [by intros [= <-]|]. by intros [H%symmetry%fmap_nil_inv _]; subst.
  - destruct x as [| | | |b| |]; try (split; [done|]; intros [H _]; destruct bs; discriminate H).
    change (RSA_MODULUS_BITS / 8) with 256. unfold full_length in *.
    destruct (blen (base64_decode b) =? 256) eqn:E; simpl; bool_to_prop.
    + destruct (check_blinded l) as [r|bs'].
      * split; [done|]. intros [H Hf]. destruct bs as [|b' bs]; [done|]. injection H as <- ->.
        apply Forall_cons in Hf as [_ Hf]. discriminate (proj2 (IH bs) (conj eq_refl Hf)).
      * split.
        -- intros [= <-]. destruct (proj1 (IH bs') eq_refl) as [-> Hf]. by split; [|constructor].
        -- intros [H Hf]. destruct bs as [|b' bs]; [done|]. injection H as <- ->.
           apply Forall_cons in Hf as [_ Hf]. injection (proj2 (IH bs) (conj eq_refl Hf)) as ->. done.
    + split; [done|]. intros [H Hf]. destruct bs as [|b' bs]; [done|]. injection H as <- ->.
      by apply Forall_cons in Hf as [? _].
Qed.

Lemma check_blinded_reason l r :
  check_blinded l = inl r -> r = "bad_blinded_type" \/ r = "bad_blinded_len".
Proof.
  revert r. induction l as [|x l IH]; intros r; simpl; [done|].
  destruct x; try (intros [= <-]; by left). case_match; [intros [= <-]; by right|].
  case_match; [|done]. intros [= <-]. by apply IH.
Qed.

(** ** Blind signatures *)
Section sign.
Context `{P : PrivateCrypto}.

Lemma sign_all_ok keys bs sigs :
  sign_all keys bs = Ok sigs ->
  exists raw, sigs = base64_encode <$> raw /\
    Forall2 (fun b s => rsa_public (ke_signer keys) s = Ok (base64_decode b)
                        /\ blen s = blen (base64_decode b)) bs raw.
Proof.
  revert sigs. induction bs as [|b bs IH]; intros sigs; simpl.
  - intros [= <-]. by exists [].
  - intros H. apply bind_Ok in H as (s & Hs & H). apply bind_Ok in H as (rest & Hr & [= <-]).
    destruct (IH _ Hr) as (raw & -> & Hf). exists (s :: raw). split; [done|].
    constructor; [by apply blindSign_verifies|done].
Qed.
End sign.

(** ** The handler *)
Section issue.
Context `{P : PrivateCrypto} (cfg : issuer_config) (sha256 : buffer -> buffer).
Context (JSON_parse : buffer -> result exn json) (Buffer_from : json -> result exn buffer).
Context {St : Type}.
Context (keysForEpoch : Z -> result exn key_entry).
Context (validate : St -> issue_request -> result exn attest_result).
Context (reserve : reservation -> St -> result exn reply * St).

Notation issue := (handleIssue cfg sha256 JSON_parse Buffer_from keysForEpoch validate reserve).
Notation issue_caught :=
  (handleIssue_caught cfg sha256 JSON_parse Buffer_from keysForEpoch validate reserve).
Notation checks := (issue_checks cfg sha256 keysForEpoch validate).

Lemma read_request_ok parsed req :
  read_request cfg Buffer_from parsed = inr req ->
  jget parsed "keyId" = Some (JStr (i_keyId req)) /\ i_keyId req <> "" /\
  jget parsed "blinded" = Some (JArr (JStr <$> i_blinded req)) /\
  1 <= Z.of_nat (length (i_blinded req)) <= MAX_TOKENS_PER_REQUEST cfg /\
  Forall full_length (i_blinded req) /\
  i_clientDataHash req = as_string (jget parsed "clientDataHash") /\
  i_attestation req = proof_field Buffer_from (jget parsed "attestation") /\
  i_assertion req = proof_field Buffer_from (jget parsed "assertion").
Proof.
  unfold read_request. destruct (jget parsed "keyId") as [[| | | |k| |]|] eqn:Ek; simpl; try done.
  destruct (negb (nonempty k)) eqn:En; [done|]. apply negb_false_iff, nonempty_true in En.
  destruct (jget parsed "blinded") as [[| | | | |l|]|]; try done.
  destruct (_ || _) eqn:El; [done|]. bool_to_prop.
  destruct (check_blinded l) as [r|bs] eqn:Eb; [done|]. apply check_blinded_ok in Eb as [-> Hf].
  rewrite length_fmap in *. intros [= <-]. cbn [i_keyId i_blinded i_clientDataHash i_attestation i_assertion].
  repeat (split; [done || lia|]). done.
Qed.

Lemma boundEpoch_ok h bs e s :
  boundEpoch sha256 h bs e = Ok (Some s) ->
  (s = e \/ s = e - 1) /\
  exists t, h = Some t /\ blen (base64_decode t) = 32 /\
    base64_decode t = expectedClientDataHash sha256 s bs.
Proof.
  unfold boundEpoch. destruct h as [t|]; [|done].
  destruct (negb _) eqn:El; [done|]. bool_to_prop. unfold bound_candidate.
  intros H. apply bind_Ok in H as ([|] & E & H).
  { injection H as <-. apply timingSafeEqual_true in E. by eauto 6. }
  apply bind_Ok in H as ([|] & E' & H); [|done].
  injection H as <-. apply timingSafeEqual_true in E'. by eauto 6.
Qed.

(** How the epoch to sign for follows from the clock and the binding. *)
Definition epoch_bound (epochId signing : Z) (req : issue_request) : Prop :=
  if REQUIRE_CLIENT_DATA_BINDING cfg
  then boundEpoch sha256 (i_clientDataHash req) (i_blinded req) epochId = Ok (Some signing)
  else signing = epochId.

Lemma issue_checks_ok now req seen c keys :
  checks now req seen = Ok (inr (c, keys)) <->
  exists signing mode kid pem n,
    epoch_bound (currentEpoch cfg now) signing req /\ keysForEpoch signing = Ok keys /\
    validate seen req = Ok (AttestOk mode kid pem n) /\
    c = Candidate (currentEpoch cfg now) signing (ke_keyId keys) (i_blinded req) mode kid pem n.
Proof.
  unfold issue_checks, epoch_bound. rewrite bind_Ok. split.
  - intros ([signing|] & Hs & H); [|done].
    destruct (keysForEpoch signing) as [k|[]] eqn:Ek; try done.
    destruct (validate seen req) as [[mode kid pem n|]|[]] eqn:Ev; try done.
    injection H as <- <-. exists signing, mode, kid, pem, n. split; [|done].
    by destruct (REQUIRE_CLIENT_DATA_BINDING cfg); [|congruence].
  - intros (signing & mode & kid & pem & n & Hs & Ek & Ev & ->). exists (Some signing).
    rewrite Ek, Ev. split; [|done]. destruct (REQUIRE_CLIENT_DATA_BINDING cfg); [done|by subst].
Qed.

(** A call goes through: what it reserves, and the state it leaves. *)
Lemma issue_reserves now late body seen s parsed req c keys :
  JSON_parse body = Ok parsed -> read_request cfg Buffer_from parsed = inr req ->
  checks now req seen = Ok (inr (c, keys)) ->
  snd (issue now late body seen s) = snd (reserve (reservation_of c) s).
Proof.
  intros E1 E2 E3. unfold handleIssue. rewrite E1, E2, E3.
  destruct (reserve _ s) as [[[]|[]] s']; [|done..]. by destruct (sign_all _ _) as [|[]].
Qed.

(** Before the reservation the answers are refusals, and the state is untouched. *)
Lemma issue_refuses now late body seen s a s' :
  issue now late body seen s = (Ok a, s') ->
  (s' = s /\ p_status a.1 <> 200) \/
  exists parsed req c keys out, JSON_parse body = Ok parsed /\
    read_request cfg Buffer_from parsed = inr req /\ checks now req seen = Ok (inr (c, keys)) /\
    reserve (reservation_of c) s = (out, s') /\
    match out with
    | Ok Granted =>
        match sign_all keys (n_blinded c) with
        | Ok sigs => a = issued c sigs
        | Throw _ => a = refuse 500 "blind_sign_error"
        end
    | Ok (Denied reason) => a = refuse_reservation cfg late c reason
    | Throw _ => p_status a.1 = 503
    end.
Proof.
  unfold handleIssue. destruct (JSON_parse body) as [parsed|[]] eqn:Ej; [|intros [= <- <-]; by left|done].
  destruct (read_request cfg Buffer_from parsed) as [a'|req] eqn:Er.
  { intros [= <- <-]. left. split; [done|]. revert Er. unfold read_request.
    repeat case_match; by intros [= <-]. }
  destruct (checks now req seen) as [[a'|[c keys]]|e] eqn:Ec; [| |done].
  { intros [= <- <-]. left. split; [done|]. revert Ec. unfold issue_checks. rewrite bind_Ok.
    intros ([signing|] & _ & H); [|by injection H as <-].
    destruct (keysForEpoch signing) as [k|[]]; [|by injection H as <-|done].
    destruct (validate seen req) as [[|]|[]]; [done| |by injection H as <-|done].
    injection H as <-. simpl. by destruct (String.eqb _ _). }
  destruct (reserve (reservation_of c) s) as [out s''] eqn:Es. intros H. right.
  exists parsed, req, c, keys, out.
  assert (s'' = s') as -> by (destruct out as [[]|[]]; [destruct (sign_all _ _) as [|[]]|..]; congruence).
  split; [done|]. split; [done|]. split; [done|]. split; [done|].
  destruct out as [[]|[]]; try done.
  - by destruct (sign_all keys _) as [|[]]; simplify_eq.
  - by simplify_eq.
  - by simplify_eq.
Qed.

(** The state changes through one reservation of the whole batch, after every check,
    or not at all. *)
Lemma issue_state now late body seen s r s' :
  issue now late body seen s = (r, s') ->
  s' = s \/
  exists parsed req c keys, JSON_parse body = Ok parsed /\
    read_request cfg Buffer_from parsed = inr req /\ checks now req seen = Ok (inr (c, keys)) /\
    s' = snd (reserve (reservation_of c) s).
Proof.
  intros H. destruct (JSON_parse body) as [parsed|e] eqn:Ej.
  2: { left. unfold handleIssue in H. rewrite Ej in H. destruct e; congruence. }
  destruct (read_request cfg Buffer_from parsed) as [a'|req] eqn:Er.
  { left. unfold handleIssue in H. rewrite Ej, Er in H. congruence. }
  destruct (checks now req seen) as [[a'|[c keys]]|e] eqn:Ec.
  1,3: left; unfold handleIssue in H; rewrite Ej, Er, Ec in H; congruence.
  right. exists parsed, req, c, keys. repeat (split; [done|]).
  by rewrite <-(issue_reserves now late body seen s _ _ _ _ Ej Er Ec), H.
Qed.

(** ** What the handler answers *)
Definition state_unavailable_answer : answer :=
  (HttpResponse 503 [json_type; ("Retry-After", "2")] (error_body "state_unavailable"),
   [("route", JStr "/issue"); ("status", JInt 503); ("reason", JStr "state_unavailable")]).

Definition accepted (body : buffer) (req : issue_request) : Prop :=
  exists parsed, JSON_parse body = Ok parsed /\ read_request cfg Buffer_from parsed = inr req.

(** The outcomes of a call, by the step that decides: a malformed request, no
    binding, no key, no proof, no state, a denied reservation, a failed signature,
    or the signatures. Only from the reservation on can the state differ. *)
Inductive issue_outcome (now late : Z) (body : buffer) (seen s : St) : answer -> St -> Prop :=
| o_malformed reason :
    (forall req, ~ accepted body req) ->
    reason ∈ ["bad_json"; "missing_keyid"; "bad_batch_size"; "bad_blinded_type"; "bad_blinded_len"] ->
    issue_outcome now late body seen s (refuse 400 reason) s
| o_unbound req :
    accepted body req -> (forall e, ~ epoch_bound (currentEpoch cfg now) e req) ->
    issue_outcome now late body seen s (refuse 401 "client_data_binding_failed") s
| o_no_key req signing e :
    accepted body req -> epoch_bound (currentEpoch cfg now) signing req ->
    keysForEpoch signing = Throw e ->
    issue_outcome now late body seen s (refuse 503 "no_signing_key") s
| o_not_proved req signing keys reason detail :
    accepted body req -> epoch_bound (currentEpoch cfg now) signing req ->
    keysForEpoch signing = Ok keys ->
    (validate seen req = Ok (AttestRefused reason detail) \/
     (exists e, validate seen req = Throw e) /\ reason = "verification_exception" /\ detail = None) ->
    issue_outcome now late body seen s (refuse_proof req reason detail) s
| o_unavailable req c keys e s' :
    accepted body req -> checks now req seen = Ok (inr (c, keys)) ->
    reserve (reservation_of c) s = (Throw e, s') ->
    issue_outcome now late body seen s state_unavailable_answer s'
| o_denied req c keys reason s' :
    accepted body req -> checks now req seen = Ok (inr (c, keys)) ->
    reserve (reservation_of c) s = (Ok (Denied reason), s') ->
    issue_outcome now late body seen s (refuse_reservation cfg late c reason) s'
| o_sign_failed req c keys e s' :
    accepted body req -> checks now req seen = Ok (inr (c, keys)) ->
    reserve (reservation_of c) s = (Ok Granted, s') -> sign_all keys (n_blinded c) = Throw e ->
    issue_outcome now late body seen s (refuse 500 "blind_sign_error") s'
| o_issued req c keys sigs s' :
    accepted body req -> checks now req seen = Ok (inr (c, keys)) ->
    reserve (reservation_of c) s = (Ok Granted, s') -> sign_all keys (n_blinded c) = Ok sigs ->
    issue_outcome now late body seen s (issued c sigs) s'.

Lemma read_request_refuses parsed a :
  read_request cfg Buffer_from parsed = inl a ->
  exists reason, a = refuse 400 reason /\
    reason ∈ ["bad_json"; "missing_keyid"; "bad_batch_size"; "bad_blinded_type"; "bad_blinded_len"].
Proof.
  unfold read_request. destruct (as_string _) as [k|]; [|intros [= <-]; eexists; split; [done|set_solver]].
  case_match; [intros [= <-]; eexists; split; [done|set_solver]|].
  destruct (jget parsed "blinded") as [[]|]; try (intros [= <-]; eexists; split; [done|set_solver]).
  case_match; [intros [= <-]; eexists; split; [done|set_solver]|].
  destruct (check_blinded _) as [r|] eqn:E; [|done]. intros [= <-]. exists r. split; [done|].
  apply check_blinded_reason in E as [-> | ->]; set_solver.
Qed.

Lemma issue_outcomes now late body seen s a s' :
  issue now late body seen s = (Ok a, s') -> issue_outcome now late body seen s a s'.
Proof.
  unfold handleIssue. destruct (JSON_parse body) as [parsed|[]] eqn:Ej; [|intros [= <- <-]|done].
  2: { apply o_malformed; [|set_solver]. intros req (p & Hp & _). congruence. }
  destruct (read_request cfg Buffer_from parsed) as [a'|req] eqn:Er.
  { intros [= <- <-]. destruct (read_request_refuses _ _ Er) as (r & -> & Hr). apply o_malformed; [|done].
    intros req (p & Hp & Hq). congruence. }
  assert (accepted body req) as Ha by (by exists parsed).
  destruct (checks now req seen) as [[a'|[c keys]]|e] eqn:Ec; [| |done].
  - intros [= <- <-]. unfold issue_checks in Ec. apply bind_Ok in Ec as (b & Hb & Ec).
    assert (forall e, b = Some e <-> epoch_bound (currentEpoch cfg now) e req) as He.
    { intros e. unfold epoch_bound. destruct (REQUIRE_CLIENT_DATA_BINDING cfg); [|naive_solver].
      rewrite Hb. naive_solver. }
    destruct b as [signing|].
    2: { injection Ec as <-. apply (o_unbound now late body seen s req); [done|].
         intros e Hbe%He. done. }
    pose proof (proj1 (He signing) eq_refl) as Hs.
    destruct (keysForEpoch signing) as [k|[]] eqn:Ek;
      [|injection Ec as <-; by eapply o_no_key|done].
    destruct (validate seen req) as [[|reason detail]|[]] eqn:Ev; try done; injection Ec as <-.
    + eapply o_not_proved; eauto.
    + eapply o_not_proved; eauto.
  - destruct (reserve (reservation_of c) s) as [[[|reason]|[]] s''] eqn:Es; try done.
    + destruct (sign_all keys (n_blinded c)) as [|[]] eqn:Eg; try done; intros [= <- <-].
      * by eapply o_issued.
      * by eapply o_sign_failed.
    + intros [= <- <-]. by eapply o_denied.
    + intros [= <- <-]. by eapply o_unavailable.
Qed.

(** C3. Signatures are handed out exactly for what was proved: an answer with status
    200 means that the batch has the right size and every message the length of the
    modulus, that the signing epoch is the one of the clock, or with binding the
    one before, and then the client data hash commits to this epoch and this batch,
    that the proof was accepted, that the store granted a reservation of the whole
    batch to the proved device, and that the signatures are over the messages in
    their order, each checked against the key of that epoch. *)
Theorem issued_as_proved (now late : Z) (body : buffer) (seen s s' : St) (a : answer) :
  issue now late body seen s = (Ok a, s') -> p_status a.1 = 200 ->
  exists parsed req signing keys mode kid pem n raw,
    JSON_parse body = Ok parsed /\ read_request cfg Buffer_from parsed = inr req /\
    1 <= Z.of_nat (length (i_blinded req)) <= MAX_TOKENS_PER_REQUEST cfg /\
    Forall full_length (i_blinded req) /\
    (signing = currentEpoch cfg now \/
     REQUIRE_CLIENT_DATA_BINDING cfg = true /\ signing = currentEpoch cfg now - 1) /\
    (REQUIRE_CLIENT_DATA_BINDING cfg = true ->
     exists h, i_clientDataHash req = Some h /\
       base64_decode h = expectedClientDataHash sha256 signing (i_blinded req)) /\
    keysForEpoch signing = Ok keys /\
    validate seen req = Ok (AttestOk mode kid pem n) /\
    reserve (Reservation kid (mode_string mode) pem n (currentEpoch cfg now)
               (Z.of_nat (length (i_blinded req)))) s = (Ok Granted, s') /\
    Forall2 (fun b sig => rsa_public (ke_signer keys) sig = Ok (base64_decode b)) (i_blinded req) raw /\
    p_body a.1 = stringify (JObj [("epoch", JInt signing); ("keyId", JStr (ke_keyId keys));
                                  ("blindSigs", JArr (JStr <$> (base64_encode <$> raw)))]).
Proof.
  intros H H200. destruct (issue_refuses _ _ _ _ _ _ _ H) as [[_ ?]|(parsed & req & c & keys & out & Ej & Er & Ec & Es & Ho)];
    [done|].
  apply issue_checks_ok in Ec as (signing & mode & kid & pem & n & Hb & Hk & Hv & ->).
  destruct out as [[|reason]|e]; [|by subst a; simpl in H200; destruct (String.eqb reason _)|congruence].
  destruct (sign_all _ _) as [sigs|] eqn:Eg; subst a; [|done].
  apply sign_all_ok in Eg as (raw & -> & Hf).
  destruct (read_request_ok _ _ Er) as (_ & _ & _ & Hn & Hl & _).
  exists parsed, req, signing, keys, mode, kid, pem, n, raw.
  unfold epoch_bound in Hb. split; [done|]. split; [done|]. split; [done|]. split; [done|].
  split; [destruct (REQUIRE_CLIENT_DATA_BINDING cfg); [apply boundEpoch_ok in Hb as [[] _]|]; auto|].
  split.
  { intros Hr. rewrite Hr in Hb. apply boundEpoch_ok in Hb as (_ & t & ? & _ & ?). eauto. }
  repeat (split; [done|]). split; [|done]. eapply Forall2_impl; [exact Hf|]. by intros ? ? [? _].
Qed.

(** The components the handler calls come to an end, and SHA-256 has 32 bytes. *)
Record components_total : Prop := {
  ct_parse body : terminates (JSON_parse body);
  ct_keys e : terminates (keysForEpoch e);
  ct_validate seen req : terminates (validate seen req);
  ct_reserve a s : terminates (fst (reserve a s));
  ct_private k m : terminates (rsa_private k m);
  ct_public k m : terminates (rsa_public k m);
  ct_sha256 b : blen (sha256 b) = 32;
}.

Lemma boundEpoch_total h bs e : components_total -> exists r, boundEpoch sha256 h bs e = Ok r.
Proof.
  intros Ht. unfold boundEpoch. destruct h as [t|]; [|eauto]. destruct (negb _) eqn:E; [eauto|].
  bool_to_prop. unfold bound_candidate, timingSafeEqual, expectedClientDataHash.
  rewrite !(ct_sha256 Ht), E. simpl. repeat case_bool_decide; eauto.
Qed.

Lemma sign_all_total keys bs : components_total -> terminates (sign_all keys bs).
Proof.
  intros Ht. induction bs as [|b bs IH]; simpl; [done|]. apply bind_terminates.
  - unfold blindSign. apply bind_terminates; [apply (ct_private Ht)|]. intros x Hx.
    apply bind_terminates; [apply (ct_public Ht)|]. intros y Hy. apply throw_if_terminates; [done|intros _].
    apply bind_terminates; [by apply throw_if_terminates|]. intros eq _.
    by apply throw_if_terminates.
  - intros sig _. apply bind_terminates; [done|]. done.
Qed.

(** C25. Every request is answered, and why: whatever the body, the handler returns
    one response, by the first step that fails, and the state is the one it found
    unless the reservation was reached. *)
Theorem handleIssue_answers (now late : Z) (body : buffer) (seen s : St) :
  components_total ->
  exists a s', issue now late body seen s = (Ok a, s') /\
    issue_outcome now late body seen s a s' /\
    p_status a.1 ∈ [200; 400; 401; 429; 500; 503] /\
    (s' = s \/ exists req c keys, accepted body req /\
       checks now req seen = Ok (inr (c, keys)) /\ s' = snd (reserve (reservation_of c) s)).
Proof.
  intros Ht. assert (exists a s', issue now late body seen s = (Ok a, s')) as (a & s' & H).
  { unfold handleIssue. pose proof (ct_parse Ht body) as Hp.
    destruct (JSON_parse body) as [parsed|[]]; [|eauto|done].
    destruct (read_request cfg Buffer_from parsed) as [|req]; [eauto|].
    assert (exists r, checks now req seen = Ok r) as (r & ->).
    { unfold issue_checks.
      assert (exists b, (if REQUIRE_CLIENT_DATA_BINDING cfg
        then boundEpoch sha256 (i_clientDataHash req) (i_blinded req) (currentEpoch cfg now)
        else Ok (Some (currentEpoch cfg now))) = Ok b) as (b & ->).
      { destruct (REQUIRE_CLIENT_DATA_BINDING cfg); [by apply boundEpoch_total|eauto]. }
      cbn [mbind result_bind]. destruct b as [signing|]; [|eauto].
      pose proof (ct_keys Ht signing). pose proof (ct_validate Ht seen req).
      destruct (keysForEpoch signing) as [|[]]; [|eauto|done].
      destruct (validate seen req) as [[]|[]]; eauto; done. }
    destruct r as [|[c keys]]; [eauto|]. pose proof (ct_reserve Ht (reservation_of c) s).
    destruct (reserve (reservation_of c) s) as [[[]|[]] s']; simpl in *; eauto; try done.
    pose proof (sign_all_total keys (n_blinded c) Ht). destruct (sign_all _ _) as [|[]]; eauto; done. }
  exists a, s'. split; [done|]. pose proof (issue_outcomes _ _ _ _ _ _ _ H) as Ho. split; [done|].
  split; [|by destruct (issue_state _ _ _ _ _ _ _ H) as [?|(p & req & c & k & ? & ? & ? & ?)];
            [left|right; exists req, c, k; split; [exists p|]]].
  destruct Ho; unfold refuse_proof, refuse_reservation; cbn [fst p_status refuse empty_response
    issued state_unavailable_answer]; try (destruct (String.eqb reason _)); set_solver.
Qed.

(** ** The log *)
Definition logged (a : answer) : Prop := safeLogFields (MAX_TOKENS_PER_REQUEST cfg) a.2 = a.2.

Lemma category_logged reason detail : attestationFailureCategory reason detail ∈ log_failures.
Proof. apply attestationFailureCategory_bounded. Qed.

Lemma in_range lo hi z : lo <= z <= hi -> (lo <=? z) && (z <=? hi) = true.
Proof. intros H. by rewrite (proj2 (Z.leb_le _ _)), (proj2 (Z.leb_le z _)) by lia. Qed.

(** Evaluates the rules, whose words and ranges hold by the context or by
    computation. *)
Ltac log_simpl :=
  unfold logged, safeLogFields;
  repeat first
    [ progress cbn -[Z.leb bool_decide log_reasons log_failures log_proof_modes length
                     MAX_SAFE_INTEGER Z.of_nat]
    | rewrite bool_decide_eq_true_2
        by first [done | refine (bool_decide_unpack _ _); vm_compute; exact I]
    | rewrite in_range by (lia || done) ].

Lemma logged_refuse status reason :
  100 <= status <= 599 -> reason ∈ log_reasons -> logged (refuse status reason).
Proof. intros H1 H2. unfold refuse. by log_simpl. Qed.

Lemma logged_refuse_proof req reason detail : logged (refuse_proof req reason detail).
Proof.
  unfold refuse_proof.
  pose proof (category_logged reason detail) as Hc. revert Hc.
  generalize (attestationFailureCategory reason detail). intros w Hw.
  destruct (String.eqb reason "state_unavailable"), (i_attestation req), (i_assertion req); by log_simpl.
Qed.

Lemma logged_refuse_reservation late c reason :
  Z.of_nat (length (n_blinded c)) <= MAX_TOKENS_PER_REQUEST cfg ->
  logged (refuse_reservation cfg late c reason).
Proof.
  intros Hn. unfold refuse_reservation.
  pose proof (category_logged reason None) as Hc. revert Hc.
  generalize (attestationFailureCategory reason None). intros w Hw.
  destruct (String.eqb reason "quota_exceeded"), (n_mode c); by log_simpl.
Qed.

Lemma logged_issued c sigs :
  Z.of_nat (length sigs) <= MAX_TOKENS_PER_REQUEST cfg -> 0 <= n_epoch c <= MAX_SAFE_INTEGER ->
  logged (issued c sigs).
Proof. intros Hn He. unfold issued. by log_simpl. Qed.

Lemma sign_all_length keys bs sigs : sign_all keys bs = Ok sigs -> length sigs = length bs.
Proof.
  intros (raw & -> & Hf)%sign_all_ok. rewrite length_fmap. symmetry. by eapply Forall2_length.
Qed.

(** The filter of log fields is never in the way of the handler: what each
    outcome of [/issue] reports is logged as it is, so that an operator sees the
    status, the reason and the counts of every refusal. *)
Theorem handleIssue_logged (now late : Z) (body : buffer) (seen s s' : St) (a : answer) :
  0 <= currentEpoch cfg now <= MAX_SAFE_INTEGER ->
  issue now late body seen s = (Ok a, s') ->
  safeLogFields (MAX_TOKENS_PER_REQUEST cfg) a.2 = a.2.
Proof.
  intros Hn H. assert (forall req c keys, accepted body req ->
    checks now req seen = Ok (inr (c, keys)) ->
    Z.of_nat (length (n_blinded c)) <= MAX_TOKENS_PER_REQUEST cfg /\ n_epoch c = currentEpoch cfg now) as Hc.
  { intros req c keys (p & _ & Hr) Hk. apply issue_checks_ok in Hk as (? & ? & ? & ? & ? & _ & _ & _ & ->).
    apply read_request_ok in Hr as (_ & _ & _ & ? & _). simpl. split; [lia|done]. }
  change (logged a). destruct (issue_outcomes _ _ _ _ _ _ _ H);
    try (apply logged_refuse; [lia|set_solver]); try apply logged_refuse_proof.
  - apply logged_refuse_reservation. by eapply Hc.
  - destruct (Hc req c keys) as [? Ec]; [done..|]. apply logged_issued; [|by rewrite Ec].
    by rewrite (sign_all_length _ _ _ H3).
Qed.
End issue.

(** ** The binding of a batch *)
Lemma ascii_bytes_app (a b : string) : ascii_bytes (a +:+ b) = ascii_bytes a ++ ascii_bytes b.
Proof. unfold ascii_bytes. by rewrite list_of_string_app, fmap_app. Qed.

Lemma ascii_bytes_inj (a b : string) : ascii_bytes a = ascii_bytes b -> a = b.
Proof.
  intros E. apply string_of_list_inj. unfold ascii_bytes in E. revert E.
  generalize (String.list_ascii_of_string a) (String.list_ascii_of_string b).
  induction l as [|c l IH]; intros [|c' l']; try done. intros [= Hc Hl]. f_equal; [|by apply IH].
  apply (f_equal byte_val) in Hc. rewrite !byte_val_of_Z in Hc.
  pose proof (code_range c). pose proof (code_range c'). rewrite !Z.mod_small in Hc by lia.
  rewrite <-(char_of_code c), <-(char_of_code c'). congruence.
Qed.

Lemma js_dec_no_zero z : x00 ∉ ascii_bytes (js_dec z).
Proof.
  intros Hin. unfold ascii_bytes in Hin. apply list_elem_of_fmap in Hin as (c & Hc & Hin).
  apply (f_equal byte_val) in Hc. rewrite byte_val_of_Z in Hc. pose proof (code_range c).
  rewrite Z.mod_small in Hc by lia. change (byte_val x00) with 0 in Hc.
  assert (forall n, 0 <= n -> c ∉ String.list_ascii_of_string (dec_nat n)) as Hno.
  { intros n Hn Hd. apply dec_nat_chars in Hd; [|done]. unfold is_digit in Hd. bool_to_prop. lia. }
  unfold js_dec in Hin. destruct (z <? 0) eqn:E; bool_to_prop; [|by apply (Hno z)].
  apply elem_of_cons in Hin as [-> |Hin]; [done|]. apply (Hno (- z)); [lia|done].
Qed.

(** What follows the digits of the epoch: nothing, or a zero byte. *)
Definition separated (r : buffer) : Prop := r = [] \/ exists r', r = x00 :: r'.

Lemma split_at_zero (a b r r' : buffer) :
  x00 ∉ a -> x00 ∉ b -> separated r -> separated r' -> a ++ r = b ++ r' -> a = b /\ r = r'.
Proof.
  intros Ha Hb Hr Hr'. revert b Hb. induction a as [|x a IH]; intros [|y b] Hb E; simpl in E.
  - done.
  - destruct Hr as [-> |[q ->]]; [done|]. injection E as <- ?. destruct Hb. by left.
  - destruct Hr' as [-> |[q ->]]; [done|]. injection E as -> ?. destruct Ha. by left.
  - injection E as -> E. apply not_elem_of_cons in Ha as [_ Ha]. apply not_elem_of_cons in Hb as [_ Hb].
    by destruct (IH Ha b Hb E) as [-> ->].
Qed.

Lemma batch_separated (l : list string) : separated (l ≫= fun b => x00 :: base64_decode b).
Proof. destruct l; [by left|right; simpl; eauto]. Qed.

Lemma batch_bytes_inj l1 l2 :
  Forall full_length l1 -> Forall full_length l2 ->
  (l1 ≫= fun b => x00 :: base64_decode b) = (l2 ≫= fun b => x00 :: base64_decode b) ->
  base64_decode <$> l1 = base64_decode <$> l2.
Proof.
  intros H1. revert l2. induction H1 as [|b l1 Hb H1 IH]; intros [|b' l2] H2; try done.
  apply Forall_cons in H2 as [Hb' H2]. intros [= E]. unfold full_length in *.
  apply app_inj_1 in E as [Eb E]; [|unfold blen in *; lia]. simpl. rewrite Eb. f_equal. by apply IH.
Qed.

(** The separators alone do not tell batches apart: the lengths do. *)
Lemma separators_ambiguous : batch_preimage 1 ["AA=="] = batch_preimage 1 [""; ""].
Proof. reflexivity. Qed.

(** A client data hash commits to one batch: messages of the length of the modulus
    that are bound to one hash are the same messages in the same order for the same
    epoch, or their two preimages are a collision of SHA-256. *)
Lemma hash_commits (sha256 : buffer -> buffer) (h1 h2 : option string)
    (b1 b2 : list string) (e1 e2 s1 s2 : Z) :
  boundEpoch sha256 h1 b1 e1 = Ok (Some s1) -> boundEpoch sha256 h2 b2 e2 = Ok (Some s2) ->
  base64_decode <$> h1 = base64_decode <$> h2 ->
  Forall full_length b1 -> Forall full_length b2 ->
  (s1 = s2 /\ base64_decode <$> b1 = base64_decode <$> b2) \/
  (batch_preimage s1 b1 <> batch_preimage s2 b2 /\
   sha256 (batch_preimage s1 b1) = sha256 (batch_preimage s2 b2)).
Proof.
  intros (_ & t1 & -> & _ & Hb1)%boundEpoch_ok (_ & t2 & -> & _ & Hb2)%boundEpoch_ok [= E] H1 H2.
  destruct (decide (batch_preimage s1 b1 = batch_preimage s2 b2)) as [Ep|Hn].
  - left. unfold batch_preimage in Ep.
    apply split_at_zero in Ep as [Ee Er]; try apply js_dec_no_zero; try apply batch_separated.
    split; [by apply js_dec_inj, ascii_bytes_inj|by apply batch_bytes_inj].
  - right. split; [done|]. unfold expectedClientDataHash in *. congruence.
Qed.

(** ** Retry-After *)

(** A device over its quota is told the shortest wait, in seconds, after which
    the next epoch has begun; at least one second, and no more than an epoch. *)
Theorem retry_after_next_epoch (cfg : issuer_config) (now late : Z) :
  1 <= EPOCH_SECONDS cfg -> currentEpoch cfg late = currentEpoch cfg now ->
  let wait := retry_after cfg (currentEpoch cfg now) late in
  1 <= wait <= EPOCH_SECONDS cfg /\
  currentEpoch cfg (late + 1000 * wait) = currentEpoch cfg now + 1 /\
  (forall w, currentEpoch cfg (late + 1000 * w) = currentEpoch cfg now + 1 -> wait <= w).
Proof.
  unfold currentEpoch, retry_after. intros H1 H. rewrite <-H. clear H now.
  set (E := EPOCH_SECONDS cfg) in *. set (e := late / (1000 * E)).
  assert (e * (1000 * E) <= late < (e + 1) * (1000 * E)) as He.
  { unfold e. pose proof (Z.mul_div_le late (1000 * E)). pose proof (Z.mul_succ_div_gt late (1000 * E)). lia. }
  set (q := (late - (e + 1) * E * 1000) / 1000).
  assert (1000 * q <= late - (e + 1) * E * 1000 < 1000 * q + 1000) as Hq.
  { unfold q. pose proof (Z.mul_div_le (late - (e + 1) * E * 1000) 1000).
    pose proof (Z.mul_succ_div_gt (late - (e + 1) * E * 1000) 1000). lia. }
  rewrite (Z.max_r 1 (- q)) by nia. split; [nia|]. split.
  - symmetry. apply (Z.div_unique_pos _ _ _ (late + 1000 * - q - (e + 1) * (1000 * E))); nia.
  - intros w Hw. pose proof (Z.mul_div_le (late + 1000 * w) (1000 * E)). rewrite Hw in *. nia.
Qed.

(** ** The body of a request *)
Section body.
Context (cfg : issuer_config).

Lemma body_aborted evs : body_run cfg Aborted evs = (Aborted, []).
Proof. induction evs as [|ev evs IH]; [done|]. simpl. by destruct ev; rewrite IH. Qed.

Lemma body_from got cs d :
  blen got <= MAX_BODY cfg ->
  body_run cfg (Collecting got) ((Data <$> cs) ++ [End d]) =
  if blen (got ++ concat cs) <=? MAX_BODY cfg
  then if d : bool then (Closed, [HttpResponse 503 [("Retry-After", "2")] ""])
       else (Complete (got ++ concat cs), [])
  else (Aborted, [empty_response 413]).
Proof.
  revert got. induction cs as [|c cs IH]; intros got Hg.
  - simpl. rewrite app_nil_r, (proj2 (Z.leb_le _ _)) by done. by destruct d.
  - cbn [fmap list_fmap app body_run body_step concat]. rewrite app_assoc.
    destruct (blen (got ++ c) >? MAX_BODY cfg) eqn:E; bool_to_prop.
    + rewrite body_aborted, (proj2 (Z.leb_gt _ _)); [done|]. rewrite blen_app.
      pose proof (blen_nonneg (concat cs)). lia.
    + rewrite IH by done. by destruct (_ <=? _), d.
Qed.

(** The body of a request is collected up to its bound and answered once: in
    whatever pieces it arrives, the handler is given their concatenation when that
    is within [MAX_BODY], and otherwise, or when the server is draining at its end,
    the request is answered by one 413 or 503 and the handler is never called. *)
Theorem body_collected (chunks : list buffer) (draining : bool) :
  0 <= MAX_BODY cfg ->
  body_run cfg (Collecting []) ((Data <$> chunks) ++ [End draining]) =
  if blen (concat chunks) <=? MAX_BODY cfg
  then if draining then (Closed, [HttpResponse 503 [("Retry-After", "2")] ""])
       else (Complete (concat chunks), [])
  else (Aborted, [empty_response 413]).
Proof. apply (body_from []). Qed.
End body.

(** ** Witnesses *)
Module IssuerSample.
Definition cfg : issuer_config := {|
  EPOCH_SECONDS := 10; MAX_TOKENS_PER_REQUEST := 4; MAX_BODY := 4;
  REQUIRE_CLIENT_DATA_BINDING := true; REQUIRE_FDID := ""; FDID_HEADER := "x-azure-fdid" |}.
(** The first 32 bytes stand for the hash. *)
Definition sha256 (b : buffer) : buffer := take 32 (b ++ replicate 32 x00).
Definition message : string := base64_encode (replicate 256 x05).
Definition hash : string := base64_encode (expectedClientDataHash sha256 6 [message]).
Definition document : json := JObj [("keyId", JStr "AQ"); ("assertion", JStr "AQ");
  ("clientDataHash", JStr hash); ("blinded", JArr [JStr message])].
Definition JSON_parse (b : buffer) : result exn json :=
  match b with [] => Throw (Err "Unexpected end of JSON input") | _ => Ok document end.
Definition Buffer_from (_ : json) : result exn buffer := Throw (Err "ERR_INVALID_ARG_TYPE").
Definition keysForEpoch (e : Z) : result exn (@key_entry EpochSample.crypto) :=
  if (5 <=? e) && (e <=? 8) then Ok EpochSample.entry else Throw EpochKeyUnavailable.
Definition validate (seen : nat) (req : issue_request) : result exn attest_result :=
  Ok (AttestOk Assertion (i_keyId req) "pem" 1).
Definition reserve (a : reservation) (s : nat) : result exn reply * nat := (Ok Granted, S s).
Definition issue := handleIssue cfg sha256 JSON_parse Buffer_from keysForEpoch validate reserve.
(** At second 70 the epoch is 7: the batch is bound to the previous one. *)
Definition result_of_issue := Eval vm_compute in issue 70000 70000 [x01] O O.
Definition issued_answer : answer :=
  match result_of_issue with (Ok a, _) => a | _ => (empty_response 0, []) end.
Lemma issue_evaluates : issue 70000 70000 [x01] O O = (Ok issued_answer, 1%nat).
Proof. vm_compute. reflexivity. Qed.
Lemma total : components_total sha256 JSON_parse keysForEpoch validate reserve.
Proof.
  split; try done.
  - by intros [].
  - intros e. unfold keysForEpoch. by case_match.
  - intros b. unfold sha256, blen. rewrite length_take, length_app, length_replicate. lia.
Qed.
End IssuerSample.

Lemma issued_as_proved_witness :
  p_status IssuerSample.issued_answer.1 = 200 /\
  exists parsed req, IssuerSample.JSON_parse [x01] = Ok parsed /\
    read_request IssuerSample.cfg IssuerSample.Buffer_from parsed = inr req.
Proof.
  split; [reflexivity|].
  destruct (issued_as_proved IssuerSample.cfg IssuerSample.sha256 IssuerSample.JSON_parse
    IssuerSample.Buffer_from IssuerSample.keysForEpoch IssuerSample.validate IssuerSample.reserve
    70000 70000 [x01] O O 1%nat IssuerSample.issued_answer IssuerSample.issue_evaluates eq_refl)
    as (parsed & req & _ & _ & _ & _ & _ & _ & _ & H1 & H2 & _).
  exists parsed, req. split; [exact H1|exact H2].
Defined.

Lemma handleIssue_answers_witness :
  exists a s', IssuerSample.issue 0 0 [] O O = (Ok a, s') /\ p_status a.1 ∈ [200; 400; 401; 429; 500; 503].
Proof.
  destruct (handleIssue_answers IssuerSample.cfg IssuerSample.sha256 IssuerSample.JSON_parse
    IssuerSample.Buffer_from IssuerSample.keysForEpoch IssuerSample.validate IssuerSample.reserve
    0 0 [] O O IssuerSample.total) as (a & s' & H & _ & Hs & _).
  exists a, s'. split; [exact H|exact Hs].
Defined.

Lemma handleIssue_logged_witness :
  log_get IssuerSample.issued_answer.2 "issued" = Some (JInt 1) /\
  safeLogFields 4 IssuerSample.issued_answer.2 = IssuerSample.issued_answer.2.
Proof.
  split; [reflexivity|].
  apply (handleIssue_logged IssuerSample.cfg IssuerSample.sha256 IssuerSample.JSON_parse
    IssuerSample.Buffer_from IssuerSample.keysForEpoch IssuerSample.validate IssuerSample.reserve
    70000 70000 [x01] O O 1%nat IssuerSample.issued_answer); [vm_compute; split; discriminate|].
  exact IssuerSample.issue_evaluates.
Defined.

Lemma retry_after_next_epoch_witness : 1 <= retry_after IssuerSample.cfg 7 73000 <= 10.
Proof.
  apply (retry_after_next_epoch IssuerSample.cfg 70000 73000); [vm_compute; discriminate|reflexivity].
Defined.

Lemma body_collected_witness :
  body_run IssuerSample.cfg (Collecting []) ((Data <$> [[x01; x02]; [x03; x04; x05]]) ++ [End false])
  = (Aborted, [empty_response 413]).
Proof.
  rewrite (body_collected IssuerSample.cfg [[x01; x02]; [x03; x04; x05]] false);
    [vm_compute; reflexivity|vm_compute; discriminate].
Defined.
