(* ===== verification/IssuerRelay.v ===== *)
(** * From the issuer's keys to the relay

    [GET /issuer-keys] of the issuer ([Issuer.handleIssuerKeys] over
    [EpochKeys.keysForEpoch]) is what the relay's key cache ([KeyCache.parse])
    fetches. [SameKeys] says what the two sides assume of Node's [crypto]: one
    SHA-256, and a public key that is exported, sent and imported is the same key. *)
From S2P Require Import Prelude JsMap JsText JsBase64 JsJson StateFacts KeyCache EpochKeys Http Issuer.
From Stdlib Require Import Ascii.

Class SameKeys (P : PrivateCrypto) (K : KeyCrypto) := {
  same_digest b : digest b = hash256 b;
  spki_imports k spki :
    public_spki k = Ok spki -> private_type k = "rsa" \/ private_type k = "rsa-pss" ->
    private_bits k = Some 2048 ->
    exists pub, createPublicKey spki = Ok pub /\ export_spki pub = spki /\
      asymmetricKeyType pub = private_type k /\ modulusLength pub = Some 2048;
  spki_size k spki :
    public_spki k = Ok spki -> private_bits k = Some 2048 -> slen (base64_encode spki) <= 2048;
}.

(** ** Keys that come from [importKey] *)
Section imported.
Context `{P : PrivateCrypto}.

(** A usable RSA key with its SPKI. *)
Definition imported (k : key_entry) (spki : buffer) : Prop :=
  public_spki (ke_signer k) = Ok spki /\
  (private_type (ke_signer k) = "rsa" \/ private_type (ke_signer k) = "rsa-pss") /\
  private_bits (ke_signer k) = Some 2048 /\
  ke_spkiB64 k = base64_encode spki /\ ke_keyId k = keyIdFromSpki spki.

Lemma importKey_imported material fp k : importKey material = Ok (fp, k) -> exists spki, imported k spki.
Proof.
  unfold importKey. intros H. match goal with H : match ?m with _ => _ end = _ |- _ =>
    assert (m = Ok (fp, k)) as Hm by (destruct m as [|[]]; congruence) end. clear H.
  apply bind_Ok in Hm as (nk & _ & H). apply throw_if_Ok in H as [Ht H].
  apply throw_if_Ok in H as [Hb H]. apply bind_Ok in H as (spki & Hs & [= <- <-]).
  exists spki. bool_to_prop. apply dec_stable in Hb. rewrite orb_true_iff, !String.eqb_eq in Ht.
  by split.
Qed.

Lemma keysForEpoch_imported p n1 n2 e k :
  keysForEpoch p n1 n2 e = Ok k -> exists spki, imported k spki.
Proof.
  unfold keysForEpoch. intros [_ H]%check_live. destruct p as [records|material].
  - apply bind_Ok in H as (m & (keys & [Hf _] & ->)%load_manifest_Ok & H).
    apply check_live in H as [_ H]. destruct (map_get _ _ _) as [k'|] eqn:E; [|done].
    injection H as ->. apply map_get_elem in E; [|intros; apply Z.eqb_eq].
    apply list_elem_of_fmap in E as ([e' [fp k']] & [= -> ->] & Hin).
    apply list_elem_of_lookup in Hin as [i Hi].
    destruct (Forall2_lookup_r _ _ _ _ _ Hf Hi) as ([? material] & _ & _ & Hm). simpl in Hm.
    by eapply importKey_imported.
  - apply bind_Ok in H as ([fp k'] & Hi & H). apply check_live in H as [_ [= <-]].
    by eapply importKey_imported.
Qed.
End imported.

(** ** The document *)
Section publish.
Context `{P : PrivateCrypto} (cfg : issuer_config) (keys : Z -> result exn key_entry).

Definition key_json (e : Z) (k : key_entry) : json :=
  JObj [("epoch", JInt e); ("keyId", JStr (ke_keyId k)); ("publicKeySpki", JStr (ke_spkiB64 k))].

(** The document is published exactly when both keys are at hand. *)
Lemma handleIssuerKeys_200 now a :
  handleIssuerKeys cfg keys now = Ok a -> p_status a.1 = 200 ->
  let e := currentEpoch cfg now in
  exists k1 k2, keys e = Ok k1 /\ keys (e - 1) = Ok k2 /\
    p_body a.1 = stringify (key_document cfg e [key_json e k1; key_json (e - 1) k2]).
Proof.
  unfold handleIssuerKeys. cbn [publish_keys].
  destruct (keys (currentEpoch cfg now)) as [k1|[]]; [|by intros [= <-]|done]. cbn [mbind result_bind].
  destruct (keys (currentEpoch cfg now - 1)) as [k2|[]]; [|by intros [= <-]|done].
  intros [= <-] _. by exists k1, k2.
Qed.
End publish.

(** Two records of different epochs that are all there can be. *)
Lemma two_records (records : list (Z * string)) (e : Z) (m1 m2 : string) :
  NoDup records.*1 -> Forall (fun r => 0 <= r.1 /\ (r.1 = e \/ r.1 = e - 1)) records ->
  (e, m1) ∈ records -> (e - 1, m2) ∈ records -> records ≡ₚ [(e, m1); (e - 1, m2)].
Proof.
  intros Hd Hf H1 H2. apply elem_of_Permutation in H1 as [l1 Hp1]. rewrite Hp1 in Hd, H2, Hf |- *.
  apply elem_of_cons in H2 as [[= H2 _]|H2]; [lia|].
  apply elem_of_Permutation in H2 as [l2 Hp2]. rewrite Hp2 in Hd, Hf |- *.
  destruct l2 as [|[e3 m3] l2]; [done|]. exfalso. simpl in Hd.
  apply NoDup_cons in Hd as [Hn1 Hd]. apply NoDup_cons in Hd as [Hn2 _].
  apply Forall_cons in Hf as [_ Hf]. apply Forall_cons in Hf as [_ Hf].
  apply Forall_cons in Hf as [H3 _]. simpl in H3. set_solver.
Qed.

(** The keys of a manifest come to an end when every import does. *)
Lemma manifest_terminates `{P : PrivateCrypto} records n1 n2 e :
  (forall m, terminates (importKey m)) -> terminates (keysForEpoch (Manifest records) n1 n2 e).
Proof.
  intros Ht. assert (forall n, terminates (readEpoch n)) as Hr by (intros n; by apply throw_if_terminates).
  assert (forall n, terminates (isLive n e)) as Hl by (intros n; by apply bind_terminates).
  unfold keysForEpoch. apply bind_terminates; [done|intros l _]. apply throw_if_terminates; [done|intros _].
  apply bind_terminates.
  { unfold load_manifest. apply bind_terminates; [|intros; by apply throw_if_terminates].
    induction records as [|[x m] records IH]; [done|]. cbn [import_all].
    apply bind_terminates; [done|intros k _]. by apply bind_terminates. }
  intros keys _. apply bind_terminates; [done|intros l' _]. apply throw_if_terminates; [done|intros _].
  by case_match.
Qed.

(** What a manifest read in epoch [start] gives to publish in epoch [e]: it is still
    that epoch, and the manifest names two keys that import, are different RSA keys,
    and belong to this epoch and the one before. *)
Definition publishable `{P : PrivateCrypto} (records : list (Z * string)) (start e : Z) (k1 k2 : key_entry) : Prop :=
  e = start /\ exists m1 m2 fp1 fp2, records ≡ₚ [(e, m1); (e - 1, m2)] /\
    importKey m1 = Ok (fp1, k1) /\ importKey m2 = Ok (fp2, k2) /\ fp1 <> fp2.

Section manifest.
Context `{P : PrivateCrypto} (JSON_parse : string -> result exn json).

(** Two keys to publish are the two records of the manifest. *)
Lemma publishable_keys text records start e k1 k2 :
  read_manifest JSON_parse start text = Ok records ->
  publishable records start e k1 k2 <->
  keysForEpoch (Manifest records) e e e = Ok k1 /\ keysForEpoch (Manifest records) e e (e - 1) = Ok k2.
Proof.
  intros (Hs & Hd & Hf)%read_manifest_ok. rewrite !manifest_key by done. unfold publishable, live. split.
  - intros (-> & m1 & m2 & fp1 & fp2 & Hp & H1 & H2 & Hne). rewrite Hp in Hf.
    apply Forall_cons in Hf as [_ Hf]. apply Forall_cons in Hf as [[H0 _] _]. simpl in H0.
    assert (exists keys, all_import records keys) as Hi.
    { apply Permutation_sym, Permutation_length_2_inv in Hp as [-> | ->];
        [exists [(start, (fp1, k1)); (start - 1, (fp2, k2))]|exists [(start - 1, (fp2, k2)); (start, (fp1, k1))]];
        (split; [by repeat constructor|repeat constructor; set_solver]). }
    split; (split; [lia|]); (split; [lia|]); (split; [done|]); do 2 eexists; (split; [|eassumption]);
      rewrite Hp; set_solver.
  - intros [(Hl & _ & (keys & Hi & Hn) & m1 & f1 & Hin1 & H1) (Hl2 & _ & _ & m2 & f2 & Hin2 & H2)].
    pose proof (proj1 (Forall_forall _ _) Hf _ Hin1) as Hf1.
    pose proof (proj1 (Forall_forall _ _) Hf _ Hin2) as Hf2. simpl in Hf1, Hf2.
    assert (e = start) as <- by lia. split; [done|]. exists m1, m2, f1, f2.
    assert (records ≡ₚ [(e, m1); (e - 1, m2)]) as Hp by by apply two_records.
    split; [done|]. split; [done|]. split; [done|].
    apply Permutation_sym, Permutation_length_2_inv in Hp as [-> | ->];
      apply Forall2_cons_inv_l in Hi as ([x1 [g1 y1]] & l1 & [_ E1] & Hi & ->);
      apply Forall2_cons_inv_l in Hi as ([x2 [g2 y2]] & l2 & [_ E2] & Hi & ->);
      apply Forall2_nil_inv_l in Hi as ->; cbn in E1, E2, Hn;
      rewrite ?H1, ?H2 in E1; rewrite ?H1, ?H2 in E2; simplify_eq;
      apply NoDup_cons in Hn as [Hn _]; intros ->; apply Hn; by left.
Qed.

(** C38. What [/issuer-keys] answers over a manifest, in a request during which the
    epoch does not change: the document of the two keys of this epoch and the one
    before, in this order, exactly when the epoch is still the one in which the
    manifest was read and the manifest names both, as keys that import and differ;
    and 503 in every other case, so with a manifest of one key
    and, although its keys still sign, with every manifest after its epoch. *)
Theorem manifest_published (cfg : issuer_config) (text : string) (records : list (Z * string)) (start now : Z) :
  read_manifest JSON_parse start text = Ok records -> (forall m, terminates (importKey m)) ->
  let e := currentEpoch cfg now in
  exists a, handleIssuerKeys cfg (keysForEpoch (Manifest records) e e) now = Ok a /\
    ((exists k1 k2, publishable records start e k1 k2 /\
        a.1 = HttpResponse 200 [json_type]
                (stringify (key_document cfg e [key_json e k1; key_json (e - 1) k2]))) \/
     (a.1 = empty_response 503 /\ forall k1 k2, ~ publishable records start e k1 k2)).
Proof.
  intros Hr Ht e. pose proof (fun k1 k2 => publishable_keys text records start e k1 k2 Hr) as Hk.
  unfold handleIssuerKeys. cbn [publish_keys]. fold e.
  pose proof (manifest_terminates records e e e Ht) as T1.
  pose proof (manifest_terminates records e e (e - 1) Ht) as T2.
  destruct (keysForEpoch _ e e e) as [k1|[]] eqn:E1; cbn [mbind result_bind]; [| |by destruct T1].
  2:{ eexists. split; [done|]. right. split; [done|]. intros ? ? [? _]%Hk. done. }
  destruct (keysForEpoch _ e e (e - 1)) as [k2|[]] eqn:E2; [| |by destruct T2].
  2:{ eexists. split; [done|]. right. split; [done|]. intros ? ? [_ ?]%Hk. done. }
  eexists. split; [done|]. left. exists k1, k2. split; [by apply Hk|done].
Qed.
End manifest.

(** ** The relay's side *)
Section accept.
Context `{P : PrivateCrypto} `{K : KeyCrypto} `{S : !SameKeys P K}.

(** The cache entry of a published key. *)
Definition entry_of (k : key_entry) (entry : cache_entry) : Prop :=
  base64_encode (export_spki (ce_key entry)) = ke_spkiB64 k /\
  ce_fingerprint entry = hex (hash256 (export_spki (ce_key entry))).

Lemma parse_entry_imported (epoch es e : Z) (k : key_entry) (spki : buffer) l next epochs :
  imported k spki -> e = epoch \/ e = epoch - 1 -> e ∉ epochs ->
  exists entry, entry_of k entry /\
    (forall p, map_get String.eqb next (ke_keyId k) = Some p -> ce_expiresAt p <= ce_expiresAt entry) /\
    (e + 2) * es * 1000 <= ce_expiresAt entry /\
    parse_entries epoch es (key_json e k :: l) next epochs =
    parse_entries epoch es l (map_set String.eqb next (ke_keyId k) entry) (epochs ++ [e]).
Proof.
  intros (Hs & Ht & Hb & Hk & Hid) He Hn.
  destruct (spki_imports _ _ Hs Ht Hb) as (pub & Hc & Hx & Hty & Hm).
  assert (key_fingerprint pub = hex (hash256 spki)) as Hfp by (unfold key_fingerprint; by rewrite Hx, same_digest).
  set (prior := match map_get String.eqb next (ke_keyId k) with Some p => ce_expiresAt p | None => 0 end).
  exists (CacheEntry pub (key_fingerprint pub) (Z.max ((e + 2) * es * 1000) prior)).
  split; [by unfold entry_of; simpl; rewrite Hx, Hfp, Hk|].
  split; [unfold prior; intros p ->; simpl; lia|]. split; [simpl; lia|].
  cbn [parse_entries].
  change (jget (key_json e k) "epoch") with (Some (JInt e)).
  change (as_string (jget (key_json e k) "publicKeySpki")) with (Some (ke_spkiB64 k)).
  change (jget (key_json e k) "keyId") with (Some (JStr (ke_keyId k))). cbv beta iota.
  assert ((e =? epoch) || (e =? epoch - 1) = true) as -> by (apply orb_true_iff; rewrite !Z.eqb_eq; done).
  rewrite bool_decide_eq_false_2 by done. rewrite Hk, base64_decode_encode.
  assert (slen (base64_encode spki) >? 2048 = false) as ->.
  { rewrite Z.gtb_ltb. apply Z.ltb_ge. by apply (spki_size _ _ Hs). }
  cbn [negb throw_if]. rewrite Hc. cbn [mbind result_bind]. rewrite Hty, Hm.
  assert (String.eqb (private_type (ke_signer k)) "rsa"
    || String.eqb (private_type (ke_signer k)) "rsa-pss" = true) as ->
    by (apply orb_true_iff; rewrite !String.eqb_eq; done).
  rewrite bool_decide_eq_false_2 by (intros Hne; by destruct Hne). cbn [negb throw_if].
  assert (slice0 32 (key_fingerprint pub) = ke_keyId k) as Hki by (by rewrite Hfp, Hid).
  rewrite Hki. unfold is_str. rewrite String.eqb_refl. cbn [negb throw_if]. done.
Qed.

(** The document of two keys that are at hand, read in its epoch. *)
Lemma published_cached (cfg : issuer_config) (keys : Z -> result exn key_entry) (now' e : Z) (k1 k2 : key_entry) :
  keys e = Ok k1 -> keys (e - 1) = Ok k2 -> (exists s, imported k1 s) -> (exists s, imported k2 s) ->
  1 <= EPOCH_SECONDS cfg <= 31557600 -> currentEpoch cfg now' = e ->
  (ke_keyId k1 = ke_keyId k2 -> ke_spkiB64 k1 = ke_spkiB64 k2) ->
  exists m, parse now' (key_document cfg e [key_json e k1; key_json (e - 1) k2]) = Ok m /\
    forall i, i = e \/ i = e - 1 -> exists k entry, keys i = Ok k /\
      map_get String.eqb m (ke_keyId k) = Some entry /\ entry_of k entry /\
      (i + 2) * EPOCH_SECONDS cfg * 1000 <= ce_expiresAt entry.
Proof.
  intros H1 H2 [s1 Hi1] [s2 Hi2] HE Hnow Hdist.
  destruct (parse_entry_imported e (EPOCH_SECONDS cfg) e k1 s1 [key_json (e - 1) k2] [] [] Hi1)
    as (en1 & He1 & _ & Hx1 & Hp1); [by left|by apply not_elem_of_nil|].
  destruct (parse_entry_imported e (EPOCH_SECONDS cfg) (e - 1) k2 s2 []
    (map_set String.eqb [] (ke_keyId k1) en1) ([] ++ [e]) Hi2) as (en2 & He2 & Hmono & Hx2 & Hp2);
    [by right|set_unfold; lia|].
  exists (map_set String.eqb (map_set String.eqb [] (ke_keyId k1) en1) (ke_keyId k2) en2). split.
  - unfold parse, key_document, currentEpoch in *. cbn [jget map_get String.eqb Ascii.eqb Bool.eqb is_num is_str].
    unfold as_safe. rewrite (proj2 (isSafe_range (EPOCH_SECONDS cfg))) by (unfold MAX_SAFE_INTEGER; lia).
    rewrite (proj2 (Z.ltb_ge _ _)), Z.gtb_ltb, (proj2 (Z.ltb_ge 31557600 _)) by lia.
    rewrite Hnow, Hp1, Hp2. cbn [parse_entries mbind result_bind].
    rewrite bool_decide_eq_false_2 by set_solver. rewrite (Z.eqb_refl e). reflexivity.
  - assert (map_get String.eqb (map_set String.eqb (map_set String.eqb [] (ke_keyId k1) en1)
      (ke_keyId k2) en2) (ke_keyId k2) = Some en2) as Hg2 by (apply map_get_set_eq, eqb_string).
    intros i [-> | ->]; [|by exists k2, en2].
    destruct (decide (ke_keyId k2 = ke_keyId k1)) as [Hid|Hne].
    + exists k1, en2. rewrite <-Hid. split; [done|]. split; [apply map_get_set_eq, eqb_string|].
      specialize (Hdist (eq_sym Hid)).
      split; [by destruct He2; split; [rewrite Hdist|]|].
      etrans; [exact Hx1|]. apply Hmono. rewrite Hid. apply map_get_set_eq, eqb_string.
    + exists k1, en1. rewrite map_get_set_ne; [|apply eqb_string|done].
      split; [done|]. split; [apply map_get_set_eq, eqb_string|done].
Qed.

(** C11. What the issuer publishes the relay accepts: in the same epoch, the relay's
    parse of the document succeeds, and under the key id of each of the two epochs
    it holds that very public key, with the fingerprint that redemptions are kept
    under, for at least the epoch's acceptance window. Two different keys with one
    id are excluded. *)
Theorem published_keys_accepted (cfg : issuer_config) (p : provider) (n1 n2 now now' : Z) (a : answer) :
  let keys := keysForEpoch p n1 n2 in
  let e := currentEpoch cfg now in
  handleIssuerKeys cfg keys now = Ok a -> p_status a.1 = 200 ->
  1 <= EPOCH_SECONDS cfg <= 31557600 -> currentEpoch cfg now' = e ->
  (forall k1 k2, keys e = Ok k1 -> keys (e - 1) = Ok k2 -> ke_keyId k1 = ke_keyId k2 ->
     ke_spkiB64 k1 = ke_spkiB64 k2) ->
  exists doc m, p_body a.1 = stringify doc /\ parse now' doc = Ok m /\
    forall i, i = e \/ i = e - 1 -> exists k entry, keys i = Ok k /\
      map_get String.eqb m (ke_keyId k) = Some entry /\ entry_of k entry /\
      (i + 2) * EPOCH_SECONDS cfg * 1000 <= ce_expiresAt entry.
Proof.
  intros keys e Ha H200 HE Hnow Hdist.
  destruct (handleIssuerKeys_200 _ _ _ _ Ha H200) as (k1 & k2 & H1 & H2 & Hbody). fold e in H1, H2, Hbody.
  destruct (published_cached cfg keys now' e k1 k2 H1 H2 (keysForEpoch_imported _ _ _ _ _ H1)
    (keysForEpoch_imported _ _ _ _ _ H2) HE Hnow (Hdist k1 k2 H1 H2)) as (m & Hp & Hm).
  by exists (key_document cfg e [key_json e k1; key_json (e - 1) k2]), m.
Qed.
End accept.

(** ** Witnesses *)
Module KeysSample.
(** A key is the bytes it was read from, on both sides. *)
Definition receiver : KeyCrypto := {|
  digest b := b; pkey := buffer; createPublicKey b := Ok b; asymmetricKeyType _ := "rsa";
  modulusLength _ := Some 2048; export_spki k := k |}.
Definition sender : PrivateCrypto := {|
  privkey := buffer; hash256 b := b;
  private_pem _ := Throw (Err "no PEM");
  private_pkcs8 b := Ok b; private_pkcs1 b := Ok b;
  private_type _ := "rsa";
  private_bits k := if slen (base64_encode k) <=? 2048 then Some 2048 else None;
  private_n k := match k with x00 :: _ => "AA" | _ => "BB" end; private_e _ := "AQAB"; public_spki k := Ok k;
  rsa_private _ b := Ok b; rsa_public _ b := Ok b |}.
Lemma same : SameKeys sender receiver.
Proof.
  split; [done| |].
  - intros k spki [= <-] _ _. by exists k.
  - intros k spki [= <-]. simpl. case_match; [|done]. intros _. by apply Z.leb_le.
Qed.
Definition cfg : issuer_config := {|
  EPOCH_SECONDS := 10; MAX_TOKENS_PER_REQUEST := 4; MAX_BODY := 1000;
  REQUIRE_CLIENT_DATA_BINDING := true; REQUIRE_FDID := ""; FDID_HEADER := "x-azure-fdid" |}.
(** At second 70, epoch 7, with the manifest of epochs 7 and 6. *)
Definition published : result exn answer :=
  Eval vm_compute in handleIssuerKeys (P := sender) cfg (keysForEpoch (Manifest EpochSample.records) 7 7) 70000.
Definition page : answer := match published with Ok a => a | _ => (empty_response 0, []) end.
Lemma page_published :
  handleIssuerKeys (P := sender) cfg (keysForEpoch (Manifest EpochSample.records) 7 7) 70000 = Ok page.
Proof. vm_compute. reflexivity. Qed.
Definition id_of (e : Z) : string :=
  match keysForEpoch (P := sender) (Manifest EpochSample.records) 7 7 e with Ok k => ke_keyId k | _ => "" end.
Lemma ids_differ : String.eqb (id_of 7) (id_of 6) = false.
Proof. vm_compute. reflexivity. Qed.
Lemma imports_end m : terminates (importKey (P := sender) m).
Proof.
  unfold importKey. match goal with |- terminates (match ?r with _ => _ end) =>
    assert (terminates r) as Ht; [|by destruct r as [|[]]] end.
  apply bind_terminates.
  - unfold parsePrivateKeyEnv. apply throw_if_terminates; [done|intros _]. by case_match.
  - intros k _. by do 2 (apply throw_if_terminates; [done|intros _]).
Qed.
End KeysSample.

Lemma manifest_published_witness :
  exists k1 k2, publishable (P := KeysSample.sender) EpochSample.records 7 7 k1 k2.
Proof.
  destruct (manifest_published (P := KeysSample.sender) EpochSample.parse KeysSample.cfg "manifest"
    EpochSample.records 7 70000) as (a & Ha & [(k1 & k2 & H & _)|[Hno _]]).
  - vm_compute. reflexivity.
  - exact KeysSample.imports_end.
  - exists k1, k2. exact H.
  - change (currentEpoch KeysSample.cfg 70000) with 7 in Ha. rewrite KeysSample.page_published in Ha.
    exfalso. apply (f_equal (fun r => match r with Ok a => p_status a.1 | _ => 0 end)) in Ha.
    simpl in Ha. rewrite Hno in Ha. discriminate Ha.
Defined.

Lemma published_keys_accepted_witness : exists doc m,
  p_body KeysSample.page.1 = stringify doc /\ parse (K := KeysSample.receiver) 79999 doc = Ok m.
Proof.
  destruct (published_keys_accepted (P := KeysSample.sender) (K := KeysSample.receiver)
    (S := KeysSample.same) KeysSample.cfg (Manifest EpochSample.records) 7 7 70000 79999 KeysSample.page)
    as (doc & m & H1 & H2 & _).
  - exact KeysSample.page_published.
  - reflexivity.
  - vm_compute. split; discriminate.
  - reflexivity.
  - intros k1 k2 H1 H2 E. pose proof KeysSample.ids_differ as Hd. unfold KeysSample.id_of in Hd.
    change (currentEpoch KeysSample.cfg 70000) with 7 in H1, H2. change (7 - 1) with 6 in H2.
    rewrite H1, H2, E, String.eqb_refl in Hd. discriminate Hd.
  - exists doc, m. split; [exact H1|exact H2].
Defined.
