(* ===== verification/IssuerSystem.v ===== *)
(** * The issuer as a whole

    [Issuer.handleIssue] over [AppAttest.validateAppAttest] and over the calls of
    [StateSystem]: any number of replicas serve requests over one table, and the
    App Attest evidence of a request is good for one batch. *)
From S2P Require Import Prelude JsMap JsText JsBase64 JsJson AppAttest AttestFacts AttestTheorems.
From S2P Require Import StateStore StateFacts StateSystem StateInv StateTheorems EpochKeys Http Issuer IssuerTheorems.
From Stdlib Require Import Ascii.

Section system.
Context `{C : Crypto} `{P : PrivateCrypto} (acfg : attest_config) (cfg : issuer_config).
Context (JSON_parse : buffer -> result exn json) (Buffer_from : json -> result exn buffer).
Context (keysForEpoch : Z -> result exn key_entry).
Context (quota : Z) (keyFor : string -> string) (uuid : nat -> string) (etag : Z -> string).
Context `{uuid_inj : !Inj (=) (=) uuid} `{etag_inj : !Inj (=) (=) etag}.
Notation reachable := (reachable quota keyFor uuid etag).

(** The reads of the store that the validation makes. *)
Definition store_reads : Type := string -> result exn (option attested_key).

(** [validateAppAttest({ keyId, attestation, assertion, clientDataHash, store })]. *)
Definition issue_validate (now : Z) (reads : store_reads) (req : issue_request) :
    result exn attest_result :=
  validateAppAttest acfg now
    (AttestRequest (i_keyId req) (i_attestation req) (i_assertion req)
       (default "" (i_clientDataHash req)) (Some reads)).

(** A request that was answered 200, signed for epoch [e], with the [i]-th call of
    the table as its reservation. *)
Definition served (sys : sys) (i : nat) (req : issue_request) (e : Z) : Prop :=
  exists now later body reads st st' reserve a,
    handleIssue cfg sha256 JSON_parse Buffer_from keysForEpoch (issue_validate now) reserve
      now later body reads st = (Ok a, st') /\
    p_status a.1 = 200 /\ accepted cfg JSON_parse Buffer_from body req /\
    epoch_bound cfg sha256 (currentEpoch cfg now) e req /\
    (forall r, fst (reserve r st) = Ok Granted -> granted sys i r).

Lemma served_facts sys i req ep :
  served sys i req ep ->
  exists now reads mode kid pem n,
    epoch_bound cfg sha256 (currentEpoch cfg now) ep req /\
    issue_validate now reads req = Ok (AttestOk mode kid pem n) /\
    granted sys i (Reservation kid (mode_string mode) pem n (currentEpoch cfg now)
                     (Z.of_nat (length (i_blinded req)))) /\
    Forall full_length (i_blinded req).
Proof.
  intros (now & later & body & reads & st & st' & reserve & a & H & H200 & (p & Hp & Hr) & He & Hg).
  destruct (issue_refuses _ _ _ _ _ _ _ _ _ _ _ _ _ _ H)
    as [[_ ?]|(parsed & req' & c & keys & out & Ej & Er & Ec & Es & Ho)]; [done|].
  assert (req' = req) as -> by congruence.
  apply issue_checks_ok in Ec as (signing & mode & kid & pem & n & _ & _ & Hv & ->).
  exists now, reads, mode, kid, pem, n. split; [done|]. split; [done|].
  split; [|by apply read_request_ok in Er as (_ & _ & _ & _ & ? & _)].
  apply Hg. simpl in Es. unfold reservation_of in Es. simpl in Es. rewrite Es.
  destruct out as [[|reason]|e]; [done| |congruence].
  subst a. simpl in H200. by destruct (String.eqb reason _).
Qed.

(** What was proved by an accepted assertion, and by an accepted attestation. *)
Lemma validated_assertion now reads req mode kid pem n :
  issue_validate now reads req = Ok (AttestOk mode kid pem n) -> i_attestation req = None ->
  mode = Assertion /\ kid = base64_encode (base64_decode (i_keyId req)) /\
  exists buf cdh pub stored, i_assertion req = Some (Ok buf) /\
    assertion_evidence acfg buf cdh pub stored n.
Proof.
  unfold issue_validate. rewrite validateAppAttest_Ok. cbv zeta.
  cbn [r_attestation r_assertion r_keyId r_store r_clientDataHash]. intros (_ & _ & H) E. rewrite E in H.
  destruct (i_assertion req) as [q|]; [|done].
  apply assertionBranch_Ok in H as (-> & _ & buf & r & pub & -> & _ & _ & Hv & -> & _). eauto 10.
Qed.

Lemma validated_attestation now reads req mode kid pem n :
  issue_validate now reads req = Ok (AttestOk mode kid pem n) -> i_attestation req <> None ->
  mode = Attestation.
Proof.
  unfold issue_validate. rewrite validateAppAttest_Ok. cbv zeta.
  cbn [r_attestation r_assertion r_keyId r_store r_clientDataHash]. intros (_ & _ & H) E.
  destruct (i_attestation req); [|done]. by apply attestationBranch_mode in H.
Qed.

(** The client data hash of a request, and two inputs with one SHA-256. *)
Definition bound_hash (req : issue_request) : buffer := base64_decode (default "" (i_clientDataHash req)).
Definition collision (x y : buffer) : Prop := x <> y /\ sha256 x = sha256 y.

(** C2. App Attest evidence is good for one batch, whatever the replicas do: an
    assertion of a device is answered with signatures by at most one call, and an
    attestation only for one batch of messages, unless the two requests show a
    collision of SHA-256 in what they are checked against: the authenticator data of
    their attestation followed by each of the two client data hashes, or the epoch
    and the messages of each batch. *)
Theorem proof_serves_one_batch (s : sys) (i j : nat) (req1 req2 : issue_request) (e1 e2 : Z) :
  reachable s -> REQUIRE_CLIENT_DATA_BINDING cfg = true -> served s i req1 e1 -> served s j req2 e2 ->
  i_attestation req1 = i_attestation req2 ->
  (i_attestation req1 = None -> i_assertion req1 = i_assertion req2 ->
   base64_decode (i_keyId req1) = base64_decode (i_keyId req2) -> i = j) /\
  (i_attestation req1 <> None ->
   base64_decode <$> i_blinded req1 = base64_decode <$> i_blinded req2 \/
   (exists buf entries authData,
      i_attestation req1 = Some (Ok buf) /\ attestation_object buf entries authData /\
      collision (authData ++ bound_hash req1) (authData ++ bound_hash req2)) \/
   collision (batch_preimage e1 (i_blinded req1)) (batch_preimage e2 (i_blinded req2))).
Proof.
  intros Hs Hb H1%served_facts H2%served_facts E.
  destruct H1 as (now1 & g1 & m1 & id1 & p1 & n1 & Hb1 & Hv1 & Hg1 & Hf1).
  destruct H2 as (now2 & g2 & m2 & id2 & p2 & n2 & Hb2 & Hv2 & Hg2 & Hf2). split.
  - intros En Ea Ek.
    destruct (validated_assertion _ _ _ _ _ _ _ Hv1 En) as (-> & -> & b1 & ? & ? & ? & Hb1' & He1).
    destruct (validated_assertion _ _ _ _ _ _ _ Hv2) as (-> & -> & b2 & ? & ? & ? & Hb2' & He2);
      [congruence|].
    rewrite Ea, Hb2' in Hb1'. injection Hb1' as <-.
    pose proof (assertion_count_unique _ _ _ _ _ _ _ _ _ _ He1 He2) as <-.
    destruct (decide (i = j)) as [|Hne]; [done|]. exfalso.
    refine (assertion_spent_once quota keyFor uuid etag s i j _ _ Hs Hg1 Hg2 Hne _ _ _ eq_refl); [|done..].
    unfold key_of. simpl. by rewrite Ek.
  - intros En. unfold epoch_bound in Hb1, Hb2. rewrite Hb in Hb1, Hb2.
    pose proof (validated_attestation _ _ _ _ _ _ _ Hv1 En) as ->.
    assert (m2 = Attestation) as -> by (eapply validated_attestation; [exact Hv2|congruence]).
    destruct (boundEpoch_ok _ _ _ _ _ Hb1) as (_ & t1 & Et1 & _).
    destruct (boundEpoch_ok _ _ _ _ _ Hb2) as (_ & t2 & Et2 & _).
    destruct (attestation_bound_to_hash acfg _ _ _ _ _ _ _ _ _ _ Hv1 Hv2 E) as [_ [Hh|Hc]].
    2: { right. left. exact Hc. }
    simpl in Hh. rewrite Et1, Et2 in Hh. simpl in Hh.
    destruct (hash_commits sha256 _ _ _ _ _ _ _ _ Hb1 Hb2) as [[_ ?]|?]; [|done|done|by left|by right; right].
    rewrite Et1, Et2. simpl. by rewrite Hh.
Qed.
End system.

(** ** Witness: a device registers and asserts over one table *)
Module SystemSample.
#[local] Existing Instances Sample.crypto EpochSample.crypto.
Definition message : string := base64_encode (replicate 256 x07).
Definition cfg : issuer_config := {|
  EPOCH_SECONDS := 10; MAX_TOKENS_PER_REQUEST := 4; MAX_BODY := 1000;
  REQUIRE_CLIENT_DATA_BINDING := true; REQUIRE_FDID := ""; FDID_HEADER := "x-azure-fdid" |}.
Definition document : json := JObj [("keyId", JStr Sample.kid); ("attestation", JStr Sample.attestation);
  ("clientDataHash", JStr (base64_encode Sample.cdh)); ("blinded", JArr [JStr message])].
Definition JSON_parse (b : buffer) : result exn json := Ok document.
Definition Buffer_from (_ : json) : result exn buffer := Throw (Err "ERR_INVALID_ARG_TYPE").
Definition keysForEpoch (e : Z) : result exn (@key_entry EpochSample.crypto) := Ok EpochSample.entry.
Definition registration : reservation := Reservation Sample.kid "attestation" "PEM" 0 0 1.
(** Two replicas serve the attestation, the second write waiting for the first. *)
Definition trace : list event :=
  [ EBegin 0 registration; ERead 0; ECommit 0; EAck 0; EBegin 1 registration; ERead 1; ECommit 1; EAck 1 ].
Definition table : sys := default no_calls (StateTheorems.run 10 id Run.uuid js_dec trace no_calls).
Lemma table_reachable : reachable 10 id Run.uuid js_dec table.
Proof.
  unfold table. destruct (StateTheorems.run 10 id Run.uuid js_dec trace no_calls) as [s|] eqn:E;
    [|constructor]. simpl. eapply run_reachable; [constructor|done].
Qed.
Definition request : issue_request :=
  IssueRequest Sample.kid (text_proof Sample.attestation) None (Some (base64_encode Sample.cdh)) [message].
Definition reserve (r : reservation) (st : store_reads) : result exn reply * store_reads :=
  (if bool_decide (v_keyId r = Sample.kid /\ v_mode r = "attestation" /\ v_publicKeyPem r = "PEM"
                   /\ v_signCount r = 0 /\ v_epoch r = 0 /\ v_count r = 1)
   then Ok Granted else Ok (Denied "key_mismatch"), st).
Lemma reserve_registers r st : fst (reserve r st) = Ok Granted -> r = registration.
Proof.
  unfold reserve. cbn [fst]. case_match eqn:E; [|done]. intros _. apply bool_decide_eq_true_1 in E.
  destruct r; simpl in *. destruct E as (-> & -> & -> & -> & -> & ->). done.
Qed.
Definition reads : store_reads := Sample.get 0.
Definition answered : result exn answer :=
  fst (handleIssue cfg (@sha256 Sample.crypto) JSON_parse Buffer_from keysForEpoch
    (issue_validate Sample.cfg 5) reserve 5 5 [] reads reads).
Definition answer_of (r : result exn answer) : answer :=
  match r with Ok a => a | Throw _ => (empty_response 0, []) end.
Definition page : answer := answer_of answered.
Lemma answered_page : answered = Ok page.
Proof. vm_compute. reflexivity. Qed.
Lemma serves i : granted table i registration ->
  served Sample.cfg cfg JSON_parse Buffer_from keysForEpoch table i request 0.
Proof.
  intros Hg. exists 5, 5, [], reads, reads.
  exists (snd (handleIssue cfg (@sha256 Sample.crypto) JSON_parse Buffer_from keysForEpoch
    (issue_validate Sample.cfg 5) reserve 5 5 [] reads reads)), reserve, page.
  split; [rewrite <-answered_page; unfold answered; by destruct (handleIssue _ _ _ _ _ _ _ _ _ _ _ _)|].
  split; [vm_compute; reflexivity|]. split; [|split].
  - exists document. split; [reflexivity|vm_compute; reflexivity].
  - vm_compute. reflexivity.
  - intros r Hr. by rewrite (reserve_registers _ _ Hr).
Qed.
End SystemSample.
#[local] Existing Instances Sample.crypto EpochSample.crypto Run.uuid_inj Run.dec_inj.

Lemma proof_serves_one_batch_witness :
  base64_decode <$> i_blinded SystemSample.request = base64_decode <$> i_blinded SystemSample.request \/
  (exists buf entries authData,
     i_attestation SystemSample.request = Some (Ok buf) /\ attestation_object buf entries authData /\
     collision (authData ++ bound_hash SystemSample.request) (authData ++ bound_hash SystemSample.request)) \/
  collision (batch_preimage 0 (i_blinded SystemSample.request)) (batch_preimage 0 (i_blinded SystemSample.request)).
Proof.
  apply (proof_serves_one_batch Sample.cfg SystemSample.cfg SystemSample.JSON_parse
    SystemSample.Buffer_from SystemSample.keysForEpoch 10 id Run.uuid js_dec SystemSample.table 0 1
    SystemSample.request SystemSample.request 0 0).
  - exact SystemSample.table_reachable.
  - reflexivity.
  - apply SystemSample.serves. vm_compute. reflexivity.
  - apply SystemSample.serves. vm_compute. reflexivity.
  - reflexivity.
  - vm_compute. discriminate.
Defined.
