(* ===== verification/Relay.v ===== *)
(** * The OHTTP relay ([ohttp-relay/server.js])

    The checks that a request passes before its ciphertext is forwarded: the
    front-door lock, the per-client rate limit, the credential of the client
    ([clientAuthorized], [verifyAccessToken]), the bound on its body, and the
    request that is then made of the gateway ([forwardToGateway]). The slots a
    request occupies are in [RelaySlots], the exchange with the gateway in
    [RelayProxy]. *)
From S2P Require Import Prelude JsMap JsText JsBase64 JsJson AppAttest Redemption KeyCache Http.
From Stdlib Require Import Ascii.

(** ** Configuration *)
Record relay_config := {
  MAX_BODY : Z;
  MAX_RESP_BYTES : Z;
  RATE_LIMIT_RPM : Z;
  RATE_WINDOW_MS : Z;
  MAX_INFLIGHT : Z;
  RATE_MAX_KEYS : Z;
  TRUSTED_CLIENT_IP_HEADER : string;
  CLIENT_AUTH_MODE : string;
  CLIENT_SECRET : string;
  CLIENT_AUTH_HEADER : string;
  RELAY_GATEWAY_SECRET : string;
  REQUIRE_FDID : string;
  FDID_HEADER : string;
  CONFIG_TTL_MS : Z;
  GATEWAY_HOST : string;
  GATEWAY_PORT : Z;
  GATEWAY_PATH : string;
}.
Definition RELAY_GATEWAY_HEADER : string := "x-columbia-relay-auth".

(** The pool of the gateway has 128 sockets; [Infinity] is no bound. *)
Definition MAX_CLIENT_INFLIGHT (cfg : relay_config) : Z :=
  if RATE_LIMIT_RPM cfg >? 0 then Z.min (RATE_LIMIT_RPM cfg) (128 - 2) else 128 - 2.

(** ** Log fields *)
Definition relay_log_reasons : list string :=
  ["gateway_url_invalid"; "gateway_not_https"; "resp_too_large"; "gres_error"; "gw_error"; "rate_limit";
   "capacity"; "origin"; "client_auth"; "content_type"; "request_too_large"; "client_disconnect";
   "state_unavailable"].
Definition relay_log_codes : list string :=
  ["ECONNRESET"; "ECONNREFUSED"; "ETIMEDOUT"; "ENOTFOUND"; "EAI_AGAIN"; "EPIPE";
   "ERR_STREAM_PREMATURE_CLOSE"].
Definition relay_log_errors : list string :=
  ["Error"; "TypeError"; "ReferenceError"; "SyntaxError"; "RangeError"; "URIError"; "AggregateError"].
Definition relay_log_rules : list log_rule :=
  [ word_or_other ["/relay"; "/health"; "/ohttp-configs"] "route"; keep_int 100 599 "status"; keep_duration;
    keep_bool "reused";
    keep_word ["fatal"; "listen"; "uncaught_exception"; "unhandled_rejection"] "event";
    word_or_other relay_log_errors "errorType"; keep_word relay_log_reasons "reason";
    word_or_other relay_log_codes "code" ].
Definition safeLogFields : log_fields -> log_fields := apply_rules relay_log_rules.

Section relay.
Context (cfg : relay_config).

(** ** The client's address *)
Definition last_part (s : string) : string := List.last (js_split "," s) "".

(** [if (typeof h === 'string' && h.trim()) return h.trim()], and the fallbacks. *)
Definition clientIpKey (req : http_request) : string :=
  let trusted :=
    if nonempty (TRUSTED_CLIENT_IP_HEADER cfg)
    then js_trim (default "" (header req (TRUSTED_CLIENT_IP_HEADER cfg))) else "" in
  if nonempty trusted then trusted
  else
    let xff := js_trim (last_part (default "" (header req "x-forwarded-for"))) in
    if nonempty xff then xff
    else if nonempty (q_remote req) then q_remote req else "unknown".

(** ** The rate limit *)
Record bucket := Bucket { b_count : Z; b_windowStart : Z }.
Abbreviation buckets := (list (string * bucket)).

(** The bucket object is the one in the map, so that its count is stored with it. *)
Definition rateLimited (now : Z) (ip : string) (m : buckets) : bool * buckets :=
  if RATE_LIMIT_RPM cfg <=? 0 then (false, m)
  else
    let fresh := Bucket 0 now in
    let b := match map_get String.eqb m ip with
             | Some b => if now - b_windowStart b >=? RATE_WINDOW_MS cfg then fresh else b
             | None => fresh
             end in
    let b := Bucket (b_count b + 1) (b_windowStart b) in
    let m := map_set String.eqb m ip b in
    let m := if map_size m >? RATE_MAX_KEYS cfg
             then match map_first_key m with Some k => map_delete String.eqb m k | None => m end
             else m in
    (b_count b >? RATE_LIMIT_RPM cfg, m).

(** ** Dispatch, up to the reservation of a slot *)
(** [frontDoorAllowed], with the [timingSafeEqualStr] of the relay. *)
Definition relay_frontDoorAllowed (sha256 : buffer -> buffer) (req : http_request) : bool :=
  frontDoorAllowed sha256 (REQUIRE_FDID cfg) (FDID_HEADER cfg) req.

Definition fdidExempt (req : http_request) (path : string) : bool :=
  String.eqb (q_method req) "GET" && String.eqb path "/health".

Inductive relay_route :=
| ToDraining | ToForbidden | ToHealth | ToConfigs | ToNotFound | ToBadType | ToLimited
| ToClient (ip : string).

Definition relay_dispatch (sha256 : buffer -> buffer) (draining : bool) (now : Z) (req : http_request)
    (m : buckets) : relay_route * buckets :=
  if draining then (ToDraining, m)
  else if nonempty (REQUIRE_FDID cfg) && negb (fdidExempt req (before_char "?" (q_url req)))
          && negb (relay_frontDoorAllowed sha256 req)
  then (ToForbidden, m)
  else if String.eqb (q_method req) "GET" && String.eqb (q_url req) "/health" then (ToHealth, m)
  else if String.eqb (q_method req) "GET" && String.eqb (q_url req) "/ohttp-configs" then (ToConfigs, m)
  else if negb (String.eqb (q_method req) "POST" && String.eqb (q_url req) "/relay") then (ToNotFound, m)
  else if negb (String.eqb (media_type (header req "content-type")) "message/ohttp-req")
  then (ToBadType, m)
  else
    let ip := clientIpKey req in
    let '(limited, m) := rateLimited now ip m in
    (if limited then ToLimited else ToClient ip, m).

Definition relay_response (r : relay_route) : option http_response :=
  match r with
  | ToDraining => Some (HttpResponse 503 [("Retry-After", "2")] "")
  | ToForbidden => Some (empty_response 403)
  | ToHealth => Some (HttpResponse 200 [("Content-Type", "text/plain")] "ok")
  | ToNotFound => Some (empty_response 404)
  | ToBadType => Some (empty_response 415)
  | ToLimited => Some (empty_response 429)
  | ToConfigs | ToClient _ => None
  end.

(** ** The credential of the client *)

(** [s.replace(/^(PrivateToken|Bearer)\s+/i, '')]. *)
Fixpoint strip_word (word : list ascii) (s : list ascii) : option (list ascii) :=
  match word, s with
  | [], c :: _ => if is_space c then Some (trim_start s) else None
  | w :: word', c :: s' => if Ascii.eqb (lower_char c) w then strip_word word' s' else None
  | _, [] => None
  end.
Definition strip_scheme (s : string) : string :=
  let l := String.list_ascii_of_string s in
  match strip_word (String.list_ascii_of_string "privatetoken") l with
  | Some rest => String.string_of_list_ascii rest
  | None => match strip_word (String.list_ascii_of_string "bearer") l with
            | Some rest => String.string_of_list_ascii rest
            | None => s
            end
  end.

Section token.
Context `{K : KeyCrypto}.
(** [JSON.parse(buffer.toString('utf8'))], and [crypto.verify] with RSA-PSS and
    SHA-384 under a public key. *)
Context (JSON_parse : buffer -> result exn json).
Context (pss_verify : pkey -> buffer -> buffer -> result exn bool).
(** [issuerKeyCache.get] and the redemption store, which alone changes its state. *)
Context {St : Type}.
Context (cache_get : string -> result exn (option cache_entry)).
Context (redeem : string -> string -> St -> result exn bool * St).

Definition nullifierFor (sigBytes : buffer) : string := hex (digest sigBytes).

(** The three members of the envelope. *)
Definition read_token (presented : string) : option (string * string * string) :=
  match JSON_parse (base64_decode (js_trim (strip_scheme presented))) with
  | Ok tok =>
      match as_string (jget tok "keyId"), as_string (jget tok "tokenInput"),
            as_string (jget tok "signature") with
      | Some keyId, Some tokenInput, Some signature => Some (keyId, tokenInput, signature)
      | _, _, _ => None
      end
  | Throw _ => None
  end.

(** [crypto.verify] in its [try]. *)
Definition verified (pub : pkey) (input sig : buffer) : bool :=
  match pss_verify pub input sig with Ok b => b | Throw _ => false end.

Definition verifyAccessToken (presented : option string) (s : St) : result exn bool * St :=
  match presented with
  | None => (Ok false, s)
  | Some p =>
      if negb (nonempty p) then (Ok false, s)
      else match read_token p with
      | None => (Ok false, s)
      | Some (keyId, tokenInput, signature) =>
          match cache_get keyId with
          | Throw e => (Throw e, s)
          | Ok None => (Ok false, s)
          | Ok (Some entry) =>
              let inputBuf := base64_decode tokenInput in
              let sigBuf := base64_decode signature in
              if (blen inputBuf =? 0) || (blen sigBuf =? 0) then (Ok false, s)
              else if negb (verified (ce_key entry) inputBuf sigBuf) then (Ok false, s)
              else redeem (ce_fingerprint entry) (nullifierFor sigBuf) s
          end
      end
  end.

Definition clientAuthorized (req : http_request) (s : St) : result exn bool * St :=
  let presented := header req (CLIENT_AUTH_HEADER cfg) in
  if String.eqb (CLIENT_AUTH_MODE cfg) "off" then (Ok true, s)
  else if String.eqb (CLIENT_AUTH_MODE cfg) "secret" then
    (Ok (nonempty (CLIENT_SECRET cfg)
         && timingSafeEqualStr digest (default "" presented) (CLIENT_SECRET cfg)), s)
  else if String.eqb (CLIENT_AUTH_MODE cfg) "token" then verifyAccessToken presented s
  else (Ok false, s).

(** ** The request's body, and the request made of the gateway *)
Record upstream_request := UpstreamRequest {
  u_hostname : string; u_port : Z; u_path : string; u_method : string;
  u_headers : list (string * string); u_body : buffer }.

Definition forwardToGateway (body : buffer) : upstream_request :=
  let outHeaders := [("Content-Type", "message/ohttp-req"); ("Content-Length", js_dec (blen body))] in
  UpstreamRequest (GATEWAY_HOST cfg) (GATEWAY_PORT cfg) (GATEWAY_PATH cfg) "POST"
    (if nonempty (RELAY_GATEWAY_SECRET cfg)
     then outHeaders ++ [(RELAY_GATEWAY_HEADER, RELAY_GATEWAY_SECRET cfg)] else outHeaders) body.

(** What happens on the request once the client is authorised. *)
Inductive upload_event := UploadData (chunk : buffer) | UploadEnd (resDestroyed : bool) | UploadAborted.
Inductive upload_state :=
| Uploading (chunks : buffer)
| UploadStopped
| Forwarded (u : upstream_request).

Definition upload_step (st : upload_state) (ev : upload_event) : upload_state * option http_response :=
  match st, ev with
  | Uploading chunks, UploadData c =>
      if blen (chunks ++ c) >? MAX_BODY cfg then (UploadStopped, Some (empty_response 413))
      else (Uploading (chunks ++ c), None)
  | Uploading chunks, UploadEnd destroyed =>
      (if destroyed : bool then UploadStopped else Forwarded (forwardToGateway chunks), None)
  | Uploading _, UploadAborted => (UploadStopped, None)
  | st, _ => (st, None)
  end.

Fixpoint upload_run (st : upload_state) (evs : list upload_event) : upload_state * list http_response :=
  match evs with
  | [] => (st, [])
  | ev :: evs' =>
      let '(st, r) := upload_step st ev in
      let '(st, rs) := upload_run st evs' in
      (st, match r with Some p => p :: rs | None => rs end)
  end.

(** What an admitted request comes to: [destroyed] when the client has gone by the
    time the authorization settles. *)
Inductive relay_outcome :=
| Answered (p : http_response)
| Gone
| Upload (st : upload_state) (responses : list http_response).

Definition relay_admitted (req : http_request) (destroyed : bool) (evs : list upload_event) (s : St) :
    relay_outcome * St :=
  let '(auth, s) := clientAuthorized req s in
  (match auth with
   | Throw _ => if destroyed then Gone else Answered (HttpResponse 503 [("Retry-After", "2")] "")
   | Ok false => if destroyed then Gone else Answered (empty_response 401)
   | Ok true =>
       if destroyed then Gone
       else let '(st, rs) := upload_run (Uploading []) evs in Upload st rs
   end, s).
End token.
End relay.
