(* ===== verification/RelaySlots.v ===== *)
(** * The slots of the relay ([ohttp-relay/server.js])

    Every request to [/relay] occupies a slot, counted for the process ([inflight])
    and for its client ([clientInflight]), until its response is finished or its
    connection is gone; a slot is kept while the authorization is pending. The
    steps of [slot_step] interleave any number of requests with a shutdown. *)
From S2P Require Import Prelude JsMap Relay.

(** The variables of one request: [releaseSlot] closes over them. *)
Record slot := Slot {
  s_ip : string;
  slotReleased : bool;
  authPending : bool;
  releaseRequested : bool;
}.

Record slot_state := SlotState {
  inflight : Z;
  clientInflight : gmap string Z;
  slots : gmap nat slot;
  s_draining : bool;
  s_httpClosed : bool;
  s_exited : option Z;
}.
Definition no_slots : slot_state := SlotState 0 ∅ ∅ false false None.

Definition finishDrain (s : slot_state) : slot_state :=
  if s_draining s && s_httpClosed s && (inflight s =? 0)
  then SlotState (inflight s) (clientInflight s) (slots s) (s_draining s) (s_httpClosed s) (Some 0) else s.

Section slots.
Context (cfg : relay_config).

(** The concurrency caps: [None] is the 429 of [capacity]. *)
Definition reserve_slot (i : nat) (ip : string) (s : slot_state) : option slot_state :=
  let clientRequests := default 0 (clientInflight s !! ip) in
  if (inflight s >=? MAX_INFLIGHT cfg) || (clientRequests >=? MAX_CLIENT_INFLIGHT cfg) then None
  else Some (SlotState (inflight s + 1) (<[ip := clientRequests + 1]> (clientInflight s))
               (<[i := Slot ip false true false]> (slots s)) (s_draining s) (s_httpClosed s) (s_exited s)).

(** [releaseSlot] of request [i]: asked for while the authorization is pending, it
    is remembered. [clientInflight.get] finds the count that the slot is part of. *)
Definition releaseSlot (i : nat) (s : slot_state) : slot_state :=
  match slots s !! i with
  | None => s
  | Some sl =>
      if authPending sl then
        SlotState (inflight s) (clientInflight s) (<[i := Slot (s_ip sl) (slotReleased sl) true true]> (slots s))
          (s_draining s) (s_httpClosed s) (s_exited s)
      else if slotReleased sl then s
      else
        let remaining := default 0 (clientInflight s !! s_ip sl) - 1 in
        finishDrain
          (SlotState (inflight s - 1)
             (if remaining =? 0 then delete (s_ip sl) (clientInflight s)
              else <[s_ip sl := remaining]> (clientInflight s))
             (<[i := Slot (s_ip sl) true false (releaseRequested sl)]> (slots s))
             (s_draining s) (s_httpClosed s) (s_exited s))
  end.

(** The [finally] after [clientAuthorized]; [destroyed] when the request or the
    response is. *)
Definition auth_settles (i : nat) (destroyed : bool) (s : slot_state) : slot_state :=
  match slots s !! i with
  | Some (Slot ip released true requested) =>
      let s := SlotState (inflight s) (clientInflight s) (<[i := Slot ip released false requested]> (slots s))
                 (s_draining s) (s_httpClosed s) (s_exited s) in
      if requested || destroyed then releaseSlot i s else s
  | _ => s
  end.

Definition beginShutdown (s : slot_state) : slot_state :=
  if s_draining s then s
  else SlotState (inflight s) (clientInflight s) (slots s) true (s_httpClosed s) (s_exited s).
Definition http_closes (s : slot_state) : slot_state :=
  finishDrain (SlotState (inflight s) (clientInflight s) (slots s) (s_draining s) true (s_exited s)).

(** A request arrives when the server is not draining; nothing happens after the
    process has exited. [finish] and [close] of a response, an abort and an oversized
    body all call [releaseSlot], any number of times. *)
Inductive slot_step : slot_state -> slot_state -> Prop :=
| slot_admit s i ip s' :
    s_exited s = None -> s_draining s = false -> slots s !! i = None ->
    reserve_slot i ip s = Some s' -> slot_step s s'
| slot_release s i : s_exited s = None -> slot_step s (releaseSlot i s)
| slot_auth s i destroyed : s_exited s = None -> slot_step s (auth_settles i destroyed s)
| slot_signal s : s_exited s = None -> slot_step s (beginShutdown s)
| slot_closed s : s_exited s = None -> s_draining s = true -> slot_step s (http_closes s)
| slot_timeout s :
    s_exited s = None -> s_draining s = true ->
    slot_step s (SlotState (inflight s) (clientInflight s) (slots s) (s_draining s) (s_httpClosed s) (Some 1)).

Definition reachable (s : slot_state) : Prop := rtc slot_step no_slots s.

(** ** What the counters count *)
Definition held (sl : slot) : bool := negb (slotReleased sl).
Definition held_by (ip : string) (sl : slot) : bool := held sl && bool_decide (s_ip sl = ip).
Definition count (p : slot -> bool) (m : gmap nat slot) : Z :=
  Z.of_nat (size (filter (fun kv => p kv.2 = true) m)).

Lemma count_empty p : count p ∅ = 0.
Proof. unfold count. by rewrite map_filter_empty, map_size_empty. Qed.

Lemma count_delete p m i sl :
  m !! i = Some sl -> count p m = (if p sl then 1 else 0) + count p (delete i m).
Proof.
  intros Hi. unfold count. rewrite map_filter_delete. destruct (p sl) eqn:E.
  - rewrite map_size_delete_Some; [|exists sl; by apply map_lookup_filter_Some].
    assert (size (filter (fun kv => p kv.2 = true) m) <> 0%nat); [|lia].
    intros H0%map_size_empty_iff. apply (map_filter_empty_not_lookup _ _ i sl) in H0; [done|done].
  - rewrite delete_id; [lia|]. apply map_lookup_filter_None. right. intros x Hx. simpl. congruence.
Qed.

Lemma count_insert_new p m i sl :
  m !! i = None -> count p (<[i := sl]> m) = (if p sl then 1 else 0) + count p m.
Proof.
  intros Hi. rewrite (count_delete p _ i sl) by apply lookup_insert_eq.
  by rewrite delete_insert_id.
Qed.

Lemma count_insert p m i old sl :
  m !! i = Some old ->
  count p (<[i := sl]> m) = count p m - (if p old then 1 else 0) + (if p sl then 1 else 0).
Proof.
  intros Hi. rewrite (count_delete p _ i sl) by apply lookup_insert_eq.
  rewrite delete_insert_eq, (count_delete p m i old) by done. lia.
Qed.

Lemma count_nonneg p m : 0 <= count p m.
Proof. unfold count. lia. Qed.

Lemma count_pos p m i sl : m !! i = Some sl -> p sl = true -> 1 <= count p m.
Proof.
  intros Hi Hp. rewrite (count_delete p m i sl Hi), Hp. pose proof (count_nonneg p (delete i m)). lia.
Qed.

(** ** Invariant *)
Record counts_ok (s : slot_state) : Prop := {
  so_inflight : inflight s = count held (slots s);
  so_client ip : default 0 (clientInflight s !! ip) = count (held_by ip) (slots s);
  so_entry ip n : clientInflight s !! ip = Some n -> 1 <= n;
  so_cap : inflight s <= Z.max 0 (MAX_INFLIGHT cfg);
  so_client_cap ip : default 0 (clientInflight s !! ip) <= Z.max 0 (MAX_CLIENT_INFLIGHT cfg);
  so_pending i sl : slots s !! i = Some sl -> authPending sl = true -> slotReleased sl = false;
  so_exit : s_exited s = Some 0 -> inflight s = 0 /\ s_draining s = true /\ s_httpClosed s = true;
}.
(** A release asked for is not forgotten. *)
Definition asked_ok (s : slot_state) : Prop :=
  forall i sl, slots s !! i = Some sl -> authPending sl = false -> releaseRequested sl = true ->
    slotReleased sl = true.

Lemma finishDrain_slots s : slots (finishDrain s) = slots s.
Proof. unfold finishDrain. by case_match. Qed.

Lemma finishDrain_ok s : counts_ok s -> counts_ok (finishDrain s).
Proof.
  intros Hok. unfold finishDrain. case_match eqn:E; [|done]. bool_to_prop.
  destruct Hok. by constructor.
Qed.

(** Flags of a slot that is held as before do not change the counts. *)
Lemma reflag_ok s i old new :
  counts_ok s -> slots s !! i = Some old -> s_ip new = s_ip old -> slotReleased new = slotReleased old ->
  (authPending new = true -> slotReleased new = false) ->
  counts_ok (SlotState (inflight s) (clientInflight s) (<[i := new]> (slots s)) (s_draining s)
               (s_httpClosed s) (s_exited s)).
Proof.
  intros [] Hi Hip Hr Hp. constructor; simpl; try done.
  - rewrite (count_insert _ _ _ old) by done. unfold held at 2 3. rewrite Hr. lia.
  - intros ip. rewrite (count_insert _ _ _ old) by done. unfold held_by at 2 3, held.
    rewrite Hr, Hip. rewrite so_client0. lia.
  - intros j sl. rewrite lookup_insert_Some. intros [[-> <-]|[_ ?]]; eauto.
Qed.

Lemma releaseSlot_ok i s : counts_ok s -> s_exited s = None -> counts_ok (releaseSlot i s).
Proof.
  intros Hok Hx. unfold releaseSlot. destruct (slots s !! i) as [[ip rel pend req]|] eqn:Hi; [|done].
  simpl. destruct pend; simpl.
  { eapply reflag_ok; [done..|]. simpl. intros _. by apply (so_pending _ Hok i _ Hi). }
  destruct rel; [done|]. apply finishDrain_ok. destruct Hok.
  assert (count (held_by ip) (slots s) >= 1) as Hge.
  { enough (1 <= count (held_by ip) (slots s)) by lia. apply (count_pos _ _ _ _ Hi).
    unfold held_by. simpl. by apply bool_decide_eq_true_2. }
  assert (forall ip', default 0 ((if default 0 (clientInflight s !! ip) - 1 =? 0
      then delete ip (clientInflight s)
      else <[ip := default 0 (clientInflight s !! ip) - 1]> (clientInflight s)) !! ip')
    = default 0 (clientInflight s !! ip') - (if bool_decide (ip = ip') then 1 else 0)) as Hget.
  { intros ip'. case_bool_decide as E.
    - subst ip'. case_match eqn:Ez; bool_to_prop; [rewrite lookup_delete_eq|rewrite lookup_insert_eq]; simpl; lia.
    - rewrite Z.sub_0_r. case_match; [by rewrite lookup_delete_ne|by rewrite lookup_insert_ne]. }
  constructor; simpl; try done.
  - rewrite (count_insert _ _ _ _ _ Hi). unfold held at 2 3. simpl. lia.
  - intros ip'. rewrite Hget, (count_insert _ _ _ _ _ Hi). unfold held_by at 2 3, held. simpl.
    rewrite so_client0. destruct (bool_decide (ip = ip')); lia.
  - intros ip' n. case_match eqn:Ez; bool_to_prop.
    + rewrite lookup_delete_Some. intros [_ ?]. by eapply so_entry0.
    + rewrite lookup_insert_Some. intros [[-> <-]|[_ ?]]; [|by eapply so_entry0].
      rewrite (so_client0 ip') in *. lia.
  - lia.
  - intros ip'. rewrite Hget. specialize (so_client_cap0 ip'). destruct (bool_decide (ip = ip')); lia.
  - intros j sl. rewrite lookup_insert_Some. intros [[-> <-]|[_ ?]]; [done|]. eauto.
  - congruence.
Qed.

Lemma reserve_slot_ok i ip s s' :
  counts_ok s -> s_exited s = None -> slots s !! i = None -> reserve_slot i ip s = Some s' -> counts_ok s'.
Proof.
  intros [] Hx Hi. unfold reserve_slot. destruct (_ || _) eqn:E; [done|]. intros [= <-]. bool_to_prop.
  assert (forall ip', default 0 (<[ip := default 0 (clientInflight s !! ip) + 1]> (clientInflight s) !! ip')
    = default 0 (clientInflight s !! ip') + (if bool_decide (ip = ip') then 1 else 0)) as Hget.
  { intros ip'. case_bool_decide as Ei; [subst; by rewrite lookup_insert_eq|].
    rewrite lookup_insert_ne by done. lia. }
  constructor; simpl; try done.
  - rewrite count_insert_new by done. simpl. lia.
  - intros ip'. rewrite Hget, so_client0, count_insert_new by done.
    unfold held_by at 2, held. simpl. destruct (bool_decide (ip = ip')); lia.
  - intros ip' n. rewrite lookup_insert_Some. intros [[-> <-]|[_ ?]]; [|by eapply so_entry0].
    rewrite so_client0. pose proof (count_nonneg (held_by ip') (slots s)). lia.
  - lia.
  - intros ip'. rewrite Hget. specialize (so_client_cap0 ip'). case_bool_decide; [subst|]; lia.
  - intros j sl. rewrite lookup_insert_Some. intros [[-> <-]|[_ ?]]; [done|]. eauto.
  - congruence.
Qed.

(** After a release the slot is free, or the wish is noted. *)
Lemma releaseSlot_slots i j s :
  slots (releaseSlot i s) !! j =
  if decide (i = j) then
    (fun sl => if authPending sl then Slot (s_ip sl) (slotReleased sl) true true
               else Slot (s_ip sl) true false (releaseRequested sl)) <$> slots s !! i
  else slots s !! j.
Proof.
  unfold releaseSlot. destruct (slots s !! i) as [[ip rel pend req]|] eqn:Hi; simpl.
  2: { by case_decide; [subst; rewrite Hi|]. }
  destruct pend; simpl; [|destruct rel; [|rewrite finishDrain_slots; simpl]].
  - case_decide; [subst; by rewrite lookup_insert_eq|by rewrite lookup_insert_ne].
  - case_decide; [by subst|done].
  - case_decide; [subst; by rewrite lookup_insert_eq|by rewrite lookup_insert_ne].
Qed.

Lemma releaseSlot_asked i s :
  (forall j sl, i <> j -> slots s !! j = Some sl -> authPending sl = false ->
     releaseRequested sl = true -> slotReleased sl = true) ->
  asked_ok (releaseSlot i s).
Proof.
  intros Hok j sl. rewrite releaseSlot_slots. case_decide; [|by eauto]. subst j.
  destruct (slots s !! i) as [[ip rel pend req]|]; [|done]. by destruct pend; intros [= <-].
Qed.

Lemma auth_settles_ok i d s :
  counts_ok s -> asked_ok s -> s_exited s = None ->
  counts_ok (auth_settles i d s) /\ asked_ok (auth_settles i d s).
Proof.
  intros Hc Ha Hx. unfold auth_settles.
  destruct (slots s !! i) as [[ip rel [] req]|] eqn:Hi; try done.
  assert (counts_ok (SlotState (inflight s) (clientInflight s) (<[i := Slot ip rel false req]> (slots s))
            (s_draining s) (s_httpClosed s) (s_exited s))) as Hc' by (by eapply reflag_ok).
  case_match eqn:E.
  - split; [by apply releaseSlot_ok|]. apply releaseSlot_asked. intros j sl Hne. simpl.
    rewrite lookup_insert_ne by done. apply Ha.
  - split; [done|]. bool_to_prop. intros j sl. simpl. rewrite lookup_insert_Some.
    intros [[-> <-]|[_ ?]]; [by simpl; subst|]. by eapply Ha.
Qed.

Lemma slot_step_ok s s' :
  counts_ok s -> asked_ok s -> slot_step s s' -> counts_ok s' /\ asked_ok s'.
Proof.
  intros Hc Ha Hs. destruct Hs as [s i ip s' Hx Hd Hi Hr|s i Hx|s i d Hx|s Hx|s Hx Hd|s Hx Hd].
  - split; [by eapply reserve_slot_ok|]. unfold reserve_slot in Hr. case_match; [done|].
    injection Hr as <-. intros j sl. simpl. rewrite lookup_insert_Some.
    intros [[-> <-]|[_ ?]]; [done|]. by eapply Ha.
  - split; [by apply releaseSlot_ok|]. apply releaseSlot_asked. intros j sl _. apply Ha.
  - by apply auth_settles_ok.
  - unfold beginShutdown. case_match; [done|]. split; [|done]. destruct Hc. constructor; simpl; try done. congruence.
  - unfold http_closes. split; [|unfold asked_ok; by rewrite finishDrain_slots].
    apply finishDrain_ok. destruct Hc. constructor; simpl; try done. congruence.
  - split; [|done]. destruct Hc. constructor; simpl; done.
Qed.

Lemma reachable_ok s : reachable s -> counts_ok s /\ asked_ok s.
Proof.
  intros Hr. assert (counts_ok no_slots /\ asked_ok no_slots) as H0.
  { split; [constructor; simpl; try done; try lia|]; intros; rewrite ?lookup_empty in *; simpl; try done;
      try lia; rewrite ?count_empty; done. }
  revert H0. unfold reachable in Hr. induction Hr as [s1|s1 s2 s3 Hs _ IH]; [done|].
  intros [? ?]. apply IH. by eapply slot_step_ok.
Qed.

(** C21. Slots are accounted for under every interleaving of requests, disconnects,
    authorizations and a shutdown: the two counters are the numbers of requests that
    hold a slot, never above their caps; a client without a request has no entry; a
    request gives its slot back once, not while its authorization is pending and
    certainly then when that was asked for in the meantime; and the process exits
    with 0 only when no slot is held. *)
Theorem slots_accounted (s : slot_state) :
  reachable s ->
  inflight s = count held (slots s) /\
  (forall ip, default 0 (clientInflight s !! ip) = count (held_by ip) (slots s)) /\
  (forall ip n, clientInflight s !! ip = Some n -> 1 <= n) /\
  inflight s <= Z.max 0 (MAX_INFLIGHT cfg) /\
  (forall ip, default 0 (clientInflight s !! ip) <= Z.max 0 (MAX_CLIENT_INFLIGHT cfg)) /\
  (forall i sl, slots s !! i = Some sl ->
     (authPending sl = true -> slotReleased sl = false) /\
     (authPending sl = false -> releaseRequested sl = true -> slotReleased sl = true)) /\
  (s_exited s = Some 0 -> inflight s = 0).
Proof.
  intros [[] Ha]%reachable_ok. repeat (split; [done|]). split.
  - intros i sl Hi. split; [by apply (so_pending0 i)|by apply (Ha i)].
  - intros Hx. by apply so_exit0.
Qed.
End slots.

(** ** Witness: a client that leaves before its authorization settles *)
Module SlotSample.
Definition cfg : relay_config := {|
  MAX_BODY := 4; MAX_RESP_BYTES := 4; RATE_LIMIT_RPM := 2; RATE_WINDOW_MS := 10; MAX_INFLIGHT := 2;
  RATE_MAX_KEYS := 2; TRUSTED_CLIENT_IP_HEADER := ""; CLIENT_AUTH_MODE := "token"; CLIENT_SECRET := "";
  CLIENT_AUTH_HEADER := "x-columbia-token"; RELAY_GATEWAY_SECRET := "s"; REQUIRE_FDID := "";
  FDID_HEADER := "x-azure-fdid"; CONFIG_TTL_MS := 100; GATEWAY_HOST := "gateway.example";
  GATEWAY_PORT := 443; GATEWAY_PATH := "/gateway" |}.
Definition admitted (i : nat) (s : slot_state) : slot_state := default s (reserve_slot cfg i "a" s).
Definition two : slot_state := admitted 1 (admitted 0 no_slots).
Definition left_early : slot_state := auth_settles 0 false (releaseSlot 0 two).
Example left_frees : inflight left_early = 1. Proof. vm_compute. reflexivity. Qed.
Example third_refused : reserve_slot cfg 2 "a" two = None. Proof. vm_compute. reflexivity. Qed.
Lemma left_reachable : reachable cfg left_early.
Proof.
  eapply (rtc_l _ _ (admitted 0 no_slots)); [by eapply (slot_admit cfg _ 0 "a")|].
  eapply (rtc_l _ _ two); [by eapply (slot_admit cfg _ 1 "a")|].
  eapply (rtc_l _ _ (releaseSlot 0 two)); [by apply slot_release|].
  eapply (rtc_l _ _ left_early); [by apply slot_auth|]. apply rtc_refl.
Qed.
End SlotSample.

Lemma slots_accounted_witness : inflight SlotSample.left_early = count held (slots SlotSample.left_early).
Proof. apply (slots_accounted SlotSample.cfg). exact SlotSample.left_reachable. Defined.
