(* ===== verification/RelayProxy.v ===== *)
(** * The exchange with the gateway ([ohttp-relay/server.js])

    [proxyGatewayRequest]: one request to the gateway on behalf of any number of
    callers, buffered up to [MAX_RESP_BYTES], and [serveConfig]: the cached key
    configuration and its single flight. *)
From S2P Require Import Prelude JsMap JsText Relay.

(** ** One exchange *)

(** What a caller is sent. *)
Record gw_response := GwResponse { g_status : Z; g_headers : list (string * string); g_body : buffer }.

Record proxy := Proxy {
  completed : bool;
  (** The callers waiting, in the order of the [Map]. *)
  callers : list nat;
  (** Sockets of callers that are destroyed, and the answers written so far. *)
  gone : list nat;
  answers : list (nat * gw_response);
  (** [gatewayResponse], as its status and headers, and the body so far. *)
  response : option (Z * list (string * string));
  rc : buffer;
  (** [greq.destroy()] was called. *)
  cancelled : bool;
}.
Definition new_proxy : proxy := Proxy false [] [] [] None [] false.

Section proxy.
Context (cfg : relay_config).
(** What goes back besides the status and the body: [headersForResponse]. *)
Context (headersForResponse : Z -> list (string * string) -> list (string * string)).

(** [!caller.destroyed && !caller.headersSent]. *)
Definition writable (p : proxy) (c : nat) : bool :=
  negb (bool_decide (c ∈ gone p)) && negb (bool_decide (c ∈ (answers p).*1)).

Definition finish (r : gw_response) (p : proxy) : proxy :=
  if completed p then p
  else Proxy true [] (gone p)
         (answers p ++ ((fun c => (c, r)) <$> List.filter (writable p) (callers p)))
         (response p) (rc p) (cancelled p).
Definition failure (status : Z) : gw_response := GwResponse status [] [].
Definition cancel (p : proxy) : proxy :=
  Proxy (completed p) (callers p) (gone p) (answers p) (response p) (rc p) true.

(** The [close] listener of a caller. *)
Definition closed (c : nat) (p : proxy) : proxy :=
  if bool_decide (c ∈ (answers p).*1) || completed p then p
  else
    let rest := List.filter (fun c' => negb (Nat.eqb c' c)) (callers p) in
    let p := Proxy (completed p) rest (gone p) (answers p) (response p) (rc p) (cancelled p) in
    match rest with [] => cancel (finish (failure 499) p) | _ => p end.

(** [callers.set(caller, ..)]: a new caller goes to the end. *)
Definition add (c : nat) (p : proxy) : bool * proxy :=
  if completed p then (false, p)
  else
    let p := Proxy (completed p) (if bool_decide (c ∈ callers p) then callers p else callers p ++ [c])
               (gone p) (answers p) (response p) (rc p) (cancelled p) in
    (true, if bool_decide (c ∈ gone p) then closed c p else p).

(** A caller joins, its socket is destroyed, its [close] event comes; the gateway's
    response starts, brings data, ends or fails; the request fails, after a timeout
    too. *)
Inductive proxy_event :=
| PAdd (c : nat) | PDestroyed (c : nat) | PClosed (c : nat)
| PResponse (status : Z) (headers : list (string * string))
| PData (d : buffer) | PEnd | PResponseError | PRequestError.

Definition proxy_step (p : proxy) (ev : proxy_event) : proxy :=
  match ev with
  | PAdd c => snd (add c p)
  | PDestroyed c => Proxy (completed p) (callers p) (c :: gone p) (answers p) (response p) (rc p) (cancelled p)
  | PClosed c =>
      let p := Proxy (completed p) (callers p) (c :: gone p) (answers p) (response p) (rc p) (cancelled p) in
      if bool_decide (c ∈ callers p) then closed c p else p
  | PResponse status headers =>
      (* there is one response *)
      if bool_decide (is_Some (response p)) then p
      else Proxy (completed p) (callers p) (gone p) (answers p) (Some (status, headers)) [] (cancelled p)
  | PData d =>
      match response p with
      | None => p
      | Some _ =>
          if completed p then p
          else if blen (rc p ++ d) >? MAX_RESP_BYTES cfg then cancel (finish (failure 502) p)
          else Proxy (completed p) (callers p) (gone p) (answers p) (response p) (rc p ++ d) (cancelled p)
      end
  | PEnd =>
      match response p with
      | None => p
      | Some (status, headers) =>
          let status := if status =? 0 then 502 else status in
          finish (GwResponse status (headersForResponse status headers) (rc p)) p
      end
  | PResponseError => match response p with None => p | Some _ => cancel (finish (failure 502) p) end
  | PRequestError => finish (failure 502) p
  end.

(** A run from the first caller on, with the callers that [add] took in. *)
Definition proxy_track (st : proxy * list nat) (ev : proxy_event) : proxy * list nat :=
  (proxy_step st.1 ev,
   match ev with PAdd c => if completed st.1 then st.2 else c :: st.2 | _ => st.2 end).
Definition proxy_run (first : nat) (evs : list proxy_event) : proxy * list nat :=
  foldl proxy_track (proxy_track (new_proxy, []) (PAdd first)) evs.

(** ** Invariant *)
Record proxy_ok (p : proxy) (joined : list nat) : Prop := {
  po_callers : NoDup (callers p);
  po_answers : NoDup (answers p).*1;
  po_open : completed p = false -> answers p = [] /\ callers p <> [];
  (** Until completion the callers with a live socket wait; then they are answered. *)
  po_wait c : completed p = false -> c ∈ joined -> c ∈ callers p \/ c ∈ gone p;
  po_done c : completed p = true -> c ∈ joined -> c ∈ (answers p).*1 \/ c ∈ gone p;
  po_only c : c ∈ callers p \/ c ∈ (answers p).*1 -> c ∈ joined;
  po_same a b : a ∈ answers p -> b ∈ answers p -> a.2 = b.2;
  po_size : 0 <= MAX_RESP_BYTES cfg -> blen (rc p) <= MAX_RESP_BYTES cfg;
  po_body a : 0 <= MAX_RESP_BYTES cfg -> a ∈ answers p -> blen (g_body a.2) <= MAX_RESP_BYTES cfg;
}.

Lemma filter_In (f : nat -> bool) l c : c ∈ List.filter f l <-> c ∈ l /\ f c = true.
Proof. rewrite !list_elem_of_In. apply List.filter_In. Qed.

Lemma writable_true p c : writable p c = true <-> c ∉ gone p /\ c ∉ (answers p).*1.
Proof.
  unfold writable. by rewrite andb_true_iff, !negb_true_iff, !bool_decide_eq_false.
Qed.

Lemma fst_pair_map (r : gw_response) l : ((fun c => (c, r)) <$> l).*1 = (l : list nat).
Proof. rewrite <-list_fmap_compose. unfold compose. simpl. apply list_fmap_id. Qed.

(** [finish], from a state that may have lost its last caller. *)
Record open_ok (p : proxy) (joined : list nat) : Prop := {
  oo_callers : NoDup (callers p);
  oo_answers : answers p = [];
  oo_wait c : c ∈ joined -> c ∈ callers p \/ c ∈ gone p;
  oo_only c : c ∈ callers p -> c ∈ joined;
  oo_size : 0 <= MAX_RESP_BYTES cfg -> blen (rc p) <= MAX_RESP_BYTES cfg;
}.

Lemma open_of p joined : completed p = false -> proxy_ok p joined -> open_ok p joined.
Proof. intros Hc []. destruct (po_open0 Hc). constructor; auto. Qed.

Lemma ok_of_open p joined : completed p = false -> callers p <> [] -> open_ok p joined -> proxy_ok p joined.
Proof.
  intros Hc Hn []. constructor; auto; try congruence; rewrite ?oo_answers0; simpl; try constructor.
  - intros c [?|?%elem_of_nil]; auto. done.
  - intros a b Ha. by apply elem_of_nil in Ha.
  - intros a _ Ha. by apply elem_of_nil in Ha.
Qed.

Lemma finish_ok r p joined :
  completed p = false -> open_ok p joined ->
  (0 <= MAX_RESP_BYTES cfg -> blen (g_body r) <= MAX_RESP_BYTES cfg) ->
  proxy_ok (finish r p) joined.
Proof.
  intros Hc [Hn Ha Hw Ho Hs] Hb. unfold finish. rewrite Hc, Ha. simpl.
  assert (forall c, c ∈ List.filter (writable p) (callers p) <-> c ∈ callers p /\ c ∉ gone p) as Hf.
  { intros c. rewrite filter_In, writable_true, Ha. simpl. set_solver. }
  constructor; simpl; rewrite ?fst_pair_map; try done.
  - constructor.
  - apply NoDup_ListNoDup, List.NoDup_filter, NoDup_ListNoDup, Hn.
  - intros c _ Hj. rewrite Hf. destruct (decide (c ∈ gone p)); [by right|]. left.
    destruct (Hw c Hj); [done|contradiction].
  - intros c [H|[H _]%Hf]; [by apply elem_of_nil in H|]. by apply Ho.
  - intros a b (? & -> & _)%list_elem_of_fmap (? & -> & _)%list_elem_of_fmap. done.
  - intros a Hm (? & -> & _)%list_elem_of_fmap. by apply Hb.
Qed.

Lemma finish_done r p : completed (finish r p) = true.
Proof. unfold finish. by case_match eqn:E. Qed.

Lemma finish_completed r p : completed p = true -> finish r p = p.
Proof. unfold finish. by intros ->. Qed.

(** Only these parts of the state matter for the invariant. *)
Lemma proxy_ok_ext p q joined :
  proxy_ok p joined -> completed q = completed p -> callers q = callers p -> gone q = gone p ->
  answers q = answers p -> rc q = rc p -> proxy_ok q joined.
Proof. intros [] E1 E2 E3 E4 E5. constructor; rewrite ?E1, ?E2, ?E3, ?E4, ?E5; done. Qed.
Lemma cancel_ok p joined : proxy_ok p joined -> proxy_ok (cancel p) joined.
Proof. intros H. by eapply proxy_ok_ext. Qed.

Lemma gone_ok c p joined :
  proxy_ok p joined ->
  proxy_ok (Proxy (completed p) (callers p) (c :: gone p) (answers p) (response p) (rc p) (cancelled p)) joined.
Proof.
  intros []. constructor; simpl; try done.
  - intros c' ? ?. destruct (po_wait0 c'); [done..|by left|]. right. by right.
  - intros c' ? ?. destruct (po_done0 c'); [done..|by left|]. right. by right.
Qed.

Lemma closed_ok c p joined :
  (completed p = false -> open_ok p joined) -> (completed p = true -> proxy_ok p joined) ->
  c ∈ gone p -> proxy_ok (closed c p) joined.
Proof.
  intros Ho Hd Hg. unfold closed. destruct (completed p) eqn:Ec.
  { rewrite orb_true_r. by apply Hd. }
  specialize (Ho eq_refl). destruct Ho as [Hn Ha Hw Ho Hs]. rewrite Ha. cbn [fmap list_fmap].
  rewrite bool_decide_eq_false_2 by (intros H; by apply elem_of_nil in H). cbn [orb].
  set (rest := List.filter (fun c' => negb (Nat.eqb c' c)) (callers p)).
  assert (forall c', c' ∈ rest <-> c' ∈ callers p /\ c' <> c) as Hr.
  { intros c'. unfold rest. rewrite filter_In, negb_true_iff, Nat.eqb_neq. done. }
  set (p' := Proxy _ rest _ _ _ _ _).
  assert (open_ok p' joined) as Hop.
  { constructor; simpl; try done.
    - apply NoDup_ListNoDup, List.NoDup_filter, NoDup_ListNoDup, Hn.
    - intros c' Hj. rewrite Hr. destruct (decide (c' = c)) as [->|]; [by right|].
      destruct (Hw c' Hj); auto.
    - intros c' [H _]%Hr. by apply Ho. }
  destruct rest as [|c1 rest'] eqn:Er.
  - apply cancel_ok, finish_ok; [done|done|]. intros ?. unfold blen. simpl. lia.
  - apply ok_of_open; done.
Qed.

Lemma add_ok c p joined :
  (completed p = false -> open_ok p joined) -> (completed p = true -> proxy_ok p joined) ->
  proxy_ok (snd (add c p)) (if completed p then joined else c :: joined).
Proof.
  intros Ho Hd. unfold add. destruct (completed p) eqn:Ec; [by apply Hd|].
  destruct (Ho eq_refl) as [Hn Ha Hw Hon Hs]. cbn [snd].
  set (l := if bool_decide (c ∈ callers p) then callers p else callers p ++ [c]).
  assert (NoDup l /\ c ∈ l /\ forall c', c' ∈ l -> c' ∈ callers p \/ c' = c) as (Hl & Hcl & Hin).
  { unfold l. case_bool_decide; [by auto|]. split; [|set_solver].
    apply NoDup_app. split; [done|]. split; [|apply NoDup_singleton]. set_solver. }
  assert (forall c', c' ∈ callers p -> c' ∈ l) as Hsub by (unfold l; case_bool_decide; set_solver).
  set (p' := Proxy false l _ _ _ _ _).
  assert (open_ok p' (c :: joined)) as Hop.
  { constructor; simpl; try done.
    - intros c' [->|Hj]%elem_of_cons; [by left|]. destruct (Hw c' Hj); auto.
    - intros c' [H| ->]%Hin; [right; by apply Hon|left]. }
  case_bool_decide as Hg.
  - by apply closed_ok.
  - apply ok_of_open; [done| |done]. simpl. intros E. rewrite E in Hcl. by apply elem_of_nil in Hcl.
Qed.

Lemma proxy_step_ok p joined ev :
  proxy_ok p joined -> let st := proxy_track (p, joined) ev in proxy_ok st.1 st.2.
Proof.
  intros Hok. assert (completed p = false -> open_ok p joined) as Hop by (intros; by apply open_of).
  assert (forall r, (0 <= MAX_RESP_BYTES cfg -> blen (g_body r) <= MAX_RESP_BYTES cfg) ->
    proxy_ok (finish r p) joined) as Hfin.
  { intros r Hr. destruct (completed p) eqn:E; [by rewrite finish_completed|]. by apply finish_ok; auto. }
  assert (forall s, proxy_ok (finish (failure s) p) joined) as Hfail
    by (intros s; apply Hfin; intros; unfold blen; simpl; lia).
  destruct ev as [c|c|c|s h|d| | |]; cbn [proxy_track proxy_step fst snd].
  - by apply add_ok.
  - by apply gone_ok.
  - pose proof (gone_ok c p joined Hok) as Hg. cbv zeta. case_bool_decide; [|done].
    apply closed_ok; [intros; by apply open_of|done|by left].
  - case_bool_decide; [done|]. destruct Hok. constructor; simpl; try done.
  - destruct (response p); [|done]. destruct (completed p) eqn:Ec; [done|].
    destruct (_ >? _) eqn:E; bool_to_prop; [by apply cancel_ok|].
    destruct Hok. constructor; simpl; try done; rewrite ?Ec in *; done.
  - destruct (response p) as [[s h]|]; [|done]. cbv zeta. apply Hfin. simpl. apply (po_size _ _ Hok).
  - destruct (response p); [|done]. by apply cancel_ok.
  - done.
Qed.

Lemma proxy_run_ok first evs : proxy_ok (proxy_run first evs).1 (proxy_run first evs).2.
Proof.
  unfold proxy_run. assert (let st := proxy_track (new_proxy, []) (PAdd first) in proxy_ok st.1 st.2) as H0.
  { apply (add_ok first new_proxy []); [|done]. intros _. constructor; simpl; try done; [constructor|..].
    intros c Hc. by apply elem_of_nil in Hc. }
  revert H0. generalize (proxy_track (new_proxy, []) (PAdd first)). cbv zeta.
  induction evs as [|ev evs IH]; intros [p joined] H0; [done|]. simpl. apply IH.
  by apply (proxy_step_ok p joined ev).
Qed.

(** The gateway's last word. *)
Definition terminal (p : proxy) (ev : proxy_event) : Prop :=
  match ev with PEnd | PResponseError => is_Some (response p) | PRequestError => True | _ => False end.

(** C22. The callers of one exchange are answered once and alike: whatever order the
    sockets and the gateway act in, no caller is answered twice, all answers are the
    same one, its body within [MAX_RESP_BYTES]; until it is complete, a caller whose
    socket is alive waits, and there is such a caller or one on its way out; once it
    is complete, every caller with a live socket has been answered; and the end or
    failure of the gateway's response completes it. *)
Theorem proxy_answers_once (first : nat) (evs : list proxy_event) :
  let '(p, joined) := proxy_run first evs in
  NoDup (answers p).*1 /\
  (forall a b, a ∈ answers p -> b ∈ answers p -> a.2 = b.2) /\
  (0 <= MAX_RESP_BYTES cfg -> forall a, a ∈ answers p -> blen (g_body a.2) <= MAX_RESP_BYTES cfg) /\
  (completed p = false -> answers p = [] /\ callers p <> [] /\
     forall c, c ∈ joined -> c ∈ callers p \/ c ∈ gone p) /\
  (completed p = true -> forall c, c ∈ joined -> c ∈ (answers p).*1 \/ c ∈ gone p) /\
  (forall ev, terminal p ev -> completed (proxy_step p ev) = true).
Proof.
  pose proof (proxy_run_ok first evs) as H. destruct (proxy_run first evs) as [p joined].
  destruct H as [Hc Ha Ho Hw Hd Hon Hs Hsz Hb]. simpl in *.
  split; [done|]. split; [done|]. split; [by intros; apply Hb|].
  split; [intros E; destruct (Ho E); auto|]. split; [auto|].
  intros [] Ht; simpl in *; try done; try apply finish_done.
  - destruct Ht as [[s h] ->]. apply finish_done.
  - destruct Ht as [? ->]. apply finish_done.
Qed.
End proxy.

(** ** The key configuration *)
Record config_state := ConfigState {
  (** [configCache]: body, content type and time. *)
  configCache : option (buffer * string * Z);
  (** Every exchange started so far, and the one [configFlight] refers to. *)
  flights : list proxy;
  configFlight : option nat;
  (** Answers that took no exchange. *)
  direct : list (nat * gw_response);
}.
Definition no_config : config_state := ConfigState None [] None [].

Section config.
Context (cfg : relay_config).
(** [cfgGw] is a URL. *)
Context (cfgGw : bool).

Definition content_type (headers : list (string * string)) : string :=
  match map_get String.eqb headers "content-type" with
  | Some t => if AppAttest.nonempty t then t else "application/octet-stream"
  | None => "application/octet-stream"
  end.
Definition config_headers (status : Z) (headers : list (string * string)) : list (string * string) :=
  [("Content-Type", content_type headers)].

(** [proxyGatewayRequest(.., onFinish)]: a flight that completes clears
    [configFlight]. *)
Definition set_flight (i : nat) (p : proxy) (s : config_state) : config_state :=
  ConfigState (configCache s) (<[i := p]> (flights s))
    (if completed p && negb (from_option completed true (flights s !! i)) then None else configFlight s)
    (direct s).

Definition start_flight (c : nat) (destroyed : bool) (s : config_state) : config_state :=
  let p := Proxy false [] (if destroyed then [c] else []) [] None [] false in
  ConfigState (configCache s) (flights s ++ [snd (add c p)]) (Some (length (flights s))) (direct s).

Definition serveConfig (now : Z) (c : nat) (destroyed : bool) (s : config_state) : config_state :=
  let fetch :=
    if negb cfgGw then
      ConfigState (configCache s) (flights s) (configFlight s) (direct s ++ [(c, failure 502)])
    else
      match configFlight s with
      | Some i =>
          match flights s !! i with
          | Some p =>
              let p := Proxy (completed p) (callers p) (if destroyed then c :: gone p else gone p)
                         (answers p) (response p) (rc p) (cancelled p) in
              if completed p then start_flight c destroyed s
              else set_flight i (snd (add c p)) s
          | None => start_flight c destroyed s
          end
      | None => start_flight c destroyed s
      end in
  match configCache s with
  | Some (body, contentType, fetchedAt) =>
      if now - fetchedAt <? CONFIG_TTL_MS cfg
      then ConfigState (configCache s) (flights s) (configFlight s)
             (direct s ++ [(c, GwResponse 200 [("Content-Type", contentType)] body)])
      else fetch
  | None => fetch
  end.

(** An event of the [i]-th exchange; a complete 200 is cached. *)
Definition flight_event (now : Z) (i : nat) (ev : proxy_event) (s : config_state) : config_state :=
  match flights s !! i with
  | None => s
  | Some p =>
      let s := set_flight i (proxy_step cfg config_headers p ev) s in
      match ev, response p with
      | PEnd, Some (status, headers) =>
          if negb (completed p) && (status =? 200)
          then ConfigState (Some (rc p, content_type headers, now)) (flights s) (configFlight s) (direct s)
          else s
      | _, _ => s
      end
  end.

Inductive config_event := CServe (c : nat) (destroyed : bool) | CFlight (i : nat) (ev : proxy_event).
Definition config_step (s : config_state) (e : Z * config_event) : config_state :=
  match e with
  | (now, CServe c destroyed) => serveConfig now c destroyed s
  | (now, CFlight i (PAdd _)) => s
  | (now, CFlight i ev) => flight_event now i ev s
  end.
Definition config_run (evs : list (Z * config_event)) : config_state := foldl config_step no_config evs.

(** What is cached came whole from a flight that ended with 200. *)
Definition fetched (s : config_state) (body : buffer) (contentType : string) : Prop :=
  exists p headers, p ∈ flights s /\ completed p = true /\ response p = Some (200, headers) /\
    rc p = body /\ contentType = content_type headers.

Record config_ok (s : config_state) : Prop := {
  co_flight i p : flights s !! i = Some p -> completed p = false -> configFlight s = Some i;
  co_cache body ct t : configCache s = Some (body, ct, t) -> fetched s body ct;
}.

(** A completed exchange keeps its response and its body. *)
Lemma completed_stays p ev :
  completed p = true -> is_Some (response p) ->
  let q := proxy_step cfg config_headers p ev in
  completed q = true /\ response q = response p /\ rc q = rc p.
Proof.
  intros Hc [r Hr]. destruct ev; cbn [proxy_step]; unfold add, closed; cbv zeta;
    repeat (rewrite ?Hc, ?Hr, ?orb_true_r, ?finish_completed by done; cbn -[finish];
            try case_bool_decide); try done.
  all: unfold finish, cancel in *; simpl; rewrite ?Hc; simpl; try done.
  all: destruct r as [st h]; simpl; by rewrite ?Hc.
Qed.
Lemma step_completed hdrs p ev : completed p = true -> completed (proxy_step cfg hdrs p ev) = true.
Proof.
  intros Hc. destruct ev; cbn [proxy_step]; unfold add, closed; cbv zeta;
    repeat (rewrite ?Hc, ?orb_true_r; cbn -[finish]; try case_bool_decide); try done;
    destruct (response p) as [[]|]; simpl; rewrite ?Hc; try done; by apply finish_done.
Qed.

Lemma set_flight_ok i p q s :
  config_ok s -> flights s !! i = Some p -> (completed p = true -> completed q = true) ->
  (completed p = true -> is_Some (response p) -> response q = response p /\ rc q = rc p) ->
  config_ok (set_flight i q s).
Proof.
  intros [Hf Hc] Hi Hk Hr. constructor.
  - intros j r Hj Hn. unfold set_flight in *. rewrite Hi. simpl in *.
    apply list_lookup_insert_Some in Hj as [(<- & <- & _)|[Hne Hj]].
    + rewrite Hn. simpl. apply (Hf i p); [done|]. destruct (completed p); [|done]. by rewrite Hk in Hn.
    + destruct (completed p) eqn:Ep; [rewrite andb_false_r; by eapply Hf|].
      pose proof (Hf i p Hi Ep). pose proof (Hf j r Hj Hn). congruence.
  - intros body ct t H. destruct (Hc body ct t H) as (p0 & h & Hin & H1 & H2 & H3 & H4).
    apply list_elem_of_lookup in Hin as [k Hk0]. unfold fetched. cbn [set_flight flights].
    destruct (decide (k = i)) as [->|Hne].
    + rewrite Hi in Hk0. injection Hk0 as <-. destruct (Hr H1) as [E1 E2]; [by rewrite H2|].
      exists q, h. rewrite E1, E2. split; [|auto].
      apply (list_elem_of_lookup_2 _ i), list_lookup_insert_eq. by eapply lookup_lt_Some.
    + exists p0, h. split; [|done]. apply (list_elem_of_lookup_2 _ k). by rewrite list_lookup_insert_ne.
Qed.

Lemma start_flight_ok c d s :
  config_ok s -> (forall i p, flights s !! i = Some p -> completed p = true) ->
  config_ok (start_flight c d s).
Proof.
  intros [Hf Hc] Hall. constructor.
  - intros j r. unfold start_flight. cbn [flights configFlight]. intros Hj Hn.
    apply lookup_app_Some in Hj as [Hj|[Hle Hj]]; [by rewrite (Hall _ _ Hj) in Hn|].
    apply list_lookup_singleton_Some in Hj as [Hz _]. f_equal. lia.
  - intros body ct t H. destruct (Hc body ct t H) as (p0 & h & Hin & H1). exists p0, h.
    split; [|done]. unfold start_flight. cbn [flights]. set_solver.
Qed.

(** An answer on the spot. *)
Lemma direct_ok a s :
  config_ok s -> config_ok (ConfigState (configCache s) (flights s) (configFlight s) (direct s ++ a)).
Proof. intros []. by constructor. Qed.

Lemma serveConfig_ok now c d s : config_ok s -> config_ok (serveConfig now c d s).
Proof.
  intros Hok. unfold serveConfig. cbv zeta.
  match goal with |- config_ok (match _ with Some _ => _ | None => ?f end) => set (fetch := f) end.
  assert (config_ok fetch) as Hfetch; [unfold fetch; clear fetch|].
  2: { clearbody fetch. destruct (configCache s) as [[[b ct] t]|] eqn:Ec; [|done]. case_match; [|done].
       rewrite <-Ec. by apply direct_ok. }
  case_match; [by apply direct_ok|]. pose proof Hok as [Hf Hc].
  destruct (configFlight s) as [i|] eqn:Ei.
  2: { apply start_flight_ok; [done|]. intros j p Hj. destruct (completed p) eqn:Ep; [done|].
       specialize (Hf j p Hj Ep). congruence. }
  destruct (flights s !! i) as [p|] eqn:Hp.
  2: { apply start_flight_ok; [done|]. intros j p Hj. destruct (completed p) eqn:Ep; [done|].
       specialize (Hf j p Hj Ep). congruence. }
  cbn [completed]. destruct (completed p) eqn:Ep.
  - apply start_flight_ok; [done|]. intros j q Hj.
    destruct (completed q) eqn:Eq; [done|]. specialize (Hf j q Hj Eq). congruence.
  - apply (set_flight_ok i p); [done|done|congruence..].
Qed.

Lemma flight_event_ok now i ev s : config_ok s -> config_ok (flight_event now i ev s).
Proof.
  intros Hok. unfold flight_event. destruct (flights s !! i) as [p|] eqn:Hi; [|done].
  set (q := proxy_step cfg config_headers p ev).
  assert (config_ok (set_flight i q s)) as Hset.
  { apply (set_flight_ok i p); [done|done|apply step_completed|]. intros Hc Hr.
    by apply (completed_stays p ev). }
  destruct ev; try done. destruct (response p) as [[st h]|] eqn:Er; [|done].
  destruct (_ && _) eqn:E; [|done]. bool_to_prop. subst st. destruct Hset as [Hf Hc].
  constructor; [done|]. intros body ct t [= <- <- <-]. exists q, h. cbn [set_flight flights].
  split; [apply (list_elem_of_lookup_2 _ i), list_lookup_insert_eq; by eapply lookup_lt_Some|].
  unfold q. cbn [proxy_step]. rewrite Er. cbv zeta. unfold finish.
  match goal with H : completed p = false |- _ => rewrite H end. simpl. by rewrite Er.
Qed.

Lemma config_run_ok evs : config_ok (config_run evs).
Proof.
  unfold config_run. assert (config_ok no_config) as H0 by (constructor; done).
  revert H0. generalize no_config. induction evs as [|[now e] evs IH]; intros s H0; [done|].
  simpl. apply IH. destruct e as [c d|i []]; simpl; auto using serveConfig_ok, flight_event_ok.
Qed.

(** The key configuration is fetched by one request at a time, whoever asks for
    it and whatever becomes of the exchanges: of all the exchanges started at most
    one is not complete; and what the cache holds is the whole body of an exchange
    that the gateway ended with 200, under its content type. *)
Theorem config_single_flight (evs : list (Z * config_event)) :
  let s := config_run evs in
  (forall i j p q, flights s !! i = Some p -> flights s !! j = Some q ->
     completed p = false -> completed q = false -> i = j) /\
  (forall body ct t, configCache s = Some (body, ct, t) ->
     exists p headers, p ∈ flights s /\ completed p = true /\ response p = Some (200, headers) /\
       rc p = body /\ ct = content_type headers).
Proof.
  cbv zeta. destruct (config_run_ok evs) as [Hf Hc]. split; [|done].
  intros i j p q Hi Hj Hp Hq. pose proof (Hf _ _ Hi Hp). pose proof (Hf _ _ Hj Hq). congruence.
Qed.
End config.
