(* ===== verification/RelaySystem.v ===== *)
(** * A request's life in the relay ([ohttp-relay/server.js])

    The handler of [POST /relay] from dispatch to the last event of its connection,
    for any number of requests at once: [Relay.relay_dispatch] and the caps of
    [RelaySlots] admit it, the authorization settles, the body is received
    ([Relay.upload_step]), the ciphertext is exchanged with the gateway
    ([RelayProxy.proxy_step]), and the listeners of the connection's [close] run in
    the order they were registered. *)
From S2P Require Import Prelude JsMap JsText Http Relay RelaySlots RelayProxy.

(** The listeners of a response's [close]: the exchange's own, which is prepended,
    and the release of the slot. *)
Inductive listener := CloseExchange | ReleaseSlot.

Inductive stage :=
| Authorizing
| Receiving (st : upload_state)
| Exchanging (u : upstream_request) (p : proxy)
| Refused.

Record conn := Conn {
  cn_req : http_request;
  cn_ip : string;
  cn_stage : stage;
  (** What [clientAuthorized] came to. *)
  cn_auth : option (result exn bool);
  (** Responses written by the handler itself. *)
  cn_written : list http_response;
  (** The connection is destroyed; the listeners of its [close] yet to run. *)
  cn_destroyed : bool;
  cn_listeners : list listener;
  (** [releaseSlot] has been called. *)
  cn_asked : bool;
}.

Definition conn_answers (c : conn) : Z :=
  Z.of_nat (length (cn_written c)) +
  match cn_stage c with Exchanging _ p => Z.of_nat (length (answers p)) | _ => 0 end.
Definition exchange_open (c : conn) : bool :=
  match cn_stage c with Exchanging _ p => negb (completed p) | _ => false end.

Definition set_stage (st : stage) (c : conn) : conn :=
  Conn (cn_req c) (cn_ip c) st (cn_auth c) (cn_written c) (cn_destroyed c) (cn_listeners c) (cn_asked c).
Definition set_asked (c : conn) : conn :=
  Conn (cn_req c) (cn_ip c) (cn_stage c) (cn_auth c) (cn_written c) (cn_destroyed c) (cn_listeners c) true.

Section system.
Context (cfg : relay_config) (sha256 : buffer -> buffer).
(** [clientAuthorized], over the state of the redemption store. *)
Context {St : Type} (authorize : http_request -> St -> result exn bool * St).

Record relay_sys := RelaySys {
  y_slots : slot_state;
  y_buckets : list (string * bucket);
  y_store : St;
  y_conns : gmap nat conn;
}.

(** [() => ({ 'Content-Type': 'message/ohttp-res' })]. *)
Definition relay_headers (status : Z) (headers : list (string * string)) : list (string * string) :=
  [("Content-Type", "message/ohttp-res")].
Definition gateway_step := proxy_step cfg relay_headers.

(** The [try] around [clientAuthorized]. *)
Definition settle (auth : result exn bool) (c : conn) : conn :=
  let '(st, written) :=
    match auth with
    | Throw _ => (Refused, [HttpResponse 503 [("Retry-After", "2")] ""])
    | Ok false => (Refused, [empty_response 401])
    | Ok true => (if cn_destroyed c then Refused else Receiving (Uploading []), [])
    end in
  Conn (cn_req c) (cn_ip c) st (Some auth) (if cn_destroyed c then [] else written) (cn_destroyed c)
    (cn_listeners c) (cn_asked c || cn_destroyed c).

(** An event of the request's body: the connection afterwards, and whether the slot
    is given back. *)
Definition receive (i : nat) (ev : upload_event) (st : upload_state) (c : conn) : conn * bool :=
  let '(st, r) := upload_step cfg st ev in
  let release := match r, ev with Some _, _ | _, UploadAborted => true | _, _ => false end in
  (Conn (cn_req c) (cn_ip c)
     (match st with Forwarded u => Exchanging u (gateway_step new_proxy (PAdd i)) | st => Receiving st end)
     (cn_auth c) (cn_written c ++ option_list r) (cn_destroyed c) (cn_listeners c) (cn_asked c || release),
   release).

(** The exchange as seen from the socket, and the listeners that [close] then finds. *)
Definition on_exchange (ev : proxy_event) (c : conn) : conn :=
  match cn_stage c with
  | Exchanging u p => set_stage (Exchanging u (gateway_step p ev)) c
  | _ => c
  end.
Definition close_listeners (i : nat) (c : conn) : list listener :=
  match cn_stage c with
  | Exchanging _ p => if bool_decide (i ∈ callers p) then [CloseExchange; ReleaseSlot] else [ReleaseSlot]
  | _ => [ReleaseSlot]
  end.
Definition destroy (i : nat) (c : conn) : conn :=
  let c := on_exchange (PDestroyed i) c in
  Conn (cn_req c) (cn_ip c) (cn_stage c) (cn_auth c) (cn_written c) true (cn_listeners c) (cn_asked c).
Definition emit_close (i : nat) (c : conn) : conn :=
  let c := destroy i c in
  Conn (cn_req c) (cn_ip c) (cn_stage c) (cn_auth c) (cn_written c) true (close_listeners i c) (cn_asked c).
Definition pop_listener (c : conn) : conn :=
  Conn (cn_req c) (cn_ip c) (cn_stage c) (cn_auth c) (cn_written c) (cn_destroyed c) (tail (cn_listeners c))
    (cn_asked c).

Definition from_gateway (ev : proxy_event) : bool :=
  match ev with PResponse _ _ | PData _ | PEnd | PResponseError | PRequestError => true | _ => false end.

Definition put (i : nat) (c : conn) (ss : slot_state) (y : relay_sys) : relay_sys :=
  RelaySys ss (y_buckets y) (y_store y) (<[i := c]> (y_conns y)).

(** Nothing happens in a process that has exited. *)
Inductive relay_step (y : relay_sys) : relay_sys -> Prop :=
| relay_arrives i now req ip m ss :
    s_exited (y_slots y) = None -> slots (y_slots y) !! i = None ->
    relay_dispatch cfg sha256 (s_draining (y_slots y)) now req (y_buckets y) = (ToClient ip, m) ->
    reserve_slot cfg i ip (y_slots y) = Some ss ->
    relay_step y (RelaySys ss m (y_store y)
      (<[i := Conn req ip Authorizing None [] false [] false]> (y_conns y)))
| relay_turned_away i now req r m :
    s_exited (y_slots y) = None ->
    relay_dispatch cfg sha256 (s_draining (y_slots y)) now req (y_buckets y) = (r, m) ->
    (forall ip, r = ToClient ip -> reserve_slot cfg i ip (y_slots y) = None) ->
    relay_step y (RelaySys (y_slots y) m (y_store y) (y_conns y))
| relay_authorized i c auth store :
    s_exited (y_slots y) = None -> y_conns y !! i = Some c -> cn_stage c = Authorizing ->
    authorize (cn_req c) (y_store y) = (auth, store) ->
    relay_step y (RelaySys (auth_settles i (cn_destroyed c) (y_slots y)) (y_buckets y) store
      (<[i := settle auth c]> (y_conns y)))
| relay_receives i c st ev c' release :
    s_exited (y_slots y) = None -> y_conns y !! i = Some c -> cn_stage c = Receiving st ->
    (forall d, ev = UploadEnd d -> d = cn_destroyed c) ->
    receive i ev st c = (c', release) ->
    relay_step y (put i c' (if release : bool then releaseSlot i (y_slots y) else y_slots y) y)
| relay_gateway i c ev :
    s_exited (y_slots y) = None -> y_conns y !! i = Some c -> from_gateway ev = true ->
    relay_step y (put i (on_exchange ev c) (y_slots y) y)
| relay_destroyed i c :
    s_exited (y_slots y) = None -> y_conns y !! i = Some c ->
    relay_step y (put i (destroy i c) (y_slots y) y)
| relay_close i c :
    s_exited (y_slots y) = None -> y_conns y !! i = Some c -> cn_listeners c = [] ->
    relay_step y (put i (emit_close i c) (y_slots y) y)
| relay_listener_exchange i c l :
    s_exited (y_slots y) = None -> y_conns y !! i = Some c -> cn_listeners c = CloseExchange :: l ->
    relay_step y (put i (pop_listener (on_exchange (PClosed i) c)) (y_slots y) y)
| relay_listener_slot i c l :
    s_exited (y_slots y) = None -> y_conns y !! i = Some c -> cn_listeners c = ReleaseSlot :: l ->
    relay_step y (put i (set_asked (pop_listener c)) (releaseSlot i (y_slots y)) y)
| relay_finish i c :
    (* the response has been written, and flushed *)
    s_exited (y_slots y) = None -> y_conns y !! i = Some c -> 1 <= conn_answers c ->
    relay_step y (put i (set_asked c) (releaseSlot i (y_slots y)) y)
| relay_process ss :
    (* a signal, the server's close, or the timeout of the shutdown *)
    s_exited (y_slots y) = None ->
    ss = beginShutdown (y_slots y) \/
    s_draining (y_slots y) = true /\ ss = http_closes (y_slots y) \/
    s_draining (y_slots y) = true /\ ss =
      SlotState (inflight (y_slots y)) (clientInflight (y_slots y)) (slots (y_slots y))
        (s_draining (y_slots y)) (s_httpClosed (y_slots y)) (Some 1) ->
    relay_step y (RelaySys ss (y_buckets y) (y_store y) (y_conns y)).

Definition empty_relay (store : St) : relay_sys := RelaySys no_slots [] store ∅.
Definition relay_reachable (y : relay_sys) : Prop :=
  exists store, rtc relay_step (empty_relay store) y.

(** ** The slots are those of [RelaySlots] *)
Lemma dispatch_draining now req m ip m' draining :
  relay_dispatch cfg sha256 draining now req m = (ToClient ip, m') -> draining = false.
Proof. unfold relay_dispatch. by destruct draining. Qed.

Lemma relay_step_slots y y' : relay_step y y' -> rtc (slot_step cfg) (y_slots y) (y_slots y').
Proof.
  intros [i now req ip m s Hx Hi Hd Hr|i now req r m|i c auth st Hx|i c st ev c' [] Hx|i c ev Hx|i c Hx|i c Hx
    |i c l Hx|i c l Hx|i c Hx|s Hx Hs]; simpl; try apply rtc_refl; apply rtc_once.
  - eapply slot_admit; [done|by eapply dispatch_draining|done|done].
  - by apply slot_auth.
  - by apply slot_release.
  - by apply slot_release.
  - by apply slot_release.
  - destruct Hs as [->|[[? ->]|[? ->]]]; [by apply slot_signal|by apply slot_closed|by apply slot_timeout].
Qed.

Lemma relay_slots_reachable y : relay_reachable y -> RelaySlots.reachable cfg (y_slots y).
Proof.
  intros [store H]. unfold RelaySlots.reachable.
  assert (forall y0, rtc relay_step y0 y -> rtc (slot_step cfg) (y_slots y0) (y_slots y)) as Hl.
  { clear. intros y0 H. induction H as [|y1 y2 y3 Hs _ IH]; [done|].
    etransitivity; [by apply relay_step_slots|done]. }
  by apply Hl in H.
Qed.

(** ** Invariant *)

(** The slot of a connection: pending while it is authorizing, and given back once
    that was asked for. *)
Definition slot_matches (c : conn) (sl : slot) : Prop :=
  s_ip sl = cn_ip c /\ (authPending sl = true <-> cn_stage c = Authorizing) /\
  (if authPending sl then slotReleased sl = false /\ releaseRequested sl = cn_asked c
   else slotReleased sl = cn_asked c).

Definition small (b : buffer) : Prop := 0 <= MAX_BODY cfg -> blen b <= MAX_BODY cfg.

Definition stage_ok (i : nat) (c : conn) : Prop :=
  match cn_stage c with
  | Authorizing => cn_auth c = None /\ cn_written c = [] /\ (cn_asked c = true -> cn_destroyed c = true)
  | Receiving (Uploading b) =>
      cn_auth c = Some (Ok true) /\ cn_written c = [] /\ (cn_asked c = true -> cn_destroyed c = true) /\ small b
  | Receiving UploadStopped => cn_auth c = Some (Ok true) /\ (length (cn_written c) <= 1)%nat
  | Receiving (Forwarded _) => False
  | Exchanging u p =>
      cn_auth c = Some (Ok true) /\ cn_written c = [] /\
      (exists b, u = forwardToGateway cfg b /\ small b) /\ proxy_ok cfg p [i] /\
      (completed p = false -> cn_asked c = false /\
         (cn_listeners c = [] \/ cn_listeners c = [CloseExchange; ReleaseSlot]))
  | Refused => (length (cn_written c) <= 1)%nat
  end.

Record conn_ok (i : nat) (sl : option slot) (c : conn) : Prop := {
  co_slot : exists x, sl = Some x /\ slot_matches c x;
  co_stage : stage_ok i c;
  co_listeners : cn_listeners c <> [] -> cn_destroyed c = true;
}.
Definition relay_inv (y : relay_sys) : Prop :=
  forall i c, y_conns y !! i = Some c -> conn_ok i (slots (y_slots y) !! i) c.

Lemma inv_put y i c ss :
  relay_inv y -> (forall j, j <> i -> slots ss !! j = slots (y_slots y) !! j) ->
  conn_ok i (slots ss !! i) c -> relay_inv (put i c ss y).
Proof.
  intros H Hj Hi j c'. simpl. rewrite lookup_insert_Some. intros [[<- <-]|[Hne Hc]]; [done|].
  rewrite Hj by done. by apply H.
Qed.

Lemma gateway_step_ok i p ev :
  proxy_ok cfg p [i] -> (forall c, ev <> PAdd c) -> proxy_ok cfg (gateway_step p ev) [i].
Proof.
  intros H Hev. pose proof (proxy_step_ok cfg relay_headers p [i] ev H) as Hs. cbv zeta in Hs.
  destruct ev; try exact Hs. by destruct (Hev c).
Qed.

(** An exchange, begun with its only caller, is open while that caller waits. *)
Lemma open_caller i p : proxy_ok cfg p [i] -> completed p = false -> i ∈ callers p.
Proof.
  intros H Hc. destruct (po_open _ _ _ H Hc) as [_ Hn]. destruct (callers p) as [|c l] eqn:E; [done|].
  pose proof (po_only _ _ _ H c ltac:(left; rewrite E; left)) as ->%list_elem_of_singleton. left.
Qed.

Lemma closing_completes i p : proxy_ok cfg p [i] -> completed (gateway_step p (PClosed i)) = true.
Proof.
  intros H. destruct (completed p) eqn:Ec; [by apply step_completed|].
  unfold gateway_step. cbn [proxy_step callers].
  destruct (po_open _ _ _ H Ec) as [Ha _].
  rewrite bool_decide_eq_true_2 by (by apply open_caller). unfold closed. simpl. rewrite Ha, Ec. simpl.
  assert (List.filter (fun c' => negb (Nat.eqb c' i)) (callers p) = []) as ->.
  { apply elem_of_nil_inv. intros x [Hx Hne]%filter_In.
    pose proof (po_only _ _ _ H x ltac:(by left)) as ->%list_elem_of_singleton.
    by rewrite Nat.eqb_refl in Hne. }
  done.
Qed.

Lemma answers_one i p : proxy_ok cfg p [i] -> (length (answers p) <= 1)%nat.
Proof.
  intros H. rewrite <-(length_fmap fst). apply (submseteq_length _ [i]).
  apply NoDup_submseteq; [apply H|]. intros c Hc. apply (po_only _ _ _ H). by right.
Qed.

Lemma auth_settles_slots i d s ip rel req :
  slots s !! i = Some (Slot ip rel true req) -> rel = false ->
  slots (auth_settles i d s) !! i = Some (Slot ip (req || d) false req) /\
  forall j, j <> i -> slots (auth_settles i d s) !! j = slots s !! j.
Proof.
  intros Hi ->. unfold auth_settles. rewrite Hi. destruct (req || d).
  - split; [|intros j Hne]; rewrite releaseSlot_slots; simpl.
    + rewrite decide_True by done. by rewrite lookup_insert_eq.
    + rewrite decide_False by done. by rewrite lookup_insert_ne.
  - simpl. split; [by rewrite lookup_insert_eq|]. intros j Hne. by rewrite lookup_insert_ne.
Qed.

(** ** Each step *)
Lemma settle_ok i c auth sl :
  conn_ok i (Some sl) c -> cn_stage c = Authorizing ->
  conn_ok i (Some (Slot (s_ip sl) (releaseRequested sl || cn_destroyed c) false (releaseRequested sl))) (settle auth c).
Proof.
  intros [(x & [= <-] & Hip & Hp & Hr) Hs Hl] E. rewrite (proj2 Hp E) in Hr. destruct Hr as [_ Hr].
  unfold stage_ok in Hs. rewrite E in Hs. destruct Hs as (_ & _ & Ha). unfold settle.
  assert (0 <= MAX_BODY cfg -> blen [] <= MAX_BODY cfg) as H0 by done.
  destruct auth as [[]|e]; [destruct (cn_destroyed c) eqn:Ed| |]; cbn; split; simpl;
    try (eexists; split; [done|]; split_and!; simpl; [done|done|by rewrite Hr]);
    unfold stage_ok; simpl; rewrite ?Ed; try done; try (destruct (cn_destroyed c); simpl; lia).
  split_and!; try done. rewrite orb_false_r. intros Hk. specialize (Ha Hk). congruence.
Qed.

Lemma slot_not_pending c sl : slot_matches c sl -> cn_stage c <> Authorizing ->
  s_ip sl = cn_ip c /\ authPending sl = false /\ slotReleased sl = cn_asked c.
Proof.
  intros (Hip & Hp & Hr) Hn. destruct (authPending sl) eqn:E; [by destruct Hn; apply Hp|done].
Qed.
Lemma matches_asked c c' sl :
  slot_matches c sl -> cn_ip c' = cn_ip c -> (cn_stage c' = Authorizing <-> cn_stage c = Authorizing) ->
  cn_asked c' = cn_asked c -> slot_matches c' sl.
Proof. unfold slot_matches. intros H -> -> ->. done. Qed.

(** [releaseSlot] as the slot of the connection sees it. *)
Lemma released_matches i c c' s sl :
  slots s !! i = Some sl -> slot_matches c sl -> cn_ip c' = cn_ip c ->
  (cn_stage c' = Authorizing <-> cn_stage c = Authorizing) -> cn_asked c' = true ->
  exists x, slots (releaseSlot i s) !! i = Some x /\ slot_matches c' x.
Proof.
  intros Hi (Hip & Hp & Hr) H1 H2 H3. rewrite releaseSlot_slots, decide_True, Hi by done. simpl.
  eexists. split; [done|]. unfold slot_matches. rewrite H1, H2, H3.
  destruct (authPending sl) eqn:E; simpl; [naive_solver|]. split_and!; [done|naive_solver|done].
Qed.
Lemma released_others i s j : j <> i -> slots (releaseSlot i s) !! j = slots s !! j.
Proof. intros H. by rewrite releaseSlot_slots, decide_False. Qed.

Lemma receive_ok i ev st c c' release ss sl :
  slots ss !! i = Some sl -> conn_ok i (Some sl) c -> cn_stage c = Receiving st ->
  (forall d, ev = UploadEnd d -> d = cn_destroyed c) -> receive i ev st c = (c', release) ->
  conn_ok i (slots (if release then releaseSlot i ss else ss) !! i) c'.
Proof.
  intros Hi [(x & [= <-] & Hm) Hs Hl] E Hev Hc. unfold stage_ok in Hs. rewrite E in Hs.
  assert (forall st' w a, (if release then a = true else a = cn_asked c) -> st' <> Authorizing ->
    stage_ok i (Conn (cn_req c) (cn_ip c) st' (cn_auth c) w (cn_destroyed c) (cn_listeners c) a) ->
    conn_ok i (slots (if release then releaseSlot i ss else ss) !! i)
      (Conn (cn_req c) (cn_ip c) st' (cn_auth c) w (cn_destroyed c) (cn_listeners c) a)) as Hk.
  { intros st' w a Ha Hn Hst. split; [|done|done]. destruct release.
    - eapply released_matches; [done..|simpl; by rewrite E|done].
    - exists sl. split; [done|]. eapply matches_asked; [done..|simpl; by rewrite E|done]. }
  unfold receive in Hc.
  destruct st as [b| |u]; [destruct ev as [d|[]|]; cbn [upload_step] in Hc| |done].
  - destruct Hs as (Hau & Hw & Ha & Hb). destruct (_ >? _) eqn:Eb; simplify_eq; apply Hk; simpl;
      rewrite ?orb_true_r, ?orb_false_r; try done; unfold stage_ok; simpl; rewrite Hw, ?Hau.
    + split; [done|simpl; lia].
    + bool_to_prop. split_and!; try done. intros ?. lia.
  - destruct Hs as (Hau & Hw & _). simplify_eq. apply Hk; rewrite ?orb_false_r; try done.
    unfold stage_ok. simpl. rewrite Hw. simpl. split; [done|lia].
  - destruct Hs as (Hau & Hw & Ha & Hb). specialize (Hev false eq_refl). simplify_eq.
    apply Hk; rewrite ?orb_false_r; try done. unfold stage_ok. simpl. rewrite Hw. split_and!; [done|done| | |].
    + exists b. done.
    + exact (proxy_run_ok cfg relay_headers i []).
    + intros _. split.
      * destruct (cn_asked c); [|done]. by rewrite Ha in Hev.
      * left. destruct (cn_listeners c); [done|]. by rewrite Hl in Hev.
  - destruct Hs as (Hau & Hw & _). simplify_eq. apply Hk; rewrite ?orb_true_r; try done.
    unfold stage_ok. simpl. rewrite Hw. simpl. split; [done|lia].
  - assert (upload_step cfg UploadStopped ev = (UploadStopped, None)) as E' by (by destruct ev).
    rewrite E' in Hc. destruct ev; simplify_eq; apply Hk; rewrite ?orb_true_r, ?orb_false_r; try done;
      unfold stage_ok; simpl; by rewrite app_nil_r.
Qed.

(** An event of the exchange other than a new caller. *)
Lemma on_exchange_same ev c :
  cn_req (on_exchange ev c) = cn_req c /\ cn_ip (on_exchange ev c) = cn_ip c /\
  (cn_stage (on_exchange ev c) = Authorizing <-> cn_stage c = Authorizing) /\
  cn_auth (on_exchange ev c) = cn_auth c /\ cn_written (on_exchange ev c) = cn_written c /\
  cn_destroyed (on_exchange ev c) = cn_destroyed c /\ cn_listeners (on_exchange ev c) = cn_listeners c /\
  cn_asked (on_exchange ev c) = cn_asked c.
Proof. unfold on_exchange. destruct (cn_stage c) eqn:E; simpl; rewrite ?E; done. Qed.

Lemma on_exchange_stage i ev c :
  stage_ok i c -> (forall k, ev <> PAdd k) -> stage_ok i (on_exchange ev c).
Proof.
  intros Hs Hev. unfold on_exchange. destruct (cn_stage c) as [|st|u p|] eqn:E; try done.
  unfold stage_ok in *. rewrite E in Hs. simpl. destruct Hs as (H1 & H2 & H3 & H4 & H5).
  split_and!; [done..|by apply gateway_step_ok|]. intros Hc. apply H5.
  destruct (completed p) eqn:Ep; [|done]. apply (step_completed cfg relay_headers p ev) in Ep.
  unfold gateway_step in Hc. congruence.
Qed.

Lemma on_exchange_ok i ev c sl :
  conn_ok i sl c -> (forall k, ev <> PAdd k) -> conn_ok i sl (on_exchange ev c).
Proof.
  intros [(x & -> & Hm) Hs Hl] Hev. destruct (on_exchange_same ev c) as (_ & E1 & E2 & _ & _ & E3 & E4 & E5).
  split; [|by apply on_exchange_stage|by rewrite E3, E4].
  exists x. split; [done|]. by eapply matches_asked.
Qed.

(** Only flags of the connection change: it is destroyed, or listeners run. *)
Lemma reflag_conn_ok i sl c c' :
  conn_ok i sl c -> cn_ip c' = cn_ip c -> cn_stage c' = cn_stage c -> cn_auth c' = cn_auth c ->
  cn_written c' = cn_written c -> cn_asked c' = cn_asked c ->
  (cn_destroyed c = true -> cn_destroyed c' = true) -> (cn_listeners c' <> [] -> cn_destroyed c' = true) ->
  (exchange_open c' = true -> cn_listeners c' = [] \/ cn_listeners c' = [CloseExchange; ReleaseSlot]) ->
  conn_ok i sl c'.
Proof.
  intros [(x & -> & Hm) Hs Hl] E1 E2 E3 E4 E5 Hd Hl' Ho. split; [|unfold stage_ok in *|done].
  - exists x. split; [done|]. eapply matches_asked; [done|done|by rewrite E2|done].
  - unfold exchange_open in Ho. rewrite E2 in *. rewrite E3, E4, E5.
    destruct (cn_stage c) as [|[]|u p|]; try done.
    + destruct Hs as (H1 & H2 & H3). split_and!; auto.
    + destruct Hs as (H1 & H2 & H3 & H4). split_and!; auto.
    + destruct Hs as (H1 & H2 & H3 & H4 & H5). split_and!; [done..|]. intros Hc. split; [by apply H5|].
      apply Ho. by rewrite Hc.
Qed.

Lemma open_listeners i sl c :
  conn_ok i sl c -> exchange_open c = true ->
  cn_asked c = false /\ (cn_listeners c = [] \/ cn_listeners c = [CloseExchange; ReleaseSlot]).
Proof.
  intros [_ Hs _]. unfold exchange_open, stage_ok in *. destruct (cn_stage c); try done.
  rewrite negb_true_iff. apply Hs.
Qed.

Lemma destroy_ok i sl c : conn_ok i sl c -> conn_ok i sl (destroy i c).
Proof.
  intros H. pose proof (on_exchange_ok i (PDestroyed i) c sl H ltac:(done)) as Hx. unfold destroy.
  eapply reflag_conn_ok; [exact Hx|try done..]. intros Ho. by apply (open_listeners i sl _ Hx).
Qed.

Lemma emit_close_ok i sl c : conn_ok i sl c -> conn_ok i sl (emit_close i c).
Proof.
  intros H. pose proof (destroy_ok i sl c H) as Hd. unfold emit_close.
  eapply reflag_conn_ok; [exact Hd|try done..]. unfold exchange_open, close_listeners.
  destruct Hd as [_ Hs _]. unfold stage_ok in Hs. destruct (cn_stage (destroy i c)) as [| |u p|] eqn:E; cbn [cn_stage];
    rewrite ?E; try done. cbn [cn_listeners]. rewrite negb_true_iff. intros Hc. right. destruct Hs as (_ & _ & _ & Hp & _).
  by rewrite bool_decide_eq_true_2 by (by apply open_caller).
Qed.

Lemma listener_exchange_ok i sl c l :
  conn_ok i sl c -> cn_listeners c = CloseExchange :: l ->
  conn_ok i sl (pop_listener (on_exchange (PClosed i) c)).
Proof.
  intros H El. pose proof (on_exchange_ok i (PClosed i) c sl H ltac:(done)) as Hx.
  eapply reflag_conn_ok; [exact Hx|try done..].
  - intros _. apply Hx. destruct (on_exchange_same (PClosed i) c) as (_ & _ & _ & _ & _ & _ & -> & _). by rewrite El.
  - unfold exchange_open, pop_listener, on_exchange. destruct H as [_ Hs _]. unfold stage_ok in Hs.
    destruct (cn_stage c) eqn:E; cbn [cn_stage set_stage]; rewrite ?E; try done.
    by rewrite closing_completes by apply Hs.
Qed.

(** After [releaseSlot] from a listener or from [finish]. *)
Lemma asked_conn_ok i c c' s :
  conn_ok i (slots s !! i) c -> exchange_open c = false -> cn_ip c' = cn_ip c -> cn_stage c' = cn_stage c ->
  cn_auth c' = cn_auth c -> cn_written c' = cn_written c -> cn_asked c' = true ->
  cn_destroyed c' = cn_destroyed c -> (cn_listeners c' <> [] -> cn_listeners c <> []) ->
  (match cn_stage c with Authorizing | Receiving (Uploading _) => cn_destroyed c = true | _ => True end) ->
  conn_ok i (slots (releaseSlot i s) !! i) c'.
Proof.
  intros [(x & Hi & Hm) Hs Hl] Ho E1 E2 E3 E4 E5 E6 Hl' Hd. split.
  - eapply released_matches; [done..|by rewrite E2|done].
  - unfold stage_ok, exchange_open in *. rewrite E2, E3, E4, E5, E6.
    destruct (cn_stage c) as [|[]|u p|]; try done.
    { destruct Hs as (H1 & H2 & H3). by split_and!. }
    { destruct Hs as (H1 & H2 & H3 & H4). by split_and!. }
    apply negb_false_iff in Ho. rewrite Ho. destruct Hs as (H1 & H2 & H3 & H4 & _). split_and!; done.
  - rewrite E6. auto.
Qed.

Lemma answered_stage i sl c :
  conn_ok i sl c -> 1 <= conn_answers c -> exchange_open c = false /\
  match cn_stage c with Authorizing | Receiving (Uploading _) => False | _ => True end.
Proof.
  intros [_ Hs _]. unfold conn_answers, exchange_open, stage_ok in *.
  destruct (cn_stage c) as [|[]|u p|]; try done; try (destruct Hs as (_ & -> & _); simpl; lia).
  destruct Hs as (_ & -> & _ & Hp & _). simpl. destruct (completed p) eqn:E; [done|].
  destruct (po_open _ _ _ Hp E) as [-> _]. simpl. lia.
Qed.

Lemma relay_step_inv y y' : relay_inv y -> relay_step y y' -> relay_inv y'.
Proof.
  intros H Hs. destruct Hs as [i now req ip m ss Hx Hi Hd Hr|i now req r m|i c auth store Hx Hc Ha _
    |i c st ev c' rel Hx Hc Hst Hev Hr|i c ev Hx Hc Hev|i c Hx Hc|i c Hx Hc Hl|i c l Hx Hc Hl|i c l Hx Hc Hl
    |i c Hx Hc Hn|ss Hx Hss]; try (pose proof (H i c Hc) as Hok).
  - unfold reserve_slot in Hr. case_match; [done|]. injection Hr as <-. match goal with |- relay_inv (RelaySys ?ss _ _ (<[_ := ?c]> _)) => change (relay_inv (put i c ss y)) end.
    apply inv_put; [done|..].
    + intros j Hj. simpl. by rewrite lookup_insert_ne.
    + simpl. rewrite lookup_insert_eq. split; [eexists; split; [done|]; by split_and!| |done].
      unfold stage_ok. simpl. done.
  - exact H.
  - destruct (co_slot _ _ _ Hok) as ([ip rel pend req] & Hi & Hm). pose proof Hm as (_ & Hp & Hr). simpl in Hp, Hr.
    apply Hp in Ha as Hpend. subst pend. destruct Hr as [-> Hr].
    destruct (auth_settles_slots i (cn_destroyed c) (y_slots y) ip false req Hi eq_refl) as [E1 E2].
    change (relay_inv (put i (settle auth c) (auth_settles i (cn_destroyed c) (y_slots y)) y)).
    apply inv_put; [done|done|]. rewrite E1. rewrite Hi in Hok. by apply (settle_ok i c auth _ Hok).
  - destruct (co_slot _ _ _ Hok) as (sl & Hi & _). apply inv_put; [done| |].
    + intros j Hj. destruct rel; [by apply released_others|done].
    + rewrite Hi in Hok. by eapply receive_ok.
  - apply inv_put; [done|done|]. apply on_exchange_ok; [done|]. by intros k ->.
  - apply inv_put; [done|done|]. by apply destroy_ok.
  - apply inv_put; [done|done|]. by apply emit_close_ok.
  - apply inv_put; [done|done|]. by eapply listener_exchange_ok.
  - apply inv_put; [done|by intros; apply released_others|].
    pose proof (co_listeners _ _ _ Hok ltac:(by rewrite Hl)) as Hd.
    eapply asked_conn_ok; [exact Hok| |done..| |].
    + destruct (exchange_open c) eqn:Eo; [|done].
      destruct (open_listeners i _ c Hok Eo) as [_ [E|E]]; congruence.
    + by rewrite Hl.
    + by destruct (cn_stage c) as [|[]| |].
  - apply inv_put; [done|by intros; apply released_others|].
    destruct (answered_stage i _ c Hok Hn) as [Ho Hst].
    eapply asked_conn_ok; [exact Hok|done..|]. by destruct (cn_stage c) as [|[]| |].
  - intros i c Hc. simpl in *. replace (slots ss) with (slots (y_slots y)); [by apply H|].
    destruct Hss as [->|[[_ ->]|[_ ->]]]; [unfold beginShutdown; by case_match|by unfold http_closes; rewrite finishDrain_slots|done].
Qed.

Lemma relay_reachable_inv y : relay_reachable y -> relay_inv y.
Proof.
  intros [store Hr]. assert (relay_inv (empty_relay store)) as H0 by done.
  revert H0. induction Hr as [|y1 y2 y3 Hs _ IH]; [done|]. intros H. by apply IH, (relay_step_inv y1).
Qed.

(** ** What holds of every request *)
Definition open_exchanges (p : conn -> bool) (y : relay_sys) : Z :=
  Z.of_nat (size (filter (fun kv => exchange_open kv.2 && p kv.2 = true) (y_conns y))).

(** The open exchanges are among the slots held. *)
Lemma open_exchanges_le y (p : conn -> bool) (q : slot -> bool) :
  relay_inv y -> (forall c sl, s_ip sl = cn_ip c -> p c = true -> slotReleased sl = false -> q sl = true) ->
  open_exchanges p y <= count q (slots (y_slots y)).
Proof.
  intros H Hpq. unfold open_exchanges, count. rewrite <-!size_dom. apply inj_le, subseteq_size.
  intros i (c & [Hc Ho]%map_lookup_filter_Some)%elem_of_dom. apply andb_true_iff in Ho as [Ho Hp]. simpl in *.
  pose proof (H i c Hc) as Hok. destruct (co_slot _ _ _ Hok) as (sl & Hi & Hm).
  assert (cn_stage c <> Authorizing) as Hn by (unfold exchange_open in Ho; by destruct (cn_stage c)).
  destruct (slot_not_pending c sl Hm Hn) as (Hip & _ & Hr).
  destruct (open_listeners i _ c Hok Ho) as [Ha _]. apply elem_of_dom. exists sl.
  apply map_lookup_filter_Some. split; [done|]. simpl. apply (Hpq c); [done..|congruence].
Qed.

(** C10. An exchange with the gateway is open only while its request holds a slot and
    after its client was authorised; so there are never more of them than the caps
    allow, in all and for one client, and the pool of 128 sockets is never
    exhausted by one client. The order of the [close] listeners is what keeps this
    true: the exchange is cancelled before the slot is given back. *)
Theorem exchange_holds_slot (y : relay_sys) :
  relay_reachable y ->
  (forall i c, y_conns y !! i = Some c -> exchange_open c = true ->
     cn_auth c = Some (Ok true) /\
     exists sl, slots (y_slots y) !! i = Some sl /\ slotReleased sl = false /\ s_ip sl = cn_ip c) /\
  open_exchanges (fun _ => true) y <= Z.max 0 (MAX_INFLIGHT cfg) /\
  (forall ip, open_exchanges (fun c => bool_decide (cn_ip c = ip)) y <= Z.max 0 (MAX_CLIENT_INFLIGHT cfg)
     /\ open_exchanges (fun c => bool_decide (cn_ip c = ip)) y <= 126).
Proof.
  intros Hr. pose proof (relay_reachable_inv y Hr) as H.
  destruct (reachable_ok cfg _ (relay_slots_reachable y Hr)) as [Hc _].
  assert (forall ip, open_exchanges (fun c => bool_decide (cn_ip c = ip)) y <= Z.max 0 (MAX_CLIENT_INFLIGHT cfg)) as Hip.
  { intros ip. etransitivity; [|apply (so_client_cap _ _ Hc ip)]. rewrite (so_client _ _ Hc).
    apply open_exchanges_le; [done|]. intros c sl E Hp Hrel. unfold held_by, held. rewrite Hrel, E. done. }
  split; [|split].
  - intros i c Hi Ho. pose proof (H i c Hi) as Hok. destruct (open_listeners i _ c Hok Ho) as [Ha _].
    destruct Hok as [(sl & Hsl & Hm) Hs _]. unfold exchange_open, stage_ok in *.
    destruct (cn_stage c) eqn:E; try done. split; [apply Hs|]. exists sl.
    destruct (slot_not_pending c sl Hm) as (? & _ & ?); [by rewrite E|]. split_and!; congruence.
  - etransitivity; [|apply (so_cap _ _ Hc)]. rewrite (so_inflight _ _ Hc).
    apply open_exchanges_le; [done|]. intros c sl _ _ Hrel. unfold held. by rewrite Hrel.
  - intros ip. split; [done|]. specialize (Hip ip). etransitivity; [exact Hip|].
    unfold MAX_CLIENT_INFLIGHT. case_match; lia.
Qed.

(** C19. Each request is answered at most once, whichever of the handler and the gateway
    answers; nobody who was not authorised is forwarded; what is forwarded is a
    ciphertext within [MAX_BODY]; and once its authorization has settled, a request
    that was finished, closed or aborted holds no slot. *)
Theorem request_life (y : relay_sys) (i : nat) (c : conn) :
  relay_reachable y -> y_conns y !! i = Some c ->
  0 <= conn_answers c <= 1 /\
  (forall u p, cn_stage c = Exchanging u p ->
     cn_auth c = Some (Ok true) /\ exists b, u = forwardToGateway cfg b /\ small b) /\
  (cn_stage c <> Authorizing -> exists sl, slots (y_slots y) !! i = Some sl /\
     authPending sl = false /\ slotReleased sl = cn_asked c).
Proof.
  intros Hr Hi. pose proof (relay_reachable_inv y Hr i c Hi) as [(sl & Hsl & Hm) Hs _].
  split; [|split].
  - unfold conn_answers, stage_ok in *. destruct (cn_stage c) as [|[]|u p|].
    + destruct Hs as (_ & -> & _). simpl. lia.
    + destruct Hs as (_ & -> & _). simpl. lia.
    + lia.
    + done.
    + destruct Hs as (_ & -> & _ & Hp & _). pose proof (answers_one i p Hp). simpl. lia.
    + lia.
  - intros u p E. unfold stage_ok in Hs. rewrite E in Hs. destruct Hs as (? & _ & ? & _). done.
  - intros Hn. exists sl. destruct (slot_not_pending c sl Hm Hn) as (_ & ? & ?). done.
Qed.
End system.

(** ** Witness: a request on its way to the gateway *)
Module Life.
Definition cfg : relay_config := SlotSample.cfg.
Definition authorize (req : http_request) (s : unit) : result exn bool * unit := (Ok true, s).
Definition req : http_request :=
  HttpRequest "POST" "/relay" [("content-type", "message/ohttp-req")] "10.0.0.1".
Definition body : buffer := [Byte.x01; Byte.x02].
Definition held_slot (pending : bool) : slot_state :=
  SlotState 1 {[ "10.0.0.1" := 1 ]} {[ 0%nat := Slot "10.0.0.1" false pending false ]} false false None.
Definition conn_at (st : stage) (auth : option (result exn bool)) : conn :=
  Conn req "10.0.0.1" st auth [] false [] false.
Definition at_stage (pending : bool) (st : stage) (auth : option (result exn bool)) : relay_sys (St := unit) :=
  RelaySys (held_slot pending) [("10.0.0.1", Bucket 1 0)] tt {[ 0%nat := conn_at st auth ]}.
Definition exchanging : stage :=
  Exchanging (forwardToGateway cfg body) (gateway_step cfg new_proxy (PAdd 0)).
Definition under_way : relay_sys := at_stage false exchanging (Some (Ok true)).

Lemma reached : relay_reachable cfg (fun b => b) authorize under_way.
Proof.
  exists tt. apply (rtc_l _ _ (at_stage true Authorizing None)).
  { by apply (relay_arrives cfg (fun b => b) authorize (empty_relay tt) 0 0 req "10.0.0.1"
      [("10.0.0.1", Bucket 1 0)] (held_slot true)). }
  apply (rtc_l _ _ (at_stage false (Receiving (Uploading [])) (Some (Ok true)))).
  { by apply (relay_authorized cfg _ authorize (at_stage true Authorizing None) 0
      (conn_at Authorizing None) (Ok true) tt). }
  apply (rtc_l _ _ (at_stage false (Receiving (Uploading body)) (Some (Ok true)))).
  { by apply (relay_receives cfg _ authorize (at_stage false (Receiving (Uploading [])) (Some (Ok true))) 0
      (conn_at (Receiving (Uploading [])) (Some (Ok true))) (Uploading []) (UploadData body)
      (conn_at (Receiving (Uploading body)) (Some (Ok true))) false). }
  apply (rtc_l _ _ under_way); [|apply rtc_refl].
  apply (relay_receives cfg _ authorize (at_stage false (Receiving (Uploading body)) (Some (Ok true))) 0
      (conn_at (Receiving (Uploading body)) (Some (Ok true))) (Uploading body) (UploadEnd false)
      (conn_at exchanging (Some (Ok true))) false); try done.
  by intros d [= <-].
Qed.
End Life.

Lemma exchange_holds_slot_witness :
  open_exchanges (fun _ => true) Life.under_way = 1 /\
  open_exchanges (fun _ => true) Life.under_way <= Z.max 0 (MAX_INFLIGHT Life.cfg).
Proof.
  split; [vm_compute; reflexivity|].
  destruct (exchange_holds_slot Life.cfg (fun b => b) Life.authorize Life.under_way Life.reached) as (_ & H & _).
  exact H.
Defined.

Lemma request_life_witness :
  0 <= conn_answers (Life.conn_at Life.exchanging (Some (Ok true))) <= 1.
Proof.
  destruct (request_life Life.cfg (fun b => b) Life.authorize Life.under_way 0
    (Life.conn_at Life.exchanging (Some (Ok true))) Life.reached) as (H & _); [reflexivity|exact H].
Defined.
