(* ===== verification/TokenPath.v ===== *)
(** * A token's way from the issuer to the relay

    A client reads the published keys, has a batch blindly signed, and presents the
    tokens to a relay that fetched the same document. [token_path] composes the
    handlers of [token-issuer/server.js] with the key cache and the verification of
    [ohttp-relay]. The client's blinding is no part of the repository: its two
    functions are arguments, and RFC 9474's correctness is the hypothesis
    [client_correct]. *)
From S2P Require Import Prelude JsMap JsText JsBase64 JsJson AppAttest StateStore StateFacts KeyCache.
From S2P Require Import Redemption EpochKeys Http Issuer IssuerTheorems IssuerRelay Relay.

(** A document names a key for an epoch. *)
Definition offers (doc : json) (epoch : Z) (keyId : string) (spki : buffer) : Prop :=
  exists l, jget doc "keys" = Some (JArr l) /\
    JObj [("epoch", JInt epoch); ("keyId", JStr keyId);
          ("publicKeySpki", JStr (base64_encode spki))] ∈ l.

(** The body of an answer with signatures. *)
Definition signatures_body (signing : Z) (keyId : string) (sigs : list string) : json :=
  JObj [("epoch", JInt signing); ("keyId", JStr keyId); ("blindSigs", JArr (JStr <$> sigs))].

Section keys.
Context `{P : PrivateCrypto}.

(** A provider has one key for an epoch, whenever it is asked. *)
Lemma keysForEpoch_agree p n1 n2 m1 m2 e k k' :
  keysForEpoch p n1 n2 e = Ok k -> keysForEpoch p m1 m2 e = Ok k' -> k = k'.
Proof.
  unfold keysForEpoch. intros [_ H]%check_live [_ H']%check_live. destruct p as [records|material].
  - apply bind_Ok in H as (ks & Hk & [_ H]%check_live), H' as (ks' & Hk' & [_ H']%check_live).
    rewrite Hk in Hk'. injection Hk' as <-. by destruct (map_get _ _ _); simplify_eq.
  - apply bind_Ok in H as (ks & Hk & [_ H]%check_live), H' as (ks' & Hk' & [_ H']%check_live).
    congruence.
Qed.

Lemma offers_document cfg e k1 k2 i id spki :
  offers (key_document cfg e [key_json e k1; key_json (e - 1) k2]) i id spki ->
  exists k, (i = e /\ k = k1 \/ i = e - 1 /\ k = k2) /\ ke_keyId k = id /\ ke_spkiB64 k = base64_encode spki.
Proof.
  intros (l & [= <-] & H). unfold key_json in H. apply elem_of_cons in H as [H|H].
  - injection H as -> -> H. exists k1. by split; [left|].
  - apply list_elem_of_singleton in H. injection H as -> -> H. exists k2. by split; [right|].
Qed.
End keys.

Section path.
Context `{P : PrivateCrypto} `{K : KeyCrypto} `{S : !SameKeys P K}.
(** The issuer, with its provider. *)
Context (cfg : issuer_config) (sha256 : buffer -> buffer) (p : provider).
Context (issuer_parse : buffer -> result exn json) (Buffer_from : json -> result exn buffer).
Context {St : Type} (validate : St -> issue_request -> result exn attest_result).
Context (reserve : reservation -> St -> result exn reply * St).
(** The relay. *)
Context (relay_parse : buffer -> result exn json) (pss_verify : pkey -> buffer -> buffer -> result exn bool).
Context {Rt : Type} (redeem : string -> string -> Rt -> result exn bool * Rt).
(** The client: a message blinded under a key with a random [r], and the signature
    it makes of the blind one. *)
Context (blind : buffer -> buffer -> buffer -> buffer).
Context (finalize : buffer -> buffer -> buffer -> buffer -> buffer).
Definition client_correct : Prop :=
  forall k spki pub m r s,
    public_spki k = Ok spki -> export_spki pub = spki -> rsa_public k s = Ok (blind spki m r) ->
    finalize spki m r s <> [] /\ pss_verify pub m (finalize spki m r s) = Ok true.

(** [n1] and [n2] are the clocks of [keysForEpoch]. *)
Definition issues (n1 n2 now late : Z) (body : buffer) (seen s : St) : result exn answer * St :=
  handleIssue cfg sha256 issuer_parse Buffer_from (keysForEpoch p n1 n2) validate reserve
    now late body seen s.

(** What an answer with status 200 holds. *)
Lemma issued_signatures n1 n2 now late body seen s s' a :
  issues n1 n2 now late body seen s = (Ok a, s') -> p_status a.1 = 200 ->
  exists req signing k raw,
    accepted cfg issuer_parse Buffer_from body req /\
    epoch_bound cfg sha256 (currentEpoch cfg now) signing req /\ keysForEpoch p n1 n2 signing = Ok k /\
    p_body a.1 = stringify (signatures_body signing (ke_keyId k) (base64_encode <$> raw)) /\
    Forall2 (fun b sig => rsa_public (ke_signer k) sig = Ok (base64_decode b)) (i_blinded req) raw.
Proof.
  intros H H200. apply issue_refuses in H as [[_ ?]|(parsed & req & c & k & out & Ej & Er & Ec & _ & Ho)]; [done|].
  apply issue_checks_ok in Ec as (signing & mode & kid & pem & n & He & Hk & _ & ->).
  destruct out as [[|reason]|e]; [| |congruence].
  2:{ subst a. revert H200. unfold refuse_reservation. simpl. by case_match. }
  destruct (sign_all _ _) as [sigs|] eqn:Eg; subst a; [|done].
  apply sign_all_ok in Eg as (raw & -> & Hf). exists req, signing, k, raw.
  split; [by exists parsed|]. split; [done|]. split; [done|]. split; [done|].
  eapply Forall2_impl; [exact Hf|]. by intros ? ? [? _].
Qed.

(** A token that verifies is the store's to decide. *)
Lemma verified_token cache_get presented id m sg entry st :
  presented <> "" -> read_token relay_parse presented = Some (id, base64_encode m, base64_encode sg) ->
  cache_get id = Ok (Some entry) -> m <> [] -> sg <> [] -> pss_verify (ce_key entry) m sg = Ok true ->
  verifyAccessToken relay_parse pss_verify cache_get redeem (Some presented) st =
  redeem (ce_fingerprint entry) (nullifierFor sg) st.
Proof.
  intros Hp Hr Hc Hm Hs Hv. unfold verifyAccessToken. rewrite (proj2 (nonempty_true _) Hp). cbn [negb].
  rewrite Hr, Hc, !base64_decode_encode. unfold verified. rewrite Hv.
  by destruct m, sg.
Qed.

(** C5. A token that was paid for is honoured: let the issuer publish its keys in an
    epoch, a relay fetch them in that epoch, and a batch be answered with
    signatures at any time. A client that takes the document's key for the epoch
    and key id of the answer, unblinds a signature of its own message and presents
    it, gets the relay's redemption store to decide about it, under the hashes of
    that key and of that signature: no check of the relay refuses the token before
    the end of the epoch after the one it was signed for. *)
Theorem issued_token_honoured (n1 n2 published fetched : Z) (a : answer)
    (m1 m2 now late : Z) (body : buffer) (seen s s' : St) (b : answer) :
  client_correct ->
  1 <= EPOCH_SECONDS cfg <= 31557600 ->
  let e := currentEpoch cfg published in
  handleIssuerKeys cfg (keysForEpoch p n1 n2) published = Ok a -> p_status a.1 = 200 ->
  currentEpoch cfg fetched = e ->
  (forall k1 k2, keysForEpoch p n1 n2 e = Ok k1 -> keysForEpoch p n1 n2 (e - 1) = Ok k2 ->
     ke_keyId k1 = ke_keyId k2 -> ke_spkiB64 k1 = ke_spkiB64 k2) ->
  issues m1 m2 now late body seen s = (Ok b, s') -> p_status b.1 = 200 ->
  exists k1 k2 keys req signing k sigs,
    let doc := key_document cfg e [key_json e k1; key_json (e - 1) k2] in
    let keyId := ke_keyId k in
    keysForEpoch p n1 n2 e = Ok k1 /\ keysForEpoch p n1 n2 (e - 1) = Ok k2 /\
    p_body a.1 = stringify doc /\ parse fetched doc = Ok keys /\
    accepted cfg issuer_parse Buffer_from body req /\
    epoch_bound cfg sha256 (currentEpoch cfg now) signing req /\ keysForEpoch p m1 m2 signing = Ok k /\
    p_body b.1 = stringify (signatures_body signing keyId (base64_encode <$> sigs)) /\
    Forall2 (fun b sig => rsa_public (ke_signer k) sig = Ok (base64_decode b)) (i_blinded req) sigs /\
    (signing = e \/ signing = e - 1 -> exists spki, offers doc signing keyId spki) /\
    forall spki j m r blinded sig t cache presented st,
      offers doc signing keyId spki ->
      i_blinded req !! j = Some blinded -> sigs !! j = Some sig ->
      base64_decode blinded = blind spki m r -> m <> [] ->
      k_keys cache = keys -> t < (signing + 2) * EPOCH_SECONDS cfg * 1000 ->
      presented <> "" ->
      read_token relay_parse presented =
        Some (keyId, base64_encode m, base64_encode (finalize spki m r sig)) ->
      verifyAccessToken relay_parse pss_verify (fun id => KeyCache.lookup t id cache) redeem (Some presented) st =
      redeem (hex (digest spki)) (nullifierFor (finalize spki m r sig)) st.
Proof.
  intros Hcl HE e Ha Ha200 Hf Hdist Hb Hb200.
  destruct (handleIssuerKeys_200 _ _ _ _ Ha Ha200) as (k1 & k2 & H1 & H2 & Hbody). fold e in H1, H2, Hbody.
  destruct (published_cached cfg (keysForEpoch p n1 n2) fetched e k1 k2 H1 H2 (keysForEpoch_imported _ _ _ _ _ H1)
    (keysForEpoch_imported _ _ _ _ _ H2) HE Hf (Hdist k1 k2 H1 H2)) as (keys & Hp & Hk).
  destruct (issued_signatures _ _ _ _ _ _ _ _ _ Hb Hb200) as (req & signing & k & raw & Hacc & Hbound & Hs & Hbb & Hraw).
  exists k1, k2, keys, req, signing, k, raw. cbv zeta. split_and!; [done..| |].
  - intros Hi. destruct (Hk signing Hi) as (k' & _ & Hk' & _).
    pose proof (keysForEpoch_agree _ _ _ _ _ _ _ _ Hs Hk') as <-.
    destruct (keysForEpoch_imported _ _ _ _ _ Hs) as (spki & _ & _ & _ & Hspki & _). exists spki.
    exists [key_json e k1; key_json (e - 1) k2]. split; [done|]. unfold key_json. rewrite <-Hspki.
    destruct Hi as [-> | ->]; [rewrite H1 in Hk'|rewrite H2 in Hk']; injection Hk' as ->; [left|right; left].
  - intros spki j m r blinded sig t cache presented st Hoff Hj Hsig Hbl Hm Hkeys Ht Hpr Hread.
    destruct (offers_document _ _ _ _ _ _ _ Hoff) as (k' & Hwhich & _ & Hspki').
    assert (signing = e \/ signing = e - 1) as Hi by (by destruct Hwhich as [[-> _]|[-> _]]; [left|right]).
    destruct (Hk signing Hi) as (k'' & entry & Hk'' & Hget & [Hent Hfp] & Hexp).
    pose proof (keysForEpoch_agree _ _ _ _ _ _ _ _ Hs Hk'') as <-.
    assert (k' = k) as -> by (destruct Hwhich as [[-> ->]|[-> ->]]; congruence).
    rewrite Hspki' in Hent. apply base64_encode_inj in Hent.
    destruct (keysForEpoch_imported _ _ _ _ _ Hs) as (spki' & Hpub & _ & _ & Hspki & _).
    rewrite Hspki' in Hspki. apply base64_encode_inj in Hspki as <-.
    pose proof (Forall2_lookup_lr _ _ _ _ _ _ Hraw Hj Hsig) as Hrsa. simpl in Hrsa. rewrite Hbl in Hrsa.
    destruct (Hcl _ _ _ _ _ _ Hpub Hent Hrsa) as [Hne Hv].
    rewrite (verified_token _ presented (ke_keyId k) m (finalize spki m r sig) entry); try done.
    + by rewrite Hfp, Hent, same_digest.
    + unfold KeyCache.lookup. rewrite Hkeys, Hget, (proj2 (Z.ltb_lt t _)) by lia. done.
Qed.
End path.

(** ** Witness: a batch of one, signed in epoch 8 with the key of epoch 7 *)
Module TokenSample.
Definition pad (m : buffer) : buffer := take 256 (m ++ replicate 256 x00).
(** A raw signature is the message itself; a token carries the key before it. *)
Definition blind (spki m r : buffer) : buffer := pad m.
Definition finalize (spki m r s : buffer) : buffer := spki ++ s.
Definition pss_verify (k : @pkey KeysSample.receiver) (m sig : buffer) : result exn bool :=
  Ok (bool_decide (sig = (k : buffer) ++ pad m)).
Lemma correct : client_correct (P := KeysSample.sender) (K := KeysSample.receiver) pss_verify blind finalize.
Proof.
  intros k spki pub m r s [= <-] Hpub [= ->]. split.
  - intros [_ H]%app_eq_nil. by destruct m.
  - unfold pss_verify, finalize, blind. rewrite <-Hpub. by rewrite bool_decide_eq_true_2.
Qed.
Definition message : buffer := [x01; x02; x03].
Definition blinded : string := base64_encode (pad message).
Definition document : json := JObj [("keyId", JStr "AQ"); ("assertion", JStr "AQ");
  ("clientDataHash", JStr (base64_encode (expectedClientDataHash IssuerSample.sha256 7 [blinded])));
  ("blinded", JArr [JStr blinded])].
Definition issuer_parse (b : buffer) : result exn json := Ok document.
Definition sample_provider : EpochKeys.provider := Manifest EpochSample.records.
Definition key (e : Z) : @key_entry KeysSample.sender :=
  match keysForEpoch (P := KeysSample.sender) sample_provider 7 7 e with
  | Ok k => k | _ => @KeyEntry KeysSample.sender [] "" "" end.
Definition spki : buffer := base64_decode "AAAA".
Definition request : issue_request := IssueRequest "AQ" None (Some (Ok (base64_decode "AQ")))
  (as_string (jget document "clientDataHash")) [blinded].
Definition envelope : json := JObj [("keyId", JStr (KeysSample.id_of 7));
  ("tokenInput", JStr (base64_encode message));
  ("signature", JStr (base64_encode (finalize spki message [] (pad message))))].
Definition relay_parse (b : buffer) : result exn json := Ok envelope.
Definition issued_batch : result exn answer * nat :=
  Eval vm_compute in
  issues (P := KeysSample.sender) KeysSample.cfg IssuerSample.sha256 sample_provider issuer_parse IssuerSample.Buffer_from
    IssuerSample.validate IssuerSample.reserve 8 8 80000 80000 [] O O.
Definition page : answer := match issued_batch with (Ok a, _) => a | _ => (empty_response 0, []) end.
Lemma issues_page :
  issues (P := KeysSample.sender) KeysSample.cfg IssuerSample.sha256 sample_provider issuer_parse IssuerSample.Buffer_from
    IssuerSample.validate IssuerSample.reserve 8 8 80000 80000 [] O O = (Ok page, 1%nat).
Proof. vm_compute. reflexivity. Qed.
Definition cached : list (string * @cache_entry KeysSample.receiver) :=
  match parse (K := KeysSample.receiver) 79999 (key_document KeysSample.cfg 7
    [@key_json KeysSample.sender 7 (key 7); @key_json KeysSample.sender 6 (key 6)]) with
  | Ok m => m | _ => [] end.
Definition relay_cache : @KeyCache.cache KeysSample.receiver := @Cache KeysSample.receiver cached 79999 0 false.
Definition token : buffer := finalize spki message [] (base64_decode blinded).
Lemma key_at n1 n2 e : n1 = 7 \/ n1 = 8 -> n2 = n1 -> e = 7 \/ (e = 6 /\ n1 = 7) ->
  keysForEpoch (P := KeysSample.sender) sample_provider n1 n2 e = Ok (key e).
Proof. by intros [-> | ->] -> [-> |[-> ?]]. Qed.
Lemma request_read : read_request KeysSample.cfg IssuerSample.Buffer_from document = inr request.
Proof. vm_compute. reflexivity. Qed.
Lemma bound_to_7 : epoch_bound KeysSample.cfg IssuerSample.sha256 8 7 request.
Proof. vm_compute. reflexivity. Qed.
End TokenSample.

Lemma issued_token_honoured_witness :
  verifyAccessToken (K := KeysSample.receiver) TokenSample.relay_parse TokenSample.pss_verify
    (fun id => KeyCache.lookup 89999 id TokenSample.relay_cache) (fun fp n s => memory_redeem 10 s fp n)
    (Some "Bearer token") [] =
  memory_redeem 10 [] (hex TokenSample.spki) (hex TokenSample.token).
Proof.
  destruct (issued_token_honoured (P := KeysSample.sender) (K := KeysSample.receiver) (S := KeysSample.same)
    KeysSample.cfg IssuerSample.sha256 TokenSample.sample_provider TokenSample.issuer_parse IssuerSample.Buffer_from
    IssuerSample.validate IssuerSample.reserve TokenSample.relay_parse TokenSample.pss_verify
    (fun fp n s => memory_redeem 10 s fp n) TokenSample.blind TokenSample.finalize
    7 7 70000 79999 KeysSample.page 8 8 80000 80000 [] O O 1%nat TokenSample.page TokenSample.correct)
    as (k1 & k2 & keys & req & signing & k & sigs & H1 & H2 & _ & Hp & (parsed & Hj & Hr) & Hb & Hk & _ & Hf & _ & H).
  - vm_compute. split; discriminate.
  - exact KeysSample.page_published.
  - reflexivity.
  - reflexivity.
  - change (currentEpoch KeysSample.cfg 70000) with 7. intros k1 k2.
    rewrite !TokenSample.key_at by auto. intros [= <-] [= <-] E. exfalso. revert E. vm_compute. discriminate.
  - exact TokenSample.issues_page.
  - reflexivity.
  - change (currentEpoch KeysSample.cfg 70000) with 7 in *. change (7 - 1) with 6 in *.
    rewrite TokenSample.key_at in H1, H2 by auto. injection H1 as <-. injection H2 as <-.
    injection Hj as <-. rewrite TokenSample.request_read in Hr. injection Hr as <-.
    change (currentEpoch KeysSample.cfg 80000) with 8 in Hb. unfold epoch_bound in Hb.
    pose proof TokenSample.bound_to_7 as Hb7. unfold epoch_bound in Hb7. cbn [REQUIRE_CLIENT_DATA_BINDING KeysSample.cfg] in *.
    rewrite Hb7 in Hb. injection Hb as <-. rewrite TokenSample.key_at in Hk by auto. injection Hk as <-.
    apply Forall2_cons_inv_l in Hf as (sig & rest & [= ->] & ->%Forall2_nil_inv_l & ->).
    refine (eq_trans (H TokenSample.spki O TokenSample.message [] TokenSample.blinded
      (base64_decode TokenSample.blinded) 89999 TokenSample.relay_cache "Bearer token" [] _ _ _ _ _ _ _ _ _) _).
    + eexists. split; [reflexivity|]. left.
    + reflexivity.
    + reflexivity.
    + unfold TokenSample.blinded, TokenSample.blind. apply base64_decode_encode.
    + discriminate.
    + change (TokenSample.cached = keys). unfold TokenSample.cached. by rewrite Hp.
    + reflexivity.
    + discriminate.
    + vm_compute. reflexivity.
    + reflexivity.
Defined.
