(* ===== verification/RelayTheorems.v ===== *)
(** * Properties of the relay

    Which tokens are admitted ([verifyAccessToken]) and that each is admitted once,
    over the key cache of [KeyCache] and the table of [Redemption]; what the gateway
    is told of a request, and that nothing of its client is in it. *)
From S2P Require Import Prelude JsMap JsText JsBase64 JsJson AppAttest StateFacts Redemption KeyCache Http Relay.
From Stdlib Require Import Ascii.

(** ** Tokens *)
Section token.
Context `{K : KeyCrypto} (JSON_parse : buffer -> result exn json).
Context (pss_verify : pkey -> buffer -> buffer -> result exn bool).
Context {St : Type}.

Section verify.
Context (cache_get : string -> result exn (option cache_entry)).
Context (redeem : string -> string -> St -> result exn bool * St).
Notation verify := (verifyAccessToken JSON_parse pss_verify cache_get redeem).

(** A presented value up to its redemption: a readable envelope, a key of the
    cache, and a signature of that key over the token's input. *)
Record genuine (presented : option string) (entry : cache_entry) (sig : buffer) : Prop := {
  gn_token : exists p keyId tokenInput signature,
    presented = Some p /\ p <> "" /\ read_token JSON_parse p = Some (keyId, tokenInput, signature) /\
    cache_get keyId = Ok (Some entry) /\ base64_decode tokenInput <> [] /\ sig <> [] /\
    base64_decode signature = sig /\ pss_verify (ce_key entry) (base64_decode tokenInput) sig = Ok true;
}.

Lemma blen_0 (b : buffer) : (blen b =? 0) = true <-> b = [].
Proof. unfold blen. by destruct b. Qed.

(** Either the answer is given without touching the store, and is not [true], or the
    token is genuine and the store decides. *)
Lemma verify_cases presented (s : St) :
  (exists r, verify presented s = (r, s) /\ r <> Ok true /\ (forall entry sig, ~ genuine presented entry sig)) \/
  exists entry sig, genuine presented entry sig /\
    verify presented s = redeem (ce_fingerprint entry) (nullifierFor sig) s.
Proof.
  unfold verifyAccessToken. destruct presented as [p|].
  2: { left. exists (Ok false). split; [done|]. split; [done|]. by intros ? ? [(? & ? & ? & ? & ? & _)]. }
  destruct (nonempty p) eqn:Ep; simpl.
  2: { left. exists (Ok false). split; [done|]. split; [done|].
       intros ? ? [(? & ? & ? & ? & [= <-] & Hne & _)]. by destruct p. }
  assert (p <> "") as Hp by (by destruct p).
  destruct (read_token JSON_parse p) as [[[keyId ti] signature]|] eqn:Er.
  2: { left. exists (Ok false). split; [done|]. split; [done|].
       intros ? ? [(? & ? & ? & ? & [= <-] & _ & E & _)]. congruence. }
  assert (forall entry sig, genuine (Some p) entry sig -> cache_get keyId = Ok (Some entry) /\
    base64_decode ti <> [] /\ sig <> [] /\ sig = base64_decode signature /\
    pss_verify (ce_key entry) (base64_decode ti) sig = Ok true) as Hg.
  { intros entry sig [(? & ? & ? & ? & [= <-] & _ & E & ? & ? & ? & ? & ?)].
    rewrite Er in E. injection E as <- <- <-. auto. }
  destruct (cache_get keyId) as [[entry|]|e] eqn:Ec.
  2,3: left; eexists; split; [done|]; split; [done|]; intros ? ? (? & _)%Hg; congruence.
  destruct ((blen (base64_decode ti) =? 0) || (blen (base64_decode signature) =? 0)) eqn:El.
  { left. eexists. split; [done|]. split; [done|]. intros ? ? (_ & H1 & H2 & -> & _)%Hg.
    apply orb_true_iff in El. rewrite !blen_0 in El. by destruct El. }
  apply orb_false_iff in El as [E1 E2].
  assert (base64_decode ti <> [] /\ base64_decode signature <> []) as [Hn1 Hn2].
  { split; intros E; [rewrite (proj2 (blen_0 _) E) in E1|rewrite (proj2 (blen_0 _) E) in E2]; done. }
  unfold verified. destruct (pss_verify _ _ _) as [[]|e] eqn:Ev; simpl.
  - right. exists entry, (base64_decode signature). split; [|done]. constructor. by exists p, keyId, ti, signature.
  - left. eexists. split; [done|]. split; [done|]. intros ? ? (H1 & _ & _ & -> & H)%Hg. congruence.
  - left. eexists. split; [done|]. split; [done|]. intros ? ? (H1 & _ & _ & -> & H)%Hg. congruence.
Qed.

Lemma genuine_unique presented e1 e2 s1 s2 :
  genuine presented e1 s1 -> genuine presented e2 s2 -> e1 = e2 /\ s1 = s2.
Proof.
  intros [(p & k & ti & sg & Hp & _ & Hr & Hc & _ & _ & Hs & _)].
  intros [(p' & k' & ti' & sg' & Hp' & _ & Hr' & Hc' & _ & _ & Hs' & _)].
  split; congruence.
Qed.

Lemma verify_true presented entry sig s s' :
  genuine presented entry sig -> verify presented s = (Ok true, s') ->
  redeem (ce_fingerprint entry) (nullifierFor sig) s = (Ok true, s').
Proof.
  intros Hg H. destruct (verify_cases presented s) as [(r & E & Hr & Hn)|(e & sg & Hg' & E)].
  - rewrite E in H. by injection H as ->.
  - destruct (genuine_unique _ _ _ _ _ Hg Hg') as [<- <-]. congruence.
Qed.

(** C13. A credential is admitted exactly when it is a genuine token and the
    redemption store accepts it: it reads as an envelope, the cache has its key, the
    signature verifies under that key, and the redemption under the key's
    fingerprint and the signature's hash answers [true]; the store is touched by
    nothing else. *)
Theorem verifyAccessToken_spec (presented : option string) (s s' : St) :
  (verify presented s = (Ok true, s') <->
   exists entry sig, genuine presented entry sig /\
     redeem (ce_fingerprint entry) (nullifierFor sig) s = (Ok true, s')) /\
  (snd (verify presented s) <> s -> exists entry sig, genuine presented entry sig).
Proof.
  destruct (verify_cases presented s) as [(r & -> & Hr & Hn)|(entry & sig & Hg & ->)].
  - split; [split|].
    + by intros [= -> _].
    + intros (entry & sig & Hg & _). by apply Hn in Hg.
    + done.
  - split; [split; [eauto|]|eauto]. intros (entry' & sig' & Hg' & H).
    by destruct (genuine_unique _ _ _ _ _ Hg Hg') as [<- <-].
Qed.
End verify.

(** ** Tokens over the cache and the table *)
Context (uuid : nat -> string) `{uuid_inj : !Inj (=) (=) uuid}.

Lemma lookup_fingerprint kcfg evs now id e :
  Forall (fun ev => 0 <= ev.1) evs ->
  KeyCache.lookup now id (KeyCache.run kcfg evs).1 = Ok (Some e) -> ce_fingerprint e = key_fingerprint (ce_key e).
Proof.
  intros Hpos. unfold KeyCache.lookup. destruct (map_get _ _ _) as [e'|] eqn:Eg; [|by case_match].
  case_match; [|by case_match]. intros [= <-].
  destruct (run_keys kcfg evs) as [E|(t & doc & Hin & Hp)]; [by rewrite E in Eg|].
  rewrite Forall_forall in Hpos. specialize (Hpos _ Hin).
  destruct (parse_ok _ _ _ Hpos Hp) as [(es & _ & Hf & _)].
  by apply (map_get_Forall _ _ _ _ Hf) in Eg as [_ ? _ _ _].
Qed.

(** A replica admits [presented], a signature [sig] under [key], with the [i]-th call
    of the table; its cache has seen [evs]. *)
Definition admits_token (s : rsys) (i : nat) (presented : string) (key : pkey) (sig : buffer) : Prop :=
  exists kcfg evs now redeem (st st' : St) entry,
    Forall (fun ev => 0 <= ev.1) evs /\
    let cache_get id := KeyCache.lookup now id (KeyCache.run kcfg evs).1 in
    verifyAccessToken JSON_parse pss_verify cache_get redeem (Some presented) st = (Ok true, st') /\
    genuine cache_get (Some presented) entry sig /\ ce_key entry = key /\
    forall fp nul, fst (redeem fp nul st) = Ok true ->
      exists w, r_calls s !! i = Some (RCall fp nul, Some (Ok true), w).

(** C4. A token buys one request: whatever replicas there are, whatever each has in
    its key cache and however their writes to the table race or get lost, no two
    requests are admitted on one signature of one key. *)
Theorem token_spent_once (s : rsys) (i j : nat) (p q : string) (key : pkey) (sig : buffer) :
  rreachable uuid s -> admits_token s i p key sig -> admits_token s j q key sig -> i = j.
Proof.
  intros Hr Hi Hj. destruct (decide (i = j)) as [|Hne]; [done|]. exfalso.
  assert (forall i p, admits_token s i p key sig ->
    exists w, r_calls s !! i = Some (RCall (key_fingerprint key) (nullifierFor sig), Some (Ok true), w)) as Hcall.
  { clear -K. intros i p (kcfg & evs & now & redeem & st & st' & entry & Hpos & H & Hg & <- & Hlink).
    pose proof (verify_true _ _ _ _ _ _ _ Hg H) as Hr.
    destruct (Hlink _ _ (f_equal fst Hr)) as [w Hw]. exists w.
    destruct Hg as [(? & keyId & ? & ? & _ & _ & _ & Hc & _)].
    by rewrite (lookup_fingerprint _ _ _ _ _ Hpos Hc) in Hw. }
  destruct (Hcall i p Hi) as [w Hw], (Hcall j q Hj) as [w' Hw'].
  by apply (azure_spends_once uuid s i j _ _ _ _ Hr Hne Hw Hw').
Qed.
End token.

(** ** What the gateway is told *)

(** The bytes uploaded before the end of the request. *)
Fixpoint uploaded (evs : list upload_event) : buffer :=
  match evs with
  | UploadData c :: evs' => c ++ uploaded evs'
  | _ => []
  end.

Section gateway.
Context `{K : KeyCrypto} (JSON_parse : buffer -> result exn json).
Context (pss_verify : pkey -> buffer -> buffer -> result exn bool) {St : Type}.
Context (cache_get : string -> result exn (option cache_entry)).
Context (redeem : string -> string -> St -> result exn bool * St) (cfg : relay_config).
Notation admitted := (relay_admitted cfg JSON_parse pss_verify cache_get redeem).

Lemma upload_stopped evs : upload_run cfg UploadStopped evs = (UploadStopped, []).
Proof. induction evs as [|ev evs IH]; [done|]. simpl. by destruct ev; rewrite IH. Qed.
Lemma upload_forwarded u evs : upload_run cfg (Forwarded u) evs = (Forwarded u, []).
Proof. induction evs as [|ev evs IH]; [done|]. simpl. by destruct ev; rewrite IH. Qed.

Lemma upload_forwards got evs u rs :
  blen got <= MAX_BODY cfg -> upload_run cfg (Uploading got) evs = (Forwarded u, rs) ->
  u = forwardToGateway cfg (got ++ uploaded evs) /\ blen (got ++ uploaded evs) <= MAX_BODY cfg /\ rs = [].
Proof.
  revert got u rs. induction evs as [|ev evs IH]; intros got u rs Hg; [done|].
  destruct ev as [c|[]|]; cbn [upload_run upload_step uploaded].
  - destruct (_ >? _) eqn:E; bool_to_prop; [by rewrite upload_stopped|].
    destruct (upload_run cfg (Uploading (got ++ c)) evs) as [st rs'] eqn:Er. intros [= -> <-].
    rewrite app_assoc. by eapply IH.
  - by rewrite upload_stopped.
  - rewrite upload_forwarded, app_nil_r. by intros [= <- <-].
  - by rewrite upload_stopped.
Qed.

(** C18. The gateway learns the ciphertext and nothing of who sent it: a request is
    forwarded only when its client was authorised, and what the gateway is sent is
    a function of the bytes uploaded, which are within [MAX_BODY], whatever the
    request's headers, address and credential: any two requests with the same bytes
    are forwarded alike. *)
Theorem gateway_sees_ciphertext (req req' : http_request) (gone gone' : bool)
    (evs evs' : list upload_event) (s s1 s' s1' : St) (u u' : upstream_request)
    (rs rs' : list http_response) :
  0 <= MAX_BODY cfg ->
  admitted req gone evs s = (Upload (Forwarded u) rs, s1) ->
  admitted req' gone' evs' s' = (Upload (Forwarded u') rs', s1') ->
  (clientAuthorized cfg JSON_parse pss_verify cache_get redeem req s = (Ok true, s1) /\ gone = false) /\
  u = forwardToGateway cfg (uploaded evs) /\ blen (u_body u) <= MAX_BODY cfg /\
  (u_headers u).*1 ⊆ ["Content-Type"; "Content-Length"; RELAY_GATEWAY_HEADER] /\
  (uploaded evs = uploaded evs' -> u = u').
Proof.
  intros HM. assert (forall req gone evs s u rs s1, admitted req gone evs s = (Upload (Forwarded u) rs, s1) ->
    clientAuthorized cfg JSON_parse pss_verify cache_get redeem req s = (Ok true, s1) /\ gone = false /\
    u = forwardToGateway cfg (uploaded evs) /\ blen (uploaded evs) <= MAX_BODY cfg) as H.
  { clear -HM. intros req gone evs s u rs s1. unfold relay_admitted.
    destruct (clientAuthorized _ _ _ _ _ req s) as [[[]|e] s2]; destruct gone; try done.
    destruct (upload_run cfg (Uploading []) evs) as [st rs'] eqn:E. intros [= -> <- <-].
    by apply upload_forwards in E as (-> & ? & _). }
  intros (Ha & Hg & -> & Hb)%H (_ & _ & -> & _)%H.
  split; [done|]. split; [done|]. split; [done|]. split; [|by intros ->].
  unfold forwardToGateway. cbn [u_headers]. case_match; set_solver.
Qed.
End gateway.

(** ** Witnesses *)
Module RelaySample.
(** Keys are their bytes; a signature is the input, prefixed by the key. *)
Definition crypto : KeyCrypto := {|
  digest b := take 32 (b ++ replicate 32 x00); pkey := buffer; createPublicKey b := Ok b;
  asymmetricKeyType _ := "rsa"; modulusLength _ := Some 2048; export_spki k := k |}.
#[export] Existing Instance crypto.
Definition key : buffer := replicate 32 x0a.
Definition fingerprint : string := key_fingerprint (K := crypto) key.
Definition key_id : string := slice0 32 fingerprint.
Definition pss_verify (k : @pkey crypto) (input sig : buffer) : result exn bool :=
  Ok (bool_decide (sig = (k : buffer) ++ input)).
Definition envelope : json := JObj [("keyId", JStr key_id);
  ("tokenInput", JStr "AAEC"); ("signature", JStr (base64_encode (key ++ [x00; x01; x02])))].
Definition JSON_parse (b : buffer) : result exn json :=
  if bool_decide (b = [x07]) then Ok envelope else Throw (Err "Unexpected token").
Definition presented : string := "Bearer  Bw".
Definition document : json := JObj [("schemaVersion", JInt 1);
  ("suite", JStr "RSABSSA-SHA384-PSS-Deterministic"); ("epoch", JInt 0); ("epochSeconds", JInt 3600);
  ("keys", JArr [JObj [("epoch", JInt 0); ("keyId", JStr key_id);
                       ("publicKeySpki", JStr (base64_encode key))]])].
Definition kcfg : cache_config := {| kc_url := true; kc_ttlMs := 300000; kc_backoffMs := 5000 |}.
Definition events : list (Z * cache_event) := [(1, KGet "k"); (2, KFetched (Some document))].
Definition cache_get (id : string) : result exn (option cache_entry) :=
  KeyCache.lookup 5 id (KeyCache.run kcfg events).1.
Definition sig : buffer := key ++ [x00; x01; x02].
Definition entry : cache_entry := CacheEntry (K := crypto) key fingerprint 7200000.
Lemma genuine_sample :
  genuine JSON_parse pss_verify (fun id => KeyCache.lookup 5 id (KeyCache.run kcfg events).1)
    (Some presented) entry sig.
Proof.
  constructor. exists presented, key_id, "AAEC", (base64_encode sig).
  split; [reflexivity|]. split; [discriminate|]. split; [vm_compute; reflexivity|].
  split; [vm_compute; reflexivity|]. repeat (split; [vm_compute; (reflexivity || discriminate)|]).
  vm_compute. reflexivity.
Qed.
Definition redeem (fp nul : string) (s : list string) : result exn bool * list string :=
  memory_redeem 10 s fp nul.
Definition token : rcall := RCall fingerprint (nullifierFor (K := crypto) sig).
(** The first call of the table redeems the token. *)
Lemma table_reached : exists s, rreachable RedeemRun.uuid s /\ r_calls s !! 0%nat = Some (token, Some (Ok true), false).
Proof.
  eexists. split.
  - apply (RedeemRun.redeemed ∅ ∅ ∅ 0 token); [apply rreach_start|reflexivity|vm_compute; reflexivity|reflexivity].
  - reflexivity.
Qed.
(** What the first call of the table answers. *)
Definition redeem_first (fp nul : string) (s : list string) : result exn bool * list string :=
  (if String.eqb fp (rc_fingerprint token) && String.eqb nul (rc_nullifier token)
   then Ok true else Throw RedemptionUnavailable, s).
Lemma admits s :
  r_calls s !! 0%nat = Some (token, Some (Ok true), false) ->
  admits_token (K := crypto) (St := list string) JSON_parse pss_verify s 0 presented key sig.
Proof.
  intros Hc. exists kcfg, events, 5, redeem_first, [], [], entry.
  split; [repeat constructor; discriminate|]. cbv zeta. split; [vm_compute; reflexivity|].
  split; [exact genuine_sample|]. split; [reflexivity|]. intros fp nul H. exists false. rewrite Hc.
  unfold redeem_first in H. cbn [fst] in H. destruct (String.eqb fp _ && _) eqn:E; [|discriminate H].
  apply andb_true_iff in E as [E1 E2]. apply String.eqb_eq in E1, E2. by rewrite E1, E2.
Qed.
Definition cfg : relay_config := {|
  MAX_BODY := 4; MAX_RESP_BYTES := 4; RATE_LIMIT_RPM := 2; RATE_WINDOW_MS := 10; MAX_INFLIGHT := 2;
  RATE_MAX_KEYS := 2; TRUSTED_CLIENT_IP_HEADER := ""; CLIENT_AUTH_MODE := "token"; CLIENT_SECRET := "";
  CLIENT_AUTH_HEADER := "x-columbia-token"; RELAY_GATEWAY_SECRET := "s"; REQUIRE_FDID := "";
  FDID_HEADER := "x-azure-fdid"; CONFIG_TTL_MS := 100; GATEWAY_HOST := "gateway.example";
  GATEWAY_PORT := 443; GATEWAY_PATH := "/gateway" |}.
Definition request (ip : string) : http_request :=
  HttpRequest "POST" "/relay" [("x-columbia-token", presented); ("x-forwarded-for", ip)] ip.
Definition upload : list upload_event := [UploadData [x01; x02]; UploadData [x03]; UploadEnd false].
Lemma forwards ip : exists s1,
  relay_admitted cfg JSON_parse pss_verify cache_get redeem (request ip) false upload []
  = (Upload (Forwarded (forwardToGateway cfg [x01; x02; x03])) [], s1).
Proof. eexists. vm_compute. reflexivity. Qed.
End RelaySample.
#[local] Existing Instances RelaySample.crypto RedeemRun.uuid_inj.

Lemma token_spent_once_witness : exists s : rsys,
  rreachable RedeemRun.uuid s /\ r_calls s !! 0%nat = Some (RelaySample.token, Some (Ok true), false) /\
  0%nat = 0%nat.
Proof.
  destruct RelaySample.table_reached as (s & Hs & Hc). exists s. split; [exact Hs|]. split; [exact Hc|].
  pose proof (RelaySample.admits s Hc) as H.
  exact (token_spent_once RelaySample.JSON_parse RelaySample.pss_verify RedeemRun.uuid s 0 0
    RelaySample.presented RelaySample.presented RelaySample.key RelaySample.sig Hs H H).
Defined.

Lemma gateway_sees_ciphertext_witness :
  exists u, u_body u = [x01; x02; x03] /\ u = forwardToGateway RelaySample.cfg [x01; x02; x03].
Proof.
  destruct (RelaySample.forwards "10.0.0.1") as [s1 H1]. destruct (RelaySample.forwards "10.0.0.2") as [s2 H2].
  destruct (gateway_sees_ciphertext (K := RelaySample.crypto) RelaySample.JSON_parse RelaySample.pss_verify
    RelaySample.cache_get RelaySample.redeem RelaySample.cfg (RelaySample.request "10.0.0.1")
    (RelaySample.request "10.0.0.2") false false RelaySample.upload RelaySample.upload [] s1 [] s2 _ _ [] []
    ltac:(vm_compute; discriminate) H1 H2) as (_ & H & _).
  eexists. split; [|exact H]. reflexivity.
Defined.
