(* ===== verification/Commons.v ===== *)
(** * The commons cache ([commons-cache/server.js]): requests, URLs, upstreams

    What a request asks for and under which key it is cached, the upstream URL it is
    fetched from, what becomes of an upstream's answer, and what is sent back. The
    cache itself is in [CommonsCache]. WHATWG URLs and [JSON.parse] are parameters. *)
From S2P Require Import Prelude JsMap JsText JsJson AppAttest Http.
From Stdlib Require Import Ascii.

(** ** Configuration *)
Record commons_config := {
  TTL_MS : Z;
  SWR_MS : Z;
  UPSTREAM_BASE : string;
  UPSTREAM_PATH_TEMPLATE : string;
  COMMENTS_PATH_TEMPLATE : string;
  UPSTREAM_UA : string;
  MAX_ENTRIES : Z;
  MAX_BODY_BYTES : Z;
  FORWARD_UPSTREAM_AUTH : bool;
  REQUIRE_FDID : string;
  FDID_HEADER : string;
}.

(** ** Identifiers *)
Definition is_lower (c : ascii) : bool := (97 <=? code c) && (code c <=? 122).
Definition is_upper (c : ascii) : bool := (65 <=? code c) && (code c <=? 90).
Definition is_alnum (c : ascii) : bool := is_lower c || is_upper c || is_digit c.
Definition is_id_char (c : ascii) : bool := is_alnum c || Ascii.eqb c "_".

(** [s.replace(/[^A-Za-z0-9_]/g, '')]. *)
Definition sanitize_id (s : string) : string := of_chars (List.filter is_id_char (chars s)).
(** [/^[a-z]+$/] and [/^[A-Za-z0-9]{1,15}$/]. *)
Definition SORT_RE (s : string) : bool := nonempty s && forallb is_lower (chars s).
Definition IMGUR_ID_RE (s : string) : bool :=
  nonempty s && Nat.leb (String.length s) 15 && forallb is_alnum (chars s).

(** ** Log fields *)
Definition commons_log_reasons : list string :=
  ["timeout"; "network"; "too_large"; "invalid_body"; "upstream_403"; "upstream_429"; "not_found";
   "upstream_4xx"; "upstream_5xx"; "redirect"; "other"].
Definition commons_log_rules : list log_rule :=
  [ word_or_other ["/health"; "/v1/commons"; "/v1/comments"; "/v1/imgur"; "/v1/probe"] "route";
    word_or_other ["GET"; "HEAD"; "POST"; "PUT"; "PATCH"; "DELETE"; "OPTIONS"] "method";
    keep_int 100 599 "status"; keep_duration;
    keep_word ["HIT"; "STALE"; "MISS"; "COALESCED"; "-"] "cache"; keep_word ["revalidate"] "phase";
    keep_word commons_log_reasons "reason"; keep_int 100 599 "upstreamStatus";
    keep_word ["same_origin"; "other_origin_https"; "unsafe_scheme"; "missing"; "invalid"] "redirectTarget";
    keep_word ["fatal"; "listen"] "event"; keep_word ["upstream_base_invalid"] "reason" ].
Definition safeLogFields : log_fields -> log_fields := apply_rules commons_log_rules.

(** ** Upstream answers *)

(** What the source reads of a thrown error. *)
Record js_error := JsError { err_name : string; err_code : string; err_syntax : bool }.

Definition upstreamFailure (status : Z) (error : option js_error) : string :=
  let error_has p := match error with Some e => p e | None => false end in
  if error_has (fun e => String.eqb (err_name e) "TimeoutError") then "timeout"
  else if error_has (fun e => String.eqb (err_code e) "BODY_TOO_LARGE") then "too_large"
  else if error_has err_syntax then "invalid_body"
  else if status =? 403 then "upstream_403"
  else if status =? 429 then "upstream_429"
  else if status =? 404 then "not_found"
  else if status >=? 500 then "upstream_5xx"
  else if status >=? 400 then "upstream_4xx"
  else if status >=? 300 then "redirect"
  else match error with Some _ => "network" | None => "other" end.

(** A parsed URL. *)
Record url := Url { url_protocol : string; url_hostname : string; url_origin : string }.

(** [new URL(location, requestedUrl)] is [resolve]; [origin] the origin of
    [requestedUrl]. *)
Definition redirectTargetClass (resolve : string -> option url) (origin : string) (status : Z)
    (location : option string) : option string :=
  if (status <? 300) || (status >=? 400) then None
  else
    let location := js_trim (default "" location) in
    if negb (nonempty location) then Some "missing"
    else match resolve location with
    | Some target =>
        Some (if String.eqb (url_origin target) origin then "same_origin"
              else if String.eqb (url_protocol target) "https:" then "other_origin_https"
              else "unsafe_scheme")
    | None => Some "invalid"
    end.

Definition BodyTooLarge : js_error := JsError "Error" "BODY_TOO_LARGE" false.

(** The chunks of a body as the reader gives them. *)
Fixpoint read_chunks (limit : Z) (got : buffer) (l : list buffer) : js_error + buffer :=
  match l with
  | [] => inr got
  | value :: l' =>
      if blen got + blen value >? limit then inl BodyTooLarge
      else read_chunks limit (got ++ value) l'
  end.
(** [readBoundedBody]: [None] is a response without a body. *)
Definition readBoundedBody (limit : Z) (body : option (list buffer)) : js_error + buffer :=
  match body with None => inr [] | Some l => read_chunks limit [] l end.

Definition ALLOWED_CONTENT_TYPES : list string :=
  ["application/rss+xml"; "application/atom+xml"; "application/xml"; "text/xml"; "application/json"].
Definition safeContentType (raw : option string) : string :=
  let media := media_type raw in
  if bool_decide (media ∈ ALLOWED_CONTENT_TYPES) then media else "application/octet-stream".

(** What [fetch] comes to: a response, or an error. *)
Record fetch_response := FetchResponse {
  f_status : Z; f_location : option string; f_contentType : option string; f_body : option (list buffer) }.

(** The result of an upstream call: a body with its content type, or a failure. *)
Inductive upstream :=
| UpOk (body : buffer) (contentType : string)
| UpFailed (status : Z) (reason : string) (redirectTarget : option string).

Definition fetchUpstream (cfg : commons_config) (resolve : string -> option url) (origin : string)
    (fetched : js_error + fetch_response) : upstream :=
  match fetched with
  | inl e => UpFailed 0 (upstreamFailure 0 (Some e)) None
  | inr res =>
      if negb (f_status res =? 200) then
        UpFailed (f_status res) (upstreamFailure (f_status res) None)
          (redirectTargetClass resolve origin (f_status res) (f_location res))
      else match readBoundedBody (MAX_BODY_BYTES cfg) (f_body res) with
      | inl e => UpFailed 0 (upstreamFailure 0 (Some e)) None
      | inr body =>
          UpOk body (match f_contentType res with
                     | Some t => if nonempty t then t else "application/json"
                     | None => "application/json"
                     end)
      end
  end.

Definition upstreamHeaders (cfg : commons_config) (authHeader : option string) : list (string * string) :=
  [("User-Agent", UPSTREAM_UA cfg); ("Accept", "application/json, text/plain, */*");
   ("Accept-Language", "en-US,en;q=0.9")]
  ++ match authHeader with
     | Some a => if FORWARD_UPSTREAM_AUTH cfg && nonempty a then [("Authorization", a)] else []
     | None => []
     end.

(** The guard at start-up: [true] ends the process. *)
Definition in_172_16 (host : string) : bool :=
  match chars host with
  | "1"%char :: "7"%char :: "2"%char :: "."%char :: a :: b :: "."%char :: _ =>
      (Ascii.eqb a "1" && (54 <=? code b) && (code b <=? 57))
      || (Ascii.eqb a "2" && is_digit b)
      || (Ascii.eqb a "3" && (Ascii.eqb b "0" || Ascii.eqb b "1"))
  | _ => false
  end.
Definition base_refused (parsed : option url) : bool :=
  match parsed with
  | None => true
  | Some u =>
      let host := js_lower (url_hostname u) in
      negb (String.eqb (url_protocol u) "https:") || String.eqb host "localhost"
      || String.prefix "127." host || String.eqb host "::1" || String.prefix "10." host
      || String.prefix "192.168." host || String.prefix "169.254." host || in_172_16 host
  end.

(** ** The upstream URL *)
Definition hex_upper (d : Z) : ascii := char_of (if d <? 10 then 48 + d else 55 + d).
Definition percent (z : Z) : list ascii := ["%"%char; hex_upper (z / 16); hex_upper (z mod 16)].
Definition is_unreserved (c : ascii) : bool :=
  is_alnum c || bool_decide (c ∈ ["-"; "_"; "."; "!"; "~"; "*"; "'"; "("; ")"]%char).
(** A code unit from 128 to 255 is two bytes of UTF-8. *)
Definition encode_char (c : ascii) : list ascii :=
  if is_unreserved c then [c]
  else if code c <? 128 then percent (code c)
  else percent (192 + code c / 64) ++ percent (128 + code c mod 64).
Definition encodeURIComponent (s : string) : list ascii := chars s ≫= encode_char.

(** [s.replace(/pat/g, rep)] for a literal [pat]; [skip] characters are part of a
    match already replaced. *)
Fixpoint starts_with (pat s : list ascii) : bool :=
  match pat, s with
  | [], _ => true
  | p :: pat', c :: s' => Ascii.eqb p c && starts_with pat' s'
  | _ :: _, [] => false
  end.
Fixpoint replace_lit (pat rep : list ascii) (skip : nat) (s : list ascii) : list ascii :=
  match s with
  | [] => []
  | c :: s' =>
      match skip with
      | S k => replace_lit pat rep k s'
      | O => if starts_with pat (c :: s') then rep ++ replace_lit pat rep (length pat - 1) s'
             else c :: replace_lit pat rep 0 s'
      end
  end.

Definition upstream_path (template id sort : string) : list ascii :=
  replace_lit (chars "{sort}") (encodeURIComponent sort) 0
    (replace_lit (chars "{id}") (encodeURIComponent id) 0 (chars template)).
Definition upstreamUrl (cfg : commons_config) (id sort template : string) : string :=
  let path := upstream_path template id sort in
  of_chars (chars (UPSTREAM_BASE cfg)
            ++ (if starts_with (chars "/") path then [] else chars "/") ++ path).

(** ** What a request asks for *)
Inductive lookup_of :=
| Feed (id sort : string) | Thread (id sort : string) | Album (id : string) | Image (id : string).

(** The cache key. *)
Definition cache_key (q : lookup_of) : string :=
  match q with
  | Feed id sort => id +:+ "/" +:+ sort
  | Thread id sort => "comments:" +:+ id +:+ "/" +:+ sort
  | Album id => "imgur/" +:+ id
  | Image id => "imgur-image/" +:+ id
  end.

Inductive commons_route :=
| BadUrl | Locked | Health | Probe | BadFeed (kind : string) | BadImgur | Unknown
| Lookup (q : lookup_of) (authHeader : option string).

(** [param] is [u.searchParams.get], [route] is [u.pathname]. *)
Definition feed_request (cfg : commons_config) (req : http_request) (param : string -> option string)
    (comments : bool) : commons_route :=
  let id := sanitize_id (default "" (param "id")) in
  let sort := match param "sort" with
              | Some s => if nonempty s then s else "latest"
              | None => "latest"
              end in
  let sort := js_lower sort in
  if negb (nonempty id) || negb (SORT_RE sort) then BadFeed (if comments then "item" else "feed")
  else
    let authHeader :=
      if FORWARD_UPSTREAM_AUTH cfg then
        match header req "authorization" with
        | Some a => if nonempty a then Some a else None
        | None => None
        end
      else None in
    Lookup (if comments then Thread id sort else Feed id sort) authHeader.

Definition imgur_request (param : string -> option string) : commons_route :=
  let id := js_trim (default "" (param "id")) in
  let image := js_trim (default "" (param "image")) in
  if nonempty id && negb (nonempty image) && IMGUR_ID_RE id then Lookup (Album id) None
  else if nonempty image && negb (nonempty id) && IMGUR_ID_RE image then Lookup (Image image) None
  else BadImgur.

(** [frontDoorAllowed], with the [timingSafeEqualStr] of the commons. *)
Definition commons_frontDoorAllowed (cfg : commons_config) (sha256 : buffer -> buffer) (req : http_request) : bool :=
  frontDoorAllowed sha256 (REQUIRE_FDID cfg) (FDID_HEADER cfg) req.

Definition fdidExempt (req : http_request) (path : string) : bool :=
  String.eqb (q_method req) "GET" && String.eqb path "/health".

Definition commons_dispatch (cfg : commons_config) (sha256 : buffer -> buffer) (req : http_request)
    (parsed : option (string * (string -> option string))) : commons_route :=
  match parsed with
  | None => BadUrl
  | Some (route, param) =>
      if nonempty (REQUIRE_FDID cfg) && negb (fdidExempt req route)
         && negb (commons_frontDoorAllowed cfg sha256 req) then Locked
      else if String.eqb route "/health" then Health
      else if String.eqb route "/v1/probe" then Probe
      else if String.eqb route "/v1/commons" then feed_request cfg req param false
      else if String.eqb route "/v1/comments" then feed_request cfg req param true
      else if String.eqb route "/v1/imgur" then imgur_request param
      else Unknown
  end.

(** ** Imgur *)

Definition httpsUrl (v : option json) : bool :=
  match v with Some (JStr s) => String.prefix "https://" s | _ => false end.

(** A member of an object literal; [undefined] is not printed. *)
Definition member (k : string) (v : option json) : list (string * json) :=
  match v with Some v => [(k, v)] | None => [] end.

(** Reading a property of [null] throws. *)
Definition TypeError : js_error := JsError "TypeError" "" false.
Definition jget_or_throw (v : json) (k : string) : js_error + option json :=
  match v with JNull => inl TypeError | _ => inr (jget v k) end.

Fixpoint album_images (l : list json) : js_error + list json :=
  match l with
  | [] => inr []
  | i :: l' =>
      match jget_or_throw i "link", album_images l' with
      | inl e, _ | _, inl e => inl e
      | inr link, inr rest =>
          inr (if httpsUrl link
               then JObj (member "url" link ++ member "type" (jget i "type") ++ member "w" (jget i "width")
                          ++ member "h" (jget i "height")) :: rest
               else rest)
      end
  end.

(** The two [shape] functions; [None] is [null]. *)
Definition album_shape (j : json) : js_error + option json :=
  match jget_or_throw j "data" with
  | inl e => inl e
  | inr data =>
      match album_images (match data with Some (JArr l) => l | _ => [] end) with
      | inl e => inl e
      | inr images => inr (Some (JObj [("images", JArr images)]))
      end
  end.

Definition image_shape (j : json) : js_error + option json :=
  match jget_or_throw j "data" with
  | inl e => inl e
  | inr (Some ((JObj _ | JArr _) as d)) =>
      let animated := match jget d "animated" with Some (JBool true) => true | _ => false end in
      let mp4 := if animated && httpsUrl (jget d "mp4") then jget d "mp4" else None in
      let url := match mp4 with Some u => Some u | None => jget d "link" end in
      if negb (httpsUrl url) then inr None
      else inr (Some (JObj [("image",
        JObj (member "url" url
              ++ member "type" (match mp4 with Some _ => Some (JStr "video/mp4") | None => jget d "type" end)
              ++ member "w" (jget d "width") ++ member "h" (jget d "height")
              ++ [("animated", JBool animated)]))]))
  | inr _ => inr None
  end.

(** [JSON_parse] is [JSON.parse(body.toString('utf8'))]. *)
Definition fetchImgurJson (cfg : commons_config) (JSON_parse : buffer -> js_error + json)
    (shape : json -> js_error + option json) (resolve : string -> option url) (origin : string)
    (fetched : js_error + fetch_response) : upstream :=
  match fetched with
  | inl e => UpFailed 0 (upstreamFailure 0 (Some e)) None
  | inr res =>
      if negb (f_status res =? 200) then
        UpFailed (f_status res) (upstreamFailure (f_status res) None)
          (redirectTargetClass resolve origin (f_status res) (f_location res))
      else
        match (match readBoundedBody (MAX_BODY_BYTES cfg) (f_body res) with
               | inl e => inl e
               | inr body => match JSON_parse body with inl e => inl e | inr j => shape j end
               end) with
        | inl e => UpFailed 0 (upstreamFailure 0 (Some e)) None
        | inr None => UpFailed 200 "invalid_body" None
        | inr (Some out) =>
            let body := utf8_bytes (stringify out) in
            if blen body >? MAX_BODY_BYTES cfg then UpFailed 200 "too_large" None
            else UpOk body "application/json"
        end
  end.

(** ** What is sent back *)
Inductive cache_mark := HIT | STALE | MISS | COALESCED.
Definition mark_string (m : cache_mark) : string :=
  match m with HIT => "HIT" | STALE => "STALE" | MISS => "MISS" | COALESCED => "COALESCED" end.

(** What a lookup resolves to. *)
Inductive lookup_result :=
| Found (mark : cache_mark) (body : buffer) (contentType : string) (fetchedAt : Z)
| Unavailable (reason : string) (status : Z) (redirectTarget : option string).

Record commons_response := CommonsResponse {
  c_status : Z; c_headers : list (string * string); c_body : buffer }.
Definition json_reply (status : Z) (j : json) : commons_response :=
  CommonsResponse status [json_type] (utf8_bytes (stringify j)).

Definition lookup_reply (cfg : commons_config) (q : lookup_of) (now : Z) (out : lookup_result) :
    commons_response :=
  match out with
  | Unavailable _ _ _ =>
      CommonsResponse 502 [json_type; ("X-Cache", "MISS"); ("X-Content-Type-Options", "nosniff");
                           ("Cache-Control", "no-store")]
        (utf8_bytes (stringify (JObj [("error", JStr "upstream unavailable")])))
  | Found mark body contentType fetchedAt =>
      let ageS := if fetchedAt =? 0 then 0 else Z.max 0 ((now - fetchedAt) / 1000) in
      CommonsResponse 200
        [("Content-Type", match q with
                          | Feed _ _ | Thread _ _ => safeContentType (Some contentType)
                          | Album _ | Image _ => "application/json"
                          end);
         ("X-Cache", mark_string mark); ("X-Upstream-Status", "200"); ("X-Content-Type-Options", "nosniff");
         ("Cache-Control", "public, max-age=" +:+ js_dec (TTL_MS cfg / 1000)
                           +:+ ", stale-while-revalidate=" +:+ js_dec (SWR_MS cfg / 1000));
         ("Age", js_dec ageS)]
        body
  end.

(** The answers that need neither the cache nor an upstream. *)
Definition static_reply (r : commons_route) : option commons_response :=
  match r with
  | BadUrl => Some (CommonsResponse 400 [] [])
  | Locked => Some (CommonsResponse 403 [] [])
  | BadFeed kind => Some (json_reply 400 (JObj [("error", JStr ("require ?id=<" +:+ kind +:+ "-id>&sort=<sort>"))]))
  | BadImgur => Some (json_reply 400
      (JObj [("error", JStr "require ?id=<imgur album id> or ?image=<imgur image id>")]))
  | Unknown => Some (json_reply 404 (JObj [("error", JStr "not found");
      ("routes", JArr (JStr <$> ["/health"; "/v1/probe"; "/v1/commons?id=&sort="; "/v1/imgur?id=";
                                 "/v1/imgur?image="]))]))
  | Health | Probe | Lookup _ _ => None
  end.
