(* ===== verification/CommonsCache.v ===== *)
(** * The commons cache ([commons-cache/server.js]): the cache

    [getCachedFeed] and [getCachedImgur] between their awaits: a bounded map of
    shared entries, served fresh, or stale while one request revalidates them, and
    one flight per key for everything else. The steps of [cache_step] interleave any
    number of requests, flights and revalidations. *)
From S2P Require Import Prelude JsMap JsText JsJson StateFacts Http Commons.

(** ** State *)

(** An entry object: several requests may hold it, and its flag is changed in
    place, so the map holds references. *)
Record entry := Entry {
  e_body : buffer; e_contentType : string; e_fetchedAt : Z; revalidating : bool }.

(** A fetch under way or finished: the leader's promise, or a revalidation of an
    entry. *)
Record flight := Flight { fl_query : lookup_of; fl_settled : bool }.
Record revalidation := Revalidation { rv_query : lookup_of; rv_entry : nat; rv_settled : bool }.
(** A request that awaits a flight. *)
Record waiter := Waiter { w_request : nat; w_query : lookup_of; w_flight : nat; isLeader : bool }.

Record cache_state := CacheState {
  cache : list (string * nat);
  entries : list entry;
  inflight : list (string * nat);
  flights : list flight;
  revalidations : list revalidation;
  waiting : list waiter;
  (** What requests resolved to, when, and the successful fetches so far. *)
  results : list (nat * lookup_of * Z * lookup_result);
  fetched : list (lookup_of * buffer * string * Z);
  (** The process is inside the loop of [cacheSet] and will not leave it. *)
  hung : bool;
}.
Definition empty_cache : cache_state := CacheState [] [] [] [] [] [] [] [] false.

Section cache.
Context (cfg : commons_config).

(** [while (cache.size > MAX_ENTRIES) cache.delete(cache.keys().next().value)]: under
    a negative bound the loop goes on for ever over the empty map. *)
Fixpoint evict (m : list (string * nat)) : result exn (list (string * nat)) :=
  match m with
  | [] => if map_size m >? MAX_ENTRIES cfg then Throw Diverges else Ok []
  | kv :: m' => if map_size m >? MAX_ENTRIES cfg then evict m' else Ok m
  end.
Definition cacheSet (key : string) (e : nat) (m : list (string * nat)) :
    result exn (list (string * nat)) :=
  evict (map_set String.eqb (map_delete String.eqb m key) key e).

(** The type an entry is stored under. *)
Definition stored_type (q : lookup_of) (contentType : string) : string :=
  match q with
  | Feed _ _ | Thread _ _ => safeContentType (Some contentType)
  | Album _ | Image _ => "application/json"
  end.

(** The state a step hangs in; nothing runs after it. *)
Definition hang (s : cache_state) : cache_state :=
  CacheState (cache s) (entries s) (inflight s) (flights s) (revalidations s) (waiting s)
    (results s) (fetched s) true.

(** A successful fetch is stored: [cacheSet(key, {.., revalidating: false})]. *)
Definition store (q : lookup_of) (body : buffer) (contentType : string) (now : Z) (s : cache_state) :
    cache_state :=
  match cacheSet (cache_key q) (length (entries s)) (cache s) with
  | Ok m =>
      CacheState m (entries s ++ [Entry body (stored_type q contentType) now false])
        (inflight s) (flights s) (revalidations s) (waiting s) (results s)
        (fetched s ++ [(q, body, contentType, now)]) (hung s)
  | Throw _ => hang s
  end.

Definition answer (r : nat) (q : lookup_of) (now : Z) (out : lookup_result) (s : cache_state) : cache_state :=
  CacheState (cache s) (entries s) (inflight s) (flights s) (revalidations s) (waiting s)
    (results s ++ [(r, q, now, out)]) (fetched s) (hung s).

(** Cold or rotten: the single flight. *)
Definition cold (r : nat) (q : lookup_of) (s : cache_state) : cache_state :=
  match map_get String.eqb (inflight s) (cache_key q) with
  | Some f =>
      CacheState (cache s) (entries s) (inflight s) (flights s) (revalidations s)
        (waiting s ++ [Waiter r q f false]) (results s) (fetched s) (hung s)
  | None =>
      let f := length (flights s) in
      CacheState (cache s) (entries s) (map_set String.eqb (inflight s) (cache_key q) f)
        (flights s ++ [Flight q false]) (revalidations s)
        (waiting s ++ [Waiter r q f true]) (results s) (fetched s) (hung s)
  end.

(** Serve stale, and revalidate unless that is under way. *)
Definition revalidate (q : lookup_of) (i : nat) (e : entry) (s : cache_state) : cache_state :=
  if revalidating e then s
  else CacheState (cache s) (<[i := Entry (e_body e) (e_contentType e) (e_fetchedAt e) true]> (entries s))
         (inflight s) (flights s) (revalidations s ++ [Revalidation q i false]) (waiting s)
         (results s) (fetched s) (hung s).

(** [getCachedFeed] and [getCachedImgur], up to the await. *)
Definition getCached (r : nat) (q : lookup_of) (now : Z) (s : cache_state) : cache_state :=
  match map_get String.eqb (cache s) (cache_key q) with
  | Some i =>
      match entries s !! i with
      | Some e =>
          let age := now - e_fetchedAt e in
          let found mark := Found mark (e_body e) (e_contentType e) (e_fetchedAt e) in
          if age <? TTL_MS cfg then answer r q now (found HIT) s
          else if age <? TTL_MS cfg + SWR_MS cfg
          then answer r q now (found STALE) (revalidate q i e s)
          else cold r q s
      | None => cold r q s
      end
  | None => cold r q s
  end.

(** [getCachedImgur(key, fetcher)] is the same text over the key of an album or of an
    image, whose fetcher is the call of [CommonsHandler.fetch_call]. *)
Definition getCachedImgur (r : nat) (image : bool) (id : string) (now : Z) (s : cache_state) : cache_state :=
  getCached r (if image then Image id else Album id) now s.

(** A flight settles: the promise leaves [inflight], the leader stores a success,
    and everybody who waits goes on. If storing it never ends, nothing more happens:
    the state is left as it was and hung. *)
Definition outcome_for (w : waiter) (now : Z) (up : upstream) : lookup_result :=
  match up with
  | UpOk body contentType =>
      Found (if isLeader w then MISS else COALESCED) body (stored_type (w_query w) contentType) now
  | UpFailed status reason target => Unavailable reason status target
  end.
Definition waits_for (f : nat) (w : waiter) : bool := Nat.eqb (w_flight w) f.

Definition flight_settles (f : nat) (up : upstream) (now : Z) (s : cache_state) : cache_state :=
  match flights s !! f with
  | Some (Flight q false) =>
      let s0 := s in
      let s := CacheState (cache s) (entries s) (map_delete String.eqb (inflight s) (cache_key q))
                 (<[f := Flight q true]> (flights s)) (revalidations s) (waiting s) (results s) (fetched s)
                 (hung s) in
      let s := match up with UpOk body ct => store q body ct now s | UpFailed _ _ _ => s end in
      if hung s then hang s0
      else CacheState (cache s) (entries s) (inflight s) (flights s) (revalidations s)
        (List.filter (fun w => negb (waits_for f w)) (waiting s))
        (results s ++ ((fun w => (w_request w, w_query w, now, outcome_for w now up))
                       <$> List.filter (waits_for f) (waiting s)))
        (fetched s) (hung s)
  | _ => s
  end.

(** A revalidation settles; its [finally] resets the flag of the entry it was
    started for. *)
Definition revalidation_settles (v : nat) (up : upstream) (now : Z) (s : cache_state) : cache_state :=
  match revalidations s !! v with
  | Some (Revalidation q i false) =>
      let s0 := s in
      let s := match up with UpOk body ct => store q body ct now s | UpFailed _ _ _ => s end in
      if hung s then hang s0
      else CacheState (cache s)
        (match entries s !! i with
         | Some e => <[i := Entry (e_body e) (e_contentType e) (e_fetchedAt e) false]> (entries s)
         | None => entries s
         end)
        (inflight s) (flights s) (<[v := Revalidation q i true]> (revalidations s)) (waiting s)
        (results s) (fetched s) (hung s)
  | _ => s
  end.

Inductive cache_event :=
| Request (r : nat) (q : lookup_of)
| FlightSettles (f : nat) (up : upstream)
| RevalidationSettles (v : nat) (up : upstream).
Definition cache_step (s : cache_state) (e : Z * cache_event) : cache_state :=
  if hung s then s else
  match e with
  | (now, Request r q) => getCached r q now s
  | (now, FlightSettles f up) => flight_settles f up now s
  | (now, RevalidationSettles v up) => revalidation_settles v up now s
  end.
Definition cache_run (evs : list (Z * cache_event)) : cache_state := foldl cache_step empty_cache evs.
End cache.

(** A feed called "imgur" finds the album whose id is its sort. *)
Module Collision.
Definition cfg : commons_config := {|
  TTL_MS := 60000; SWR_MS := 300000; UPSTREAM_BASE := "https://example.com";
  UPSTREAM_PATH_TEMPLATE := "/{id}/{sort}.rss"; COMMENTS_PATH_TEMPLATE := "/comments/{id}?sort={sort}&raw_json=1";
  UPSTREAM_UA := "columbia-commons/1.0"; MAX_ENTRIES := 2; MAX_BODY_BYTES := 100;
  FORWARD_UPSTREAM_AUTH := false; REQUIRE_FDID := ""; FDID_HEADER := "x-azure-fdid" |}.
Definition album : buffer := ascii_bytes "{}".
Definition evs : list (Z * cache_event) :=
  [(1, Request 0 (Album "abc")); (2, FlightSettles 0 (UpOk album "application/json"));
   (3, Request 1 (Feed "imgur" "abc"))].
End Collision.
Example album_served_as_feed :
  (1%nat, Feed "imgur" "abc", 3, Found HIT Collision.album "application/json" 2)
    ∈ results (cache_run Collision.cfg Collision.evs).
Proof. vm_compute. right. left. Qed.
