(* ===== verification/CommonsTheorems.v ===== *)
(** * Properties of the commons cache

    Which requests share a cache entry; that the upstream URL has the shape of its
    template whatever the caller sends; and what an upstream answer is taken for.
    The runs of the cache are in [CommonsServes]. *)
From S2P Require Import Prelude JsMap JsText JsJson AppAttest StateFacts Http Commons CommonsCache.
From Stdlib Require Import Ascii.

(** ** Keys *)
Definition all_of (p : ascii -> bool) (s : string) : Prop := nonempty s = true /\ forallb p (chars s) = true.
Definition valid_query (q : lookup_of) : Prop :=
  match q with
  | Feed id sort | Thread id sort => all_of is_id_char id /\ all_of is_lower sort
  | Album id | Image id => all_of is_alnum id
  end.

Lemma chars_app a b : chars (a +:+ b) = chars a ++ chars b.
Proof. apply list_of_string_app. Qed.
Lemma chars_inj a b : chars a = chars b -> a = b.
Proof. apply string_of_list_inj. Qed.

Lemma feed_request_valid cfg req param comments q a :
  feed_request cfg req param comments = Lookup q a ->
  valid_query q /\ exists id sort, q = if comments : bool then Thread id sort else Feed id sort.
Proof.
  unfold feed_request. cbv zeta. destruct (_ || _) eqn:E; [done|]. bool_to_prop. intros [= <- _].
  assert (all_of is_id_char (sanitize_id (default "" (param "id")))) as Hid.
  { split; [done|]. unfold sanitize_id. rewrite chars_of_chars. apply forallb_forall.
    intros c Hc. by apply List.filter_In in Hc as [_ Hc]. }
  unfold SORT_RE in *. match goal with H : _ && _ = true |- _ => apply andb_true_iff in H as [Hs1 Hs2] end.
  split; [destruct comments; (split; [done|by split])|]. do 2 eexists. by destruct comments.
Qed.

Lemma imgur_request_valid param q a : imgur_request param = Lookup q a -> valid_query q.
Proof.
  unfold imgur_request, IMGUR_ID_RE. repeat case_match; intros [= <- _]; bool_to_prop.
  all: repeat match goal with H : _ && _ = true |- _ => apply andb_true_iff in H as [? ?] end; by split.
Qed.

Lemma dispatch_valid cfg sha256 req parsed q a :
  commons_dispatch cfg sha256 req parsed = Lookup q a -> valid_query q.
Proof.
  unfold commons_dispatch. destruct parsed as [[route param]|]; [|done].
  repeat (case_match; try done); intros Hq;
    by (apply feed_request_valid in Hq as [? _] || apply imgur_request_valid in Hq).
Qed.

(** A character that a class excludes does not occur. *)
Lemma not_in_class p c s : p c = false -> forallb p (chars s) = true -> c ∉ chars s.
Proof.
  intros Hp H Hin. rewrite forallb_forall in H. apply list_elem_of_In, H in Hin. congruence.
Qed.

(** The first [/] splits a key. *)
Definition prefix_of (q : lookup_of) : string :=
  match q with
  | Feed id _ => id | Thread id _ => "comments:" +:+ id | Album _ => "imgur" | Image _ => "imgur-image"
  end.
Definition suffix_of (q : lookup_of) : string :=
  match q with Feed _ sort | Thread _ sort => sort | Album id | Image id => id end.

Lemma key_parts q : chars (cache_key q) = chars (prefix_of q) ++ "/"%char :: chars (suffix_of q).
Proof. destruct q; cbn [cache_key prefix_of suffix_of]; by rewrite ?chars_app, <-?app_assoc. Qed.

Lemma prefix_plain q : valid_query q -> "/"%char ∉ chars (prefix_of q).
Proof.
  assert (forall id, all_of is_id_char id -> "/"%char ∉ chars id) as Hid.
  { intros id [_ H]. by apply (not_in_class is_id_char). }
  destruct q as [id sort|id sort|id|id]; cbn [prefix_of valid_query].
  - intros [H _]. by apply Hid.
  - intros [H _]. rewrite chars_app, not_elem_of_app. split; [by apply (bool_decide_unpack _)|by apply Hid].
  - intros _. by apply (bool_decide_unpack _).
  - intros _. by apply (bool_decide_unpack _).
Qed.

Lemma key_eq_parts q1 q2 :
  valid_query q1 -> valid_query q2 -> cache_key q1 = cache_key q2 ->
  prefix_of q1 = prefix_of q2 /\ suffix_of q1 = suffix_of q2.
Proof.
  intros H1%prefix_plain H2%prefix_plain E. apply (f_equal chars) in E. rewrite !key_parts in E.
  destruct (split_at_sep _ _ _ _ _ H1 H2 E) as [Ep Es]. split; by apply chars_inj.
Qed.

Lemma id_differs id s c :
  all_of is_id_char id -> c ∈ chars s -> is_id_char c = false -> id <> s.
Proof. intros [_ H] Hc Hn ->. by apply (not_in_class _ _ _ Hn) in H. Qed.

(** C31. Requests share a cache entry only when they ask for the same thing, with one
    exception: a feed whose id is "imgur" shares its entry with the imgur album
    whose id is the feed's sort. *)
Theorem cache_key_separates (cfg : commons_config) (sha256 : buffer -> buffer) (req1 req2 : http_request)
    (parsed1 parsed2 : option (string * (string -> option string))) (q1 q2 : lookup_of)
    (a1 a2 : option string) :
  commons_dispatch cfg sha256 req1 parsed1 = Lookup q1 a1 ->
  commons_dispatch cfg sha256 req2 parsed2 = Lookup q2 a2 ->
  cache_key q1 = cache_key q2 <->
  q1 = q2 \/ (exists x, q1 = Feed "imgur" x /\ q2 = Album x \/ q1 = Album x /\ q2 = Feed "imgur" x).
Proof.
  intros V1%dispatch_valid V2%dispatch_valid. split; [|intros [->|(x & [[-> ->]|[-> ->]])]; done].
  intros [Ep Es]%key_eq_parts; [|done|done].
  assert (forall id c rest, all_of is_id_char id -> id = rest -> c ∈ chars rest -> is_id_char c = true) as Hno.
  { intros id c rest Hid -> Hc. destruct (is_id_char c) eqn:E; [done|]. by destruct (id_differs rest rest c). }
  assert (forall i j, all_of is_id_char i -> i <> "comments:" +:+ j) as Hcolon.
  { intros i j Hi E. enough (is_id_char ":" = true) by done. apply (Hno _ _ _ Hi E). rewrite chars_app.
    apply elem_of_app. left. by apply (bool_decide_unpack _). }
  assert (forall i, all_of is_id_char i -> i <> "imgur-image") as Hhyphen.
  { intros i Hi E. enough (is_id_char "-" = true) by done. apply (Hno _ _ _ Hi E).
    by apply (bool_decide_unpack _). }
  destruct q1 as [i1 s1|i1 s1|i1|i1], q2 as [i2 s2|i2 s2|i2|i2];
    cbn [prefix_of suffix_of valid_query] in *; try (subst; by left); try discriminate;
    try (destruct V1 as [V1 _]); try (destruct V2 as [V2 _]); subst.
  - by destruct (Hcolon _ _ V1 eq_refl).
  - right. eauto.
  - by destruct (Hhyphen _ V1 eq_refl).
  - by destruct (Hcolon _ _ V2 eq_refl).
  - left. apply (f_equal chars) in Ep. rewrite !chars_app in Ep.
    by apply app_inv_head, chars_inj in Ep as ->.
  - right. eauto.
  - by destruct (Hhyphen _ V2 eq_refl).
Qed.

(** ** The upstream URL *)
Definition occurrences (c : ascii) (l : list ascii) : nat := length (List.filter (Ascii.eqb c) l).

Lemma occurrences_app c a b : occurrences c (a ++ b) = (occurrences c a + occurrences c b)%nat.
Proof. unfold occurrences. by rewrite List.filter_app, length_app. Qed.

Lemma occurrences_none c l : c ∉ l -> occurrences c l = 0%nat.
Proof.
  unfold occurrences. induction l as [|x l IH]; [done|]. simpl. intros [Hx Hl]%not_elem_of_cons.
  destruct (Ascii.eqb c x) eqn:E; [by apply Ascii.eqb_eq in E|by apply IH].
Qed.

Lemma starts_with_app pat s : starts_with pat s = true -> s = pat ++ drop (length pat) s.
Proof.
  revert s. induction pat as [|p pat IH]; intros [|c s]; simpl; try done.
  intros [->%Ascii.eqb_eq H]%andb_true_iff. by f_equal; apply IH.
Qed.

(** A replacement leaves the occurrences of every character that neither the
    pattern nor the replacement has. *)
Lemma occurrences_replace c pat rep k s :
  pat <> [] -> c ∉ pat -> c ∉ rep -> occurrences c (replace_lit pat rep k s) = occurrences c (drop k s).
Proof.
  intros Hn Hp Hr. revert k. induction s as [|x s IH]; intros k; [by destruct k|].
  destruct k as [|k]; cbn [replace_lit]; [|by rewrite IH]. rewrite drop_0.
  destruct (starts_with pat (x :: s)) eqn:E.
  - rewrite occurrences_app, IH, (occurrences_none c rep Hr). apply starts_with_app in E.
    transitivity (occurrences c (pat ++ drop (length pat) (x :: s))); [|by rewrite <-E].
    rewrite occurrences_app, (occurrences_none c pat Hp).
    destruct pat as [|p pat]; [done|]. simpl. by rewrite Nat.sub_0_r.
  - change (x :: s) with ([x] ++ s). change (x :: replace_lit pat rep 0 s) with ([x] ++ replace_lit pat rep 0 s).
    by rewrite !occurrences_app, IH, drop_0.
Qed.

(** The characters that an encoded component consists of. *)
Definition is_encoded_char (c : ascii) : bool := is_unreserved c || Ascii.eqb c "%".

Lemma hex_upper_encoded d : 0 <= d < 16 -> is_encoded_char (hex_upper d) = true.
Proof.
  intros Hd. assert (forall n, (n < 16)%nat -> is_encoded_char (hex_upper (Z.of_nat n)) = true) as H.
  { intros n Hn. do 16 (destruct n as [|n]; [reflexivity|]). lia. }
  rewrite <-(Z2Nat.id d) by lia. apply H. lia.
Qed.

Lemma encoded_chars s c : c ∈ encodeURIComponent s -> is_encoded_char c = true.
Proof.
  unfold encodeURIComponent. rewrite list_elem_of_bind. intros (x & Hx & _).
  assert (forall z, 0 <= z < 256 -> c ∈ percent z -> is_encoded_char c = true) as Hp.
  { intros z Hz. unfold percent. rewrite !elem_of_cons, elem_of_nil.
    intros [->|[->|[->|[]]]]; [done|apply hex_upper_encoded..]; div_lia. }
  pose proof (code_range x). unfold encode_char in Hx. destruct (is_unreserved x) eqn:E.
  - apply list_elem_of_singleton in Hx as ->. unfold is_encoded_char. by rewrite E.
  - destruct (code x <? 128) eqn:El; bool_to_prop; [by apply (Hp (code x)); [lia|]|].
    apply elem_of_app in Hx as [Hx|Hx]; eapply Hp; [|exact Hx| |exact Hx]; div_lia.
Qed.

(** C30. The caller does not shape the upstream URL: it begins with [UPSTREAM_BASE]
    and a slash, and every character with a meaning in a URL, a slash, a question
    mark, an ampersand, an at sign, a backslash, any that is neither unreserved nor
    a percent sign, occurs in it exactly as often as in the base and the template,
    whatever the identifier and the sort are. *)
Theorem upstreamUrl_no_injection (cfg : commons_config) (id sort template : string) (c : ascii) :
  let url := chars (upstreamUrl cfg id sort template) in
  let slash := if starts_with (chars "/") (upstream_path template id sort) then [] else chars "/" in
  (exists rest, url = chars (UPSTREAM_BASE cfg) ++ "/"%char :: rest) /\
  (is_encoded_char c = false -> c ∉ chars "{}" ->
   occurrences c url = occurrences c (chars (UPSTREAM_BASE cfg) ++ slash ++ chars template)).
Proof.
  cbv zeta. unfold upstreamUrl. cbv zeta. rewrite chars_of_chars. split.
  - destruct (starts_with (chars "/") (upstream_path template id sort)) eqn:E; [|eauto].
    apply starts_with_app in E. rewrite E. simpl. eauto.
  - intros Hc Hb. rewrite !occurrences_app. f_equal. f_equal.
    assert (forall s, c ∉ encodeURIComponent s) as He by (intros s H; apply encoded_chars in H; congruence).
    assert (forall w, forallb is_encoded_char (chars w) = true -> c ∉ chars ("{" +:+ w +:+ "}")) as Hpat.
    { intros w Hw. rewrite !chars_app, !not_elem_of_app. apply not_elem_of_cons in Hb as [H1 Hb].
      split; [by intros ?%list_elem_of_singleton|]. split; [|done].
      intros Hin. rewrite forallb_forall in Hw. apply list_elem_of_In, Hw in Hin. congruence. }
    unfold upstream_path.
    rewrite occurrences_replace, drop_0; [|done|by apply (Hpat "sort")|apply He].
    by rewrite occurrences_replace, drop_0; [|done|apply (Hpat "id")|apply He].
Qed.

(** ** Upstream answers *)
Lemma read_chunks_spec limit got l :
  blen got <= limit ->
  read_chunks limit got l =
  if blen (got ++ concat l) <=? limit then inr (got ++ concat l) else inl BodyTooLarge.
Proof.
  revert got. induction l as [|v l IH]; intros got Hg; cbn [read_chunks concat].
  - by rewrite app_nil_r, (proj2 (Z.leb_le _ _)).
  - destruct (_ >? limit) eqn:E; bool_to_prop.
    + rewrite (proj2 (Z.leb_gt _ _)); [done|]. rewrite !blen_app. pose proof (blen_nonneg (concat l)). lia.
    + rewrite IH by (rewrite blen_app; lia). by rewrite <-app_assoc.
Qed.

Lemma upstreamFailure_word status error : upstreamFailure status error ∈ commons_log_reasons.
Proof.
  unfold upstreamFailure. repeat case_match; by apply (bool_decide_unpack _).
Qed.

(** The body of an answer: its chunks, concatenated. *)
Definition whole_body (res : fetch_response) : buffer := concat (default [] (f_body res)).

(** An upstream answer is taken as content exactly when its status is 200 and
    its body within the limit, and then whole; a redirect is never followed; and
    whatever else happens is a failure with one of the fixed reasons, the target of
    a redirect reduced to a fixed word. *)
Theorem fetchUpstream_spec (cfg : commons_config) (resolve : string -> option url) (origin : string)
    (answered : js_error + fetch_response) :
  0 <= MAX_BODY_BYTES cfg ->
  (forall body ct, fetchUpstream cfg resolve origin answered = UpOk body ct ->
     exists res, answered = inr res /\ f_status res = 200 /\ body = whole_body res /\
       blen body <= MAX_BODY_BYTES cfg) /\
  (forall res, answered = inr res -> f_status res = 200 -> blen (whole_body res) <= MAX_BODY_BYTES cfg ->
     exists ct, fetchUpstream cfg resolve origin answered = UpOk (whole_body res) ct) /\
  (forall status reason target, fetchUpstream cfg resolve origin answered = UpFailed status reason target ->
     status <> 200 /\ reason ∈ commons_log_reasons /\
     forall t, target = Some t ->
       300 <= status < 400 /\ t ∈ ["same_origin"; "other_origin_https"; "unsafe_scheme"; "missing"; "invalid"]).
Proof.
  intros HM. assert (forall res, readBoundedBody (MAX_BODY_BYTES cfg) (f_body res) =
    if blen (whole_body res) <=? MAX_BODY_BYTES cfg then inr (whole_body res) else inl BodyTooLarge) as Hread.
  { intros res. unfold readBoundedBody, whole_body. destruct (f_body res) as [l|]; simpl.
    - by rewrite read_chunks_spec.
    - rewrite (proj2 (Z.leb_le _ _)); [done|]. unfold blen. simpl. lia. }
  unfold fetchUpstream. destruct answered as [e|res].
  { split; [done|]. split; [done|]. intros s r t [= <- <- <-]. split; [done|].
    split; [apply upstreamFailure_word|done]. }
  rewrite Hread. destruct (f_status res =? 200) eqn:Es; simpl negb; cbv iota; bool_to_prop.
  - destruct (_ <=? _) eqn:El; bool_to_prop.
    + split; [intros b ct [= <- <-]; eauto|]. split; [|done]. intros res' [= <-] _ _. eauto.
    + split; [done|]. split; [intros res' [= <-] _ ?; lia|]. intros s r t [= <- <- <-].
      split; [done|]. split; [apply upstreamFailure_word|done].
  - split; [done|]. split; [intros res' [= <-] ?; done|]. intros s r t [= <- <- <-].
    split; [done|]. split; [apply upstreamFailure_word|]. intros t. unfold redirectTargetClass.
    destruct (_ || _) eqn:Er; [done|]. bool_to_prop. intros Ht. split; [lia|].
    repeat case_match; injection Ht as <-; set_solver.
Qed.

(** ** Witnesses *)
Module UrlSample.
Definition param (l : list (string * string)) (k : string) : option string := map_get String.eqb l k.
Definition get (path : string) : http_request := HttpRequest "GET" path [] "10.0.0.1".
Definition feed := Some ("/v1/commons", param [("id", "imgur"); ("sort", "abc")]).
Definition album := Some ("/v1/imgur", param [("id", "abc")]).
Definition resolve (s : string) : option url := None.
Definition redirected : js_error + fetch_response := inr (FetchResponse 302 (Some " ") None None).
Example redirect_not_followed :
  fetchUpstream Collision.cfg resolve "https://example.com" redirected = UpFailed 302 "redirect" (Some "missing").
Proof. vm_compute. reflexivity. Qed.
Example encoded : upstreamUrl Collision.cfg "a/../b" "x&y" "/c/{id}?s={sort}" = "https://example.com/c/a%2F..%2Fb?s=x%26y".
Proof. vm_compute. reflexivity. Qed.
End UrlSample.

Lemma cache_key_separates_witness :
  cache_key (Feed "imgur" "abc") = cache_key (Album "abc") <->
  Feed "imgur" "abc" = Album "abc" \/
  (exists x, Feed "imgur" "abc" = Feed "imgur" x /\ Album "abc" = Album x \/
             Feed "imgur" "abc" = Album x /\ Album "abc" = Feed "imgur" x).
Proof.
  apply (cache_key_separates Collision.cfg (fun b => b) (UrlSample.get "/v1/commons") (UrlSample.get "/v1/imgur")
    UrlSample.feed UrlSample.album _ _ None None); vm_compute; reflexivity.
Defined.

Lemma upstreamUrl_no_injection_witness :
  occurrences "/" (chars (upstreamUrl Collision.cfg "a/../b" "x&y" "/c/{id}?s={sort}")) = 4%nat.
Proof.
  rewrite (proj2 (upstreamUrl_no_injection Collision.cfg "a/../b" "x&y" "/c/{id}?s={sort}" "/"));
    [reflexivity|reflexivity|]. by apply (bool_decide_unpack _).
Defined.

Lemma fetchUpstream_spec_witness :
  302 <> 200 /\ "redirect" ∈ commons_log_reasons /\
  (forall t, Some "missing" = Some t ->
     300 <= 302 < 400 /\ t ∈ ["same_origin"; "other_origin_https"; "unsafe_scheme"; "missing"; "invalid"]).
Proof.
  apply (fetchUpstream_spec Collision.cfg UrlSample.resolve "https://example.com" UrlSample.redirected);
    [vm_compute; discriminate|exact UrlSample.redirect_not_followed].
Defined.
