(* ===== verification/CommonsServes.v ===== *)
(** * What the commons cache serves

    Theorems about every run of [CommonsCache.cache_run]: what a request is given
    was fetched under its key and is no older than its mark allows, a key has one
    flight and an entry one revalidation at a time, nobody waits for nothing, and
    the cache keeps its bound. *)
From S2P Require Import Prelude JsMap JsText JsJson StateFacts Http Commons CommonsCache.

(** ** The map of entries *)
Section bound.
Context (cfg : commons_config).

Lemma evict_suffix m m' : evict cfg m = Ok m' -> m' `suffix_of` m.
Proof.
  induction m as [|kv m IH]; cbn [evict]; case_match; [done|by intros [= <-]| |by intros [= <-]].
  intros Hm. by apply suffix_cons_r, IH.
Qed.
Lemma evict_elem m m' kv : evict cfg m = Ok m' -> kv ∈ m' -> kv ∈ m.
Proof. intros [k ->]%evict_suffix H. apply elem_of_app. by right. Qed.
Lemma evict_size m m' : evict cfg m = Ok m' -> map_size m' <= MAX_ENTRIES cfg.
Proof.
  induction m as [|kv m IH]; cbn [evict]; destruct (_ >? _) eqn:E; bool_to_prop; try done;
    by intros [= <-].
Qed.
Lemma evict_NoDup m m' : evict cfg m = Ok m' -> NoDup m.*1 -> NoDup m'.*1.
Proof. intros [k ->]%evict_suffix H. rewrite fmap_app in H. by apply NoDup_app in H as (_ & _ & H). Qed.
(** The loop ends exactly when the bound is not negative. *)
Lemma evict_ends m : (exists m', evict cfg m = Ok m') <-> 0 <= MAX_ENTRIES cfg.
Proof.
  split.
  - intros [m' H%evict_size]. unfold map_size in H. lia.
  - intros H. induction m as [|kv m IH]; cbn [evict]; destruct (_ >? _) eqn:E; bool_to_prop; eauto.
    unfold map_size in E. simpl in E. lia.
Qed.

Lemma map_set_elem (m : list (string * nat)) k v kv :
  kv ∈ map_set String.eqb m k v -> kv = (k, v) \/ kv ∈ m.
Proof.
  induction m as [|[k1 v1] m IH]; cbn [map_set]; [set_solver|].
  destruct (String.eqb k k1) eqn:E; [|set_solver].
  apply String.eqb_eq in E as ->. set_solver.
Qed.
Lemma map_delete_elem (m : list (string * nat)) k kv : kv ∈ map_delete String.eqb m k -> kv ∈ m.
Proof. intros H. by eapply (elem_of_sublist _ _ _ H), map_delete_sublist. Qed.

Lemma cacheSet_elem k e m m' kv : cacheSet cfg k e m = Ok m' -> kv ∈ m' -> kv = (k, e) \/ kv ∈ m.
Proof. intros H [->|Hm%map_delete_elem]%(evict_elem _ _ _ H)%map_set_elem; auto. Qed.
Lemma cacheSet_NoDup k e m m' : cacheSet cfg k e m = Ok m' -> NoDup m.*1 -> NoDup m'.*1.
Proof.
  intros H Hm. apply (evict_NoDup _ _ H), (map_set_NoDup _ eqb_string). by apply map_delete_NoDup.
Qed.

(** ** What an answer may be *)

(** A body was fetched at a time for a query of a key, with its type. *)
Definition sourced (s : cache_state) (key : string) (body : buffer) (ct : string) (at_ : Z) : Prop :=
  exists q raw, cache_key q = key /\ (q, body, raw, at_) ∈ fetched s /\ ct = stored_type q raw.

(** What its mark says of an answer: [HIT] and [STALE] come from an entry of the
    right age, [MISS] and [COALESCED] from a fetch that has just ended. *)
Definition answer_ok (s : cache_state) (q : lookup_of) (now : Z) (out : lookup_result) : Prop :=
  match out with
  | Found HIT body ct t => sourced s (cache_key q) body ct t /\ now - t < TTL_MS cfg
  | Found STALE body ct t =>
      sourced s (cache_key q) body ct t /\ TTL_MS cfg <= now - t < TTL_MS cfg + SWR_MS cfg
  | Found MISS body ct t | Found COALESCED body ct t =>
      (exists q' raw, cache_key q' = cache_key q /\ (q', body, raw, t) ∈ fetched s /\ ct = stored_type q raw) /\
      t = now
  | Unavailable _ _ _ => True
  end.

(** A state is extended when nothing fetched is forgotten and no entry changes
    its content. *)
Definition same_content (e1 e2 : entry) : Prop :=
  e_body e1 = e_body e2 /\ e_contentType e1 = e_contentType e2 /\ e_fetchedAt e1 = e_fetchedAt e2.
Record extends (s s' : cache_state) : Prop := {
  ext_fetched x : x ∈ fetched s -> x ∈ fetched s';
  ext_entries i e : entries s !! i = Some e -> exists e', entries s' !! i = Some e' /\ same_content e e';
}.

Lemma sourced_extends s s' key body ct t :
  extends s s' -> sourced s key body ct t -> sourced s' key body ct t.
Proof. intros [Hf _] (q & raw & ? & ? & ?). exists q, raw. auto. Qed.
Lemma answer_ok_extends s s' q now out : extends s s' -> answer_ok s q now out -> answer_ok s' q now out.
Proof.
  intros Hx. destruct out as [[] body ct t|]; [..|done]; intros [H ?]; (split; [|done]).
  - by eapply sourced_extends.
  - by eapply sourced_extends.
  - destruct H as (q' & raw & ? & ?%(ext_fetched _ _ Hx) & ?). by exists q', raw.
  - destruct H as (q' & raw & ? & ?%(ext_fetched _ _ Hx) & ?). by exists q', raw.
Qed.

(** ** The invariant of content *)
Record content_ok (s : cache_state) : Prop := {
  co_cache key i : (key, i) ∈ cache s ->
    exists e, entries s !! i = Some e /\ sourced s key (e_body e) (e_contentType e) (e_fetchedAt e);
  co_waiting w : w ∈ waiting s ->
    exists q, flights s !! w_flight w = Some (Flight q false) /\ cache_key q = cache_key (w_query w);
  co_results r q now out : (r, q, now, out) ∈ results s -> answer_ok s q now out;
  co_nodup : NoDup (cache s).*1;
  co_size : map_size (cache s) <= Z.max 0 (MAX_ENTRIES cfg);
}.
(** [inflight] holds exactly the flights that have not settled. *)
Definition flights_ok (s : cache_state) : Prop :=
  NoDup (inflight s).*1 /\
  forall key f, map_get String.eqb (inflight s) key = Some f <->
    exists q, flights s !! f = Some (Flight q false) /\ cache_key q = key.
(** An entry is flagged exactly while its one revalidation is under way. *)
Record flags_ok (s : cache_state) : Prop := {
  fo_flag v q i : revalidations s !! v = Some (Revalidation q i false) ->
    exists e, entries s !! i = Some e /\ revalidating e = true;
  fo_under_way i e : entries s !! i = Some e -> revalidating e = true ->
    exists v q, revalidations s !! v = Some (Revalidation q i false);
  fo_one v1 v2 q1 q2 i : revalidations s !! v1 = Some (Revalidation q1 i false) ->
    revalidations s !! v2 = Some (Revalidation q2 i false) -> v1 = v2;
}.

(** *** Storing a fetch *)
Lemma extends_same s s' : fetched s' = fetched s -> entries s' = entries s -> extends s s'.
Proof. intros Hf He. split; rewrite ?Hf, ?He; [done|]. intros i e ?. by exists e. Qed.
Lemma store_extends q body ct now s : extends s (store cfg q body ct now s).
Proof.
  unfold store. case_match; [|by apply extends_same].
  split; cbn [fetched entries]; [set_solver|]. intros i e He. exists e. split; [|done].
  by apply lookup_app_l_Some.
Qed.
Lemma store_sourced q body ct now s :
  hung (store cfg q body ct now s) = false -> (q, body, ct, now) ∈ fetched (store cfg q body ct now s).
Proof. unfold store. case_match; [|done]. intros _. cbn [fetched]. set_solver. Qed.
Lemma store_hung q body ct now s :
  0 <= MAX_ENTRIES cfg -> hung (store cfg q body ct now s) = hung s.
Proof.
  intros H. destruct (proj2 (evict_ends
    (map_set String.eqb (map_delete String.eqb (cache s) (cache_key q)) (cache_key q) (length (entries s)))) H)
    as [m Hm].
  unfold store, cacheSet. by rewrite Hm.
Qed.

Lemma hang_content s : content_ok s -> content_ok (hang s).
Proof. intros [Hc Hw Hr Hd Hs]. by constructor. Qed.
Lemma hang_flags s : flags_ok s -> flags_ok (hang s).
Proof. intros [Hf Hu Ho]. by constructor. Qed.

Lemma store_content q body ct now s : content_ok s -> content_ok (store cfg q body ct now s).
Proof.
  intros Hok. pose proof (store_extends q body ct now s) as Hx. revert Hx. unfold store.
  destruct (cacheSet _ _ _ _) as [m|] eqn:E; [|intros _; by apply hang_content].
  intros Hx. destruct Hok as [Hc Hw Hr Hd Hs]. constructor; [|done|..].
  - cbn [cache entries]. intros key i [[= -> ->]|H]%(cacheSet_elem _ _ _ _ _ E).
    + eexists. rewrite list_lookup_middle by done. split; [done|]. exists q, ct. cbn [fetched]. set_solver.
    + destruct (Hc _ _ H) as (e & He & Hsrc). exists e. split; [by apply lookup_app_l_Some|].
      by eapply sourced_extends.
  - intros r q' now' out H. by apply (answer_ok_extends s), (Hr r).
  - by eapply cacheSet_NoDup.
  - cbn [cache]. apply evict_size in E. lia.
Qed.

Lemma store_flags q body ct now s : flags_ok s -> flags_ok (store cfg q body ct now s).
Proof.
  intros Hok. unfold store. case_match; [|by apply hang_flags].
  destruct Hok as [Hf Hu Ho]. constructor; cbn [revalidations entries]; [|  |done].
  - intros v q' i Hv. destruct (Hf _ _ _ Hv) as (e & He & ?). exists e. split; [|done].
    by apply lookup_app_l_Some.
  - intros i e [Hi|[Hlen Hi]]%lookup_app_Some; [by eapply Hu|].
    apply list_lookup_singleton_Some in Hi as [_ <-]. done.
Qed.

(** *** A request *)
Lemma content_extends s s' :
  extends s s' -> cache s' = cache s ->
  (forall w, w ∈ waiting s' ->
     exists q, flights s' !! w_flight w = Some (Flight q false) /\ cache_key q = cache_key (w_query w)) ->
  (forall r q now out, (r, q, now, out) ∈ results s' -> answer_ok s' q now out) ->
  content_ok s -> content_ok s'.
Proof.
  intros Hx Hcache Hw Hr [Hc _ _ Hd Hs]. constructor; rewrite ?Hcache; try done.
  intros key i H. destruct (Hc _ _ H) as (e & He & Hsrc).
  destruct (ext_entries _ _ Hx _ _ He) as (e' & He' & Eb & Et & Ea). exists e'. split; [done|].
  rewrite <-Eb, <-Et, <-Ea. by eapply sourced_extends.
Qed.
Lemma results_extend s s' :
  extends s s' -> results s' = results s -> content_ok s ->
  forall r q now out, (r, q, now, out) ∈ results s' -> answer_ok s' q now out.
Proof. intros Hx -> Hok r q now out H. by apply (answer_ok_extends s), (co_results s Hok r). Qed.

Lemma answer_content r q now out s :
  content_ok s -> answer_ok s q now out -> content_ok (answer r q now out s).
Proof.
  intros Hok Ha. apply (content_extends s); [by apply extends_same|done|apply Hok| |done].
  cbn [answer results]. intros r' q' now' out' [H|[= -> -> -> ->]%list_elem_of_singleton]%elem_of_app;
    (apply (answer_ok_extends s); [by apply extends_same|]); [by apply (co_results _ Hok r')|done].
Qed.

Lemma unsettled_app (fs : list flight) f q q' :
  fs !! f = Some (Flight q false) -> (fs ++ [q']) !! f = Some (Flight q false).
Proof. apply lookup_app_l_Some. Qed.

Lemma cold_content r q s : flights_ok s -> content_ok s -> content_ok (cold r q s).
Proof.
  intros [_ Hf] Hok. unfold cold. destruct (map_get _ _ _) as [f|] eqn:E;
    (apply (content_extends s); [by apply extends_same|done| |apply (results_extend s);
       [by apply extends_same|done|done]|done]);
    cbn [waiting flights]; intros w [H| ->%list_elem_of_singleton]%elem_of_app.
  - by apply Hok.
  - by apply Hf.
  - destruct (co_waiting _ Hok _ H) as (q' & ? & ?). exists q'. split; [by apply unsettled_app|done].
  - exists q. cbn. by rewrite list_lookup_middle.
Qed.

Lemma cold_flights r q s : flights_ok s -> flights_ok (cold r q s).
Proof.
  intros [Hd Hf]. unfold cold. destruct (map_get _ _ _) as [f|] eqn:E; [done|].
  split; cbn [inflight flights]; [by apply (map_set_NoDup _ eqb_string)|]. intros key f.
  destruct (decide (cache_key q = key)) as [<-|Hne].
  - rewrite (map_get_set_eq _ eqb_string). split.
    + intros [= <-]. exists q. by rewrite list_lookup_middle.
    + intros (q' & [H|[Hl H]]%lookup_app_Some & Hk).
      * assert (map_get String.eqb (inflight s) (cache_key q) = Some f) by (apply Hf; eauto). congruence.
      * apply list_lookup_singleton_Some in H as [? _]. f_equal. lia.
  - rewrite (map_get_set_ne _ eqb_string) by done. rewrite Hf. split.
    + intros (q' & ? & ?). exists q'. split; [by apply unsettled_app|done].
    + intros (q' & [H|[Hl H]]%lookup_app_Some & Hk); [eauto|].
      apply list_lookup_singleton_Some in H as [_ [= ->]]. done.
Qed.

Lemma revalidate_extends q i e s : entries s !! i = Some e -> extends s (revalidate q i e s).
Proof.
  intros He. unfold revalidate. destruct (revalidating e); [by apply extends_same|].
  split; [done|]. cbn [entries]. intros j e' Hj. destruct (decide (i = j)) as [<-|Hne].
  - rewrite list_lookup_insert_eq by (by eapply lookup_lt_Some). replace e' with e by congruence. by eexists.
  - rewrite list_lookup_insert_ne by done. by exists e'.
Qed.
Lemma revalidate_content q i e s : entries s !! i = Some e -> content_ok s -> content_ok (revalidate q i e s).
Proof.
  intros He Hok. pose proof (revalidate_extends q i e s He) as Hx.
  apply (content_extends s); try done.
  - by unfold revalidate; case_match.
  - unfold revalidate. case_match; apply Hok.
  - apply (results_extend s); [done| |done]. by unfold revalidate; case_match.
Qed.
Lemma revalidate_flights q i e s : flights_ok s -> flights_ok (revalidate q i e s).
Proof. by unfold revalidate; case_match. Qed.
Lemma revalidate_flags q i e s : entries s !! i = Some e -> flags_ok s -> flags_ok (revalidate q i e s).
Proof.
  intros He [Hf Hu Ho]. unfold revalidate. destruct (revalidating e) eqn:Er; [done|].
  pose proof (lookup_lt_Some _ _ _ He) as Hl.
  assert (forall v q', revalidations s !! v = Some (Revalidation q' i false) -> False) as Hnone.
  { intros v q' (e' & ? & ?)%Hf. congruence. }
  constructor; cbn [revalidations entries].
  - intros v q' j [H|[_ [_ [= _ <-]]%list_lookup_singleton_Some]]%lookup_app_Some.
    + rewrite list_lookup_insert_ne by (intros ->; by eapply Hnone). by eapply Hf.
    + rewrite list_lookup_insert_eq by done. by eexists.
  - intros j e'. destruct (decide (i = j)) as [<-|Hne].
    + intros _ _. exists (length (revalidations s)), q. by rewrite list_lookup_middle.
    + rewrite list_lookup_insert_ne by done. intros H H'. destruct (Hu _ _ H H') as (v & q' & Hv).
      exists v, q'. by apply lookup_app_l_Some.
  - intros v1 v2 q1 q2 j [H1|[L1 [? [= _ E1]]%list_lookup_singleton_Some]]%lookup_app_Some
      [H2|[L2 [? [= _ E2]]%list_lookup_singleton_Some]]%lookup_app_Some.
    + by eapply Ho.
    + subst. by destruct (Hnone _ _ H1).
    + subst. by destruct (Hnone _ _ H2).
    + lia.
Qed.

(** *** A flight settles *)

(** The store of a result, if it is one; and what is left of the state when
    flight [f] for [q] has settled. *)
Definition stored (q : lookup_of) (up : upstream) (now : Z) (s : cache_state) : cache_state :=
  match up with UpOk body ct => store cfg q body ct now s | UpFailed _ _ _ => s end.
Definition landed (f : nat) (q : lookup_of) (s : cache_state) : cache_state :=
  CacheState (cache s) (entries s) (map_delete String.eqb (inflight s) (cache_key q))
    (<[f := Flight q true]> (flights s)) (revalidations s)
    (List.filter (fun w => negb (waits_for f w)) (waiting s)) (results s) (fetched s) (hung s).
Definition answered (f : nat) (up : upstream) (now : Z) (s : cache_state) :
    list (nat * lookup_of * Z * lookup_result) :=
  (fun w => (w_request w, w_query w, now, outcome_for w now up)) <$> List.filter (waits_for f) (waiting s).
Definition add_results (rs : list (nat * lookup_of * Z * lookup_result)) (s : cache_state) : cache_state :=
  CacheState (cache s) (entries s) (inflight s) (flights s) (revalidations s) (waiting s)
    (results s ++ rs) (fetched s) (hung s).

Lemma flight_settles_eq f up now s q :
  flights s !! f = Some (Flight q false) ->
  flight_settles cfg f up now s =
    if hung (stored q up now (landed f q s)) then hang s
    else add_results (answered f up now s) (stored q up now (landed f q s)).
Proof.
  intros H. unfold flight_settles. rewrite H. destruct up as [body ct|]; [|done]. cbn [stored].
  unfold store, landed. cbn [cache entries]. destruct (cacheSet cfg _ _ _); [|done]. by destruct (hung s).
Qed.

Lemma stored_content q up now s : content_ok s -> content_ok (stored q up now s).
Proof. destruct up; [apply store_content|done]. Qed.
Lemma stored_flags q up now s : flags_ok s -> flags_ok (stored q up now s).
Proof. destruct up; [apply store_flags|done]. Qed.
Lemma stored_same q up now s :
  inflight (stored q up now s) = inflight s /\ flights (stored q up now s) = flights s /\
  revalidations (stored q up now s) = revalidations s /\
  waiting (stored q up now s) = waiting s /\ results (stored q up now s) = results s.
Proof. destruct up; [|done]. cbn [stored]. unfold store. by case_match. Qed.
Lemma stored_hung q up now s : 0 <= MAX_ENTRIES cfg -> hung (stored q up now s) = hung s.
Proof. intros H. destruct up; [by apply store_hung|done]. Qed.
Lemma stored_extends q up now s : extends s (stored q up now s).
Proof. destruct up; [apply store_extends|by apply extends_same]. Qed.

Lemma waits_for_true f w : waits_for f w = true <-> w_flight w = f.
Proof. apply Nat.eqb_eq. Qed.
Lemma elem_of_filter_bool {A} (p : A -> bool) (l : list A) x : x ∈ List.filter p l <-> x ∈ l /\ p x = true.
Proof. by rewrite !list_elem_of_In, List.filter_In. Qed.

Lemma landed_content f q s : content_ok s -> content_ok (landed f q s).
Proof.
  intros Hok. apply (content_extends s); [by apply extends_same|done| |by apply (results_extend s);
    [apply extends_same|..]|done].
  cbn [landed waiting flights]. intros w [Hw Hn]%elem_of_filter_bool.
  destruct (co_waiting _ Hok w Hw) as (q' & ? & ?). exists q'. split; [|done].
  rewrite list_lookup_insert_ne; [done|]. intros ->. apply negb_true_iff in Hn.
  assert (waits_for (w_flight w) w = true) by by apply waits_for_true. congruence.
Qed.

Lemma landed_flights f q s : flights s !! f = Some (Flight q false) -> flights_ok s -> flights_ok (landed f q s).
Proof.
  intros H [Hd Hf]. split; cbn [landed inflight flights]; [by apply map_delete_NoDup|].
  assert (map_get String.eqb (inflight s) (cache_key q) = Some f) as Hq by (apply Hf; eauto).
  intros key g. assert (<[f:=Flight q true]> (flights s) !! f = Some (Flight q true)) as Hn
    by (apply list_lookup_insert_eq; by eapply lookup_lt_Some).
  destruct (decide (cache_key q = key)) as [<-|Hne].
  - rewrite (map_get_delete_eq _ eqb_string) by done. split; [done|]. intros (q' & Hg & Hk).
    destruct (decide (f = g)) as [<-|Hfg]; [congruence|]. rewrite list_lookup_insert_ne in Hg by done.
    assert (map_get String.eqb (inflight s) (cache_key q) = Some g) by (apply Hf; eauto). congruence.
  - rewrite (map_get_delete_ne _ eqb_string), Hf by done.
    split; intros (q' & Hg & Hk); exists q'; (split; [|done]);
      (destruct (decide (f = g)) as [<-|Hfg]; [congruence|]); by rewrite ?list_lookup_insert_ne in * by done.
Qed.

Lemma settled_content f up now s q :
  flights s !! f = Some (Flight q false) -> content_ok s -> content_ok (flight_settles cfg f up now s).
Proof.
  intros Hf Hok. rewrite (flight_settles_eq _ _ _ _ q) by done. set (s2 := stored q up now (landed f q s)).
  assert (content_ok s2) as H2 by by apply stored_content, landed_content.
  destruct (hung s2) eqn:Hh; [by apply hang_content|].
  apply (content_extends s2); [by apply extends_same|done|apply H2| |done].
  cbn [add_results results]. intros r q' now' out [H|H]%elem_of_app;
    (apply (answer_ok_extends s2); [by apply extends_same|]); [by apply (co_results _ H2 r)|].
  unfold answered in H. apply list_elem_of_fmap in H as (w & [= -> -> -> ->] & [Hw Hfl]%elem_of_filter_bool).
  apply waits_for_true in Hfl. destruct (co_waiting _ Hok w Hw) as (q' & Hq & Hk). rewrite Hfl, Hf in Hq.
  injection Hq as <-. destruct up as [body ct|]; [|done]. cbn [outcome_for].
  pose proof (store_sourced q body ct now (landed f q s) Hh) as Hsrc.
  destruct (isLeader w); (split; [|done]); exists q, ct; (split; [done|]); (split; [|done]); exact Hsrc.
Qed.

(** *** A revalidation settles *)
Definition unflag (i : nat) (l : list entry) : list entry :=
  match l !! i with
  | Some e => <[i := Entry (e_body e) (e_contentType e) (e_fetchedAt e) false]> l
  | None => l
  end.
Lemma unflag_lookup i j l e :
  unflag i l !! j = Some e -> revalidating e = true -> i <> j /\ l !! j = Some e.
Proof.
  unfold unflag. destruct (l !! i) as [e'|] eqn:E.
  - destruct (decide (i = j)) as [<-|Hne]; [|by rewrite list_lookup_insert_ne].
    rewrite list_lookup_insert_eq by (by eapply lookup_lt_Some). by intros [= <-].
  - intros H _. split; [congruence|done].
Qed.
Lemma unflag_ne i j l : i <> j -> unflag i l !! j = l !! j.
Proof. intros H. unfold unflag. case_match; [by apply list_lookup_insert_ne|done]. Qed.
Lemma unflag_content i j l e :
  l !! j = Some e -> exists e', unflag i l !! j = Some e' /\ same_content e e'.
Proof.
  intros H. destruct (decide (i = j)) as [<-|Hne]; [|rewrite unflag_ne by done; by exists e].
  unfold unflag. rewrite H, list_lookup_insert_eq by (by eapply lookup_lt_Some). by eexists.
Qed.
Definition revalidated (v i : nat) (q : lookup_of) (s : cache_state) : cache_state :=
  CacheState (cache s) (unflag i (entries s)) (inflight s) (flights s)
    (<[v := Revalidation q i true]> (revalidations s)) (waiting s) (results s) (fetched s) (hung s).

Lemma revalidation_settles_eq v up now s q i :
  revalidations s !! v = Some (Revalidation q i false) ->
  revalidation_settles cfg v up now s =
    if hung (stored q up now s) then hang s else revalidated v i q (stored q up now s).
Proof. intros H. unfold revalidation_settles. rewrite H. by destruct up. Qed.

Lemma revalidated_content v i q s : content_ok s -> content_ok (revalidated v i q s).
Proof.
  intros Hok. assert (extends s (revalidated v i q s)) by (split; [done|intros j e; apply unflag_content]).
  apply (content_extends s); [done|done|apply Hok|by apply (results_extend s)|done].
Qed.
Lemma revalidated_flags v i q s :
  revalidations s !! v = Some (Revalidation q i false) -> flags_ok s -> flags_ok (revalidated v i q s).
Proof.
  intros Hv [Hf Hu Ho]. assert (<[v:=Revalidation q i true]> (revalidations s) !! v =
    Some (Revalidation q i true)) as Hn by (apply list_lookup_insert_eq; by eapply lookup_lt_Some).
  assert (forall v' q' j, <[v:=Revalidation q i true]> (revalidations s) !! v' = Some (Revalidation q' j false) ->
            v <> v' /\ revalidations s !! v' = Some (Revalidation q' j false)) as Hget.
  { intros v' q' j. destruct (decide (v = v')) as [<-|Hne]; [congruence|]. by rewrite list_lookup_insert_ne. }
  constructor; cbn [revalidated revalidations entries].
  - intros v' q' j [Hne H]%Hget. rewrite unflag_ne; [by eapply Hf|]. intros <-. by apply Hne, (Ho _ _ q q' i).
  - intros j e H He. destruct (unflag_lookup _ _ _ _ H He) as [Hne H']. destruct (Hu _ _ H' He) as (v' & q' & ?).
    exists v', q'. rewrite list_lookup_insert_ne; [done|]. congruence.
  - intros v1 v2 q1 q2 j [_ H1]%Hget [_ H2]%Hget. by eapply Ho.
Qed.

(** ** A run *)
Record cache_ok (s : cache_state) : Prop := {
  ca_content : content_ok s; ca_flights : flights_ok s; ca_flags : flags_ok s }.

Lemma cold_ok r q s : cache_ok s -> cache_ok (cold r q s).
Proof.
  intros [Hc Hf Hg]. constructor; [by apply cold_content|by apply cold_flights|].
  unfold cold. case_match; by destruct Hg.
Qed.
Lemma revalidate_ok q i e s : entries s !! i = Some e -> cache_ok s -> cache_ok (revalidate q i e s).
Proof.
  intros He [Hc Hf Hg].
  constructor; [by apply revalidate_content|by apply revalidate_flights|by apply revalidate_flags].
Qed.
Lemma answer_cache_ok r q now out s : answer_ok s q now out -> cache_ok s -> cache_ok (answer r q now out s).
Proof. intros Ha [Hc Hf [? ? ?]]. constructor; [by apply answer_content|done|done]. Qed.

Lemma getCached_ok r q now s : cache_ok s -> cache_ok (getCached cfg r q now s).
Proof.
  intros Hok. unfold getCached. destruct (map_get _ _ _) as [i|] eqn:E; [|by apply cold_ok].
  apply map_get_elem in E; [|apply eqb_string].
  destruct (co_cache _ (ca_content _ Hok) _ _ E) as (e & He & Hsrc). rewrite He.
  destruct (_ <? TTL_MS cfg) eqn:E1; [|destruct (_ <? _ + _) eqn:E2; [|by apply cold_ok]]; bool_to_prop.
  - by apply answer_cache_ok.
  - apply answer_cache_ok; [|by apply revalidate_ok].
    apply (answer_ok_extends s); [by apply revalidate_extends|]. by split.
Qed.

Lemma hang_ok s : cache_ok s -> cache_ok (hang s).
Proof. intros [Hc Hf Hg]. constructor; [by apply hang_content|done|by apply hang_flags]. Qed.

Lemma flight_settles_ok f up now s : cache_ok s -> cache_ok (flight_settles cfg f up now s).
Proof.
  intros Hok. destruct (flights s !! f) as [[q []]|] eqn:Hf; [by unfold flight_settles; rewrite Hf| |
    by unfold flight_settles; rewrite Hf].
  pose proof (settled_content f up now s q Hf (ca_content _ Hok)) as Hc.
  rewrite (flight_settles_eq _ _ _ _ q Hf) in *.
  destruct (hung (stored q up now (landed f q s))); [by apply hang_ok|]. destruct Hok as [_ Hfl Hg].
  destruct (stored_same q up now (landed f q s)) as (Ei & Ef & _). constructor; [done|..].
  - unfold flights_ok. cbn [add_results inflight flights]. rewrite Ei, Ef. by apply landed_flights.
  - assert (flags_ok (stored q up now (landed f q s))) as []; [|done].
    apply stored_flags. by destruct Hg.
Qed.

Lemma revalidation_settles_ok v up now s : cache_ok s -> cache_ok (revalidation_settles cfg v up now s).
Proof.
  intros Hok. destruct (revalidations s !! v) as [[q i []]|] eqn:Hv; [by unfold revalidation_settles; rewrite Hv| |
    by unfold revalidation_settles; rewrite Hv].
  rewrite (revalidation_settles_eq _ _ _ _ q i) by done.
  destruct (hung (stored q up now s)); [by apply hang_ok|]. destruct Hok as [Hc Hfl Hg].
  destruct (stored_same q up now s) as (Ei & Ef & Ev & _). constructor.
  - by apply revalidated_content, stored_content.
  - unfold flights_ok. cbn [revalidated inflight flights]. by rewrite Ei, Ef.
  - apply revalidated_flags; [by rewrite Ev|by apply stored_flags].
Qed.

Lemma cache_step_ok s e : cache_ok s -> cache_ok (cache_step cfg s e).
Proof.
  intros Hok. unfold cache_step. destruct (hung s); [done|].
  destruct e as [now [r q|f up|v up]];
    [by apply getCached_ok|by apply flight_settles_ok|by apply revalidation_settles_ok].
Qed.

Lemma run_ok evs : cache_ok (cache_run cfg evs).
Proof.
  unfold cache_run. assert (cache_ok empty_cache) as H0.
  { split; [|split; [constructor|]|]; [..|split; try done].
    - split; cbn; [set_solver..|constructor|unfold map_size; simpl; lia].
    - intros key f. split; [done|]. by intros (q & ? & _). }
  revert H0. generalize empty_cache. induction evs as [|e evs IH]; [done|]. intros s Hs.
  apply IH. by apply cache_step_ok.
Qed.

(** *** Where things come from *)
Definition asked (evs : list (Z * cache_event)) (q : lookup_of) : Prop :=
  exists t r, (t, Request r q) ∈ evs.
Definition came (evs : list (Z * cache_event)) (body : buffer) (raw : string) (t : Z) : Prop :=
  exists e, (t, e) ∈ evs /\ ((exists f, e = FlightSettles f (UpOk body raw)) \/
                            (exists v, e = RevalidationSettles v (UpOk body raw))).
Definition answered_or_waiting (s : cache_state) (r : nat) (q : lookup_of) : Prop :=
  (exists now out, (r, q, now, out) ∈ results s) \/
  (exists w, w ∈ waiting s /\ w_request w = r /\ w_query w = q).
Record traced (evs : list (Z * cache_event)) (s : cache_state) : Prop := {
  tr_flight fl : fl ∈ flights s -> asked evs (fl_query fl);
  tr_revalidation rv : rv ∈ revalidations s -> asked evs (rv_query rv);
  tr_fetched q body raw t : (q, body, raw, t) ∈ fetched s -> asked evs q /\ came evs body raw t;
  tr_request t r q : hung s = false -> (t, Request r q) ∈ evs -> answered_or_waiting s r q;
}.

Lemma asked_app evs e q : asked evs q -> asked (evs ++ [e]) q.
Proof. intros (t & r & ?). exists t, r. set_solver. Qed.
Lemma came_app evs e body raw t : came evs body raw t -> came (evs ++ [e]) body raw t.
Proof. intros (e' & ? & ?). exists e'. set_solver. Qed.

Lemma traced_step evs e s s' :
  traced evs s -> hung s = false ->
  (forall fl, fl ∈ flights s' -> fl ∈ flights s \/ asked (evs ++ [e]) (fl_query fl)) ->
  (forall rv, rv ∈ revalidations s' -> rv ∈ revalidations s \/ asked (evs ++ [e]) (rv_query rv)) ->
  (forall q body raw t, (q, body, raw, t) ∈ fetched s' ->
     (q, body, raw, t) ∈ fetched s \/ asked evs q /\ came (evs ++ [e]) body raw t) ->
  (forall r q, answered_or_waiting s r q -> answered_or_waiting s' r q) ->
  (forall t r q, e = (t, Request r q) -> answered_or_waiting s' r q) ->
  traced (evs ++ [e]) s'.
Proof.
  intros [Hf Hv Hb Hr] Hh Hf' Hv' Hb' Hmono Hnew. constructor.
  - intros fl [H|H]%Hf'; [by apply asked_app, Hf|done].
  - intros rv [H|H]%Hv'; [by apply asked_app, Hv|done].
  - intros q body raw t [[? ?]%Hb|[? ?]]%Hb'; split; try done; by (apply asked_app || apply came_app).
  - intros t r q _ [H| <-%list_elem_of_singleton]%elem_of_app; [by eapply Hmono, Hr|by eapply Hnew].
Qed.
(** A process that hangs fetches and asks nothing more. *)
Lemma traced_hung evs e s s' :
  traced evs s -> flights s' = flights s -> revalidations s' = revalidations s -> fetched s' = fetched s ->
  hung s' = true -> traced (evs ++ [e]) s'.
Proof.
  intros [Hf Hv Hb _] Ef Ev Eb Hh. constructor; rewrite ?Ef, ?Ev, ?Eb.
  - intros fl H. by apply asked_app, Hf.
  - intros rv H. by apply asked_app, Hv.
  - intros q body raw t [? ?]%Hb. split; [by apply asked_app|by apply came_app].
  - intros t r q. by rewrite Hh.
Qed.

Lemma answer_waits r q now out s r' q' :
  (r', q') = (r, q) \/ answered_or_waiting s r' q' -> answered_or_waiting (answer r q now out s) r' q'.
Proof.
  intros [[= -> ->]|[(t & o & H)|H]]; [left; exists now, out|left; exists t, o|by right];
    cbn [answer results]; set_solver.
Qed.
Lemma cold_waits r q s r' q' :
  (r', q') = (r, q) \/ answered_or_waiting s r' q' -> answered_or_waiting (cold r q s) r' q'.
Proof.
  intros [[= -> ->]|[(t & o & H)|(w & Hw & E)]]; unfold cold; case_match.
  1, 2: right; eexists; cbn [waiting]; split; [apply elem_of_app; right; by apply list_elem_of_singleton|done].
  1, 2: by left; exists t, o.
  all: right; exists w; cbn [waiting]; split; [apply elem_of_app; by left|done].
Qed.

Lemma answer_traced evs r q now out s s1 :
  traced evs s -> hung s = false -> flights s1 = flights s -> fetched s1 = fetched s -> results s1 = results s ->
  waiting s1 = waiting s ->
  (forall rv, rv ∈ revalidations s1 -> rv ∈ revalidations s \/ rv_query rv = q) ->
  traced (evs ++ [(now, Request r q)]) (answer r q now out s1).
Proof.
  intros Ht Hh Ef Eb Er Ew Hv. apply (traced_step evs _ s); cbn [answer flights revalidations fetched];
    rewrite ?Ef, ?Eb; auto.
  - intros rv [?| <-]%Hv; [by left|]. right. exists now, r. set_solver.
  - intros r' q' H. apply answer_waits. right. unfold answered_or_waiting. by rewrite Er, Ew.
  - intros t r' q' [= _ <- <-]. apply answer_waits. by left.
Qed.

Lemma getCached_traced evs r q now s :
  cache_ok s -> hung s = false -> traced evs s ->
  traced (evs ++ [(now, Request r q)]) (getCached cfg r q now s).
Proof.
  intros Hok Hh Ht. assert (asked (evs ++ [(now, Request r q)]) q) as Hq by (exists now, r; set_solver).
  assert (traced (evs ++ [(now, Request r q)]) (cold r q s)) as Hcold.
  { apply (traced_step _ _ s); try done.
    - unfold cold. case_match; cbn [flights]; [by auto|]. set_solver.
    - unfold cold. case_match; by auto.
    - unfold cold. case_match; by auto.
    - intros. apply cold_waits. by right.
    - intros t r' q' [= _ <- <-]. apply cold_waits. by left. }
  unfold getCached. destruct (map_get _ _ _) as [i|]; [|done].
  destruct (entries s !! i) as [e|]; [|done].
  destruct (_ <? _); [|destruct (_ <? _); [|done]]; apply (answer_traced evs r q now _ s); try done; try by left.
  1-4: by unfold revalidate; case_match.
  intros rv. unfold revalidate. case_match; [by auto|].
  intros [?| ->%list_elem_of_singleton]%elem_of_app; by auto.
Qed.

Lemma insert_elem {A} (l : list A) i x y : x ∈ <[i := y]> l -> x = y \/ x ∈ l.
Proof.
  intros [j H]%list_elem_of_lookup. apply list_lookup_insert_Some in H as [(? & <- & ?)|[_ ?]]; [by left|].
  right. by eapply list_elem_of_lookup_2.
Qed.

Lemma stored_fetched q up now s x :
  x ∈ fetched (stored q up now s) ->
  x ∈ fetched s \/ exists body raw, up = UpOk body raw /\ x = (q, body, raw, now).
Proof.
  destruct up as [body raw|]; [|by left]. cbn [stored]. unfold store. case_match; [cbn [fetched]|by left].
  intros [?| ->%list_elem_of_singleton]%elem_of_app; [by left|]. right. by exists body, raw.
Qed.
Lemma settled_traced evs f up now s :
  hung s = false -> traced evs s -> traced (evs ++ [(now, FlightSettles f up)]) (flight_settles cfg f up now s).
Proof.
  intros Hh Ht. destruct (flights s !! f) as [[q []]|] eqn:Hf;
    [|rewrite (flight_settles_eq _ _ _ _ q) by done|];
    try (unfold flight_settles; rewrite Hf; apply (traced_step _ _ s); by auto).
  destruct (hung (stored q up now (landed f q s))); [by eapply traced_hung|].
  destruct (stored_same q up now (landed f q s)) as (_ & Ef & Ev & Ew & Er).
  assert (Flight q false ∈ flights s) as Hq by (by eapply list_elem_of_lookup_2).
  apply (traced_step _ _ s); [done|..]; cbn [add_results flights revalidations fetched]; rewrite ?Ef, ?Ev;
    cbn [landed flights revalidations]; auto; try done.
  - intros fl [->|?]%insert_elem; [|by left]. right. by apply asked_app, (tr_flight _ _ Ht (Flight q false)).
  - intros q' body raw t [?|(b & w & -> & [= -> -> -> ->])]%stored_fetched; [by left|]. right.
    split; [by apply (tr_flight _ _ Ht (Flight q false))|]. exists (FlightSettles f (UpOk b w)). set_solver.
  - intros r q' [(t & o & H)|(w & Hw & Hr & Hwq)].
    + left. exists t, o. cbn [add_results results]. rewrite Er. cbn [landed results]. set_solver.
    + destruct (waits_for f w) eqn:E.
      * left. exists now, (outcome_for w now up). cbn [add_results results]. apply elem_of_app. right.
        unfold answered. apply list_elem_of_fmap. exists w. rewrite Hr, Hwq. split; [done|].
        by apply elem_of_filter_bool.
      * right. exists w. cbn [add_results waiting]. rewrite Ew. cbn [landed waiting].
        split; [|done]. apply elem_of_filter_bool. by rewrite E.
Qed.

Lemma revalidation_settled_traced evs v up now s :
  hung s = false -> traced evs s -> traced (evs ++ [(now, RevalidationSettles v up)]) (revalidation_settles cfg v up now s).
Proof.
  intros Hh Ht. destruct (revalidations s !! v) as [[q i []]|] eqn:Hv;
    [|rewrite (revalidation_settles_eq _ _ _ _ q i) by done|];
    try (unfold revalidation_settles; rewrite Hv; apply (traced_step _ _ s); by auto).
  destruct (hung (stored q up now s)); [by eapply traced_hung|].
  destruct (stored_same q up now s) as (_ & Ef & Ev & Ew & Er).
  assert (Revalidation q i false ∈ revalidations s) as Hq by (by eapply list_elem_of_lookup_2).
  apply (traced_step _ _ s); [done|..]; cbn [revalidated flights revalidations fetched]; rewrite ?Ef, ?Ev; auto; try done.
  - intros rv [->|?]%insert_elem; [|by left]. right.
    by apply asked_app, (tr_revalidation _ _ Ht (Revalidation q i false)).
  - intros q' body raw t [?|(b & w & -> & [= -> -> -> ->])]%stored_fetched; [by left|]. right.
    split; [by apply (tr_revalidation _ _ Ht (Revalidation q i false))|].
    exists (RevalidationSettles v (UpOk b w)). set_solver.
  - intros r q'. unfold answered_or_waiting. cbn [revalidated results waiting]. by rewrite Er, Ew.
Qed.

Lemma cache_run_app evs e : cache_run cfg (evs ++ [e]) = cache_step cfg (cache_run cfg evs) e.
Proof. unfold cache_run. by rewrite foldl_app. Qed.
Lemma run_traced evs : traced evs (cache_run cfg evs).
Proof.
  induction evs as [|[now e] evs IH] using rev_ind.
  - split; cbn; set_solver.
  - rewrite cache_run_app. unfold cache_step. destruct (hung (cache_run cfg evs)) eqn:Hh; [by eapply traced_hung|].
    destruct e as [r q|f up|v up]; [by apply getCached_traced; [apply run_ok|..]|by apply settled_traced|
      by apply revalidation_settled_traced].
Qed.

(** The process leaves every [cacheSet], so it never hangs, unless the bound is
    negative. *)
Lemma cache_step_hung s e : 0 <= MAX_ENTRIES cfg -> hung s = false -> hung (cache_step cfg s e) = false.
Proof.
  intros Hm Hh. unfold cache_step. rewrite Hh. destruct e as [now [r q|f up|v up]].
  - unfold getCached, answer, revalidate, cold. by repeat case_match.
  - destruct (flights s !! f) as [[q []]|] eqn:Hf; [by unfold flight_settles; rewrite Hf| |
      by unfold flight_settles; rewrite Hf].
    rewrite (flight_settles_eq _ _ _ _ q Hf), stored_hung by done. cbn [landed hung]. rewrite Hh.
    cbn [add_results hung]. by rewrite stored_hung.
  - destruct (revalidations s !! v) as [[q i []]|] eqn:Hv; [by unfold revalidation_settles; rewrite Hv| |
      by unfold revalidation_settles; rewrite Hv].
    rewrite (revalidation_settles_eq _ _ _ _ q i Hv), stored_hung, Hh by done.
    cbn [revalidated hung]. by rewrite stored_hung.
Qed.
Lemma run_not_hung evs : 0 <= MAX_ENTRIES cfg -> hung (cache_run cfg evs) = false.
Proof.
  intros Hm. induction evs as [|e evs IH] using rev_ind; [done|]. rewrite cache_run_app. by apply cache_step_hung.
Qed.

(** The end of a flight answers those who wait for it. *)
Lemma settles_answers s w q up now :
  0 <= MAX_ENTRIES cfg -> hung s = false -> w ∈ waiting s -> flights s !! w_flight w = Some (Flight q false) ->
  (w_request w, w_query w, now, outcome_for w now up)
    ∈ results (cache_step cfg s (now, FlightSettles (w_flight w) up)).
Proof.
  intros Hm Hh Hw Hq. unfold cache_step. rewrite Hh, (flight_settles_eq _ _ _ _ q Hq), stored_hung by done.
  cbn [landed hung]. rewrite Hh. cbn [add_results results].
  apply elem_of_app. right. apply list_elem_of_fmap. exists w. split; [done|].
  apply elem_of_filter_bool. split; [done|]. by apply waits_for_true.
Qed.

(** Under a negative bound the first entry to be stored hangs the process. *)
Lemma negative_store q body ct now s : MAX_ENTRIES cfg < 0 -> store cfg q body ct now s = hang s.
Proof.
  intros Hm. unfold store. destruct (cacheSet _ _ _ _) as [m|] eqn:E; [|done].
  assert (0 <= MAX_ENTRIES cfg) by (eapply evict_ends; by exists m). lia.
Qed.
Lemma negative_hangs s f q body ct now :
  MAX_ENTRIES cfg < 0 -> flights s !! f = Some (Flight q false) ->
  hung (cache_step cfg s (now, FlightSettles f (UpOk body ct))) = true.
Proof.
  intros Hm Hq. unfold cache_step. destruct (hung s) eqn:Hh; [done|].
  rewrite (flight_settles_eq _ _ _ _ q Hq). cbn [stored]. by rewrite negative_store.
Qed.
Lemma negative_fetched evs : MAX_ENTRIES cfg < 0 -> fetched (cache_run cfg evs) = [].
Proof.
  intros Hm. induction evs as [|[now e] evs IH] using rev_ind; [done|]. rewrite cache_run_app.
  revert IH. generalize (cache_run cfg evs). intros s IH. unfold cache_step. destruct (hung s); [done|].
  destruct e as [r q|f up|v up].
  - unfold getCached, answer, revalidate, cold. by repeat case_match.
  - unfold flight_settles. destruct (flights s !! f) as [[q []]|]; [done| |done].
    destruct up; [by rewrite negative_store|]. cbn [hung]. by case_match.
  - unfold revalidation_settles. destruct (revalidations s !! v) as [[q i []]|]; [done| |done].
    destruct up; [by rewrite negative_store|]. by case_match.
Qed.

(** ** The properties *)

(** What may be given to a request for [q] at [now]: the body of a fetch that was
    made for a request under the same key, came at time [t], and is as old as the
    mark says. *)
Definition served_right (evs : list (Z * cache_event)) (q : lookup_of) (now : Z) (out : lookup_result) : Prop :=
  forall mark body ct t, out = Found mark body ct t ->
    (exists q' raw, asked evs q' /\ cache_key q' = cache_key q /\ came evs body raw t /\
       (ct = stored_type q' raw \/ ct = stored_type q raw)) /\
    match mark with
    | HIT => now - t < TTL_MS cfg
    | STALE => TTL_MS cfg <= now - t < TTL_MS cfg + SWR_MS cfg
    | MISS | COALESCED => t = now
    end.

(** C16. Whatever requests, fetches and revalidations are interleaved, a request that
    is given content is given a body that an upstream returned for a request under
    its key, at the time it is said to have been fetched; a [HIT] is younger than
    [TTL_MS], a [STALE] answer younger than [TTL_MS + SWR_MS], and a [MISS] or a
    [COALESCED] answer has just been fetched. *)
Theorem serves_what_was_fetched (evs : list (Z * cache_event)) (r : nat) (q : lookup_of) (now : Z)
    (out : lookup_result) :
  (r, q, now, out) ∈ results (cache_run cfg evs) -> served_right evs q now out.
Proof.
  intros H%(co_results _ (ca_content _ (run_ok evs))) mark body ct t ->.
  pose proof (tr_fetched _ _ (run_traced evs)) as Htr. cbn [answer_ok] in H.
  destruct mark; destruct H as [(q' & raw & Hk & [Ha Hb]%Htr & Hct) Ht]; (split; [|done]); exists q', raw; auto.
Qed.

(** C17. In every run: two fetches under way are for different keys; an entry is
    flagged exactly while one revalidation of it is under way; and, unless
    [MAX_ENTRIES] is negative, the process never hangs and a request has been
    answered, or it waits for a fetch under way for its key, whose end, good or bad,
    answers it. Under a negative bound the first success hangs the process. *)
Theorem one_fetch_per_key (evs : list (Z * cache_event)) :
  let s := cache_run cfg evs in
  (forall f1 f2 q1 q2, flights s !! f1 = Some (Flight q1 false) -> flights s !! f2 = Some (Flight q2 false) ->
     cache_key q1 = cache_key q2 -> f1 = f2) /\
  (forall i e, entries s !! i = Some e ->
     revalidating e = true <-> exists v q, revalidations s !! v = Some (Revalidation q i false) /\
       forall v' q', revalidations s !! v' = Some (Revalidation q' i false) -> v' = v) /\
  (0 <= MAX_ENTRIES cfg -> hung s = false /\
   forall t r q, (t, Request r q) ∈ evs ->
     (exists now out, (r, q, now, out) ∈ results s) \/
     (exists f q', flights s !! f = Some (Flight q' false) /\ cache_key q' = cache_key q /\
        forall up now, exists out, (r, q, now, out) ∈ results (cache_run cfg (evs ++ [(now, FlightSettles f up)])))) /\
  (MAX_ENTRIES cfg < 0 -> fetched s = [] /\
   forall f q body ct now, flights s !! f = Some (Flight q false) ->
     hung (cache_run cfg (evs ++ [(now, FlightSettles f (UpOk body ct))])) = true).
Proof.
  intros s. destruct (run_ok evs) as [Hc [_ Hf] [Hg1 Hg2 Hg3]]. fold s in Hc, Hf, Hg1, Hg2, Hg3. split_and!.
  - intros f1 f2 q1 q2 H1 H2 E. assert (map_get String.eqb (inflight s) (cache_key q1) = Some f1) by (apply Hf; eauto).
    assert (map_get String.eqb (inflight s) (cache_key q1) = Some f2) by (apply Hf; eauto). congruence.
  - intros i e He. split.
    + intros Hr. destruct (Hg2 _ _ He Hr) as (v & q & Hv). exists v, q. split; [done|]. intros. by eapply Hg3.
    + intros (v & q & Hv & _). destruct (Hg1 _ _ _ Hv) as (e' & ? & ?). congruence.
  - intros Hm. pose proof (run_not_hung evs Hm) as Hh. fold s in Hh. split; [done|].
    intros t r q [H|(w & Hw & <- & <-)]%(tr_request _ _ (run_traced evs) _ _ _ Hh); [by left|]. right.
    destruct (co_waiting _ Hc w Hw) as (q' & Hq & Hk). exists (w_flight w), q'. do 2 (split; [done|]).
    intros up now. exists (outcome_for w now up). rewrite cache_run_app. fold s.
    by apply (settles_answers s w q').
  - intros Hm. split; [by apply negative_fetched|]. intros f q body ct now Hq. rewrite cache_run_app.
    fold s. by eapply negative_hangs.
Qed.

(** The cache never holds more than [MAX_ENTRIES] entries, nor two under one
    key. *)
Theorem cache_bounded (evs : list (Z * cache_event)) :
  map_size (cache (cache_run cfg evs)) <= Z.max 0 (MAX_ENTRIES cfg) /\ NoDup (cache (cache_run cfg evs)).*1.
Proof. destruct (ca_content _ (run_ok evs)). done. Qed.
End bound.

(** ** Witnesses: the run of [Collision] *)
Lemma serves_what_was_fetched_witness :
  served_right Collision.cfg Collision.evs (Feed "imgur" "abc") 3 (Found HIT Collision.album "application/json" 2).
Proof.
  apply (serves_what_was_fetched Collision.cfg Collision.evs 1). exact album_served_as_feed.
Defined.
Lemma one_fetch_per_key_witness :
  (exists now out, (0%nat, Album "abc", now, out) ∈ results (cache_run Collision.cfg Collision.evs)) \/
  (exists f q', flights (cache_run Collision.cfg Collision.evs) !! f = Some (Flight q' false) /\
     cache_key q' = "imgur/abc").
Proof.
  destruct (one_fetch_per_key Collision.cfg Collision.evs) as (_ & _ & H & _).
  destruct (H ltac:(vm_compute; discriminate)) as [_ Hr].
  destruct (Hr 1 0%nat (Album "abc") ltac:(left)) as [Ha|(f & q' & Hf & Hk & _)].
  - left. exact Ha.
  - right. exists f, q'. split; [exact Hf|exact Hk].
Defined.

(** A negative bound hangs the process at the first success. *)
Definition negative_cfg : commons_config := {|
  TTL_MS := 60000; SWR_MS := 300000; UPSTREAM_BASE := "https://example.com";
  UPSTREAM_PATH_TEMPLATE := "/{id}/{sort}.rss"; COMMENTS_PATH_TEMPLATE := "/comments/{id}?sort={sort}&raw_json=1";
  UPSTREAM_UA := "columbia-commons/1.0"; MAX_ENTRIES := -1; MAX_BODY_BYTES := 100;
  FORWARD_UPSTREAM_AUTH := false; REQUIRE_FDID := ""; FDID_HEADER := "x-azure-fdid" |}.
Example negative_bound_hangs :
  hung (cache_run negative_cfg [(1, Request 0 (Album "abc"));
    (2, FlightSettles 0 (UpOk Collision.album "application/json"))]) = true.
Proof. reflexivity. Qed.
