(* ===== verification/CommonsHandler.v ===== *)
(** * A request's way through the commons ([commons-cache/server.js])

    The request handler from its URL to its response and log line, around the cache
    of [CommonsCache]: which call a lookup makes of which upstream, with whose
    credential ([fetch_call]), how the answer is read ([read_answer]), the probe and
    health replies, and [commons_handle], the handler itself. *)
From S2P Require Import Prelude JsMap JsText JsJson AppAttest StateStore Http Commons CommonsCache CommonsTheorems.
From Stdlib Require Import Ascii.

(** [IMGUR_BASE] and [IMGUR_CLIENT_ID]. *)
Record imgur_config := { IMGUR_BASE : string; IMGUR_CLIENT_ID : string }.

(** ** The call of a lookup *)

(** [fetch(url, { headers, redirect: 'manual' })]. *)
Record upstream_call := UpstreamCall { uc_url : string; uc_headers : list (string * string) }.

Definition encoded (s : string) : string := of_chars (encodeURIComponent s).
Definition imgur_call (cfg : commons_config) (im : imgur_config) (path : string) : upstream_call :=
  UpstreamCall (IMGUR_BASE im +:+ path)
    [("User-Agent", UPSTREAM_UA cfg); ("Accept", "application/json");
     ("Authorization", "Client-ID " +:+ IMGUR_CLIENT_ID im)].

Definition fetch_call (cfg : commons_config) (im : imgur_config) (q : lookup_of) (authHeader : option string) :
    upstream_call :=
  match q with
  | Feed id sort =>
      UpstreamCall (upstreamUrl cfg id sort (UPSTREAM_PATH_TEMPLATE cfg)) (upstreamHeaders cfg authHeader)
  | Thread id sort =>
      UpstreamCall (upstreamUrl cfg id sort (COMMENTS_PATH_TEMPLATE cfg)) (upstreamHeaders cfg authHeader)
  | Album id => imgur_call cfg im ("/3/album/" +:+ encoded id +:+ "/images")
  | Image id => imgur_call cfg im ("/3/image/" +:+ encoded id)
  end.

(** What the answer to the call comes to: [fetchUpstream], [fetchImgurAlbum] or
    [fetchImgurImage]. *)
Definition read_answer (cfg : commons_config) (JSON_parse : buffer -> js_error + json)
    (resolve : string -> option url) (origin : string) (q : lookup_of)
    (fetched : js_error + fetch_response) : upstream :=
  match q with
  | Feed _ _ | Thread _ _ => fetchUpstream cfg resolve origin fetched
  | Album _ => fetchImgurJson cfg JSON_parse album_shape resolve origin fetched
  | Image _ => fetchImgurJson cfg JSON_parse image_shape resolve origin fetched
  end.

(** ** The probe and the health reply *)
Definition probe_call (cfg : commons_config) : upstream_call :=
  UpstreamCall (upstreamUrl cfg "example" "latest" (UPSTREAM_PATH_TEMPLATE cfg)) (upstreamHeaders cfg None).
(** [{ status, bytes, ms }] of the one target. *)
Definition handleProbe (up : upstream) (ms : Z) : json :=
  let '(status, bytes) := match up with UpOk body _ => (200, blen body) | UpFailed status _ _ => (status, 0) end in
  JObj [("commons", JObj [("status", JInt status); ("bytes", JInt bytes); ("ms", JInt ms)])].

(** [JSON.stringify(v, null, 2)], for objects. *)
Definition newline_indent (depth : nat) : string := of_chars ("010"%char :: replicate (2 * depth) " "%char).
Fixpoint stringify_2 (depth : nat) (v : json) : string :=
  match v with
  | JObj ((_ :: _) as o) =>
      "{" +:+ js_join "," (map (fun kv => newline_indent (S depth) +:+ json_string kv.1 +:+ ": "
                                  +:+ stringify_2 (S depth) kv.2) o)
      +:+ newline_indent depth +:+ "}"
  | v => stringify v
  end.
Definition probe_reply (up : upstream) (ms : Z) : commons_response :=
  CommonsResponse 200 [json_type] (utf8_bytes (stringify_2 0
    (JObj [("note", JStr "upstream-surface reachability from this host: status, size, and latency");
           ("results", handleProbe up ms)]))).

(** [ts] is [new Date().toISOString()]. *)
Definition health_reply (ts : string) (uptimeS cacheKeys : Z) : commons_response :=
  json_reply 200 (JObj [("status", JStr "ok"); ("service", JStr "commons-cache"); ("ts", JStr ts);
                        ("uptimeS", JInt uptimeS); ("cacheKeys", JInt cacheKeys)]).

(** ** The handler *)
Record handled := Handled { h_response : commons_response; h_log : option log_fields }.

Section handler.
Context (cfg : commons_config) (sha256 : buffer -> buffer).
(** [process.env.LOG_HEALTH === '1'], the time, the uptime and the cache's size. *)
Context (LOG_HEALTH : bool) (ts : string) (uptimeS cacheKeys : Z).

(** The line at the end of a request: undefined members are not logged. *)
Definition log_line (route method : string) (status : Z) (cacheState : string)
    (failure : option (string * Z * option string)) (durationMs : Z) : log_fields :=
  [("route", JStr route); ("method", JStr method); ("status", JInt status); ("cache", JStr cacheState)]
  ++ match failure with
     | Some (reason, upstreamStatus, target) =>
         [("reason", JStr reason); ("upstreamStatus", JInt upstreamStatus)]
         ++ match target with Some t => [("redirectTarget", JStr t)] | None => [] end
     | None => []
     end
  ++ [("durationMs", JInt durationMs)].

Definition internal_error : commons_response := json_reply 500 (JObj [("error", JStr "internal")]).

(** What a lookup leaves in [cacheState] and the failure variables. *)
Definition lookup_marks (out : lookup_result) : string * option (string * Z * option string) :=
  match out with
  | Found mark _ _ _ => (mark_string mark, None)
  | Unavailable reason status target => ("MISS", Some (reason, status, target))
  end.

(** The body of the [try]: [looked] and [probed] are what the awaited calls came to,
    [now] the time afterwards. *)
Definition commons_respond (r : commons_route) (now : Z) (looked : result exn lookup_result)
    (probed : result exn (upstream * Z)) : commons_response * string * option (string * Z * option string) :=
  match r with
  | Health => (health_reply ts uptimeS cacheKeys, "-", None)
  | Probe =>
      match probed with
      | Ok (up, ms) => (probe_reply up ms, "-", None)
      | Throw _ => (internal_error, "-", None)
      end
  | Lookup q _ =>
      match looked with
      | Ok out => let '(mark, failure) := lookup_marks out in (lookup_reply cfg q now out, mark, failure)
      | Throw _ => (internal_error, "-", None)
      end
  | BadUrl | Locked | BadFeed _ | BadImgur | Unknown => (default internal_error (static_reply r), "-", None)
  end.

(** The response with the line that follows it, none for a good health check. *)
Definition logged (req : http_request) (route : string) (durationMs : Z)
    (x : commons_response * string * option (string * Z * option string)) : handled :=
  let '(response, cacheState, failure) := x in
  Handled response
    (if negb (String.eqb route "/health") || negb (c_status response =? 200) || LOG_HEALTH
     then Some (log_line route (q_method req) (c_status response) cacheState failure durationMs)
     else None).

Definition commons_handle (req : http_request) (parsed : option (string * (string -> option string)))
    (now durationMs : Z) (looked : result exn lookup_result) (probed : result exn (upstream * Z)) : handled :=
  match parsed with
  | None => Handled (CommonsResponse 400 [] []) None
  | Some (route, _) =>
      match commons_dispatch cfg sha256 req parsed with
      | Locked =>
          Handled (CommonsResponse 403 [] [])
            (Some [("route", JStr route); ("status", JInt 403); ("cacheState", JStr "-");
                   ("durationMs", JInt durationMs)])
      | r => logged req route durationMs (commons_respond r now looked probed)
      end
  end.
End handler.

(** ** Where a lookup goes, and with whose credential *)
Lemma encode_plain s : forallb is_unreserved (chars s) = true -> encodeURIComponent s = chars s.
Proof.
  unfold encodeURIComponent. induction (chars s) as [|c l IH]; [done|]. rewrite bind_cons. cbn [forallb].
  intros [Hc Hl]%andb_true_iff. unfold encode_char at 1. rewrite Hc, IH by done. done.
Qed.
Lemma encoded_id id : all_of is_alnum id -> encoded id = id.
Proof.
  intros [_ H]. unfold encoded. rewrite encode_plain.
  - apply chars_inj. by rewrite chars_of_chars.
  - apply forallb_forall. intros c Hc. rewrite forallb_forall in H. unfold is_unreserved. by rewrite (H c Hc).
Qed.

Lemma feed_auth cfg req param comments q a :
  feed_request cfg req param comments = Lookup q (Some a) ->
  FORWARD_UPSTREAM_AUTH cfg = true /\ header req "authorization" = Some a /\ a <> "".
Proof.
  unfold feed_request. cbv zeta. destruct (_ || _); [done|].
  destruct (FORWARD_UPSTREAM_AUTH cfg); [|done]. destruct (header req "authorization") as [v|]; [|done].
  destruct (nonempty v) eqn:E; [|done]. intros [= _ <-]. split_and!; [done|done|by apply nonempty_true].
Qed.
Lemma imgur_auth param q a : imgur_request param = Lookup q a ->
  a = None /\ exists id, q = Album id \/ q = Image id.
Proof. unfold imgur_request. repeat case_match; intros [= <- <-]; eauto. Qed.

Lemma upstreamUrl_base cfg id sort template :
  exists rest, upstreamUrl cfg id sort template = UPSTREAM_BASE cfg +:+ "/" +:+ rest.
Proof.
  unfold upstreamUrl. cbv zeta. destruct (starts_with (chars "/") (upstream_path template id sort)) eqn:E.
  - apply starts_with_app in E. rewrite E. eexists (of_chars _). apply chars_inj.
    rewrite chars_of_chars, !chars_app, chars_of_chars. done.
  - exists (of_chars (upstream_path template id sort)). apply chars_inj.
    rewrite chars_of_chars, !chars_app, chars_of_chars. done.
Qed.

(** C29. Whose credential goes where. A lookup of a feed or a thread calls a URL under
    [UPSTREAM_BASE], and carries an [Authorization] header exactly when forwarding
    is on and the caller sent one that is not empty, and then the caller's; a lookup
    of an album or an image calls the fixed path of that identifier under
    [IMGUR_BASE] with the service's own Client-ID, whatever the caller sent. *)
Theorem credential_goes_upstream_only (cfg : commons_config) (im : imgur_config) (sha256 : buffer -> buffer)
    (req : http_request) (parsed : option (string * (string -> option string))) (q : lookup_of) (auth : option string) :
  commons_dispatch cfg sha256 req parsed = Lookup q auth ->
  let call := fetch_call cfg im q auth in
  match q with
  | Feed _ _ | Thread _ _ =>
      (exists rest, uc_url call = UPSTREAM_BASE cfg +:+ "/" +:+ rest) /\
      (forall v, ("Authorization", v) ∈ uc_headers call <->
         FORWARD_UPSTREAM_AUTH cfg = true /\ header req "authorization" = Some v /\ v <> "")
  | Album id =>
      uc_url call = IMGUR_BASE im +:+ "/3/album/" +:+ id +:+ "/images" /\ all_of is_alnum id /\
      (forall v, ("Authorization", v) ∈ uc_headers call -> v = "Client-ID " +:+ IMGUR_CLIENT_ID im)
  | Image id =>
      uc_url call = IMGUR_BASE im +:+ "/3/image/" +:+ id /\ all_of is_alnum id /\
      (forall v, ("Authorization", v) ∈ uc_headers call -> v = "Client-ID " +:+ IMGUR_CLIENT_ID im)
  end.
Proof.
  intros Hd call. pose proof (dispatch_valid _ _ _ _ _ _ Hd) as Hv.
  assert (match q with
    | Feed _ _ | Thread _ _ => forall v, auth = Some v <->
        FORWARD_UPSTREAM_AUTH cfg = true /\ header req "authorization" = Some v /\ v <> ""
    | _ => True end) as Hauth.
  { unfold commons_dispatch in Hd. destruct parsed as [[route param]|]; [|done].
    repeat (case_match; try done); subst;
      try (apply imgur_auth in Hd as (_ & id' & [?|?]); done);
      intros v; (split; [intros ->; by eapply feed_auth|]); intros (Hf & Hh & Hne);
      unfold feed_request in Hd; cbv zeta in Hd; destruct (_ || _); try done;
      rewrite Hf, Hh in Hd; apply nonempty_true in Hne; rewrite Hne in Hd; by injection Hd as _ <-. }
  assert (forall v, ("Authorization", v) ∈ upstreamHeaders cfg auth <->
    auth = Some v /\ FORWARD_UPSTREAM_AUTH cfg = true /\ v <> "") as Hh.
  { intros v. unfold upstreamHeaders. destruct auth as [a|]; [|set_solver].
    destruct (FORWARD_UPSTREAM_AUTH cfg), (nonempty a) eqn:Ea; simpl;
      try (apply nonempty_true in Ea); try (destruct a; [|done]); set_solver. }
  destruct q as [id sort|id sort|id|id]; subst call; cbn [fetch_call uc_url uc_headers imgur_call].
  - split; [apply upstreamUrl_base|]. intros v. rewrite Hh, (Hauth v). naive_solver.
  - split; [apply upstreamUrl_base|]. intros v. rewrite Hh, (Hauth v). naive_solver.
  - rewrite encoded_id by exact Hv. split_and!; [done|done|]. intros v. set_solver.
  - rewrite encoded_id by exact Hv. split_and!; [done|done|]. intros v. set_solver.
Qed.

(** ** What a caller and the log are told *)
Section told.
Context (cfg : commons_config) (sha256 : buffer -> buffer).
Context (LOG_HEALTH : bool) (ts : string) (uptimeS cacheKeys : Z).
#[local] Abbreviation handle := (commons_handle cfg sha256 LOG_HEALTH ts uptimeS cacheKeys).

Lemma respond_status r now looked probed :
  r <> Locked -> r <> BadUrl ->
  c_status (commons_respond cfg ts uptimeS cacheKeys r now looked probed).1.1 ∈ [200; 400; 404; 500; 502].
Proof.
  intros H1 H2. unfold commons_respond.
  destruct r as [| | | |kind| | |q a]; try done; cbn; try set_solver.
  - destruct probed as [[up ms]|]; cbn; set_solver.
  - destruct looked as [out|]; [|cbn; set_solver]. destruct (lookup_marks out) as [mark failure].
    destruct out; cbn; set_solver.
Qed.

Lemma handle_served req route param now durationMs looked probed :
  commons_dispatch cfg sha256 req (Some (route, param)) <> Locked ->
  handle req (Some (route, param)) now durationMs looked probed =
  logged LOG_HEALTH req route durationMs (commons_respond cfg ts uptimeS cacheKeys
    (commons_dispatch cfg sha256 req (Some (route, param))) now looked probed).
Proof. unfold commons_handle. by destruct (commons_dispatch _ _ _ _). Qed.

(** Every request is answered with one of six statuses and logged once under that
    status, a good health check only when that was asked for, a request whose URL
    does not parse not at all; and how an upstream failed shows in the log alone:
    whatever its status, reason and redirect, the caller gets the same response. *)
Theorem commons_handled (req : http_request) (parsed : option (string * (string -> option string)))
    (now durationMs : Z) (looked : result exn lookup_result) (probed : result exn (upstream * Z)) :
  let h := handle req parsed now durationMs looked probed in
  c_status (h_response h) ∈ [200; 400; 403; 404; 500; 502] /\
  (h_log h = None <->
     parsed = None \/ c_status (h_response h) = 200 /\ (fst <$> parsed) = Some "/health" /\ LOG_HEALTH = false) /\
  (forall line, h_log h = Some line ->
     log_get line "status" = Some (JInt (c_status (h_response h))) /\
     log_get line "route" = JStr <$> (fst <$> parsed)) /\
  (forall reason status target reason' status' target',
     h_response (handle req parsed now durationMs (Ok (Unavailable reason status target)) probed) =
     h_response (handle req parsed now durationMs (Ok (Unavailable reason' status' target')) probed)).
Proof.
  cbv zeta. destruct parsed as [[route param]|].
  2:{ cbn. split_and!; [set_solver|naive_solver|done|done]. }
  set (r := commons_dispatch cfg sha256 req (Some (route, param))).
  assert (r <> BadUrl) as Hb.
  { unfold r, commons_dispatch, feed_request, imgur_request. by repeat case_match. }
  assert (r = Locked \/ r <> Locked) as [E|Hl] by (destruct r; auto).
  { unfold commons_handle. fold r. rewrite E. cbn.
    split_and!; [set_solver|naive_solver|by intros line [= <-]|done]. }
  rewrite handle_served by done. fold r. pose proof (respond_status r now looked probed Hl Hb) as Hs.
  destruct (commons_respond _ _ _ _ r now looked probed) as [[resp mark] failure].
  cbn [fst] in Hs. cbn [logged h_response h_log fmap option_fmap option_map fst].
  split_and!.
  - set_solver.
  - destruct (String.eqb route "/health") eqn:E1, (c_status resp =? 200) eqn:E2, LOG_HEALTH; simpl;
      bool_to_prop; rewrite ?String.eqb_eq, ?String.eqb_neq in E1; naive_solver.
  - intros line. destruct (_ || _); [|done]. intros [= <-]. done.
  - intros. rewrite !handle_served by done. fold r. by destruct r.
Qed.
End told.

(** ** Witnesses: an album, asked for with a credential *)
Module Handling.
Definition im : imgur_config := {| IMGUR_BASE := "https://api.imgur.com"; IMGUR_CLIENT_ID := "id" |}.
Definition req : http_request := HttpRequest "GET" "/v1/imgur?id=a1" [("authorization", "Bearer me")] "10.0.0.1".
Definition parsed : option (string * (string -> option string)) :=
  Some ("/v1/imgur", fun k => if String.eqb k "id" then Some "a1" else None).
End Handling.

Lemma credential_goes_upstream_only_witness :
  uc_url (fetch_call Collision.cfg Handling.im (Album "a1") None) = "https://api.imgur.com/3/album/a1/images".
Proof.
  destruct (credential_goes_upstream_only Collision.cfg Handling.im (fun b => b) Handling.req Handling.parsed
    (Album "a1") None) as (H & _); [reflexivity|]. rewrite H. reflexivity.
Defined.

Lemma commons_handled_witness :
  let h := commons_handle Collision.cfg (fun b => b) false "" 0 0 Handling.req Handling.parsed 5 3
    (Ok (Unavailable "timeout" 0 None)) (Throw (Err "unused")) in
  c_status (h_response h) = 502 /\ is_Some (h_log h).
Proof.
  pose proof (commons_handled Collision.cfg (fun b => b) false "" 0 0 Handling.req Handling.parsed 5 3
    (Ok (Unavailable "timeout" 0 None)) (Throw (Err "unused"))) as (_ & Hl & _).
  cbv zeta. split; [vm_compute; reflexivity|].
  destruct (h_log _); [eauto|]. destruct (proj1 Hl eq_refl) as [H|(_ & H & _)]; discriminate.
Defined.
