(* ===== verification/Edge.v ===== *)
(** * What the three services have in common at their edge

    Each service filters what it logs through its own [safeLogFields], and each
    checks the front-door lock before it does any work. The theorems are over the
    dispatchers of [Issuer], [Relay] and [Commons], and the lock and the rules of
    [Http] they share. *)
From S2P Require Import Prelude JsMap JsText JsJson AppAttest StateStore Http Issuer Relay Commons.
From Stdlib Require Import Ascii.

(** ** Logs *)
Definition issuer_log_schema (MAX_TOKENS : Z) : log_schema :=
  [ ("route", Word ["/health"; "/issuer-keys"; "/issue"; "other"]); ("status", Number 100 (Some 599));
    ("durationMs", Number 0 None); ("reason", Word log_reasons); ("proofMode", Word log_proof_modes);
    ("attestFailure", Word log_failures); ("issued", Number 0 (Some MAX_TOKENS));
    ("count", Number 0 (Some MAX_TOKENS)); ("epoch", Number 0 (Some MAX_SAFE_INTEGER));
    ("event", Word ["listen"]); ("role", Word ["token-issuer"]);
    ("appAttest", Word ["enforced"; "stub-fail-closed"]);
    ("signingKey", Word ["present"; "missing-fail-closed"]) ].
Definition relay_log_schema : log_schema :=
  [ ("route", Word ["/relay"; "/health"; "/ohttp-configs"; "other"]); ("status", Number 100 (Some 599));
    ("durationMs", Number 0 None); ("reused", Flag);
    ("event", Word ["fatal"; "listen"; "uncaught_exception"; "unhandled_rejection"]);
    ("errorType", Word (relay_log_errors ++ ["other"])); ("reason", Word relay_log_reasons);
    ("code", Word (relay_log_codes ++ ["other"])) ].
Definition commons_log_schema : log_schema :=
  [ ("route", Word ["/health"; "/v1/commons"; "/v1/comments"; "/v1/imgur"; "/v1/probe"; "other"]);
    ("method", Word ["GET"; "HEAD"; "POST"; "PUT"; "PATCH"; "DELETE"; "OPTIONS"; "other"]);
    ("status", Number 100 (Some 599)); ("durationMs", Number 0 None);
    ("cache", Word ["HIT"; "STALE"; "MISS"; "COALESCED"; "-"]); ("phase", Word ["revalidate"]);
    ("reason", Word commons_log_reasons); ("upstreamStatus", Number 100 (Some 599));
    ("redirectTarget", Word ["same_origin"; "other_origin_https"; "unsafe_scheme"; "missing"; "invalid"]);
    ("event", Word ["fatal"; "listen"]); ("reason", Word ["upstream_base_invalid"]) ].

Lemma listen_word_ok schema words k f :
  (k, Word words) ∈ schema -> (forall x, f x ∈ words) -> rule_ok schema (listen_word k f).
Proof.
  intros H Hf. exists (Word words). split; [done|]. cbn. intros fields v. case_match; intros [= <-].
  by apply bool_decide_eq_true_2.
Qed.

(** A rule of one of the four common forms, found in its schema. *)
Ltac rule_typed :=
  first [ apply keep_word_ok | apply word_or_other_ok | apply keep_int_ok | apply keep_bool_ok
        | apply keep_duration_ok ]; set_solver.
Ltac listen_typed words := apply (listen_word_ok _ words); [set_solver|intros; repeat case_match; set_solver].

(** C28. Nothing a caller, an upstream or a library says reaches a log: whatever is
    passed to a service's log, what is written has the type of its schema, that is,
    every field is a number in its range, a boolean, or one of the words that the
    service names itself. *)
Theorem logs_typed (MAX_TOKENS : Z) (fields : log_fields) :
  conforms (issuer_log_schema MAX_TOKENS) (Issuer.safeLogFields MAX_TOKENS fields) = true /\
  conforms relay_log_schema (Relay.safeLogFields fields) = true /\
  conforms commons_log_schema (Commons.safeLogFields fields) = true.
Proof.
  split_and!; apply apply_rules_conforms; repeat apply Forall_cons_2; try apply Forall_nil_2; try rule_typed.
  - listen_typed ["listen"].
  - listen_typed ["token-issuer"].
  - listen_typed ["enforced"; "stub-fail-closed"].
  - listen_typed ["present"; "missing-fail-closed"].
Qed.

(** ** The lock *)
Section lock.
Context (sha256 : buffer -> buffer).

Lemma locked_route (secret name : string) (exempt : bool) (req : http_request) :
  secret <> "" -> ~ presents_fdid sha256 secret name req -> exempt = false ->
  nonempty secret && negb exempt && negb (frontDoorAllowed sha256 secret name req) = true.
Proof.
  intros Hs Hp ->. rewrite (proj2 (nonempty_true secret) Hs). simpl. apply negb_true_iff.
  destruct (frontDoorAllowed _ _ _ _) eqn:E; [|done]. by apply frontDoorAllowed_true in E as [?|?].
Qed.
Lemma unlocked_route (secret name : string) (exempt : bool) (req : http_request) :
  presents_fdid sha256 secret name req ->
  nonempty secret && negb exempt && negb (frontDoorAllowed sha256 secret name req) = false.
Proof.
  intros Hp. rewrite (proj2 (frontDoorAllowed_true sha256 secret name req)) by by right.
  by rewrite andb_false_r.
Qed.

Lemma issuer_locked cfg draining req :
  Issuer.REQUIRE_FDID cfg <> "" ->
  ~ presents_fdid sha256 (Issuer.REQUIRE_FDID cfg) (Issuer.FDID_HEADER cfg) req ->
  Issuer.dispatch cfg sha256 draining req ∉ [RouteIssue; RouteBadType].
Proof.
  intros Hs Hp. unfold Issuer.dispatch. destruct draining; [set_solver|].
  destruct (Issuer.fdidExempt req _) eqn:E; [|rewrite locked_route by done; set_solver].
  rewrite andb_false_r. unfold Issuer.fdidExempt in E. apply andb_true_iff in E as [->%String.eqb_eq _].
  repeat case_match; set_solver.
Qed.
Lemma issuer_unlocked cfg draining req :
  presents_fdid sha256 (Issuer.REQUIRE_FDID cfg) (Issuer.FDID_HEADER cfg) req ->
  Issuer.dispatch cfg sha256 draining req <> RouteForbidden.
Proof. intros Hp. unfold Issuer.dispatch. rewrite unlocked_route by done. by repeat case_match. Qed.

Lemma relay_locked cfg draining now req m :
  Relay.REQUIRE_FDID cfg <> "" ->
  ~ presents_fdid sha256 (Relay.REQUIRE_FDID cfg) (Relay.FDID_HEADER cfg) req ->
  exists r, relay_dispatch cfg sha256 draining now req m = (r, m) /\
    r ∈ [ToDraining; ToForbidden; ToHealth; ToNotFound].
Proof.
  intros Hs Hp. unfold relay_dispatch, relay_frontDoorAllowed. destruct draining; [eexists; split; [done|set_solver]|].
  destruct (Relay.fdidExempt req _) eqn:E; [|rewrite locked_route by done; eexists; split; [done|set_solver]].
  rewrite andb_false_r. unfold Relay.fdidExempt in E. apply andb_true_iff in E as [Em Ep].
  destruct (String.eqb (q_url req) "/ohttp-configs") eqn:Eu; [apply String.eqb_eq in Eu; by rewrite Eu in Ep|].
  apply String.eqb_eq in Em. rewrite Em. simpl.
  destruct (String.eqb (q_url req) "/health"); eexists; (split; [done|set_solver]).
Qed.
Lemma relay_unlocked cfg draining now req m :
  presents_fdid sha256 (Relay.REQUIRE_FDID cfg) (Relay.FDID_HEADER cfg) req ->
  fst (relay_dispatch cfg sha256 draining now req m) <> ToForbidden.
Proof.
  intros Hp. unfold relay_dispatch, relay_frontDoorAllowed. rewrite unlocked_route by done.
  destruct (rateLimited _ _ _ _) as [[] m']; by repeat case_match.
Qed.

Lemma commons_locked cfg req parsed :
  Commons.REQUIRE_FDID cfg <> "" ->
  ~ presents_fdid sha256 (Commons.REQUIRE_FDID cfg) (Commons.FDID_HEADER cfg) req ->
  commons_dispatch cfg sha256 req parsed ∈ [BadUrl; Locked; Health].
Proof.
  intros Hs Hp. unfold commons_dispatch, commons_frontDoorAllowed. destruct parsed as [[route param]|]; [|set_solver].
  destruct (Commons.fdidExempt req route) eqn:E; [|rewrite locked_route by done; set_solver].
  rewrite andb_false_r. unfold Commons.fdidExempt in E. apply andb_true_iff in E as [_ ->%String.eqb_eq].
  simpl. set_solver.
Qed.
Lemma commons_unlocked cfg req parsed :
  presents_fdid sha256 (Commons.REQUIRE_FDID cfg) (Commons.FDID_HEADER cfg) req ->
  commons_dispatch cfg sha256 req parsed <> Locked.
Proof.
  intros Hp. unfold commons_dispatch, commons_frontDoorAllowed. destruct parsed as [[route param]|]; [|done].
  rewrite unlocked_route by done. unfold feed_request, imgur_request. by repeat case_match.
Qed.

(** C27. A service that is locked does no work for a request that did not come
    through the front door, that is, whose header holds no token that hashes like
    the secret: the issuer issues nothing, the relay keeps no count, admits no
    client and serves no configuration, and the commons looks nothing up and probes
    nothing; and a request that did is never refused by the lock. *)
Theorem front_door_lock (icfg : issuer_config) (rcfg : relay_config) (ccfg : commons_config)
    (draining : bool) (now : Z) (m : list (string * bucket)) (req : http_request)
    (parsed : option (string * (string -> option string))) :
  Issuer.REQUIRE_FDID icfg <> "" -> Relay.REQUIRE_FDID rcfg <> "" -> Commons.REQUIRE_FDID ccfg <> "" ->
  ((~ presents_fdid sha256 (Issuer.REQUIRE_FDID icfg) (Issuer.FDID_HEADER icfg) req ->
    Issuer.dispatch icfg sha256 draining req ∉ [RouteIssue; RouteBadType]) /\
   (presents_fdid sha256 (Issuer.REQUIRE_FDID icfg) (Issuer.FDID_HEADER icfg) req ->
    Issuer.dispatch icfg sha256 draining req <> RouteForbidden)) /\
  ((~ presents_fdid sha256 (Relay.REQUIRE_FDID rcfg) (Relay.FDID_HEADER rcfg) req ->
    exists r, relay_dispatch rcfg sha256 draining now req m = (r, m) /\
      r ∈ [ToDraining; ToForbidden; ToHealth; ToNotFound]) /\
   (presents_fdid sha256 (Relay.REQUIRE_FDID rcfg) (Relay.FDID_HEADER rcfg) req ->
    fst (relay_dispatch rcfg sha256 draining now req m) <> ToForbidden)) /\
  ((~ presents_fdid sha256 (Commons.REQUIRE_FDID ccfg) (Commons.FDID_HEADER ccfg) req ->
    commons_dispatch ccfg sha256 req parsed ∈ [BadUrl; Locked; Health]) /\
   (presents_fdid sha256 (Commons.REQUIRE_FDID ccfg) (Commons.FDID_HEADER ccfg) req ->
    commons_dispatch ccfg sha256 req parsed <> Locked)).
Proof.
  intros Hi Hr Hc. split_and!; [by apply issuer_locked|by apply issuer_unlocked|by apply relay_locked|
    by apply relay_unlocked|by apply commons_locked|by apply commons_unlocked].
Qed.
End lock.

(** ** Witness *)
Module EdgeSample.
Definition icfg : issuer_config := {|
  EPOCH_SECONDS := 3600; MAX_TOKENS_PER_REQUEST := 30; Issuer.MAX_BODY := 100;
  REQUIRE_CLIENT_DATA_BINDING := true; Issuer.REQUIRE_FDID := "f"; Issuer.FDID_HEADER := "x-azure-fdid" |}.
Definition rcfg : relay_config := {|
  Relay.MAX_BODY := 4; MAX_RESP_BYTES := 4; RATE_LIMIT_RPM := 2; RATE_WINDOW_MS := 10; MAX_INFLIGHT := 2;
  RATE_MAX_KEYS := 2; TRUSTED_CLIENT_IP_HEADER := ""; CLIENT_AUTH_MODE := "token"; CLIENT_SECRET := "";
  CLIENT_AUTH_HEADER := "x-columbia-token"; RELAY_GATEWAY_SECRET := "s"; Relay.REQUIRE_FDID := "f";
  Relay.FDID_HEADER := "x-azure-fdid"; CONFIG_TTL_MS := 100; GATEWAY_HOST := "gateway.example";
  GATEWAY_PORT := 443; GATEWAY_PATH := "/gateway" |}.
Definition ccfg : commons_config := {|
  TTL_MS := 60000; SWR_MS := 300000; UPSTREAM_BASE := "https://example.com";
  UPSTREAM_PATH_TEMPLATE := "/{id}/{sort}.rss"; COMMENTS_PATH_TEMPLATE := "/comments/{id}";
  UPSTREAM_UA := "columbia-commons/1.0"; MAX_ENTRIES := 2; MAX_BODY_BYTES := 100;
  FORWARD_UPSTREAM_AUTH := false; Commons.REQUIRE_FDID := "f"; Commons.FDID_HEADER := "x-azure-fdid" |}.
Definition through : http_request := HttpRequest "POST" "/relay" [("x-azure-fdid", "a, f")] "10.0.0.1".
Lemma presented : presents_fdid (fun b => b) "f" "x-azure-fdid" through.
Proof. exists "a, f", " f". repeat split; [vm_compute; set_solver|discriminate]. Qed.
End EdgeSample.

Lemma front_door_lock_witness :
  fst (relay_dispatch EdgeSample.rcfg (fun b => b) false 0 EdgeSample.through []) <> ToForbidden.
Proof.
  apply (front_door_lock (fun b => b) EdgeSample.icfg EdgeSample.rcfg EdgeSample.ccfg false 0 []
    EdgeSample.through None); [discriminate..|exact EdgeSample.presented].
Defined.
