(* ===== verification/Startup.v ===== *)
(** * Start-up: environment and exit

    What the three [server.js] files do before they serve anybody: read their
    settings from the environment, check them, and choose their stores. A start
    either serves with a configuration, ends the process with a code and a log
    line, or dies of an exception. The three starts are in [RelayStart],
    [IssuerStart] and [CommonsStart]. *)
From S2P Require Import Prelude JsMap JsText JsJson AppAttest Http.

(** [process.env]. *)
Definition environment := string -> option string.

(** [process.env.K || d]: an empty value is as good as none. *)
Definition env_or (e : environment) (k d : string) : string :=
  match e k with Some s => if nonempty s then s else d | None => d end.
(** [parseInt(process.env.K || d, 10)]: [None] is [NaN]. *)
Definition env_int (e : environment) (k d : string) : option Z := parse_int (env_or e k d).

Inductive boot (A : Type) : Type :=
| Serves (process : A)
| Exits (code : Z) (line : log_fields)
| Dies (e : exn).
Arguments Serves {A}. Arguments Exits {A}. Arguments Dies {A}.

Definition fatal (reason : string) : log_fields := [("event", JStr "fatal"); ("reason", JStr reason)].

(** [Number.isSafeInteger(n) && n >= lo], of what a setting was read as. *)
Definition safe_from (lo : Z) (n : option Z) : bool :=
  match n with Some n => isSafe n && (lo <=? n) | None => false end.

Lemma env_or_nonempty e k d : d <> "" -> env_or e k d <> "".
Proof. unfold env_or. intros. repeat case_match; try done. by intros ->. Qed.
Lemma safe_from_true lo n : safe_from lo n = true -> exists z, n = Some z /\ lo <= z <= MAX_SAFE_INTEGER.
Proof.
  unfold safe_from, isSafe. destruct n as [z|]; [|done]. intros H. bool_to_prop. exists z. split; [done|lia].
Qed.

(** An environment by its entries. *)
Definition env_of (l : list (string * string)) : environment := fun k => map_get String.eqb l k.
