(* ===== verification/RelayStart.v ===== *)
(** * Start-up of the relay ([ohttp-relay/server.js])

    The settings, the checks of the gateway's URL, the choice of the redemption
    store, and the last line of a relay that dies. The theorem says what a relay
    that serves has made sure of, and how one that does not has ended. *)
From S2P Require Import Prelude JsMap JsText JsJson AppAttest KeyCache Http Startup.
From S2P Require Import Relay.

(** A parsed URL with what the relay reads of it. *)
Record url := Url {
  u_protocol : string; u_host : string; u_hostname : string; u_port : string; u_pathname : string }.

Inductive redemption_store :=
| MemoryStore (maxKeys : Z)
| AzureStore (connection table : string).

Record process := Process {
  PORT : option Z;
  gw : url;
  (** The settings of [Relay]; [None] when one of the numbers is [NaN]. *)
  settings : option Relay.relay_config;
  GW_TIMEOUT_MS : option Z;
  ISSUER_KEYS_URL : string;
  ISSUER_KEYS_TTL_MS : option Z;
  TOKEN_PSS_SALT_LEN : option Z;
  redemption : redemption_store;
  cfgGw : option url;
}.

Section start.
(** [new URL(s)], and [TableClient.fromConnectionString]. *)
Context (URL_parse : string -> option url).
Context (fromConnectionString : string -> string -> result exn unit).

(** [gw.port || 443]. *)
Definition port_of (u : url) : Z := if nonempty (u_port u) then default 443 (parse_int (u_port u)) else 443.

Definition relay_settings (e : environment) (gw : url) : option Relay.relay_config :=
  maxBody ← env_int e "MAX_BODY_BYTES" "65536";
  maxResp ← env_int e "MAX_RESP_BYTES" "5000000";
  rpm ← env_int e "RATE_LIMIT_RPM" "120";
  window ← env_int e "RATE_WINDOW_MS" "60000";
  maxInflight ← env_int e "MAX_INFLIGHT" "256";
  maxKeys ← env_int e "RATE_MAX_KEYS" "100000";
  configTtl ← env_int e "CONFIG_TTL_MS" "120000";
  Some {|
    Relay.MAX_BODY := maxBody;
    Relay.MAX_RESP_BYTES := maxResp;
    Relay.RATE_LIMIT_RPM := rpm;
    Relay.RATE_WINDOW_MS := window;
    Relay.MAX_INFLIGHT := maxInflight;
    Relay.RATE_MAX_KEYS := maxKeys;
    Relay.TRUSTED_CLIENT_IP_HEADER := js_lower (env_or e "TRUSTED_CLIENT_IP_HEADER" "");
    Relay.CLIENT_AUTH_MODE := js_lower (env_or e "CLIENT_AUTH_MODE" "off");
    Relay.CLIENT_SECRET := env_or e "CLIENT_SECRET" "";
    Relay.CLIENT_AUTH_HEADER := js_lower (env_or e "CLIENT_AUTH_HEADER" "x-columbia-token");
    Relay.RELAY_GATEWAY_SECRET := env_or e "RELAY_GATEWAY_SECRET" "";
    Relay.REQUIRE_FDID := env_or e "REQUIRE_FDID" "";
    Relay.FDID_HEADER := js_lower (env_or e "FDID_HEADER" "x-azure-fdid");
    Relay.CONFIG_TTL_MS := configTtl;
    Relay.GATEWAY_HOST := u_hostname gw;
    Relay.GATEWAY_PORT := port_of gw;
    Relay.GATEWAY_PATH := u_pathname gw
  |}.

(** The guard of [memoryRedemptionStore]. *)
Definition memoryRedemptionStore (maxKeys : option Z) : result exn redemption_store :=
  match maxKeys with
  | Some n => if isSafe n && (1 <=? n) then Ok (MemoryStore n) else Throw (Err "redemption_capacity_invalid")
  | None => Throw (Err "redemption_capacity_invalid")
  end.
Definition choose_store (e : environment) : result exn redemption_store :=
  let connection := env_or e "REDEMPTION_CONNECTION_STRING" "" in
  let table := env_or e "REDEMPTION_TABLE" "columbiaredemptions" in
  if nonempty connection
  then match fromConnectionString connection table with
       | Ok _ => Ok (AzureStore connection table)
       | Throw x => Throw x
       end
  else memoryRedemptionStore (env_int e "REDEMPTION_MAX_KEYS" "5000000").

(** The URL of the key configuration: the gateway's own host unless overridden. *)
Definition GATEWAY_CONFIGS_URL (e : environment) (gw : url) : string :=
  env_or e "GATEWAY_CONFIGS_URL" (u_protocol gw +:+ "//" +:+ u_host gw +:+ "/ohttp-configs").

Definition relay_start (e : environment) : boot process :=
  match URL_parse (default "undefined" (e "GATEWAY_URL")) with
  | None => Exits 1 (fatal "gateway_url_invalid")
  | Some gw =>
      if negb (String.eqb (u_protocol gw) "https:") then Exits 1 (fatal "gateway_not_https")
      else match choose_store e with
      | Throw x => Dies x
      | Ok store =>
          let ttl := env_int e "ISSUER_KEYS_TTL_MS" "300000" in
          if negb (safe_from 1 ttl) then Dies (Err "issuer_cache_configuration")
          else Serves {|
            PORT := env_int e "PORT" "8080";
            gw := gw;
            settings := relay_settings e gw;
            GW_TIMEOUT_MS := env_int e "GW_TIMEOUT_MS" "15000";
            ISSUER_KEYS_URL := env_or e "ISSUER_KEYS_URL" "";
            ISSUER_KEYS_TTL_MS := ttl;
            TOKEN_PSS_SALT_LEN := env_int e "TOKEN_PSS_SALT_LEN" "48";
            redemption := store;
            cfgGw := URL_parse (GATEWAY_CONFIGS_URL e gw)
          |}
      end
  end.

(** C36. A relay that serves forwards over https to the host its environment names, and
    remembers spent tokens in the table it was given, or, without one, in a bounded
    memory; and every way of not serving is one of four: no URL or one that is not
    https, which are logged and end the process with 1, a store that cannot be
    opened or has no capacity, or a key cache without a lifetime. *)
Theorem relay_starts_safely (e : environment) :
  match relay_start e with
  | Serves p =>
      URL_parse (default "undefined" (e "GATEWAY_URL")) = Some (gw p) /\ u_protocol (gw p) = "https:" /\
      (forall cfg, settings p = Some cfg ->
         Relay.GATEWAY_HOST cfg = u_hostname (gw p) /\ Relay.GATEWAY_PATH cfg = u_pathname (gw p)) /\
      match redemption p with
      | MemoryStore n => env_or e "REDEMPTION_CONNECTION_STRING" "" = "" /\ 1 <= n <= MAX_SAFE_INTEGER
      | AzureStore c t => c = env_or e "REDEMPTION_CONNECTION_STRING" "" /\ c <> "" /\ t <> "" /\
          fromConnectionString c t = Ok tt
      end /\
      exists ttl, ISSUER_KEYS_TTL_MS p = Some ttl /\
        KeyCache.config_ok {| kc_url := nonempty (ISSUER_KEYS_URL p); kc_ttlMs := ttl; kc_backoffMs := 5000 |} = true
  | Exits code line =>
      code = 1 /\ Relay.safeLogFields line = line /\
      forall gw, URL_parse (default "undefined" (e "GATEWAY_URL")) = Some gw -> u_protocol gw <> "https:"
  | Dies x =>
      choose_store e = Throw x \/ x = Err "issuer_cache_configuration"
  end.
Proof.
  unfold relay_start. destruct (URL_parse _) as [u|] eqn:Eu; [|split_and!; [done|reflexivity|done]].
  destruct (String.eqb (u_protocol u) "https:") eqn:Ep; cbn [negb].
  2:{ split_and!; [done|reflexivity|]. intros gw [= <-]. by apply String.eqb_neq. }
  apply String.eqb_eq in Ep. destruct (choose_store e) as [store|x] eqn:Es; [|by left].
  destruct (safe_from 1 _) eqn:Et; cbn [negb]; [|by right]. cbn [gw settings redemption ISSUER_KEYS_TTL_MS ISSUER_KEYS_URL].
  split; [done|]. split; [done|]. split; [|split].
  - intros cfg. unfold relay_settings. intros H. repeat (apply bind_Some in H as (? & _ & H)). by injection H as <-.
  - revert Es. unfold choose_store, memoryRedemptionStore.
    destruct (nonempty (env_or e "REDEMPTION_CONNECTION_STRING" "")) eqn:En.
    + apply nonempty_true in En. destruct (fromConnectionString _ _) as [[]|] eqn:Ef; [|done]. intros [= <-].
      split_and!; [done|done|by apply env_or_nonempty|done].
    + destruct (env_int e "REDEMPTION_MAX_KEYS" _) as [n|]; [|done]. destruct (isSafe n && (1 <=? n)) eqn:Eg; [|done]. intros [= <-]. split.
      * destruct (env_or e "REDEMPTION_CONNECTION_STRING" ""); [done|discriminate En].
      * unfold isSafe in Eg. bool_to_prop. lia.
  - apply safe_from_true in Et as (z & -> & Hz). exists z. split; [done|].
    unfold KeyCache.config_ok, isSafe. cbn [kc_ttlMs kc_backoffMs].
    rewrite !andb_true_iff, !negb_true_iff, !Z.leb_le, !Z.ltb_ge. unfold MAX_SAFE_INTEGER in *. lia.
Qed.
End start.

(** ** The last line of a relay that dies *)

(** What is thrown, as the handlers read it: the [code] and [name] of an error, or
    [undefined] of anything else. *)
Record thrown := Thrown { th_code : option json; th_name : option json }.
Definition crash_line (event : string) (t : thrown) : log_fields :=
  ("event", JStr event) ::
  (match th_code t with Some c => [("code", c)] | None => [] end ++
   match th_name t with Some n => [("errorType", n)] | None => [] end).
Definition uncaughtException (t : thrown) : boot process := Exits 1 (crash_line "uncaught_exception" t).
(** A reason that is no [Error] is wrapped in one. *)
Definition unhandledRejection (reason : option thrown) : boot process :=
  Exits 1 (crash_line "unhandled_rejection"
    (match reason with Some t => t | None => Thrown None (Some (JStr "Error")) end)).

(** ** Witness: the least environment *)
Module Boot.
Definition gateway : url :=
  Url "https:" "gw.example:8443" "gw.example" "8443" "/gateway".
Definition parse (s : string) : option url :=
  if String.eqb s "https://gw.example:8443/gateway" then Some gateway
  else if String.eqb s "http://gw.example/" then Some (Url "http:" "gw.example" "gw.example" "" "/")
  else None.
Definition no_table (connection table : string) : result exn unit := Throw (Err "connection string").
Definition relay_env : environment := env_of [("GATEWAY_URL", "https://gw.example:8443/gateway"); ("MAX_INFLIGHT", "64")].

Example relay_serves :
  match relay_start parse no_table relay_env with
  | Serves p => redemption p = MemoryStore 5000000 /\
      match settings p with
      | Some cfg => Relay.MAX_INFLIGHT cfg = 64 /\ Relay.GATEWAY_PORT cfg = 8443 /\ Relay.RATE_LIMIT_RPM cfg = 120 /\
          Relay.CLIENT_AUTH_MODE cfg = "off"
      | None => False
      end
  | _ => False
  end.
Proof. vm_compute. done. Qed.
Example relay_refuses_http :
  relay_start parse no_table (env_of [("GATEWAY_URL", "http://gw.example/")])
  = Exits 1 (fatal "gateway_not_https").
Proof. reflexivity. Qed.
(** A bound that is no number: the relay serves, with a limit no comparison
    exceeds. *)
Example relay_unbounded :
  match relay_start parse no_table
      (env_of [("GATEWAY_URL", "https://gw.example:8443/gateway"); ("MAX_BODY_BYTES", "unlimited")]) with
  | Serves p => settings p = None
  | _ => False
  end.
Proof. vm_compute. done. Qed.
End Boot.

Lemma relay_starts_safely_witness :
  match relay_start Boot.parse Boot.no_table Boot.relay_env with
  | Serves p => u_protocol (gw p) = "https:"
  | _ => False
  end.
Proof.
  pose proof (relay_starts_safely Boot.parse Boot.no_table Boot.relay_env) as H.
  destruct (relay_start Boot.parse Boot.no_table Boot.relay_env) as [p|c l|x] eqn:E.
  - apply H.
  - vm_compute in E. discriminate.
  - vm_compute in E. discriminate.
Defined.
