(* ===== verification/IssuerStart.v ===== *)
(** * Start-up of the issuer ([token-issuer/server.js])

    The settings, the signing keys, the policy on durable state, the choice of the
    backend with its salt, and the line of an issuer that listens. The theorem says
    what an issuer that serves has made sure of. *)
From S2P Require Import Prelude JsMap JsText JsBase64 JsJson AppAttest StateStore EpochKeys Http Startup.
From S2P Require Import Issuer.
Inductive device_backend :=
| MemoryBackend
| AzureBackend (connection table : string) (salt : buffer).

Record process := Process {
  PORT : option Z;
  (** The settings of [Issuer]; [None] when one of the numbers is [NaN]. *)
  settings : option Issuer.issuer_config;
  keys : provider;
  backend : device_backend;
  STATE_SALT : buffer;
  ISSUANCE_QUOTA_PER_EPOCH : Z;
}.

Section start.
Context (JSON_parse : string -> result exn json).
(** [Number(s)] when it is a safe integer, [TableClient.fromConnectionString], and
    [crypto.randomBytes(32)]. *)
Context (Number : string -> option Z).
Context (fromConnectionString : string -> string -> result exn unit) (randomBytes32 : buffer).

Definition issuer_settings (e : environment) : option Issuer.issuer_config :=
  epochSeconds ← env_int e "EPOCH_SECONDS" (js_dec (7 * 24 * 3600));
  maxTokens ← env_int e "MAX_TOKENS_PER_REQUEST" "64";
  maxBody ← env_int e "MAX_BODY_BYTES" "262144";
  Some {|
    Issuer.EPOCH_SECONDS := epochSeconds;
    Issuer.MAX_TOKENS_PER_REQUEST := maxTokens;
    Issuer.MAX_BODY := maxBody;
    Issuer.REQUIRE_CLIENT_DATA_BINDING := negb (bool_decide (e "REQUIRE_CLIENT_DATA_BINDING" = Some "0"));
    Issuer.REQUIRE_FDID := env_or e "REQUIRE_FDID" "";
    Issuer.FDID_HEADER := js_lower (env_or e "FDID_HEADER" "x-azure-fdid")
  |}.

(** [currentEpoch()] when it is a safe integer: not for a length of [NaN] or 0. *)
Definition epoch_at (e : environment) (now : Z) : Z :=
  match env_int e "EPOCH_SECONDS" (js_dec (7 * 24 * 3600)) with
  | Some s => if s =? 0 then -1 else now / (1000 * s)
  | None => -1
  end.

(** The guards of [azureDeviceBackend] and [createIssuerState]. *)
Definition choose_backend (e : environment) : result exn (device_backend * buffer) :=
  let connection := env_or e "ISSUER_STATE_CONNECTION_STRING" "" in
  let table := env_or e "ISSUER_STATE_TABLE" "columbiaissuerstate" in
  if nonempty connection then
    let salt := base64_decode (env_or e "ISSUER_STATE_SALT" "") in
    _ ← fromConnectionString connection table;
    throw_when blen salt <? 32 with Err "issuer_state_salt_required" ;;
    Ok (AzureBackend connection table salt, salt)
  else Ok (MemoryBackend, randomBytes32).
Definition createIssuerState (salt : buffer) (quota : option Z) : result exn Z :=
  match quota with
  | Some q => throw_when (blen salt <? 32) || negb (isSafe q) || (q <? 0) with Err "issuer_state_configuration" ;; Ok q
  | None => Throw (Err "issuer_state_configuration")
  end.

Definition issuer_start (now : Z) (e : environment) : result exn process :=
  provider ← createEpochKeyProvider JSON_parse (env_or e "ISSUER_SIGNING_KEY" "") (e "ISSUER_EPOCH_KEYS_JSON")
               (epoch_at e now);
  let policy := env_or e "REQUIRE_DURABLE_STATE" "0" in
  throw_when negb (bool_decide (policy ∈ ["0"; "1"])) with Err "issuer_durable_state_policy_invalid" ;;
  throw_when String.eqb policy "1" && negb (nonempty (env_or e "ISSUER_STATE_CONNECTION_STRING" ""))
    with Err "issuer_durable_state_required" ;;
  chosen ← choose_backend e;
  let '(backend, salt) := chosen in
  quota ← createIssuerState salt (Number (env_or e "ISSUANCE_QUOTA_PER_EPOCH" "256"));
  Ok {|
    PORT := env_int e "PORT" "8080";
    settings := issuer_settings e;
    keys := provider;
    backend := backend;
    STATE_SALT := salt;
    ISSUANCE_QUOTA_PER_EPOCH := quota
  |}.

(** The line of an issuer that listens. *)
Definition listen_line (APP_ATTEST_READY : bool) (e : environment) : log_fields :=
  [ ("event", JStr "listen"); ("role", JStr "token-issuer");
    ("appAttest", JStr (if APP_ATTEST_READY then "enforced" else "stub-fail-closed"));
    ("signingKey", JStr (if nonempty (env_or e "ISSUER_SIGNING_KEY" "")
                            || bool_decide (is_Some (e "ISSUER_EPOCH_KEYS_JSON"))
                         then "present" else "missing-fail-closed")) ].

Lemma provider_of legacy manifest now p :
  createEpochKeyProvider JSON_parse legacy manifest now = Ok p ->
  match manifest with
  | Some text => exists records, p = Manifest records /\ read_manifest JSON_parse now text = Ok records
  | None => p = Legacy legacy
  end.
Proof.
  unfold createEpochKeyProvider. destruct manifest as [text|]; [|by intros [= <-]].
  intros (records & H & [= <-])%bind_Ok. eauto.
Qed.

(** C35. An issuer that serves keeps its promises about state and keys. Its salt has 32
    bytes or more and its quota is a number that is not negative; told to be
    durable it writes to the table it was given, under the configured salt, never
    to memory; and with a manifest configured it signs with the manifest's keys
    only, all of them for the current or the previous epoch, never with the legacy
    key. *)
Theorem issuer_starts_safely (now : Z) (e : environment) (p : process) :
  blen randomBytes32 = 32 -> issuer_start now e = Ok p ->
  32 <= blen (STATE_SALT p) /\ 0 <= ISSUANCE_QUOTA_PER_EPOCH p <= MAX_SAFE_INTEGER /\
  (e "REQUIRE_DURABLE_STATE" = Some "1" ->
     exists table, backend p =
       AzureBackend (env_or e "ISSUER_STATE_CONNECTION_STRING" "") table (STATE_SALT p) /\
       STATE_SALT p = base64_decode (env_or e "ISSUER_STATE_SALT" "") /\
       env_or e "ISSUER_STATE_CONNECTION_STRING" "" <> "") /\
  (forall text, e "ISSUER_EPOCH_KEYS_JSON" = Some text -> exists records,
     keys p = Manifest records /\ read_manifest JSON_parse (epoch_at e now) text = Ok records).
Proof.
  intros H32 H. unfold issuer_start in H. apply bind_Ok in H as (prov & Hp & H).
  apply throw_if_Ok in H as [Hpol H]. apply throw_if_Ok in H as [Hdur H].
  apply bind_Ok in H as ([b salt] & Hb & H). apply bind_Ok in H as (quota & Hq & [= <-]).
  cbn [STATE_SALT ISSUANCE_QUOTA_PER_EPOCH backend keys].
  unfold createIssuerState in Hq. destruct (Number _) as [q|]; [|done].
  apply throw_if_Ok in Hq as [Hg [= <-]]. apply orb_false_iff in Hg as [[Hs Hn]%orb_false_iff Hq].
  apply Z.ltb_ge in Hs, Hq. apply negb_false_iff in Hn. unfold isSafe in Hn. bool_to_prop.
  split; [done|]. split; [lia|]. split.
  - intros E1. unfold env_or in Hdur at 1. rewrite E1 in Hdur. cbn [nonempty String.eqb] in Hdur.
    change (String.eqb "1" "1") with true in Hdur. cbn [andb] in Hdur. apply negb_false_iff in Hdur.
    unfold choose_backend in Hb. rewrite Hdur in Hb. apply bind_Ok in Hb as (_ & _ & Hb).
    apply throw_if_Ok in Hb as [_ [= <- <-]]. apply nonempty_true in Hdur. eauto.
  - intros text E. apply provider_of in Hp. rewrite E in Hp. destruct Hp as (r & -> & Hr). eauto.
Qed.
End start.

(** ** Witness: a durable issuer *)
Module Boot.
Definition salt_env : environment :=
  env_of [("REQUIRE_DURABLE_STATE", "1"); ("ISSUER_STATE_CONNECTION_STRING", "c");
       ("ISSUER_STATE_SALT", "AAAAAAAAAAAAAAAAAAAAAAAAAAAAAAAAAAAAAAAAAAA=")].
Definition table (connection table : string) : result exn unit := Ok tt.
Definition no_json (s : string) : result exn json := Throw (Err "SyntaxError").
Definition durable : boot process :=
  match issuer_start no_json parse_int table (replicate 32 x00) 0 salt_env with
  | Ok p => Serves p
  | Throw x => Dies x
  end.
Example issuer_needs_state :
  issuer_start no_json parse_int table (replicate 32 x00) 0 (env_of [("REQUIRE_DURABLE_STATE", "1")])
  = Throw (Err "issuer_durable_state_required").
Proof. reflexivity. Qed.
End Boot.

Lemma issuer_starts_safely_witness :
  match Boot.durable with
  | Serves p => 32 <= blen (STATE_SALT p)
  | _ => False
  end.
Proof.
  unfold Boot.durable.
  destruct (issuer_start Boot.no_json parse_int Boot.table (replicate 32 x00) 0 Boot.salt_env) as [p|x] eqn:E.
  - apply (issuer_starts_safely Boot.no_json parse_int Boot.table (replicate 32 x00) 0 Boot.salt_env p);
      [reflexivity|exact E].
  - vm_compute in E. discriminate.
Defined.
