(* ===== verification/CommonsStart.v ===== *)
(** * Start-up of the commons ([commons-cache/server.js])

    The settings and the guard on the upstream's URL. The theorem says which
    upstreams a commons that serves may have. *)
From S2P Require Import Prelude JsMap JsText JsJson AppAttest Http Startup.
From S2P Require Import Commons.
From Stdlib Require Import Ascii.

Record process := Process {
  PORT : option Z;
  (** The settings of [Commons]; [None] when one of the numbers is [NaN]. *)
  settings : option Commons.commons_config;
  UPSTREAM_BASE : string;
  IMGUR_BASE : string;
  IMGUR_CLIENT_ID : string;
}.

(** [s.replace(/\/+$/, '')]. *)
Fixpoint drop_slashes (s : list ascii) : list ascii :=
  match s with
  | c :: s' => if Ascii.eqb c "/" then drop_slashes s' else s
  | [] => []
  end.
Definition strip_slashes (s : string) : string := of_chars (reverse (drop_slashes (reverse (chars s)))).
(** [/^(1|true|yes|on)$/i]. *)
Definition truthy_word (s : string) : bool := bool_decide (js_lower s ∈ ["1"; "true"; "yes"; "on"]).

Definition upstream_base (e : environment) : string := strip_slashes (env_or e "UPSTREAM_BASE" "https://example.com").
Definition commons_settings (e : environment) : option Commons.commons_config :=
  ttl ← env_int e "COMMONS_TTL_MS" "60000";
  swr ← env_int e "COMMONS_SWR_MS" "300000";
  maxEntries ← env_int e "COMMONS_MAX_ENTRIES" "5000";
  maxBody ← env_int e "COMMONS_MAX_BODY_BYTES" "5000000";
  Some {|
    Commons.TTL_MS := ttl;
    Commons.SWR_MS := swr;
    Commons.UPSTREAM_BASE := upstream_base e;
    Commons.UPSTREAM_PATH_TEMPLATE := env_or e "UPSTREAM_PATH_TEMPLATE" "/{id}/{sort}.rss";
    Commons.COMMENTS_PATH_TEMPLATE := env_or e "COMMENTS_PATH_TEMPLATE" "/comments/{id}?sort={sort}&raw_json=1";
    Commons.UPSTREAM_UA := env_or e "UPSTREAM_UA" "columbia-commons/1.0 (+https://example.com)";
    Commons.MAX_ENTRIES := maxEntries;
    Commons.MAX_BODY_BYTES := maxBody;
    Commons.FORWARD_UPSTREAM_AUTH := truthy_word (env_or e "FORWARD_UPSTREAM_AUTH" "");
    Commons.REQUIRE_FDID := env_or e "REQUIRE_FDID" "";
    Commons.FDID_HEADER := js_lower (env_or e "FDID_HEADER" "x-azure-fdid")
  |}.

(** [validateUpstreamBase], then [listen]. *)
Definition commons_start (URL_parse : string -> option Commons.url) (e : environment) : boot process :=
  if Commons.base_refused (URL_parse (upstream_base e)) then Exits 1 (fatal "upstream_base_invalid")
  else Serves {|
    PORT := env_int e "PORT" "8080";
    settings := commons_settings e;
    UPSTREAM_BASE := upstream_base e;
    IMGUR_BASE := strip_slashes (env_or e "IMGUR_BASE" "https://api.imgur.com");
    IMGUR_CLIENT_ID := env_or e "IMGUR_CLIENT_ID" "546c25a59c58ad7"
  |}.

Lemma drop_slashes_head l : head (drop_slashes l) <> Some "/"%char.
Proof. induction l as [|c l IH]; [done|]. simpl. destruct (Ascii.eqb c "/") eqn:E; [done|]. intros [= ->]. done. Qed.

(** No URL of a base ends in a slash: what follows it in an upstream URL begins
    with the only one. *)
Lemma strip_slashes_last s : last (chars (strip_slashes s)) <> Some "/"%char.
Proof. unfold strip_slashes. rewrite chars_of_chars, last_reverse. apply drop_slashes_head. Qed.

Lemma prefix_app p s : String.prefix p s = true -> exists t, s = p +:+ t.
Proof.
  revert s. induction p as [|c p IH]; intros s H; [by exists s|]. destruct s as [|d s]; [done|].
  simpl in H. destruct (ascii_dec c d) as [->|]; [|done]. destruct (IH s H) as [t ->]. by exists t.
Qed.

(** The pattern is the private range 172.16.0.0/12. *)
Lemma in_172_16_prefix n host :
  16 <= n <= 31 -> String.prefix ("172." +:+ js_dec n +:+ ".") host = true -> Commons.in_172_16 host = true.
Proof.
  intros Hn (t & ->)%prefix_app.
  assert (n ∈ [16; 17; 18; 19; 20; 21; 22; 23; 24; 25; 26; 27; 28; 29; 30; 31]) as Hin by set_solver by lia.
  clear Hn. repeat (apply elem_of_cons in Hin as [->|Hin]; [reflexivity|]). by apply elem_of_nil in Hin.
Qed.

(** A commons that serves fetches over https from a host that is not one of the
    private ones the guard knows, named in lower case or not; otherwise the process
    logs why and ends with 1. *)
Theorem commons_starts_public (URL_parse : string -> option Commons.url) (e : environment) :
  match commons_start URL_parse e with
  | Serves p =>
      (exists u, URL_parse (UPSTREAM_BASE p) = Some u /\ Commons.url_protocol u = "https:" /\
         let host := js_lower (Commons.url_hostname u) in
         host <> "localhost" /\ host <> "::1" /\
         (forall prefix, prefix ∈ ["127."; "10."; "192.168."; "169.254."] -> String.prefix prefix host = false) /\
         (forall n, 16 <= n <= 31 -> String.prefix ("172." +:+ js_dec n +:+ ".") host = false)) /\
      (forall cfg, settings p = Some cfg -> Commons.UPSTREAM_BASE cfg = UPSTREAM_BASE p) /\
      last (chars (UPSTREAM_BASE p)) <> Some "/"%char
  | Exits code line => code = 1 /\ Commons.safeLogFields line = line
  | Dies _ => False
  end.
Proof.
  unfold commons_start. destruct (Commons.base_refused _) eqn:Er; [split; reflexivity|].
  cbn [UPSTREAM_BASE settings]. split; [|split].
  - unfold Commons.base_refused in Er. destruct (URL_parse (upstream_base e)) as [u|]; [|done].
    exists u. split; [done|]. cbv zeta in Er |- *. set (host := js_lower (Commons.url_hostname u)) in *.
    rewrite !orb_false_iff, negb_false_iff in Er.
    destruct Er as [[[[[[[Hp H1] H2] H3] H4] H5] H6] H7]. apply String.eqb_eq in Hp. apply String.eqb_neq in H1, H3.
    split_and!; [done..| |].
    + intros prefix Hin. repeat (apply elem_of_cons in Hin as [->|Hin]; [done|]). by apply elem_of_nil in Hin.
    + intros n Hn. apply not_true_iff_false. intros E%in_172_16_prefix; [congruence|done].
  - intros cfg H. unfold commons_settings in H. repeat (apply bind_Some in H as (? & _ & H)). by injection H as <-.
  - apply strip_slashes_last.
Qed.

(** ** Witness: the empty environment *)
Definition example_base : Commons.url := Commons.Url "https:" "example.com" "https://example.com".

Lemma commons_starts_public_witness :
  match commons_start (fun _ => Some example_base) (env_of []) with
  | Serves p => last (chars (UPSTREAM_BASE p)) <> Some "/"%char
  | _ => False
  end.
Proof.
  pose proof (commons_starts_public (fun _ => Some example_base) (env_of [])) as H.
  destruct (commons_start (fun _ => Some example_base) (env_of [])) as [p|c l|x] eqn:E.
  - apply H.
  - vm_compute in E. discriminate.
  - vm_compute in E. discriminate.
Defined.
